(* ===== verification/_CoqProject ===== *)
-Q . S2P
Prelude.v
PyStr.v
Rows.v
Regex.v
PyDict.v
PyFloat.v
PyFormat.v
RcScan.v
RcTags.v
InstrumentRc.v
InstrumentCopies.v
PatchMarkers.v
RcReasons.v
AllocationSites.v
Report.v
ReportRc.v
ReportCopies.v
ReportAllocations.v
ReportProfile.v
ReportTiming.v
Schedules.v
Threads.v
BenchRun.v
Loops.v
Fanout.v
Fannkuch.v
Sequences.v
Recursion.v
NumericLoop.v
Collections.v
StringOps.v
FloatArith.v
NBody.v
SpectralNorm.v
Mandelbrot.v
Expected.v
Pipeline.v
Attribution.v
TagTable.v
AllocationChain.v
