(* ===== verification/Prelude.v ===== *)
(** * The attribution tools and the Python benchmarks of Blorp, verified

    ** The program

    Blorp is a compiler written in its own language that emits C.  Its Python code measures
    that compiler.  [blorp/scripts/attribution/run] (a shell script) builds variants of the
    compiler and runs them; the Python tools rewrite sources before a build and read profiles
    after a run:

    - [patch_emit_markers.py] edits a copy of the emitter ([emit.brp]) so that the C it emits
      carries [/*RC:reason*/] comments: why an owner is retained, which acquisition a release
      belongs to.
    - [instrument_rc.py] rewrites the emitted C: it reads those comments, numbers their
      categories, and puts a tag and a counter at every reference-count operation.
    - [instrument_copies.py] rewrites the emitted C so that every List and String update
      counts its copies per call site.
    - [scripts/allocation-sites] turns recorded allocation stacks into tables by function and
      runtime helper, asking [atos] or [addr2line] for the names.
    - [report.py] reads what the instrumented programs and the other tools wrote and prints
      one section per stage: copies, rc, allocations, profile, timing.

    [benchmarks/bench_run.py] runs one benchmark process several times, checks its output and
    reports the best time.  The programs it runs are under [benchmarks/python], and all of them
    are modelled: the concurrent ones [channel_pipeline.py], [threaded_cpu_map.py] and
    [sleep_fanout.py] (threads over bounded queues, a thread pool, a thread per task), and the
    sequential ones [fannkuch.py], [knucleotide.py], [reverse_complement.py], [fib.py],
    [binary_trees.py], [numeric_loop.py], [array_sum.py], [array_ops.py], [dict_ops.py],
    [list_ops.py], [set_ops.py], [string.py], [nbody.py], [spectral_norm.py] and [mandelbrot.py].

    The tools meet only in files and texts.  The contracts at those places are proved:
    patch_emit_markers to instrument_rc (the markers are read back:
    [RcReasons.emitted_regions]), instrument_rc and the instrumented program to report
    ([Pipeline.read_rc_roundtrip], [Pipeline.acquisition_group]), allocation-sites to report
    ([ReportAllocations.allocations_read_back]), instrument_copies to report
    ([ReportCopies.copies_counted_once]), the benchmark programs to bench_run
    ([Expected.programs_accepted]).  The chain from the emitter's operations over both rewriting
    tools and the category file to the tables of the report is one theorem,
    [Attribution.operation_attributed], and so is the chain from the recorded allocation stacks
    over allocation-sites to the report, [AllocationChain.allocations_end_to_end].

    ** The files

    Shared: [Prelude] (texts, exceptions as values, loops that may raise, slices, sums),
    [PyStr] (the [str] methods and [int]), [Rows] (the interface between a writer and a
    reader of lines, class [LineReader]), [Regex] ([re]: one backtracking matcher, the list of
    all its outcomes, and the relation they enumerate), [PyDict] (insertion-ordered
    dictionaries, counting, and stable [sorted]), [PyFloat] (binary64, [float(s)], ["%.1f"]),
    [PyFormat] (padding, separators, hexadecimal), [Loops] ([while] loops with exceptions, lists
    by index, rounds that add a number), [Schedules] (schedules of threads, and the interface
    [Terminating] of a program all of whose schedules end, which [Threads.Channel] and [Fanout]
    implement).

    - [RcScan]: instrument_rc.py, [functions], [match_end], [count_atomics], [check_only_calls].
    - [RcTags]: instrument_rc.py, [Categories.number], [region_tags], [tag_calls],
      [rewrite_tagged]: the rewriting of one body in each of its cases.
    - [InstrumentRc]: instrument_rc.py, [rewrite], the C prelude, [main].
    - [InstrumentCopies]: instrument_copies.py, whole.
    - [PatchMarkers]: patch_emit_markers.py, [EDITS] and [main].
    - [RcReasons]: the Blorp functions of patch_emit_markers.py ([REASON_FUNCTIONS] and the
      marker texts of [EDITS]), over the emitter's operation list as data.
    - [AllocationSites]: scripts/allocation-sites, whole.
    - [Report]: report.py, what the stages share; [ReportCopies], [ReportRc],
      [ReportAllocations], [ReportProfile], [ReportTiming]: one stage each, the last with [main].
    - [Threads]: Module [Channel] is channel_pipeline.py, Module [Pool] threaded_cpu_map.py.
    - [Fanout]: sleep_fanout.py.
    - [BenchRun]: bench_run.py, whole.
    - [Fannkuch]: fannkuch.py; [Sequences]: Module [Knucleotide] is knucleotide.py, Module
      [ReverseComplement] reverse_complement.py.
    - [Recursion]: Module [Fib] is fib.py, Module [BinaryTrees] binary_trees.py.
    - [Collections]: Modules [ArraySum], [ArrayOps], [DictOps], [ListOps], [SetOps], one program each.
    - [NumericLoop]: numeric_loop.py; [StringOps]: string.py.
    - [FloatArith]: the floats of a program as an interface (classes [FloatArith], [FloatLaws])
      with two implementations, binary64 numbers and the floats of the processor; [NBody]:
      nbody.py over that interface; [SpectralNorm], [Mandelbrot]: the programs of those names.
    - [Expected]: the programs whose output bench_run.py checks, against its table.
    - [Pipeline]: the composition of instrument_rc.py, the marker compiler and report.py.
    - [Attribution]: [main] of instrument_rc.py with [--tagged] and its category file, and the
      composition of everything from the emitter's operation list to the report.
    - [TagTable]: the tags that the rewritten program can set, against the counter table.
    - [AllocationChain]: the composition of a run of allocation-sites and the stage [allocations].

    A definition has the name of the Python function it translates; a loop body that is a
    function of the loop's state is a definition of its own ([scan_token], [region_step],
    [add_row]), and the loop is [foldM] or a Fixpoint over it.

    ** Conventions

    A [str] is the list of its code points 0..255 ([list ascii]): the sources and the profiles
    are ASCII, and the character classes of Python are written out for that range.  Integers
    are [Z]; list lengths and positions are [nat] where the code can only have non-negative
    ones.  The 32-bit tag of the C code is bounded by theorem
    ([TagTable.tags_fit]).  A function that can
    raise returns [result]; the exception is the one Python raises, with the message of
    [sys.exit].  A file system is a [gmap] from path to text; a program that writes returns the
    new map.  A [dict] is an association list in insertion order where its order or its
    iteration is seen, else a [gmap].  A Python float is a binary64 number of [SpecFloat] with
    every rounding done.  The stateful parts of BenchRun are a state-and-error monad
    ([action]) over the number of processes started and the files and texts written.

    The 63-bit integers, arrays and floats of the kernel serve only to compute ([NumericLoop],
    [FloatArith]): the theorems speak of [Z] and of binary64 numbers, and use the axioms that the
    kernel states of those types.

    Parameters of the model are what the code calls outside the repository: the external
    symbolizer and the benchmark processes ([run_command], [process]), [shutil.which], whether
    [time.sleep] accepts a delay ([Fanout], the theorem covers both answers), the
    texts of operating-system errors ([os_error]), and argparse (report.py and allocation-sites
    use it; its result is the argument of their [main]; the other programs read [sys.argv]
    themselves, and that is modelled).  Where a theorem
    needs the symbolizer to answer, [tool_answers] says so: for each batch one answer of the
    expected number of lines per address; the witnesses run such a tool.

    ** What the theorems show

    - End to end (C1, C2): in the program written by a tagged run, when the body of a user
      function is what the emitter's [append_function] writes (the marked operations and then
      [return]; [RcReasons.function_body]), the calls of every acquisition and drop of its
      operation list set a tag that the report attributes to that function and to exactly the
      category of the operation; from recorded stacks both allocation-sites and the report
      succeed, with or without the generated C that names the functions
      ([AllocationChain.comment_ok] says which names), and the report's tables hold the sums
      over the stacks that belong to each row.
    - Reading C (C3 to C6): the scan finds exactly the top-level blocks, parentheses balance,
      each atomic operation gets one counter when no two are nested ([RcScan.nested_repeats]
      shows what happens otherwise), helpers are only called.
    - Tags and regions (C7 to C12): exactly the calls are tagged and nothing else changes, the
      category table stays distinct and within its bits, a tag gives back its function and its
      category, and all expressions written by the rewriting keep it inside the counter table
      when each user function is written with its parenthesis behind its name
      ([TagTable.spaced_definition_outside] shows a definition that is not), a printed marked
      body is read back to its regions, what the two modes of main write.
    - The other rewriting tools (C13 to C15): the statement splitter, the whole of
      instrument_copies (each pass against the matches of its pattern), the edits of patch_emit_markers with the count check.
    - Reasons (C16): the pairs of acquisitions and releases agree from both sides.
    - Allocation stacks (C17 to C19): conservation of every counter, attribution, batched
      naming.
    - Report (C20 to C26): every outcome of the stage [rc] and when its verdict says yes,
      conservation through each table, the round trips with the writers, the samples of a call
      graph, the whole text of the stage [timing].
    - Threads (C27 to C29): every schedule of the pipeline that ends has the checksum of the
      sequential run and never overfills a queue, no schedule blocks and all have the same
      length; the fan-out of sleeping tasks ends on every schedule with each task's number in
      its own place.
    - bench_run (C30, C31): what a run prints and writes, its failures; all eight Python
      programs whose output it checks print exactly what it accepts.
    - Sequential benchmarks (C32 to C40): numeric_loop ends for every start of the program and
      prints its sum; fannkuch ends, goes through every permutation once and
      prints the maximum over all of them; the tables of knucleotide hold the occurrences; the
      printed complement is read back; the checks of binary_trees have their closed form; the
      text methods of string have the lengths that the occurrences imply; the parallel lists of
      nbody move like one record per body; spectral_norm never divides by zero for a size from 1
      to 2^25 when sums are taken from the left; mandelbrot draws the points that stay within the circle.

    Lemmas that are contracts too, without being in this list: [InstrumentRc.rewrite_categories_ok],
    [AllocationSites.read_report_roundtrip], [AllocationSites.main_succeeds], [RcReasons.emitted_regions],
    [Threads.pool_result], [Pipeline.acquisition_group], [PatchMarkers.patch_needs_tabs] (the anchors are
    written with tabs, the emitter has none) and [BenchRun.microseconds_never_read] (a branch of
    bench_run's pattern that is never taken).

    ** Fuel

    Each fuelled function is closed over a bound that is enough, so that its theorems do not
    speak of fuel:
    - [Regex.scan_fuel] steps over a text of length [n] with [2 * n + 2]: each round consumes a
      character, or finds an empty match, after which the next round must consume;
    - [Regex.run_star] has the length of the remaining text plus one: an iteration that
      consumes nothing is refused;
    - [PyStr.split_on_fuel], [AllocationSites.batches_fuel] and [InstrumentCopies.split_loop]
      have the length of their input, of which each step removes an element;
    - [PyStr.digits_fuel] and [PyFormat.hex_fuel] have the binary length of the number plus one;
    - [Threads.Pool.stride] has the number of items, and [Schedules.fair_schedule] is only used
      to compute concrete schedules.
    The loops of fannkuch.py and reverse_complement.py take their rounds as an argument
    ([Loops.loop]) and give no result when they are used up; the theorems say how many rounds
    are enough (n! and 2^n for fannkuch, more than the length of the longest sequence for
    reverse_complement) and that the run then ends with its result.
    The loop of numeric_loop.py takes its rounds the same way; 525 are enough for every start
    below a million.  That is computed by a table of 63-bit machine integers ([NumericLoop.tabulate])
    that is proved to hold the numbers of steps, each entry found by going down to a smaller one.
    The loops over lines and the recursion over call trees are structural.

    ** Not modelled

    - [attribution/run], [bench.sh] and the other shell scripts: process and file glue in
      another language.
    - The Blorp compiler itself ([.brp] sources): not Python; the tools see only its emitted C,
      and PatchMarkers takes [emit.brp] as any text.
    - The C runtime, and the C, Go, OCaml and Blorp benchmarks: other languages.
    - [sum] of floats differs between Python versions, so spectral_norm.py takes it as an
      argument, with both ways of adding defined; that a run of positive size does not raise is
      proved for adding from the left, as Python did before 3.12, and for the other way only for
      the sizes 1 to 3.
    - Text printed before an exception that ends a benchmark: its outcome is the exception.
    - The recursion limit and the memory of the interpreter (binary_trees.py with a large
      argument), and the failure of [Thread.start].
    - Decoding of files: the texts are what [read_text] returns; a file that is not valid in its
      encoding is not modelled.  Code points above 255 are not modelled.
    - The thread switches inside one operation of [queue.Queue]: each [put] and [get] is one
      step, as the lock of the queue makes it. *)
From stdpp Require Export base list gmap strings sorting.
From Stdlib Require Export Ascii ZArith Lia.


#[global] Arguments Nat.ltb : simpl never.

(** * Text *)

(** A Python [str]: the list of its characters.  A character is one code point
    of the range 0..255; the sources the tools read are C and Blorp text. *)
Abbreviation str := (list ascii).

(** A string literal of the source. *)
Definition lit (s : string) : str := String.list_ascii_of_string s.
Arguments lit _%_string_scope : simpl never.

(** The double quote and the newline, which a literal here cannot spell. *)
Definition dquote : ascii := "034"%char.
Definition newline : ascii := "010"%char.
Definition tab : ascii := "009"%char.

(** A literal in which every backquote stands for a double quote. *)
Definition qlit (s : string) : str :=
  map (λ c, if Ascii.eqb c "`"%char then dquote else c) (lit s).
Arguments qlit _%_string_scope : simpl never.

(** * Python exceptions *)

Inductive exn :=
  | SystemExit (message : str)   (* sys.exit("...") *)
  | ExitStatus (status : Z)      (* raise SystemExit(status) *)
  | IndexError
  | ValueError
  | KeyError
  | TypeError
  | AttributeError
  | ZeroDivisionError
  | OverflowError
  | OSError.

Inductive result (A : Type) :=
  | Ok (a : A)
  | Raise (e : exn).
Arguments Ok {A} _.
Arguments Raise {A} _.

#[export] Instance exn_eq_dec : EqDecision exn.
Proof. solve_decision. Defined.
#[export] Instance result_eq_dec {A} `{EqDecision A} : EqDecision (result A).
Proof. solve_decision. Defined.

#[export] Instance result_ret : MRet result := @Ok.
#[export] Instance result_bind : MBind result :=
  λ A B f m, match m with Ok a => f a | Raise e => Raise e end.
#[export] Instance result_fmap : FMap result :=
  λ A B f m, match m with Ok a => Ok (f a) | Raise e => Raise e end.

(** [d[k]], [l[i]]: the exception of a failed lookup. *)
Definition or_raise {A} (e : exn) (o : option A) : result A :=
  match o with Some a => Ok a | None => Raise e end.

Definition is_ok {A} (r : result A) : bool :=
  match r with Ok _ => true | Raise _ => false end.

(** A [for] loop that threads a state and may raise. *)
Fixpoint foldM {A B} (f : A → B → result A) (a : A) (l : list B) : result A :=
  match l with
  | [] => Ok a
  | b :: l => a' ← f a b; foldM f a' l
  end.

(** A list comprehension whose body may raise. *)
Fixpoint mapR {A B} (f : A → result B) (l : list A) : result (list B) :=
  match l with
  | [] => Ok []
  | a :: l => b ← f a; bs ← mapR f l; Ok (b :: bs)
  end.

Lemma bind_Ok {A B} (f : A → result B) (m : result A) b :
  (m ≫= f) = Ok b ↔ ∃ a, m = Ok a ∧ f a = Ok b.
Proof. destruct m; cbn; naive_solver. Qed.

Lemma fmap_Ok {A B} (f : A → B) (m : result A) b :
  (f <$> m) = Ok b ↔ ∃ a, m = Ok a ∧ f a = b.
Proof. destruct m; cbn; naive_solver. Qed.

Lemma bind_assoc_result {A B C} (m : result A) (f : A → result B) (g : B → result C) :
  ((m ≫= f) ≫= g) = (m ≫= λ a, f a ≫= g).
Proof. by destruct m. Qed.

Lemma or_raise_Ok {A} e (o : option A) a : or_raise e o = Ok a ↔ o = Some a.
Proof. destruct o; cbn; naive_solver. Qed.

Lemma is_ok_Ok {A} (r : result A) : is_ok r = true → ∃ a, r = Ok a.
Proof. destruct r; [eauto|done]. Qed.

(** Take a successful monadic computation apart. *)
Ltac inv_ok :=
  repeat match goal with
  | H : (_ ≫= _) = Ok _ |- _ =>
      apply bind_Ok in H; let x := fresh "x" in let Hx := fresh "Hx" in
      destruct H as (x & Hx & H)
  | H : (_ <$> _) = Ok _ |- _ =>
      apply fmap_Ok in H; let x := fresh "x" in let Hx := fresh "Hx" in
      destruct H as (x & Hx & H)
  | H : or_raise _ _ = Ok _ |- _ => apply or_raise_Ok in H
  | H : Ok _ = Ok _ |- _ => injection H as H
  | H : mret _ = Ok _ |- _ => injection H as H
  | H : Raise _ = Ok _ |- _ => discriminate H
  | H : Ok _ = Raise _ |- _ => discriminate H
  end; simplify_eq.

Lemma foldM_app {A B} (f : A → B → result A) a l k :
  foldM f a (l ++ k) = (foldM f a l ≫= λ a', foldM f a' k).
Proof.
  revert a. induction l as [|b l IH]; intros a; [done|].
  cbn. destruct (f a b); cbn; [apply IH|done].
Qed.

(** The invariant rule of [foldM]. *)
Lemma foldM_inv {A B} (f : A → B → result A) (I : A → Prop) l :
  (∀ a b a', b ∈ l → I a → f a b = Ok a' → I a') →
  ∀ a a', I a → foldM f a l = Ok a' → I a'.
Proof.
  induction l as [|b l IH]; intros Hstep a a' Ha H; cbn in H; inv_ok; [done|].
  eapply IH; [|eapply Hstep; [left|done|done]|done].
  intros ??? Hin. apply Hstep. by right.
Qed.

(** The same with the prefix of the list already processed; [foldM_total] also
    shows that the loop does not raise. *)
Lemma foldM_prefix {A B} (f : A → B → result A) (I : list B → A → Prop) l :
  (∀ pre b suf a a', l = pre ++ b :: suf → I pre a → f a b = Ok a' → I (pre ++ [b]) a') →
  ∀ a a', I [] a → foldM f a l = Ok a' → I l a'.
Proof.
  intros Hstep.
  assert (∀ suf pre a a', l = pre ++ suf → I pre a → foldM f a suf = Ok a' → I l a') as H.
  { induction suf as [|b suf IH]; intros pre a a' Hl Ha Hf; cbn in Hf; inv_ok.
    { by rewrite app_nil_r. }
    eapply (IH (pre ++ [b])); [by rewrite <- (assoc_L (++))| |done].
    eapply Hstep; [reflexivity|done|done]. }
  intros a a'. by apply H.
Qed.

Lemma foldM_total {A B} (f : A → B → result A) (I : list B → A → Prop) l :
  (∀ pre b suf a, l = pre ++ b :: suf → I pre a → ∃ a', f a b = Ok a' ∧ I (pre ++ [b]) a') →
  ∀ a, I [] a → ∃ a', foldM f a l = Ok a' ∧ I l a'.
Proof.
  intros Hstep.
  assert (∀ suf pre a, l = pre ++ suf → I pre a → ∃ a', foldM f a suf = Ok a' ∧ I l a') as H.
  { induction suf as [|b suf IH]; intros pre a Hl Ha; cbn.
    { rewrite app_nil_r in Hl. subst. eauto. }
    destruct (Hstep _ _ _ _ Hl Ha) as (a' & -> & Ha'). cbn.
    eapply (IH (pre ++ [b])); [by rewrite <- (assoc_L (++))|done]. }
  intros a. by apply H.
Qed.

(** A loop that raises does so in one of its steps. *)
Lemma foldM_Raise {A B} (f : A → B → result A) a l e :
  foldM f a l = Raise e → ∃ a' b, b ∈ l ∧ f a' b = Raise e.
Proof.
  revert a. induction l as [|b l IH]; intros a; cbn; [done|].
  destruct (f a b) as [a'|e'] eqn:E; cbn.
  - intros (a2 & b2 & Hin & H)%IH. exists a2, b2. split; [by right|done].
  - intros [= ->]. exists a, b. split; [left|done].
Qed.

Lemma mapR_Forall2 {A B} (f : A → result B) l k :
  mapR f l = Ok k ↔ Forall2 (λ a b, f a = Ok b) l k.
Proof.
  revert k. induction l as [|a l IH]; intros k; cbn.
  - split; [intros [= <-]; constructor|]. by inversion 1.
  - split.
    + intros H. inv_ok. constructor; [done|]. by apply IH.
    + inversion 1 as [|? b ? k' Hb Hk]; subst. rewrite Hb. cbn.
      apply IH in Hk. by rewrite Hk.
Qed.

Lemma length_mapR {A B} (f : A → result B) l k :
  mapR f l = Ok k → length k = length l.
Proof. rewrite mapR_Forall2. intros H. symmetry. by eapply Forall2_length. Qed.

Lemma mapR_ext {A B} (f g : A → result B) l : (∀ a, f a = g a) → mapR f l = mapR g l.
Proof. intros H. induction l as [|a l IH]; [done|]. cbn. by rewrite H, IH. Qed.

(** A comprehension none of whose bodies raises. *)
Lemma mapR_indexed {A B} (f : A → result B) (P : nat → B → Prop) l :
  (∀ i b, l !! i = Some b → ∃ c, f b = Ok c ∧ P i c) →
  ∃ cs, mapR f l = Ok cs ∧ length cs = length l ∧ ∀ i c, cs !! i = Some c → P i c.
Proof.
  revert P. induction l as [|b l IH]; intros P Hf; [by exists []|].
  destruct (Hf 0 b eq_refl) as (c & Hc & HP). destruct (IH (λ i, P (S i))) as (cs & Hcs & Hl & HPs).
  { intros i b' Hb'. by apply (Hf (S i)). }
  exists (c :: cs). cbn [mapR]. rewrite Hc. cbn [mbind result_bind]. rewrite Hcs. cbn [mbind result_bind length].
  split_and!; [done|lia|]. intros [|i] c' Hc'; [by injection Hc' as <-|by apply HPs].
Qed.

(** * Slices *)

(** [s[a:b]] for non-negative bounds: empty when the bounds cross, cut at the end. *)
Definition slice {A} (a b : nat) (s : list A) : list A := take (b - a) (drop a s).

Lemma length_slice {A} a b (s : list A) :
  length (slice a b s) = (b - a) `min` (length s - a).
Proof. unfold slice. by rewrite length_take, length_drop. Qed.

Lemma slice_join {A} a b c (s : list A) :
  a ≤ b → b ≤ c → slice a b s ++ slice b c s = slice a c s.
Proof.
  intros Hab Hbc. unfold slice.
  replace (c - a) with ((b - a) + (c - b)) by lia.
  rewrite <- (take_take_drop (drop a s) (b - a) (c - b)), drop_drop.
  by replace (a + (b - a)) with b by lia.
Qed.

Lemma slice_drop {A} a b (s : list A) :
  a ≤ b → slice a b s ++ drop b s = drop a s.
Proof.
  intros Hab. unfold slice. replace (drop b s) with (drop (b - a) (drop a s)).
  - apply take_drop.
  - rewrite drop_drop. f_equal. lia.
Qed.

Lemma slice_0 {A} b (s : list A) : slice 0 b s = take b s.
Proof. unfold slice. by rewrite drop_0, Nat.sub_0_r. Qed.

Lemma slice_app_mid {A} (p t q : list A) :
  slice (length p) (length p + length t) (p ++ t ++ q) = t.
Proof.
  unfold slice. rewrite drop_app_length.
  replace (length p + length t - length p) with (length t) by lia.
  apply take_app_length.
Qed.

Lemma slice_ge {A} a b (s : list A) : b ≤ a → slice a b s = [].
Proof. intros. unfold slice. by replace (b - a) with 0 by lia. Qed.

Lemma lookup_slice {A} a b i (s : list A) :
  i < b - a → slice a b s !! i = s !! (a + i).
Proof. intros. unfold slice. by rewrite lookup_take_lt, lookup_drop. Qed.

(** * Sums *)

(** [sum(l)] *)
Definition zsum (l : list Z) : Z := foldr Z.add 0%Z l.

Lemma zsum_cons a l : zsum (a :: l) = (a + zsum l)%Z.
Proof. done. Qed.

Lemma zsum_app l k : zsum (l ++ k) = (zsum l + zsum k)%Z.
Proof. unfold zsum. induction l as [|a l IH]; cbn; lia. Qed.

(** A loop that adds a number for each element. *)
Lemma foldl_zsum {A} (f : A → Z) l z : foldl (λ acc a, acc + f a)%Z z l = (z + zsum (map f l))%Z.
Proof.
  revert z. induction l as [|a l IH]; intros z; cbn [foldl map]; [unfold zsum; cbn; lia|].
  rewrite IH, zsum_cons. lia.
Qed.

Lemma foldl_add_zsum l z : foldl Z.add z l = (z + zsum l)%Z.
Proof. rewrite <- (map_id l) at 2. apply (foldl_zsum (λ a, a)). Qed.

Lemma zsum_const {A} c (l : list A) : zsum (map (λ _, c) l) = (Z.of_nat (length l) * c)%Z.
Proof. unfold zsum. induction l as [|a l IH]; cbn [map foldr length]; lia. Qed.

(** [range(start, start + n)] *)
Lemma seqZ_S_r m n : (0 <= n)%Z → seqZ m (n + 1) = seqZ m n ++ [(m + n)%Z].
Proof. intros Hn. rewrite seqZ_app by lia. f_equal. Qed.

Lemma zsum_scaled_seqZ c m n :
  (0 <= n)%Z → (2 * zsum (map (λ i, i * c) (seqZ m n)) = c * n * (2 * m + n - 1))%Z.
Proof.
  intros Hn. pattern n. apply natlike_ind; [by rewrite seqZ_nil; [unfold zsum; cbn; lia|]| |done].
  intros k Hk IH. unfold Z.succ. rewrite seqZ_S_r, map_app, zsum_app by done.
  cbn [map]. rewrite zsum_cons. change (zsum []) with 0%Z. lia.
Qed.

Lemma zsum_seqZ m n : (0 <= n)%Z → (2 * zsum (seqZ m n) = n * (2 * m + n - 1))%Z.
Proof.
  intros Hn. pose proof (zsum_scaled_seqZ 1 m n Hn) as H.
  rewrite (map_ext (λ i, i * 1)%Z (λ i, i)), map_id in H by lia. lia.
Qed.

#[global] Arguments zsum : simpl never.

(** * Automation *)

Create HintDb text discriminated.
Create Rewrite HintDb text_len.
#[export] Hint Rewrite @length_slice @length_app @length_take @length_drop
  @length_rev : text_len.
#[export] Hint Resolve slice_0 slice_ge : text.

(** Lengths of texts and linear arithmetic. *)
Ltac text_lia := autorewrite with text_len in *; cbn in *; lia.
