(* ===== verification/PyStr.v ===== *)
(** The Python string operations the sources use, on texts of code points
    0..255: character classes, searching, splitting, stripping, joining, and
    integers to and from decimal and hexadecimal text. *)
From S2P Require Import Prelude.

(** * Characters *)

Definition code (c : ascii) : nat := nat_of_ascii c.

(** [c.isspace()] and [\s]. *)
Definition is_space (c : ascii) : bool :=
  let n := code c in
  ((9 <=? n) && (n <=? 13)) || ((28 <=? n) && (n <=? 32)) || (n =? 133) || (n =? 160).

(** [\d]: the decimal digits. *)
Definition is_digit (c : ascii) : bool := (48 <=? code c) && (code c <=? 57).

(** [\w]: letters, digits (with the Latin-1 ones) and the underscore. *)
Definition is_word (c : ascii) : bool :=
  let n := code c in
  is_digit c || ((65 <=? n) && (n <=? 90)) || ((97 <=? n) && (n <=? 122)) || (n =? 95)
  || (n =? 170) || (n =? 178) || (n =? 179) || (n =? 181) || (n =? 185) || (n =? 186)
  || ((188 <=? n) && (n <=? 190)) || ((192 <=? n) && (n <=? 214))
  || ((216 <=? n) && (n <=? 246)) || (248 <=? n).

(** The line boundaries of [str.splitlines]. *)
Definition is_line_boundary (c : ascii) : bool :=
  let n := code c in
  ((10 <=? n) && (n <=? 13)) || ((28 <=? n) && (n <=? 30)) || (n =? 133).

(** * Searching *)

Fixpoint startswith (p s : str) : bool :=
  match p, s with
  | [], _ => true
  | a :: p, b :: s => Ascii.eqb a b && startswith p s
  | _ :: _, [] => false
  end.

Definition endswith (p s : str) : bool := startswith (rev p) (rev s).

(** The text before and after the first occurrence of [sep]. *)
Fixpoint split_first (sep s : str) : option (str * str) :=
  if startswith sep s then Some ([], drop (length sep) s)
  else match s with
       | [] => None
       | c :: s' =>
           match split_first sep s' with
           | Some (a, b) => Some (c :: a, b)
           | None => None
           end
       end.

(** [sep in s] *)
Definition contains (sep s : str) : bool := bool_decide (is_Some (split_first sep s)).

(** [s.partition(sep)] without the separator itself. *)
Definition partition_on (sep s : str) : str * str :=
  match split_first sep s with Some p => p | None => (s, []) end.

(** [s.split(sep)] for a non-empty separator; the fuel is the length of the text. *)
Fixpoint split_on_fuel (n : nat) (sep s : str) : list str :=
  match n with
  | O => [s]
  | S n =>
      match split_first sep s with
      | Some (a, b) => a :: split_on_fuel n sep b
      | None => [s]
      end
  end.

Definition split_on (sep s : str) : list str := split_on_fuel (length s) sep s.

(** [s.count(sep)] and [s.replace(old, new, 1)]. *)
Definition count_sub (sep s : str) : nat := length (split_on sep s) - 1.

Definition replace_first (old new s : str) : str :=
  match split_first old s with Some (a, b) => a ++ new ++ b | None => s end.

(** [sep.join(l)] *)
Fixpoint join (sep : str) (l : list str) : str :=
  match l with
  | [] => []
  | [a] => a
  | a :: l => a ++ sep ++ join sep l
  end.

(** [s.split()]: the maximal runs of non-space characters. *)
Fixpoint split_ws_from (word : str) (s : str) : list str :=
  match s with
  | [] => match word with [] => [] | _ => [rev word] end
  | c :: s =>
      if is_space c then
        match word with [] => split_ws_from [] s | _ => rev word :: split_ws_from [] s end
      else split_ws_from (c :: word) s
  end.

Definition split_ws (s : str) : list str := split_ws_from [] s.

(** [s.splitlines()]: lines without their ends; CR LF is one end. *)
Fixpoint splitlines_from (line : str) (s : str) : list str :=
  match s with
  | [] => match line with [] => [] | _ => [rev line] end
  | c :: s =>
      if is_line_boundary c then
        rev line :: match c, s with
                    | "013"%char, "010"%char :: s' => splitlines_from [] s'
                    | _, _ => splitlines_from [] s
                    end
      else splitlines_from (c :: line) s
  end.

Definition splitlines (s : str) : list str := splitlines_from [] s.

(** [s.strip()] and [s.rstrip("/")]. *)
Fixpoint lstrip_by (f : ascii → bool) (s : str) : str :=
  match s with
  | [] => []
  | c :: s' => if f c then lstrip_by f s' else s
  end.

Definition rstrip_by (f : ascii → bool) (s : str) : str := rev (lstrip_by f (rev s)).
Definition strip (s : str) : str := rstrip_by is_space (lstrip_by is_space s).

(** [s * n] *)
Fixpoint repeat_text (s : str) (n : nat) : str :=
  match n with O => [] | S n => s ++ repeat_text s n end.

(** * Order on texts (the order of [sorted]) *)

Fixpoint str_ltb (a b : str) : bool :=
  match a, b with
  | _, [] => false
  | [], _ :: _ => true
  | x :: a, y :: b => (code x <? code y) || ((code x =? code y) && str_ltb a b)
  end.

Definition str_leb (a b : str) : bool := negb (str_ltb b a).

(** * Integers *)

Definition digit_char (d : Z) : ascii := ascii_of_nat (48 + Z.to_nat d).

(** Decimal digits, most significant first; [n] bounds their number. *)
Fixpoint digits_fuel (n : nat) (z : Z) (acc : str) : str :=
  match n with
  | O => acc
  | S n =>
      let acc := digit_char (z mod 10) :: acc in
      if (z <? 10)%Z then acc else digits_fuel n (z / 10) acc
  end.

Definition digits (z : Z) : str := digits_fuel (S (Z.to_nat (Z.log2 z))) z [].

(** [str(z)] and ["%d" % z]. *)
Definition dec (z : Z) : str := if (z <? 0)%Z then "-"%char :: digits (- z) else digits z.
Definition decn (n : nat) : str := dec (Z.of_nat n).

(** The value of a digit of base up to 16. *)
Definition digit_value (c : ascii) : option Z :=
  let n := code c in
  if is_digit c then Some (Z.of_nat (n - 48))
  else if (97 <=? n) && (n <=? 102) then Some (Z.of_nat (n - 87))
  else if (65 <=? n) && (n <=? 70) then Some (Z.of_nat (n - 55))
  else None.

(** [int] of digits: single underscores are allowed between digits.
    [seen] is whether the previous character was a digit. *)
Fixpoint int_digits (base : Z) (seen : bool) (acc : Z) (s : str) : option Z :=
  match s with
  | [] => if seen then Some acc else None
  | c :: s =>
      if Ascii.eqb c "_"%char then
        if seen then int_digits base false acc s else None
      else
        match digit_value c with
        | Some d => if (d <? base)%Z then int_digits base true (base * acc + d) s else None
        | None => None
        end
  end.

(** The prefix [0x] that [int(s, 16)] skips, with one underscore after it. *)
Definition skip_hex_prefix (s : str) : str :=
  match s with
  | "0"%char :: x :: s' =>
      if Ascii.eqb x "x"%char || Ascii.eqb x "X"%char
      then match s' with "_"%char :: s'' => s'' | _ => s' end
      else s
  | _ => s
  end.

(** [int(s)] (base 10) and [int(s, 16)]: surrounding spaces and a sign are allowed. *)
Definition parse_int (base : Z) (s : str) : result Z :=
  let s := strip s in
  let '(sign, s) :=
    match s with
    | "-"%char :: s => ((-1)%Z, s)
    | "+"%char :: s => (1%Z, s)
    | _ => (1%Z, s)
    end in
  let s := if (base =? 16)%Z then skip_hex_prefix s else s in
  match int_digits base false 0 s with
  | Some z => Ok (sign * z)%Z
  | None => Raise ValueError
  end.

Definition int (s : str) : result Z := parse_int 10 s.

(** * Lemmas: searching *)

Lemma startswith_iff p s : startswith p s = true ↔ ∃ t, s = p ++ t.
Proof.
  revert s. induction p as [|a p IH]; intros s; cbn; [naive_solver|].
  destruct s as [|b s]; cbn; [naive_solver|].
  rewrite andb_true_iff, Ascii.eqb_eq, IH. naive_solver.
Qed.

Lemma startswith_refl p t : startswith p (p ++ t) = true.
Proof. apply startswith_iff. eauto. Qed.

Lemma startswith_length p s : startswith p s = true → length p ≤ length s.
Proof. rewrite startswith_iff. intros [t ->]. rewrite length_app. lia. Qed.

(** [split_first] finds the leftmost occurrence. *)
Lemma split_first_Some sep s a b :
  split_first sep s = Some (a, b) → s = a ++ sep ++ b.
Proof.
  revert a b. induction s as [|c s IH]; intros a b; cbn;
    destruct (startswith sep _) eqn:E.
  - intros [= <- <-]. apply startswith_iff in E as [t E].
    destruct sep; [done|discriminate E].
  - done.
  - intros [= <- <-]. apply startswith_iff in E as [t E]. rewrite E at 1.
    by rewrite E, drop_app_length.
  - destruct (split_first sep s) as [[a' b']|]; [|done].
    intros [= <- <-]. cbn. f_equal. by apply IH.
Qed.

Lemma length_split_first sep s a b :
  split_first sep s = Some (a, b) → length s = length a + length sep + length b.
Proof. intros ->%split_first_Some. rewrite !length_app. lia. Qed.


Lemma split_first_leftmost sep s a b p q :
  split_first sep s = Some (a, b) → s = p ++ sep ++ q → length a ≤ length p.
Proof.
  revert a b p. induction s as [|c s IH]; intros a b p; cbn;
    destruct (startswith sep _) eqn:E.
  - intros [= <- <-] _. cbn. lia.
  - done.
  - intros [= <- <-] _. cbn. lia.
  - destruct (split_first sep s) as [[a' b']|] eqn:E'; [|done].
    intros [= <- <-] Hs. destruct p as [|c' p]; cbn in *.
    + rewrite Hs, startswith_refl in E. done.
    + injection Hs as -> Hs. specialize (IH _ _ _ eq_refl Hs). lia.
Qed.

Lemma split_first_None sep s p q : split_first sep s = None → s ≠ p ++ sep ++ q.
Proof.
  revert p. induction s as [|c s IH]; intros p; cbn;
    destruct (startswith sep _) eqn:E; try done.
  - intros _ Hs. destruct p, sep; done.
  - destruct (split_first sep s) as [[a' b']|] eqn:E'; [done|].
    intros _ Hs. destruct p as [|c' p]; cbn in *.
    + by rewrite Hs, startswith_refl in E.
    + injection Hs as -> Hs. by eapply IH.
Qed.

Lemma startswith_app_le p s r :
  length p ≤ length s → startswith p (s ++ r) = startswith p s.
Proof.
  revert s. induction p as [|a p IH]; intros [|b s] H; cbn in *; try done; [lia|].
  by rewrite IH by lia.
Qed.

(** A later text does not change the first occurrence. *)
Lemma split_first_app sep s r a b :
  split_first sep s = Some (a, b) → split_first sep (s ++ r) = Some (a, b ++ r).
Proof.
  revert a b. induction s as [|c s IH]; intros a b H;
    pose proof (length_split_first _ _ _ _ H) as Hlen.
  - destruct sep; [|done]. cbn in *. injection H as <- <-. by destruct r.
  - cbn [app split_first] in *. change (c :: s ++ r) with ((c :: s) ++ r).
    rewrite startswith_app_le by lia. destruct (startswith sep (c :: s)) eqn:E.
    + injection H as <- <-. apply startswith_length in E.
      by rewrite skipn_app, (proj2 (Nat.sub_0_le _ _) E).
    + destruct (split_first sep s) as [[a' b']|]; [|done]. injection H as <- <-.
      by rewrite (IH a' b' eq_refl).
Qed.

Lemma split_first_at sep s a b :
  split_first sep s = Some (a, b) → split_first sep (a ++ sep) = Some (a, []).
Proof.
  intros H. pose proof (split_first_Some _ _ _ _ H) as Hs.
  destruct (split_first sep (a ++ sep)) as [[a' b']|] eqn:E.
  - pose proof (split_first_app _ _ b _ _ E) as E'. rewrite <- (assoc_L (++)), <- Hs, H in E'.
    injection E' as <- Hb. f_equal. f_equal. apply (f_equal length) in Hb.
    rewrite length_app in Hb. destruct b'; [done|cbn in Hb; lia].
  - exfalso. apply (split_first_None sep _ a [] E). by rewrite app_nil_r.
Qed.

Lemma contains_iff sep s : contains sep s = true ↔ ∃ p q, s = p ++ sep ++ q.
Proof.
  unfold contains. rewrite bool_decide_eq_true. split.
  - intros [[a b] H]. exists a, b. by apply split_first_Some.
  - intros (p & q & H). destruct (split_first sep s) as [?|] eqn:E; [done|].
    by eapply split_first_None in E.
Qed.

(** A text in front of which no occurrence of [sep] can start: searching goes on behind it. *)
Definition skips (sep w : str) : Prop :=
  ∀ s, split_first sep (w ++ s) = (λ p, (w ++ p.1, p.2)) <$> split_first sep s.

Lemma skips_nil sep : skips sep [].
Proof. intros s. cbn. by destruct (split_first sep s) as [[]|]. Qed.

Lemma skips_app sep a b : skips sep a → skips sep b → skips sep (a ++ b).
Proof.
  intros Ha Hb s. rewrite <- (assoc_L (++)), Ha, Hb. destruct (split_first sep s) as [[]|]; cbn; [|done].
  by rewrite <- (assoc_L (++)).
Qed.

Lemma skips_concat sep l : Forall (skips sep) l → skips sep (concat l).
Proof. induction 1; cbn; [apply skips_nil|by apply skips_app]. Qed.

Lemma skips_char sep c :
  (∀ s, startswith sep (c :: s) = false) → skips sep [c].
Proof.
  intros H s. cbn [app split_first]. rewrite H. by destruct (split_first sep s) as [[]|].
Qed.

(** A text without the first character of [sep]. *)
Lemma skips_no_head c sep w : c ∉ w → skips (c :: sep) w.
Proof.
  induction w as [|d w IH]; intros H; [apply skips_nil|].
  change (d :: w) with ([d] ++ w). apply skips_app; [|apply IH; set_solver].
  apply skips_char. intros s. cbn. destruct (Ascii.eqb_spec c d); [set_solver|done].
Qed.

Lemma startswith_short sep l s c :
  c ∉ sep → startswith sep (l ++ c :: s) = true → startswith sep l = true.
Proof.
  revert l. induction sep as [|d sep IH]; intros l Hc; [by destruct l|].
  destruct l as [|e l]; cbn.
  - destruct (Ascii.eqb_spec d c); [set_solver|done].
  - rewrite !andb_true_iff. intros [-> H]. split; [done|]. apply IH; [set_solver|done].
Qed.

(** A line without [sep], up to a character that [sep] does not have. *)
Lemma skips_line sep l c :
  sep ≠ [] → c ∉ sep → split_first sep l = None → skips sep (l ++ [c]).
Proof.
  intros Hne Hc Hl s. rewrite <- (assoc_L (++)). cbn [app]. revert Hl.
  induction l as [|d l IH]; intros Hl; cbn [app split_first] in *.
  - destruct (startswith sep (c :: s)) eqn:E.
    + destruct sep as [|d sep]; [done|]. cbn in E. destruct (Ascii.eqb_spec d c); [set_solver|done].
    + by destruct (split_first sep s) as [[]|].
  - destruct (startswith sep (d :: l)) eqn:E; [done|].
    destruct (startswith sep (d :: l ++ c :: s)) eqn:E2.
    { change (d :: l ++ c :: s) with ((d :: l) ++ c :: s) in E2. apply startswith_short in E2; [congruence|done]. }
    destruct (split_first sep l) as [[]|]; [done|]. rewrite IH by done.
    by destruct (split_first sep s) as [[]|].
Qed.

Lemma split_first_skips sep w s : skips sep w → split_first sep (w ++ sep ++ s) = Some (w, s).
Proof.
  intros H. rewrite H. assert (split_first sep (sep ++ s) = Some ([], s)) as ->; [|by cbn; rewrite app_nil_r].
  destruct (sep ++ s) eqn:E.
  - apply app_nil in E as [-> ->]. done.
  - cbn [split_first]. rewrite <- E, startswith_refl. by rewrite drop_app_length.
Qed.

(** [sep.join(s.split(sep)) == s]. *)
Lemma join_split_on_fuel n sep s : join sep (split_on_fuel n sep s) = s.
Proof.
  revert s. induction n as [|n IH]; intros s; [done|]. cbn.
  destruct (split_first sep s) as [[a b]|] eqn:E; [|done].
  apply split_first_Some in E. specialize (IH b).
  destruct (split_on_fuel n sep b) as [|x l] eqn:E'.
  - destruct n; cbn in E'; [done|]. by destruct (split_first sep b) as [[??]|].
  - cbn in *. by rewrite IH.
Qed.

Lemma join_split_on sep s : join sep (split_on sep s) = s.
Proof. apply join_split_on_fuel. Qed.

Lemma split_on_fuel_irrel n m sep s :
  sep ≠ [] → length s ≤ n → length s ≤ m → split_on_fuel n sep s = split_on_fuel m sep s.
Proof.
  intros Hsep. revert m s. induction n as [|n IH]; intros m s Hn Hm.
  - destruct s; [|cbn in Hn; lia]. destruct m; [done|]. by destruct sep.
  - destruct m as [|m]; [destruct s; [by destruct sep|cbn in Hm; lia]|]. cbn.
    destruct (split_first sep s) as [[a b]|] eqn:E; [|done].
    apply length_split_first in E. destruct sep; [done|]. cbn in E. by rewrite (IH m) by lia.
Qed.

Lemma length_split_on_fuel n sep s : length (split_on_fuel n sep s) ≠ 0.
Proof. destruct n; [done|]. cbn. by destruct (split_first sep s) as [[??]|]. Qed.

(** Counting occurrences goes from one to the next. *)
Lemma count_sub_Some sep s a b :
  sep ≠ [] → split_first sep s = Some (a, b) → count_sub sep s = S (count_sub sep b).
Proof.
  intros Hsep E. pose proof (length_split_first _ _ _ _ E) as Hl.
  unfold count_sub, split_on. destruct s as [|c s]; [by destruct sep|].
  cbn [length split_on_fuel]. rewrite E. cbn [length].
  rewrite (split_on_fuel_irrel (length s) (length b) sep b Hsep);
    [|destruct sep; [done|cbn in *; lia]|done].
  pose proof (length_split_on_fuel (length b) sep b). lia.
Qed.

Lemma count_sub_None sep s : split_first sep s = None → count_sub sep s = 0.
Proof. intros E. unfold count_sub, split_on. destruct (length s); cbn; by rewrite ?E. Qed.

(** [s.count(sep) == 1] *)
Lemma count_sub_1 sep s :
  sep ≠ [] →
  count_sub sep s = 1 ↔ ∃ a b, split_first sep s = Some (a, b) ∧ split_first sep b = None.
Proof.
  intros Hsep. destruct (split_first sep s) as [[a b]|] eqn:E.
  - rewrite (count_sub_Some _ _ _ _ Hsep E). split.
    + intros H. exists a, b. split; [done|].
      destruct (split_first sep b) as [[a' b']|] eqn:E'; [|done].
      rewrite (count_sub_Some _ _ _ _ Hsep E') in H. lia.
    + intros (a' & b' & [= <- <-] & H). by rewrite count_sub_None.
  - rewrite count_sub_None by done. split; [lia|]. by intros (?&?&?&?).
Qed.

(** Splitting at a character that the parts do not have undoes the join. *)
Lemma split_first_char c a b : c ∉ a → split_first [c] (a ++ c :: b) = Some (a, b).
Proof.
  induction a as [|x a IH]; intros Hc; cbn.
  - by rewrite Ascii.eqb_refl.
  - destruct (Ascii.eqb_spec c x) as [->|Hne]; [exfalso; apply Hc; left|].
    cbn. rewrite IH; [done|]. intros ?. apply Hc. by right.
Qed.

Lemma split_first_char_None c a : c ∉ a → split_first [c] a = None.
Proof.
  induction a as [|x a IH]; intros Hc; cbn; [done|].
  destruct (Ascii.eqb_spec c x) as [->|Hne]; [exfalso; apply Hc; left|].
  cbn. rewrite IH; [done|]. intros ?. apply Hc. by right.
Qed.

Lemma split_on_join c l :
  l ≠ [] → Forall (λ w, c ∉ w) l → split_on [c] (join [c] l) = l.
Proof.
  intros Hne Hl. unfold split_on. assert (length (join [c] l) ≤ length (join [c] l)) as Hn by done.
  revert Hn. generalize (length (join [c] l)) at 2 3 as n. revert Hne.
  induction Hl as [|w l Hw Hl IH]; intros Hne n Hn; [done|].
  destruct l as [|w' l].
  - destruct n; cbn; [done|]. by rewrite split_first_char_None.
  - change (join [c] (w :: w' :: l)) with (w ++ c :: join [c] (w' :: l)) in *.
    rewrite length_app in Hn. cbn [length] in Hn. destruct n as [|n]; [lia|].
    cbn [split_on_fuel]. rewrite split_first_char by done. f_equal. apply IH; [done|lia].
Qed.

(** [splitlines] on terminated lines that have no line boundary of their own. *)
Definition one_line (l : str) : Prop := forallb (λ c, negb (is_line_boundary c)) l = true.

Lemma splitlines_from_line acc l s :
  one_line l → splitlines_from acc (l ++ newline :: s) = (rev acc ++ l) :: splitlines_from [] s.
Proof.
  unfold one_line. revert acc. induction l as [|c l IH]; intros acc.
  - intros _. cbn. by rewrite app_nil_r.
  - cbn. intros [Hc%negb_true_iff Hl]%andb_true_iff. rewrite Hc, IH by done.
    cbn. by rewrite <- (assoc_L (++)).
Qed.

Lemma splitlines_one_line s : Forall one_line (splitlines s).
Proof.
  assert (∀ line, one_line (rev line) → Forall one_line (splitlines_from line s)) as H; [|by apply H].
  induction s as [|c s IH]; intros line Hline; cbn [splitlines_from].
  { destruct line; [constructor|]. by repeat constructor. }
  destruct (is_line_boundary c) eqn:Ec.
  - pose proof (IH [] eq_refl) as Hs. constructor; [done|].
    destruct c as [[] [] [] [] [] [] [] []]; try exact Hs.
    destruct s as [|d s]; [exact Hs|].
    destruct d as [[] [] [] [] [] [] [] []]; try exact Hs. by inversion Hs.
  - apply IH. unfold one_line in *. cbn [rev]. rewrite forallb_app, Hline. cbn. by rewrite Ec.
Qed.

Lemma splitlines_terminated lines :
  Forall one_line lines → splitlines (concat (map (λ l, l ++ [newline]) lines)) = lines.
Proof.
  unfold splitlines. induction 1 as [|l lines Hl Hlines IH]; [done|]. cbn [map concat].
  rewrite <- (assoc_L (++)). cbn [app]. by rewrite splitlines_from_line, IH.
Qed.

(** * Lemmas: words *)

Definition no_space (w : str) : Prop := forallb (λ c, negb (is_space c)) w = true.

Lemma boundary_is_space c : is_line_boundary c = true → is_space c = true.
Proof. by destruct c as [[] [] [] [] [] [] [] []]; vm_compute. Qed.

(** A word is part of one line, and so are words joined by a space that ends no line. *)
Lemma no_space_one_line w : no_space w → one_line w.
Proof.
  unfold no_space, one_line. rewrite !forallb_forall. intros H c Hc%H.
  rewrite negb_true_iff in *. destruct (is_line_boundary c) eqn:E; [|done].
  apply boundary_is_space in E. congruence.
Qed.

Lemma one_line_app a b : one_line a → one_line b → one_line (a ++ b).
Proof. unfold one_line. intros Ha Hb. by rewrite forallb_app, Ha, Hb. Qed.

Lemma join_one_line c words :
  is_line_boundary c = false → Forall one_line words → one_line (join [c] words).
Proof.
  intros Hc. induction 1 as [|w words Hw Hall IH]; [done|].
  destruct words as [|w' words]; [done|].
  change (join [c] (w :: w' :: words)) with (w ++ [c] ++ join [c] (w' :: words)).
  apply one_line_app; [done|]. apply one_line_app; [|done]. unfold one_line. cbn. by rewrite Hc.
Qed.

Lemma rev_eq_nil {A} (l : list A) : rev l = [] → l = [].
Proof. intros H. by rewrite <- (rev_involutive l), H. Qed.

Lemma split_ws_from_word acc w s :
  no_space w → split_ws_from acc (w ++ s) = split_ws_from (rev w ++ acc) s.
Proof.
  unfold no_space. revert acc. induction w as [|c w IH]; intros acc; cbn; [done|].
  rewrite andb_true_iff, negb_true_iff. intros [-> Hw].
  by rewrite IH, <- (assoc_L (++)).
Qed.

(** [c.join(words).split() == words] for a space [c]. *)
Lemma split_ws_join_by c words :
  is_space c = true → Forall (λ w, w ≠ [] ∧ no_space w) words → split_ws (join [c] words) = words.
Proof.
  intros Hc. unfold split_ws. induction 1 as [|w words [Hw Hs] Hall IH]; [done|].
  destruct words as [|w' words].
  - cbn [join]. rewrite <- (app_nil_r w) at 1. rewrite split_ws_from_word by done.
    cbn. rewrite app_nil_r. destruct (rev w) eqn:E; [|by rewrite <- E, rev_involutive].
    by apply rev_eq_nil in E.
  - change (join [c] (w :: w' :: words)) with (w ++ c :: join [c] (w' :: words)).
    rewrite split_ws_from_word by done. rewrite app_nil_r.
    cbn [split_ws_from]. rewrite Hc.
    destruct (rev w) eqn:E; [by apply rev_eq_nil in E|].
    by rewrite <- E, rev_involutive, IH.
Qed.

Lemma split_ws_join words :
  Forall (λ w, w ≠ [] ∧ no_space w) words → split_ws (join (lit " ") words) = words.
Proof. by apply (split_ws_join_by " "). Qed.

(** * Lemmas: decimal text *)

Lemma digit_char_value d : (0 ≤ d < 10)%Z → digit_value (digit_char d) = Some d.
Proof.
  intros Hd. assert (d = 0 ∨ d = 1 ∨ d = 2 ∨ d = 3 ∨ d = 4 ∨ d = 5 ∨ d = 6 ∨ d = 7 ∨ d = 8 ∨ d = 9)%Z
    as H by lia. by repeat destruct H as [->|H]; [..|subst].
Qed.

Lemma digit_char_is_digit d : (0 ≤ d < 10)%Z → is_digit (digit_char d) = true.
Proof.
  intros Hd. assert (d = 0 ∨ d = 1 ∨ d = 2 ∨ d = 3 ∨ d = 4 ∨ d = 5 ∨ d = 6 ∨ d = 7 ∨ d = 8 ∨ d = 9)%Z
    as H by lia. by repeat destruct H as [->|H]; [..|subst].
Qed.

Lemma digit_not_underscore c : is_digit c = true → Ascii.eqb c "_" = false.
Proof. intros H. destruct (Ascii.eqb_spec c "_") as [->|]; [by vm_compute in H|done]. Qed.

Lemma digits_fuel_step n z acc :
  digits_fuel (S n) z acc =
  if (z <? 10)%Z then digit_char (z mod 10) :: acc
  else digits_fuel n (z / 10) (digit_char (z mod 10) :: acc).
Proof. done. Qed.

(** Reading the digits of a number, from most to least significant. *)
Lemma int_digits_digits_fuel n z acc :
  (0 ≤ z)%Z → (z < 10 ^ Z.of_nat n)%Z → n ≠ O →
  int_digits 10 false 0 (digits_fuel n z acc) = int_digits 10 true z acc.
Proof.
  revert z acc. induction n as [|n IH]; intros z acc Hz Hn Hne; [done|].
  rewrite digits_fuel_step. destruct (Z.ltb_spec z 10) as [Hlt|Hge].
  - rewrite Z.mod_small by lia. cbn [int_digits].
    rewrite digit_not_underscore by (apply digit_char_is_digit; lia).
    rewrite digit_char_value by lia. destruct (Z.ltb_spec z 10); [|lia].
    f_equal; lia.
  - destruct n as [|n]; [change (10 ^ Z.of_nat 1)%Z with 10%Z in Hn; lia|].
    assert (0 ≤ z mod 10 < 10)%Z as Hmod by (apply Z.mod_pos_bound; lia).
    rewrite IH; [|apply Z.div_pos; lia| |done].
    + cbn [int_digits]. rewrite digit_not_underscore by (by apply digit_char_is_digit).
      rewrite digit_char_value by done. destruct (Z.ltb_spec (z mod 10) 10); [|lia].
      f_equal. rewrite (Z.div_mod z 10) at 3; lia.
    + apply Z.div_lt_upper_bound; [lia|].
      rewrite Nat2Z.inj_succ, Z.pow_succ_r in Hn by lia. lia.
Qed.

(** The number of digits allotted by [digits] is enough. *)
Lemma digits_bound z :
  (0 ≤ z)%Z → (z < 10 ^ Z.of_nat (S (Z.to_nat (Z.log2 z))))%Z.
Proof.
  intros Hz. pose proof (Z.log2_nonneg z). rewrite Nat2Z.inj_succ, Z2Nat.id by done.
  destruct (decide (z = 0)%Z) as [->|Hne]; [by vm_compute|].
  destruct (Z.log2_spec z) as [_ Hlt]; [lia|].
  eapply Z.lt_le_trans; [exact Hlt|]. apply Z.pow_le_mono_l. lia.
Qed.

Lemma digits_fuel_app n z acc :
  digits_fuel n z acc = digits_fuel n z [] ++ acc.
Proof.
  revert z acc. induction n as [|n IH]; intros z acc; [done|].
  rewrite !digits_fuel_step. destruct (z <? 10)%Z; [done|].
  rewrite IH, (IH _ [_]), <- (assoc_L (++)). done.
Qed.

Lemma digits_all_digits n z :
  (0 ≤ z)%Z → forallb is_digit (digits_fuel n z []) = true.
Proof.
  revert z. induction n as [|n IH]; intros z Hz; [done|].
  assert (is_digit (digit_char (z mod 10)) = true) as Hd.
  { apply digit_char_is_digit, Z.mod_pos_bound. lia. }
  rewrite digits_fuel_step. destruct (z <? 10)%Z; [by cbn; rewrite Hd|].
  rewrite digits_fuel_app, forallb_app, IH by (apply Z.div_pos; lia). cbn. by rewrite Hd.
Qed.

Lemma digits_nonempty z : digits z ≠ [].
Proof.
  unfold digits. rewrite digits_fuel_step. destruct (z <? 10)%Z; [done|].
  rewrite digits_fuel_app. by destruct (digits_fuel _ _ _).
Qed.

Lemma digit_not_space c : is_digit c = true → is_space c = false.
Proof. by destruct c as [[] [] [] [] [] [] [] []]; vm_compute. Qed.

Lemma lstrip_by_id f s : forallb (λ c, negb (f c)) s = true → lstrip_by f s = s.
Proof. destruct s as [|c s]; cbn; [done|]. by destruct (f c). Qed.

Lemma forallb_rev {A} (f : A → bool) l : forallb f (rev l) = forallb f l.
Proof.
  induction l as [|a l IH]; cbn; [done|]. rewrite forallb_app, IH. cbn.
  by rewrite andb_true_r, andb_comm.
Qed.

Lemma strip_no_space s : no_space s → strip s = s.
Proof.
  unfold no_space, strip, rstrip_by. intros H. rewrite (lstrip_by_id _ s) by done.
  rewrite lstrip_by_id by (by rewrite forallb_rev). by rewrite rev_involutive.
Qed.

Lemma digits_no_space s : forallb is_digit s = true → no_space s.
Proof.
  unfold no_space. rewrite !forallb_forall. intros H c Hc.
  by rewrite digit_not_space by auto.
Qed.

(** [int(str(z)) == z] for the non-negative numbers the tools write. *)
Lemma int_dec z : (0 ≤ z)%Z → int (dec z) = Ok z.
Proof.
  intros Hz. unfold dec. destruct (Z.ltb_spec z 0); [lia|].
  pose proof (digits_all_digits (S (Z.to_nat (Z.log2 z))) z Hz) as Hd.
  unfold int, parse_int. rewrite strip_no_space by (by apply digits_no_space).
  pose proof (digits_nonempty z) as Hne.
  pose proof (int_digits_digits_fuel _ z [] Hz (digits_bound z Hz) ltac:(done)) as Hint.
  fold (digits z) in Hd, Hint. destruct (digits z) as [|c s] eqn:E; [done|].
  cbn in Hd. apply andb_true_iff in Hd as [Hc _].
  assert (Ascii.eqb c "-" = false ∧ Ascii.eqb c "+" = false) as [H1 H2].
  { split; [destruct (Ascii.eqb_spec c "-") as [->|]|destruct (Ascii.eqb_spec c "+") as [->|]];
      done || by vm_compute in Hc. }
  assert ((match c with "-"%char => ((-1)%Z, s) | "+"%char => (1%Z, s) | _ => (1%Z, c :: s) end)
    = (1%Z, c :: s)) as ->.
  { destruct c as [[] [] [] [] [] [] [] []]; by vm_compute in H1, H2. }
  change (10 =? 16)%Z with false. cbv iota. rewrite Hint. cbn [int_digits]. f_equal. lia.
Qed.

(** [int] succeeds on digits. *)
Lemma int_digits_all ds seen a :
  forallb is_digit ds = true → (0 ≤ a)%Z → (ds = [] → seen = true) →
  ∃ z, int_digits 10 seen a ds = Some z ∧ (0 ≤ z)%Z.
Proof.
  revert seen a. induction ds as [|c ds IH]; intros seen a Hd Ha Hseen; cbn.
  { rewrite Hseen by done. eauto. }
  cbn in Hd. apply andb_true_iff in Hd as [Hc Hd].
  rewrite digit_not_underscore by done.
  assert (∃ d, digit_value c = Some d ∧ (0 ≤ d < 10)%Z) as (d & -> & Hd10).
  { unfold digit_value. rewrite Hc. eexists. split; [done|].
    unfold is_digit in Hc. apply andb_true_iff in Hc as [H1%Nat.leb_le H2%Nat.leb_le]. lia. }
  destruct (Z.ltb_spec d 10); [|lia]. apply IH; [done|lia|done].
Qed.

Lemma int_all_digits ds :
  forallb is_digit ds = true → ds ≠ [] → ∃ z, int ds = Ok z ∧ (0 ≤ z)%Z.
Proof.
  intros Hd Hne. unfold int, parse_int. rewrite strip_no_space by (by apply digits_no_space).
  destruct ds as [|c ds]; [done|].
  assert (match c :: ds with
    | "-"%char :: s => ((-1)%Z, s) | "+"%char :: s => (1%Z, s) | _ => (1%Z, c :: ds) end
    = (1%Z, c :: ds)) as ->.
  { cbn in Hd. apply andb_true_iff in Hd as [Hc _]. clear Hne.
    destruct c as [[] [] [] [] [] [] [] []]; done || by vm_compute in Hc. }
  change (10 =? 16)%Z with false. cbv iota.
  destruct (int_digits_all (c :: ds) false 0 Hd) as (z & -> & Hz); [lia|done|].
  eexists. split; [done|lia].
Qed.

(** A run of a class that a character outside it ends is determined. *)
Lemma run_unique (f : ascii → bool) a b c d r r' :
  forallb f a = true → forallb f b = true → f c = false → f d = false →
  a ++ c :: r = b ++ d :: r' → a = b ∧ r = r'.
Proof.
  intros Ha Hb Hc Hd. revert b Hb. induction a as [|x a IH]; intros [|y b] Hb H; cbn in *.
  - by injection H as _ ->.
  - injection H as <- _. by rewrite Hc in Hb.
  - injection H as -> _. by rewrite Hd in Ha.
  - injection H as <- H. apply andb_true_iff in Ha as [_ Ha], Hb as [_ Hb].
    destruct (IH Ha b Hb H) as [-> ->]. done.
Qed.

(** * Lemmas: the order of texts *)

Lemma code_inj a b : code a = code b → a = b.
Proof. intros H. rewrite <- (ascii_nat_embedding a), <- (ascii_nat_embedding b). by f_equal. Qed.

Lemma str_ltb_cons x a y b :
  str_ltb (x :: a) (y :: b) = true ↔ code x < code y ∨ (x = y ∧ str_ltb a b = true).
Proof.
  cbn. rewrite orb_true_iff, andb_true_iff, Nat.ltb_lt, Nat.eqb_eq.
  split.
  - intros [H|[H%code_inj H']]; [by left|by right].
  - intros [H|[-> H']]; [by left|by right].
Qed.

Lemma str_ltb_irrefl a : str_ltb a a = false.
Proof.
  apply not_true_iff_false. induction a as [|x a IH]; [done|].
  rewrite str_ltb_cons. intros [?|[_ ?]]; [lia|done].
Qed.

Lemma str_ltb_trans a b c : str_ltb a b = true → str_ltb b c = true → str_ltb a c = true.
Proof.
  revert b c. induction a as [|x a IH]; intros [|y b] [|z c]; try done.
  rewrite !str_ltb_cons. intros [?|[-> ?]] [?|[-> ?]]; try (left; lia).
  right. split; [done|]. by eapply IH.
Qed.

Lemma str_ltb_total a b : str_ltb a b = true ∨ a = b ∨ str_ltb b a = true.
Proof.
  revert b. induction a as [|x a IH]; intros [|y b]; auto.
  destruct (Nat.lt_trichotomy (code x) (code y)) as [H|[H%code_inj|H]].
  - left. rewrite str_ltb_cons. by left.
  - subst y. rewrite !str_ltb_cons. destruct (IH b) as [?|[->|?]]; auto.
  - right; right. rewrite str_ltb_cons. by left.
Qed.

Lemma str_leb_total a b : str_leb a b = true ∨ str_leb b a = true.
Proof.
  unfold str_leb. rewrite !negb_true_iff. destruct (str_ltb b a) eqn:E; [|by left].
  right. apply not_true_iff_false. intros E'.
  pose proof (str_ltb_trans _ _ _ E E') as H. by rewrite str_ltb_irrefl in H.
Qed.

Lemma str_leb_iff a b : str_leb a b = true ↔ str_ltb a b = true ∨ a = b.
Proof.
  unfold str_leb. rewrite negb_true_iff. split.
  - intros H. destruct (str_ltb_total a b) as [?|[?|?]]; auto. congruence.
  - intros [H| ->]; [|apply str_ltb_irrefl]. apply not_true_iff_false. intros H'.
    pose proof (str_ltb_trans _ _ _ H H') as H2. by rewrite str_ltb_irrefl in H2.
Qed.

Lemma str_leb_trans a b c : str_leb a b = true → str_leb b c = true → str_leb a c = true.
Proof.
  rewrite !str_leb_iff. intros [?| ->] [?| ->]; auto. left. by eapply str_ltb_trans.
Qed.
