(* ===== verification/Rows.v ===== *)
(** Files made of lines, as one tool writes them and another reads them: what the two sides
    promise each other, and that a file printed line by line is read back line by line. *)
From S2P Require Import Prelude PyStr.

(** * The interface *)

(** The text of a file with one line per item. *)
Definition lines_of {B} (print : B → str) (l : list B) : str :=
  concat (map (λ b, print b ++ [newline]) l).

(** A loop over the lines of a file ([step], on the state [A]) reads what another tool prints
    ([print], for the items [B]): each item that is [line_ok] is one line, and its line changes
    the state by [line_update] without raising. *)
Class LineReader {A B} (step : A → str → result A) (print : B → str) := {
  line_ok : B → Prop;
  line_update : A → B → A;
  line_single b : line_ok b → one_line (print b);
  line_step a b : line_ok b → step a (print b) = Ok (line_update a b);
}.

Section reader.
Context {A B : Type} (step : A → str → result A) (print : B → str) `{!LineReader step print}.

Lemma read_items l a :
  Forall line_ok l → foldM step a (map print l) = Ok (foldl line_update a l).
Proof.
  intros Hl. revert a. induction Hl as [|b l Hb Hl IH]; intros a; cbn [map foldM foldl]; [done|].
  rewrite line_step by done. apply IH.
Qed.

Lemma split_lines l : Forall line_ok l → splitlines (lines_of print l) = map print l.
Proof.
  intros Hl. unfold lines_of.
  replace (map (λ b, print b ++ [newline]) l)
    with (map (λ x, x ++ [newline]) (map print l)) by (by rewrite map_map).
  apply splitlines_terminated, Forall_fmap. eapply Forall_impl; [exact Hl|]. apply line_single.
Qed.

Lemma read_lines_of l a :
  Forall line_ok l → foldM step a (splitlines (lines_of print l)) = Ok (foldl line_update a l).
Proof. intros Hl. by rewrite split_lines, read_items. Qed.

End reader.

(** * Tab-separated fields *)

(** A text that one field can hold. *)
Definition field_ok (w : str) : Prop := one_line w ∧ tab ∉ w.

(** The fields with tabs between them. *)
Definition tsv_row (fields : list str) : str := join [tab] fields.

Lemma digits_field_ok w : forallb is_digit w = true → field_ok w.
Proof.
  intros H. split.
  - unfold one_line. rewrite forallb_forall in H |- *. intros c Hc%H.
    destruct c as [[] [] [] [] [] [] [] []]; done || by vm_compute in Hc.
  - intros Hin. rewrite forallb_forall in H. apply list_elem_of_In, H in Hin.
    by vm_compute in Hin.
Qed.

Lemma dec_field_ok z : (0 ≤ z)%Z → field_ok (dec z).
Proof.
  intros Hz. unfold dec. destruct (Z.ltb_spec z 0); [lia|].
  apply digits_field_ok, digits_all_digits. done.
Qed.

Lemma decn_field_ok n : field_ok (decn n).
Proof. apply dec_field_ok. lia. Qed.

Lemma tsv_fields fields :
  fields ≠ [] → Forall field_ok fields → split_on [tab] (tsv_row fields) = fields.
Proof.
  intros Hne Hf. apply split_on_join; [done|]. eapply Forall_impl; [exact Hf|]. by intros w [_ ?].
Qed.

Lemma tsv_one_line fields : Forall field_ok fields → one_line (tsv_row fields).
Proof.
  intros Hf. apply join_one_line; [done|]. eapply Forall_impl; [exact Hf|]. by intros w [? _].
Qed.

Create HintDb fields discriminated.
#[export] Hint Resolve dec_field_ok decn_field_ok : fields.
#[export] Hint Resolve Forall_nil_2 Forall_cons_2 : fields.
#[export] Hint Extern 1 (_ ≤ _)%Z => lia : fields.

(** * Fields separated by blanks *)

(** A word that [split()] gives back. *)
Definition word_ok (w : str) : Prop := w ≠ [] ∧ no_space w.

Lemma words_one_line c words :
  is_line_boundary c = false → Forall word_ok words → one_line (join [c] words).
Proof.
  intros Hc H. apply join_one_line; [done|]. eapply Forall_impl; [exact H|].
  intros w [_ ?]. by apply no_space_one_line.
Qed.
