(* ===== verification/Regex.v ===== *)
(** The regular expressions of Python's [re] that the sources use: a
    backtracking matcher in continuation-passing style with the priorities of
    [re] (left alternative first, greedy and lazy repetition), the ordered list
    of all its outcomes and the relation it decides, and [search], [match],
    [finditer] and [sub] on top of it. *)
From S2P Require Import Prelude PyStr.

(** * Patterns *)

Inductive assertion := TextStart | LineStart | TextEnd | WordBoundary.

Inductive regex :=
  | REmpty
  | RClass (f : ascii → bool)
  | RSeq (r1 r2 : regex)
  | RAlt (r1 r2 : regex)
  | RStar (greedy : bool) (r : regex)
  | RGroup (n : nat) (r : regex)
  | RAssert (a : assertion)
  | RNot (r : regex).

Definition RChar (c : ascii) : regex := RClass (Ascii.eqb c).
Definition RVoid : regex := RClass (λ _, false).
Definition rseq (l : list regex) : regex := foldr RSeq REmpty l.
Fixpoint ralt (l : list regex) : regex :=
  match l with [] => RVoid | [r] => r | r :: l => RAlt r (ralt l) end.

(** Literal text, alternatives of literals, [r?], [r+], [r+?]. *)
Definition rlit (s : string) : regex := rseq (map RChar (lit s)).
Arguments rlit _%_string_scope.
Definition rlits (l : list string) : regex := ralt (map rlit l).
Definition ROpt (r : regex) : regex := RAlt r REmpty.
Definition RPlus (r : regex) : regex := RSeq r (RStar true r).
Definition RPlusLazy (r : regex) : regex := RSeq r (RStar false r).

(** [\d], [\w], [\s], [[...]], [[^...]]. *)
Definition Rd : regex := RClass is_digit.
Definition Rw : regex := RClass is_word.
Definition Rs : regex := RClass is_space.
Definition one_of (l : str) (c : ascii) : bool := existsb (Ascii.eqb c) l.
(** What a dot matches. *)
Definition not_newline (c : ascii) : bool := negb (Ascii.eqb c newline).
Definition Rdot : regex := RClass not_newline.
Definition none_of (l : str) (c : ascii) : bool := negb (one_of l c).

(** * The matcher *)

(** A position in the text: the characters before it (nearest first), the ones
    after it, and the groups captured so far, newest first. *)
Record cursor := Cursor { before : str; after : str; caps : list (nat * str) }.

#[export] Instance cursor_eq_dec : EqDecision cursor.
Proof. solve_decision. Defined.

Definition at_word_boundary (st : cursor) : bool :=
  let l := match before st with [] => false | c :: _ => is_word c end in
  let r := match after st with [] => false | c :: _ => is_word c end in
  xorb l r.

Definition holds (a : assertion) (st : cursor) : bool :=
  match a with
  | TextStart => match before st with [] => true | _ => false end
  | LineStart => match before st with [] => true | c :: _ => Ascii.eqb c newline end
  | TextEnd => match after st with [] => true | [c] => Ascii.eqb c newline | _ => false end
  | WordBoundary => at_word_boundary st
  end.

Definition consumed (st st' : cursor) : str :=
  take (length (after st) - length (after st')) (after st).

Definition capture (n : nat) (st st' : cursor) : cursor :=
  Cursor (before st') (after st') ((n, consumed st st') :: caps st').

Definition progress (st st' : cursor) : bool := length (after st') <? length (after st).
Arguments progress : simpl never.

Section star.
Context (step : cursor → (cursor → option cursor) → option cursor).

Fixpoint run_star (greedy : bool) (n : nat) (st : cursor)
    (k : cursor → option cursor) : option cursor :=
  match n with
  | O => k st
  | S n =>
      if greedy then
        match step st (λ st', if progress st st' then run_star greedy n st' k else None) with
        | Some x => Some x
        | None => k st
        end
      else
        match k st with
        | Some x => Some x
        | None =>
            step st (λ st', if progress st st' then run_star greedy n st' k else None)
        end
  end.
End star.

Fixpoint run (r : regex) (st : cursor) (k : cursor → option cursor) : option cursor :=
  match r with
  | REmpty => k st
  | RClass f =>
      match after st with
      | c :: t => if f c then k (Cursor (c :: before st) t (caps st)) else None
      | [] => None
      end
  | RSeq r1 r2 => run r1 st (λ st', run r2 st' k)
  | RAlt r1 r2 => match run r1 st k with Some x => Some x | None => run r2 st k end
  | RStar greedy r => run_star (run r) greedy (S (length (after st))) st k
  | RGroup n r => run r st (λ st', k (capture n st st'))
  | RAssert a => if holds a st then k st else None
  | RNot r => match run r st Some with Some _ => None | None => k st end
  end.

(** * All outcomes, in order of priority *)

Section star_outcomes.
Context (step : cursor → list cursor).

Fixpoint star_outcomes (greedy : bool) (n : nat) (st : cursor) : list cursor :=
  match n with
  | O => [st]
  | S n =>
      let more := step st ≫= λ st',
        if progress st st' then star_outcomes greedy n st' else [] in
      if greedy then more ++ [st] else st :: more
  end.
End star_outcomes.

Fixpoint outcomes (r : regex) (st : cursor) : list cursor :=
  match r with
  | REmpty => [st]
  | RClass f =>
      match after st with
      | c :: t => if f c then [Cursor (c :: before st) t (caps st)] else []
      | [] => []
      end
  | RSeq r1 r2 => outcomes r1 st ≫= outcomes r2
  | RAlt r1 r2 => outcomes r1 st ++ outcomes r2 st
  | RStar greedy r => star_outcomes (outcomes r) greedy (S (length (after st))) st
  | RGroup n r => capture n st <$> outcomes r st
  | RAssert a => if holds a st then [st] else []
  | RNot r => match outcomes r st with [] => [st] | _ => [] end
  end.

(** The relation a pattern denotes. *)
Fixpoint den (r : regex) (st st' : cursor) : Prop :=
  match r with
  | REmpty => st' = st
  | RClass f => ∃ c t, after st = c :: t ∧ f c = true ∧ st' = Cursor (c :: before st) t (caps st)
  | RSeq r1 r2 => ∃ m, den r1 st m ∧ den r2 m st'
  | RAlt r1 r2 => den r1 st st' ∨ den r2 st st'
  | RStar _ r => rtc (λ x y, den r x y ∧ progress x y = true) st st'
  | RGroup n r => ∃ m, den r st m ∧ st' = capture n st m
  | RAssert a => holds a st = true ∧ st' = st
  | RNot r => (¬ ∃ m, den r st m) ∧ st' = st
  end.

(** * The functions of [re] *)

Record mtch := Match { m_start : nat; m_text : str; m_caps : list (nat * str) }.

Definition m_end (m : mtch) : nat := m_start m + length (m_text m).

(** [m.group(n)]; [None] for a group that took no part. *)
Definition group_opt (m : mtch) (n : nat) : option str :=
  match n with
  | O => Some (m_text m)
  | _ => snd <$> head (filter (λ p, p.1 = n) (m_caps m))
  end.

(** The text of a group that takes part in every match. *)
Definition group (m : mtch) (n : nat) : str := default [] (group_opt m n).

#[global] Arguments group : simpl never.
#[global] Arguments m_end : simpl never.

Definition to_match (st st' : cursor) : mtch :=
  Match (length (before st)) (consumed st st') (caps st').

(** Accept an outcome unless it is empty where an empty match was just reported. *)
Definition accept (must : bool) (st st' : cursor) : option cursor :=
  if must && negb (progress st st') then None else Some st'.

(** The first match at or after a position: the text skipped, the match and
    the position behind it. *)
Fixpoint search_from (r : regex) (must : bool) (bef aft gap : str) :
    option (str * mtch * cursor) :=
  let st := Cursor bef aft [] in
  match run r st (accept must st) with
  | Some st' => Some (rev gap, to_match st st', st')
  | None =>
      match aft with
      | [] => None
      | c :: t => search_from r false (c :: bef) t (c :: gap)
      end
  end.

(** All matches from left to right, each with the text before it, and the rest. *)
Fixpoint scan_fuel (n : nat) (r : regex) (must : bool) (bef aft : str) :
    list (str * mtch) * str :=
  match n with
  | O => ([], aft)
  | S n =>
      match search_from r must bef aft [] with
      | None => ([], aft)
      | Some (gap, m, st') =>
          let '(hits, tail) :=
            scan_fuel n r (match m_text m with [] => true | _ => false end)
              (before st') (after st') in
          ((gap, m) :: hits, tail)
      end
  end.

Definition scan (r : regex) (s : str) : list (str * mtch) * str :=
  scan_fuel (2 * length s + 2) r false [] s.

Definition finditer (r : regex) (s : str) : list mtch := (scan r s).1.*2.

Definition search (r : regex) (s : str) : option mtch :=
  match search_from r false [] s [] with Some (_, m, _) => Some m | None => None end.

Definition match_start (r : regex) (s : str) : option mtch :=
  let st := Cursor [] s [] in to_match st <$> run r st Some.

#[global] Arguments scan : simpl never.
#[global] Arguments search : simpl never.
#[global] Arguments match_start : simpl never.

(** [r.subn(f, s)] *)
Definition subn (r : regex) (f : mtch → str) (s : str) : str * nat :=
  let '(hits, tail) := scan r s in
  (concat (map (λ h, h.1 ++ f h.2) hits) ++ tail, length hits).

Definition sub (r : regex) (f : mtch → str) (s : str) : str := (subn r f s).1.

(** * The matcher computes the first acceptable outcome *)

Fixpoint first_some {A B} (k : A → option B) (l : list A) : option B :=
  match l with
  | [] => None
  | a :: l => match k a with Some b => Some b | None => first_some k l end
  end.

Lemma first_some_app {A B} (k : A → option B) l1 l2 :
  first_some k (l1 ++ l2) =
  match first_some k l1 with Some b => Some b | None => first_some k l2 end.
Proof. induction l1 as [|a l1 IH]; cbn; [done|]. by destruct (k a). Qed.

Lemma first_some_bind {A B C} (k : B → option C) (f : A → list B) l :
  first_some k (l ≫= f) = first_some (λ a, first_some k (f a)) l.
Proof.
  induction l as [|a l IH]; [done|]. cbn. rewrite first_some_app.
  destruct (first_some k (f a)); [done|]. apply IH.
Qed.

Lemma first_some_fmap {A B C} (k : B → option C) (f : A → B) l :
  first_some k (f <$> l) = first_some (λ a, k (f a)) l.
Proof. induction l as [|a l IH]; [done|]. cbn. by destruct (k (f a)). Qed.

Lemma first_some_ext {A B} (k1 k2 : A → option B) l :
  (∀ a, k1 a = k2 a) → first_some k1 l = first_some k2 l.
Proof. intros H. induction l as [|a l IH]; cbn; [done|]. by rewrite H, IH. Qed.

Lemma first_some_None {A B} (k : A → option B) l :
  first_some k l = None ↔ ∀ a, a ∈ l → k a = None.
Proof.
  induction l as [|a l IH]; cbn.
  - split; [|done]. intros _ a Ha. by apply elem_of_nil in Ha.
  - setoid_rewrite elem_of_cons. destruct (k a) eqn:E.
    + split; [done|]. intros H. specialize (H a). rewrite H in E; auto.
    + rewrite IH. naive_solver.
Qed.

Lemma first_some_Some {A B} (k : A → option B) l b :
  first_some k l = Some b → ∃ a, a ∈ l ∧ k a = Some b.
Proof.
  induction l as [|a l IH]; cbn; [done|].
  destruct (k a) eqn:E; intros H.
  - injection H as ->. exists a. split; [left|done].
  - destruct (IH H) as (a' & ? & ?). exists a'. split; [by right|done].
Qed.

Lemma first_some_id {A} (l : list A) : first_some Some l = head l.
Proof. by destruct l. Qed.

(** Continuations are only used pointwise. *)
Lemma run_star_outcomes step outs greedy :
  (∀ st k, step st k = first_some k (outs st)) →
  ∀ n st k, run_star step greedy n st k = first_some k (star_outcomes outs greedy n st).
Proof.
  intros Hstep n. induction n as [|n IH]; intros st k; cbn.
  { by destruct (k st). }
  assert (step st (λ st', if progress st st' then run_star step greedy n st' k else None)
    = first_some k (outs st ≫= λ st', if progress st st'
        then star_outcomes outs greedy n st' else [])) as ->.
  { rewrite Hstep, first_some_bind. apply first_some_ext. intros a.
    destruct (progress st a); [apply IH|done]. }
  destruct greedy; cbn; [|done].
  rewrite first_some_app. cbn.
  destruct (first_some k _); [done|]. by destruct (k st).
Qed.

Lemma run_outcomes r st k : run r st k = first_some k (outcomes r st).
Proof.
  revert st k. induction r as [|f|r1 IH1 r2 IH2|r1 IH1 r2 IH2|g r IH|n r IH|a|r IH];
    intros st k; cbn -[star_outcomes run_star].
  - by destruct (k st).
  - destruct (after st) as [|c t]; [done|]. destruct (f c); [|done].
    cbn. by destruct (k _).
  - rewrite IH1, first_some_bind. by apply first_some_ext.
  - by rewrite IH1, IH2, first_some_app.
  - by apply run_star_outcomes.
  - by rewrite IH, first_some_fmap.
  - destruct (holds a st); [|done]. cbn. by destruct (k st).
  - rewrite IH, first_some_id. destruct (outcomes r st); [|done]. cbn. by destruct (k st).
Qed.

(** * Outcomes advance through the text *)

(** [st'] lies at or behind [st] in the same text. *)
Definition extends (st st' : cursor) : Prop :=
  ∃ t, after st = t ++ after st' ∧ before st' = rev t ++ before st.

Lemma extends_refl st : extends st st.
Proof. by exists []. Qed.

Lemma extends_trans st1 st2 st3 : extends st1 st2 → extends st2 st3 → extends st1 st3.
Proof.
  intros (t1 & Ha1 & Hb1) (t2 & Ha2 & Hb2). exists (t1 ++ t2).
  rewrite Ha1, Ha2, Hb2, Hb1, rev_app_distr. by rewrite !(assoc_L (++)).
Qed.

Lemma extends_capture n st0 st st' : extends st st' → extends st (capture n st0 st').
Proof. done. Qed.

#[export] Hint Resolve extends_refl extends_capture : text.

Lemma extends_consumed st st' :
  extends st st' → after st = consumed st st' ++ after st' ∧
    before st' = rev (consumed st st') ++ before st.
Proof.
  intros (t & Ha & Hb). unfold consumed. rewrite Ha, length_app.
  replace (length t + length (after st') - length (after st')) with (length t) by lia.
  rewrite take_app_length. done.
Qed.

Lemma extends_length st st' : extends st st' → length (after st') ≤ length (after st).
Proof. intros (t & -> & _). rewrite length_app. lia. Qed.

Lemma den_extends r st st' : den r st st' → extends st st'.
Proof.
  revert st st'. induction r as [|f|r1 IH1 r2 IH2|r1 IH1 r2 IH2|g r IH|n r IH|a|r IH];
    intros st st'; cbn.
  - intros ->. auto with text.
  - intros (c & t & Ha & _ & ->). exists [c]. by rewrite Ha.
  - intros (m & H1 & H2). eapply extends_trans; eauto.
  - intros [H|H]; auto.
  - induction 1 as [x|x y z [Hxy _] _ IHz]; [auto with text|].
    eapply extends_trans; eauto.
  - intros (m & H & ->). apply extends_capture; auto.
  - intros (_ & ->). auto with text.
  - intros (_ & ->). auto with text.
Qed.

(** The outcomes are exactly the ends the pattern denotes: in particular the
    number of rounds allotted to a repetition is enough. *)
Lemma star_outcomes_den r greedy :
  (∀ st st', st' ∈ outcomes r st ↔ den r st st') →
  ∀ n st st', length (after st) < n →
    st' ∈ star_outcomes (outcomes r) greedy n st ↔ den (RStar greedy r) st st'.
Proof.
  intros IH n. induction n as [|n IHn]; intros st st' Hn; [lia|].
  assert (st' ∈ star_outcomes (outcomes r) greedy (S n) st ↔
    st' = st ∨ ∃ m, den r st m ∧ progress st m = true ∧
      st' ∈ star_outcomes (outcomes r) greedy n m) as ->.
  { assert (st' ∈ (outcomes r st ≫= λ m,
        if progress st m then star_outcomes (outcomes r) greedy n m else []) ↔
      ∃ m, den r st m ∧ progress st m = true ∧
        st' ∈ star_outcomes (outcomes r) greedy n m) as Hmore.
    { rewrite list_elem_of_bind. split.
      - intros (m & Hin & Hm). destruct (progress st m) eqn:E; [|set_solver].
        exists m. by rewrite <- IH.
      - intros (m & Hm & Hp & Hin). exists m. by rewrite Hp, IH. }
    cbn. destruct greedy; rewrite ?elem_of_app, ?elem_of_cons, Hmore, ?elem_of_nil; tauto. }
  cbn. split.
  - intros [->|(m & H1 & H2 & H3)]; [by apply rtc_refl|].
    eapply rtc_l; [split; eassumption|]. apply IHn; [|done].
    unfold progress in H2. apply Nat.ltb_lt in H2. lia.
  - intros H. apply rtc_inv in H as [->|(m & [H1 H2] & H)]; [by left|].
    right. exists m. split_and!; [done..|]. apply IHn; [|done].
    unfold progress in H2. apply Nat.ltb_lt in H2. lia.
Qed.

Lemma outcomes_den r st st' : st' ∈ outcomes r st ↔ den r st st'.
Proof.
  revert st st'. induction r as [|f|r1 IH1 r2 IH2|r1 IH1 r2 IH2|g r IH|n r IH|a|r IH];
    intros st st'; cbn -[star_outcomes].
  - apply list_elem_of_singleton.
  - destruct (after st) as [|c t]; [rewrite elem_of_nil; naive_solver|].
    destruct (f c) eqn:E; [rewrite list_elem_of_singleton|rewrite elem_of_nil].
    + split; [intros ->; eauto|by intros (? & ? & [= <- <-] & _ & ->)].
    + split; [done|]. intros (? & ? & [= <- <-] & ? & _). congruence.
  - rewrite list_elem_of_bind. setoid_rewrite IH1. setoid_rewrite IH2. naive_solver.
  - by rewrite elem_of_app, IH1, IH2.
  - apply star_outcomes_den; [done|lia].
  - rewrite list_elem_of_fmap. setoid_rewrite IH. naive_solver.
  - destruct (holds a st); rewrite ?list_elem_of_singleton, ?elem_of_nil; naive_solver.
  - setoid_rewrite <-IH. destruct (outcomes r st) as [|m l].
    + rewrite list_elem_of_singleton. split; [|by intros [_ ->]].
      intros ->. split; [|done]. intros (m & Hm). by apply elem_of_nil in Hm.
    + rewrite elem_of_nil. split; [done|]. intros [H _]. destruct H. exists m. left.
Qed.

(** A search with an accepting continuation. *)
Lemma run_Some r st k st' :
  run r st k = Some st' → ∃ m, den r st m ∧ k m = Some st'.
Proof.
  rewrite run_outcomes. intros (m & Hm & Hk)%first_some_Some.
  exists m. by rewrite <- outcomes_den.
Qed.

Lemma run_None r st k : run r st k = None ↔ ∀ m, den r st m → k m = None.
Proof. rewrite run_outcomes, first_some_None. by setoid_rewrite outcomes_den. Qed.

(** * The matches of a text *)

Definition at_pos (bef aft : str) : cursor := Cursor bef aft [].

Lemma accept_Some must st m st' :
  accept must st m = Some st' → st' = m ∧ (must = true → progress st m = true).
Proof.
  unfold accept. destruct must, (progress st m); cbn; naive_solver.
Qed.

(** What [search_from] finds: the skipped text, then a match of the pattern. *)
Lemma search_from_Some r must bef aft gap0 gap m st' :
  search_from r must bef aft gap0 = Some (gap, m, st') →
  ∃ skipped rest st,
    gap = rev gap0 ++ skipped ∧ aft = skipped ++ rest ∧
    st = at_pos (rev skipped ++ bef) rest ∧ den r st st' ∧ m = to_match st st' ∧
    (must = true → skipped = [] → progress st st' = true).
Proof.
  revert must bef gap0. induction aft as [|c aft IH]; intros must bef gap0; cbn.
  all: destruct (run r _ _) as [st1|] eqn:E.
  2: done.
  1, 2: intros [= <- <- <-]; apply run_Some in E as (m' & Hden & [-> Hp]%accept_Some).
  1: exists [], [], (at_pos bef []). 2: exists [], (c :: aft), (at_pos bef (c :: aft)).
  1, 2: rewrite app_nil_r; split_and!; auto.
  intros H. apply IH in H as (skipped & rest & st & -> & -> & -> & Hden & -> & _).
  exists (c :: skipped), rest, (at_pos (rev (c :: skipped) ++ bef) rest). cbn.
  rewrite <- !(assoc_L (++)). by split_and!; auto.
Qed.

(** It is the leftmost one. *)
Lemma search_from_leftmost r bef aft gap0 gap m st' p q :
  search_from r false bef aft gap0 = Some (gap, m, st') →
  aft = p ++ q → length p < length gap - length gap0 →
  ∀ st, ¬ den r (at_pos (rev p ++ bef) q) st.
Proof.
  revert bef gap0 p. induction aft as [|c aft IH]; intros bef gap0 p; cbn;
    destruct (run r _ _) as [st1|] eqn:E; try done.
  - intros [= <- <- <-] _. rewrite length_rev. lia.
  - intros [= <- <- <-] _. rewrite length_rev. lia.
  - intros H Hpq Hlen st Hden. destruct p as [|c' p]; cbn in *.
    + subst q. rewrite run_None in E. specialize (E _ Hden). by cbn in E.
    + injection Hpq as <- ->. revert Hden. rewrite <- (assoc_L (++)).
      eapply IH; [done|done|cbn; lia].
Qed.

Lemma search_from_None r bef aft gap0 p q :
  search_from r false bef aft gap0 = None → aft = p ++ q →
  ∀ st, ¬ den r (at_pos (rev p ++ bef) q) st.
Proof.
  revert bef gap0 p. induction aft as [|c aft IH]; intros bef gap0 p; cbn;
    destruct (run r _ _) as [st1|] eqn:E; try done; intros H Hpq st Hden.
  - destruct p; [|done]. cbn in *. subst q. rewrite run_None in E.
    specialize (E _ Hden). by cbn in E.
  - destruct p as [|c' p]; cbn in *.
    + subst q. rewrite run_None in E. specialize (E _ Hden). by cbn in E.
    + injection Hpq as <- ->. revert Hden. rewrite <- (assoc_L (++)). by eapply IH.
Qed.

(** [scan] splits the text: gaps and matches, in order, make it up again. *)
Definition unscan (f : mtch → str) (sc : list (str * mtch) * str) : str :=
  concat (map (λ h, h.1 ++ f h.2) sc.1) ++ sc.2.

(** Every match starts where the gap before it ends. *)
Fixpoint placed (p : nat) (hits : list (str * mtch)) : Prop :=
  match hits with
  | [] => True
  | (gap, m) :: hits => m_start m = p + length gap ∧ placed (m_end m) hits
  end.

(** A match of [r] in the text [s], with the positions where it starts and ends. *)
Definition is_match (r : regex) (s : str) (m : mtch) : Prop :=
  ∃ p q st', s = p ++ q ∧ den r (at_pos (rev p) q) st' ∧ m = to_match (at_pos (rev p) q) st'.

Lemma search_from_step r must bef aft gap m st' :
  search_from r must bef aft [] = Some (gap, m, st') →
  aft = gap ++ m_text m ++ after st' ∧
  before st' = rev (gap ++ m_text m) ++ bef ∧
  m_start m = length bef + length gap ∧
  den r (at_pos (rev gap ++ bef) (m_text m ++ after st')) st' ∧
  m = to_match (at_pos (rev gap ++ bef) (m_text m ++ after st')) st' ∧
  (must = true → gap = [] → m_text m ≠ []).
Proof.
  intros (sk & rest & st & -> & -> & -> & Hden & -> & Hp)%search_from_Some. cbn.
  pose proof (den_extends _ _ _ Hden) as Hext.
  destruct (extends_consumed _ _ Hext) as [Ha Hb]. cbn in *.
  rewrite <- Ha. split_and!; try done.
  - by rewrite Hb, rev_app_distr, (assoc_L (++)).
  - rewrite length_app, length_rev. lia.
  - intros Hm Hsk Hc. specialize (Hp Hm Hsk). unfold progress in Hp.
    apply Nat.ltb_lt in Hp. cbn in Hp. rewrite Ha, Hc in Hp. cbn in Hp. lia.
Qed.

Lemma scan_fuel_cover n r must bef aft :
  unscan m_text (scan_fuel n r must bef aft) = aft.
Proof.
  revert must bef aft. induction n as [|n IH]; intros must bef aft; cbn; [done|].
  destruct (search_from r must bef aft []) as [[[gap m] st']|] eqn:E; [|done].
  apply search_from_step in E as (Haft & _).
  specialize (IH (match m_text m with [] => true | _ => false end) (before st') (after st')).
  destruct (scan_fuel _ _ _ _ _) as [hits tail]. unfold unscan in *. cbn in *.
  rewrite <- !(assoc_L (++)), IH. by rewrite Haft.
Qed.

Lemma scan_cover r s : unscan m_text (scan r s) = s.
Proof. apply scan_fuel_cover. Qed.

Lemma scan_fuel_placed n r must bef aft :
  placed (length bef) (scan_fuel n r must bef aft).1.
Proof.
  revert must bef aft. induction n as [|n IH]; intros must bef aft; cbn; [done|].
  destruct (search_from r must bef aft []) as [[[gap m] st']|] eqn:E; [|done].
  apply search_from_step in E as (_ & Hbef & Hstart & _).
  specialize (IH (match m_text m with [] => true | _ => false end) (before st') (after st')).
  destruct (scan_fuel _ _ _ _ _) as [hits tail]. cbn in *. split; [done|].
  replace (m_end m) with (length (before st')); [done|].
  unfold m_end. rewrite Hbef, length_app, length_rev, length_app. lia.
Qed.

Lemma scan_placed r s : placed 0 (scan r s).1.
Proof. apply (scan_fuel_placed _ r false []). Qed.

Lemma scan_fuel_is_match n r must bef aft h :
  h ∈ (scan_fuel n r must bef aft).1 → is_match r (rev bef ++ aft) h.2.
Proof.
  revert must bef aft. induction n as [|n IH]; intros must bef aft; cbn.
  { by intros ?%elem_of_nil. }
  destruct (search_from r must bef aft []) as [[[gap m] st']|] eqn:E; [|by intros ?%elem_of_nil].
  apply search_from_step in E as (Haft & Hbef & _ & Hden & Hm & _).
  specialize (IH (match m_text m with [] => true | _ => false end) (before st') (after st')).
  destruct (scan_fuel _ _ _ _ _) as [hits tail]. cbn in *.
  intros [->|Hin]%elem_of_cons.
  - exists (rev bef ++ gap), (m_text m ++ after st'), st'. cbn.
    rewrite rev_app_distr, rev_involutive. split_and!; [|done..].
    by rewrite Haft, <- (assoc_L (++)).
  - specialize (IH Hin). rewrite Hbef, rev_app_distr, rev_involutive in IH.
    rewrite Haft. by rewrite <- !(assoc_L (++)) in *.
Qed.

Lemma scan_is_match r s h : h ∈ (scan r s).1 → is_match r s h.2.
Proof. apply (scan_fuel_is_match _ r false []). Qed.

Lemma finditer_is_match r s m : m ∈ finditer r s → is_match r s m.
Proof. intros (h & -> & Hh)%list_elem_of_fmap. by apply scan_is_match in Hh. Qed.

Lemma search_is_match r s m : search r s = Some m → is_match r s m.
Proof.
  unfold search. destruct (search_from r false [] s []) as [[[gap m'] st']|] eqn:E; [|done].
  intros [= <-]. apply search_from_step in E as (Hs & _ & _ & Hden & Hm & _).
  exists gap, (m_text m' ++ after st'), st'. rewrite app_nil_r in *. done.
Qed.

(** * The leftmost, first-priority tokenisation *)

(** Patterns that never match the empty text: all the ones the sources scan with. *)
Definition nonempty (r : regex) : Prop := ∀ st st', den r st st' → progress st st' = true.

(** A lower bound of the number of characters a pattern matches. *)
Fixpoint minw (r : regex) : nat :=
  match r with
  | REmpty | RStar _ _ | RAssert _ | RNot _ => 0
  | RClass _ => 1
  | RSeq r1 r2 => minw r1 + minw r2
  | RAlt r1 r2 => minw r1 `min` minw r2
  | RGroup _ r => minw r
  end.

Lemma den_minw r st st' : den r st st' → minw r + length (after st') ≤ length (after st).
Proof.
  revert st st'. induction r as [|f|r1 IH1 r2 IH2|r1 IH1 r2 IH2|g r IH|n r IH|a|r IH];
    intros st st' H.
  5: by apply den_extends, extends_length in H.
  all: cbn in *.
  - by subst.
  - destruct H as (c & t & -> & _ & ->). cbn. lia.
  - destruct H as (m & H1 & H2). apply IH1 in H1. apply IH2 in H2. lia.
  - destruct H as [H|H]; [apply IH1 in H|apply IH2 in H]; lia.
  - destruct H as (m & H & ->). by apply IH in H.
  - by destruct H as (_ & ->).
  - by destruct H as (_ & ->).
Qed.

Lemma minw_nonempty r : 0 < minw r → nonempty r.
Proof.
  intros Hr st st' H%den_minw. unfold progress. apply Nat.ltb_lt. lia.
Qed.

Lemma nonempty_end r bef st : nonempty r → ¬ den r (Cursor bef [] []) st.
Proof. intros Hr Hden%Hr. unfold progress in Hden. apply Nat.ltb_lt in Hden. cbn in Hden. lia. Qed.

(** No match starts inside [gap], which [rest] follows. *)
Definition no_match_in (r : regex) (bef gap rest : str) : Prop :=
  ∀ p q st, gap = p ++ q → q ≠ [] → ¬ den r (at_pos (rev p ++ bef) (q ++ rest)) st.

Inductive Scanned (r : regex) : str → str → list (str * mtch) → str → Prop :=
  | Scanned_end bef aft :
      (∀ p q st, aft = p ++ q → ¬ den r (at_pos (rev p ++ bef) q) st) →
      Scanned r bef aft [] aft
  | Scanned_hit bef gap text rest st' hits tail :
      no_match_in r bef gap (text ++ rest) →
      head (outcomes r (at_pos (rev gap ++ bef) (text ++ rest))) = Some st' →
      after st' = rest →
      text ≠ [] →
      Scanned r (rev (gap ++ text) ++ bef) rest hits tail →
      Scanned r bef (gap ++ text ++ rest)
        ((gap, Match (length bef + length gap) text (caps st')) :: hits) tail.

Lemma run_accept r must st :
  nonempty r → run r st (accept must st) = run r st Some.
Proof.
  intros Hr. rewrite !run_outcomes.
  assert (∀ a, a ∈ outcomes r st → accept must st a = Some a) as H.
  { intros a Ha%outcomes_den%Hr. unfold accept. rewrite Ha. by destruct must. }
  destruct (outcomes r st) as [|a l]; [done|]. cbn. rewrite H; [done|left].
Qed.

Lemma search_from_must r must bef aft gap :
  nonempty r → search_from r must bef aft gap = search_from r false bef aft gap.
Proof. intros Hr. destruct aft; cbn; by rewrite !run_accept. Qed.

Lemma search_from_first r bef aft gap0 gap m st' :
  nonempty r → search_from r false bef aft gap0 = Some (gap, m, st') →
  ∃ sk rest, gap = rev gap0 ++ sk ∧ aft = sk ++ rest ∧
    head (outcomes r (at_pos (rev sk ++ bef) rest)) = Some st'.
Proof.
  intros Hr. revert bef gap0. induction aft as [|c aft IH]; intros bef gap0; cbn.
  all: rewrite run_accept, run_outcomes, first_some_id by done.
  all: destruct (head _) as [st1|] eqn:E.
  - intros [= <- <- <-]. exists [], []. by rewrite app_nil_r.
  - done.
  - intros [= <- <- <-]. exists [], (c :: aft). by rewrite app_nil_r.
  - intros (sk & rest & -> & -> & Hst)%IH. exists (c :: sk), rest. cbn.
    by rewrite <- !(assoc_L (++)).
Qed.

Lemma scan_fuel_spec n r must bef aft :
  nonempty r → length aft < n →
  Scanned r bef aft (scan_fuel n r must bef aft).1 (scan_fuel n r must bef aft).2.
Proof.
  intros Hr. revert must bef aft. induction n as [|n IH]; intros must bef aft Hn; [lia|].
  cbn. rewrite search_from_must by done.
  destruct (search_from r false bef aft []) as [[[gap m] st']|] eqn:E.
  2: { constructor. intros p q st Hpq. by eapply search_from_None. }
  pose proof (search_from_step _ _ _ _ _ _ _ E) as (Haft & Hbef & Hst & Hden & Hm & _).
  pose proof (Hr _ _ Hden) as Hp. unfold progress in Hp. apply Nat.ltb_lt in Hp. cbn in Hp.
  rewrite length_app in Hp.
  set (must' := match m_text m with [] => true | _ => false end).
  assert (length (after st') < n) as Hlt by (rewrite Haft, !length_app in Hn; lia).
  specialize (IH must' (before st') (after st') Hlt).
  destruct (scan_fuel n r must' (before st') (after st')) as [hits tail]. cbn in *.
  replace m with (Match (length bef + length gap) (m_text m) (caps st'))
    by (rewrite <- Hst; by rewrite Hm). rewrite Haft.
  eapply Scanned_hit; [| |done| |by rewrite <- Hbef].
  - intros p q st -> Hq. rewrite (assoc_L (++)). rewrite <- (assoc_L (++)) in Haft.
    eapply search_from_leftmost; [done|by rewrite Haft, <- (assoc_L (++))|].
    rewrite length_app. destruct q; [done|cbn; lia].
  - apply search_from_first in E as (sk & rest & -> & Haft' & Hhd); [|done].
    cbn in *. rewrite Haft in Haft'. apply (inj (app sk)) in Haft' as ->. done.
  - intros Hc. rewrite Hc in Hp. cbn in Hp. lia.
Qed.

Lemma scan_spec r s : nonempty r → Scanned r [] s (scan r s).1 (scan r s).2.
Proof. intros Hr. apply scan_fuel_spec; [done|lia]. Qed.

(** * Concrete patterns *)

Lemma den_rlit_list t st st' :
  den (rseq (map RChar t)) st st' ↔
  ∃ rest, after st = t ++ rest ∧ st' = Cursor (rev t ++ before st) rest (caps st).
Proof.
  revert st. induction t as [|c t IH]; intros st; cbn.
  - split; [intros ->; exists (after st); by destruct st|].
    intros (rest & <- & ->). by destruct st.
  - setoid_rewrite IH. split.
    + intros (m & (c' & t' & Ha & Hc & ->) & rest & Hr & ->). cbn in *.
      apply Ascii.eqb_eq in Hc as <-. exists rest.
      rewrite Ha, Hr, <- (assoc_L (++)). done.
    + intros (rest & Ha & ->). eexists. split.
      { exists c, (t ++ rest). split_and!; [done| |reflexivity]. apply Ascii.eqb_refl. }
      cbn. exists rest. by rewrite <- (assoc_L (++)).
Qed.

Lemma den_rlit s st st' :
  den (rlit s) st st' ↔
  ∃ rest, after st = lit s ++ rest ∧ st' = Cursor (rev (lit s) ++ before st) rest (caps st).
Proof. apply den_rlit_list. Qed.

(** A repeated character class takes a run of the class. *)
Lemma den_star_class g f st st' :
  den (RStar g (RClass f)) st st' ↔
  ∃ t rest, after st = t ++ rest ∧ forallb f t = true ∧
    st' = Cursor (rev t ++ before st) rest (caps st).
Proof.
  cbn. split.
  - induction 1 as [x|x y z [(c & t & Ha & Hf & ->) _] _ (t' & rest & Ha' & Hf' & ->)].
    + exists [], (after x). by destruct x.
    + cbn in *. exists (c :: t'), rest. cbn. rewrite Hf, Hf', Ha, Ha', <- (assoc_L (++)). done.
  - intros (t & rest & Ha & Hf & ->). revert st Ha.
    induction t as [|c t IH]; intros st Ha; cbn in *.
    + subst. destruct st. apply rtc_refl.
    + apply andb_true_iff in Hf as [Hc Hf]. rewrite <- (assoc_L (++)).
      eapply rtc_l; [|apply (IH Hf (Cursor (c :: before st) (t ++ rest) (caps st)) eq_refl)].
      split; [eauto 6|]. unfold progress. rewrite Ha. apply Nat.ltb_lt. cbn. lia.
Qed.

Lemma den_plus_class f st st' :
  den (RPlus (RClass f)) st st' ↔
  ∃ t rest, after st = t ++ rest ∧ t ≠ [] ∧ forallb f t = true ∧
    st' = Cursor (rev t ++ before st) rest (caps st).
Proof.
  split.
  - intros (m & (c & t & Ha & Hc & ->) & Hs). apply den_star_class in Hs
      as (t' & rest & Ha' & Ht' & ->). cbn in *. exists (c :: t'), rest. cbn.
    rewrite Ha, Ha', Hc, Ht', <- (assoc_L (++)). done.
  - intros ([|c t] & rest & Ha & Hne & Ht & ->); [done|]. cbn in Ht.
    apply andb_true_iff in Ht as [Hc Ht].
    exists (Cursor (c :: before st) (t ++ rest) (caps st)). split; [cbn; eauto 6|].
    apply den_star_class. exists t, rest. cbn. by rewrite <- (assoc_L (++)).
Qed.

Lemma sub_unscan r f s : sub r f s = unscan f (scan r s).
Proof. unfold sub, subn, unscan. by destruct (scan r s). Qed.

(** Replacing every match by itself changes nothing. *)
Lemma sub_id r s : sub r m_text s = s.
Proof. rewrite sub_unscan. apply scan_cover. Qed.

Lemma length_finditer r f s : (subn r f s).2 = length (finditer r s).
Proof. unfold subn, finditer. destruct (scan r s). by rewrite length_map. Qed.

Lemma search_nil_finditer r s :
  nonempty r → search r s = None → finditer r s = [].
Proof.
  unfold search, finditer, scan. intros Hr.
  replace (2 * length s + 2) with (S (2 * length s + 1)) by lia. cbn.
  by destruct (search_from r false [] s []) as [[[??]?]|].
Qed.

(** * Where the matches lie *)

(** The hits cover the text [s] from position [p] on: gaps and matches are its slices. *)
Fixpoint laid_out (s : str) (p : nat) (hits : list (str * mtch)) (tail : str) : Prop :=
  match hits with
  | [] => drop p s = tail
  | (gap, m) :: hits =>
      p ≤ m_start m ∧ m_end m ≤ length s ∧
      slice p (m_start m) s = gap ∧ slice (m_start m) (m_end m) s = m_text m ∧
      laid_out s (m_end m) hits tail
  end.

Lemma unscan_laid_out s bef hits tail :
  s = bef ++ unscan m_text (hits, tail) → placed (length bef) hits →
  laid_out s (length bef) hits tail.
Proof.
  revert bef. induction hits as [|[gap m] hits IH]; intros bef Hs Hp; cbn in *.
  { by rewrite Hs, drop_app_length. }
  destruct Hp as [Hst Hp]. unfold unscan in Hs. cbn in Hs.
  rewrite <- !(assoc_L (++)) in Hs. unfold m_end in *. rewrite Hst in *.
  set (rest := concat _ ++ tail) in Hs.
  split_and!.
  - lia.
  - rewrite Hs, !length_app. lia.
  - rewrite Hs. apply slice_app_mid.
  - rewrite Hs. rewrite (assoc_L (++)), <- length_app. apply slice_app_mid.
  - rewrite <- !length_app. apply IH; [|by rewrite !length_app].
    by rewrite Hs, <- !(assoc_L (++)).
Qed.

Lemma scan_laid_out r s : laid_out s 0 (scan r s).1 (scan r s).2.
Proof.
  apply (unscan_laid_out s []); [|apply scan_placed].
  rewrite <- (scan_cover r s) at 1. by destruct (scan r s).
Qed.

Lemma laid_out_le s p hits tail : p ≤ length s → laid_out s p hits tail →
  ∀ h, h ∈ hits → p ≤ m_start h.2 ∧ m_end h.2 ≤ length s.
Proof.
  revert p. induction hits as [|[gap m] hits IH]; intros p Hp H h Hh;
    [by apply elem_of_nil in Hh|].
  destruct H as (H1 & H2 & _ & _ & H5). apply elem_of_cons in Hh as [->|Hh]; [done|].
  destruct (IH _ H2 H5 h Hh). unfold m_end in *. lia.
Qed.

(** * The specification determines the scan *)

Lemma Scanned_inv r bef aft hits tail :
  Scanned r bef aft hits tail →
  (hits = [] ∧ tail = aft ∧ ∀ p q st, aft = p ++ q → ¬ den r (at_pos (rev p ++ bef) q) st) ∨
  (∃ gap text st' hits', aft = gap ++ text ++ after st' ∧
     hits = (gap, Match (length bef + length gap) text (caps st')) :: hits' ∧
     no_match_in r bef gap (text ++ after st') ∧
     head (outcomes r (at_pos (rev gap ++ bef) (text ++ after st'))) = Some st' ∧
     Scanned r (rev (gap ++ text) ++ bef) (after st') hits' tail).
Proof.
  destruct 1 as [|bef gap text rest st' hits tail ? ? <-]; [by left|]. right. eauto 10.
Qed.

Lemma head_den r st st' : head (outcomes r st) = Some st' → den r st st'.
Proof. intros H. by apply outcomes_den, head_Some_elem_of. Qed.

(** Two first matches of one text start at the same place. *)
Lemma first_gap r bef gap gap' rest rest' st' :
  no_match_in r bef gap rest → den r (at_pos (rev gap' ++ bef) rest') st' →
  gap ++ rest = gap' ++ rest' → length gap ≤ length gap'.
Proof.
  intros Hno Hden H. destruct (decide (length gap ≤ length gap')) as [|Hlt]; [done|].
  exfalso. assert (∃ k, gap = gap' ++ k) as [k ->].
  { exists (drop (length gap') gap). rewrite <- (take_drop (length gap') gap) at 1. f_equal.
    rewrite <- (take_app_le gap rest) by lia. by rewrite H, take_app_length. }
  rewrite length_app in Hlt. rewrite <- (assoc_L (++)) in H. apply (inj (app gap')) in H.
  eapply (Hno gap' k); [done|by destruct k; cbn in *; [lia|]|by rewrite H].
Qed.

Lemma Scanned_det r bef aft h1 t1 h2 t2 :
  Scanned r bef aft h1 t1 → Scanned r bef aft h2 t2 → h1 = h2 ∧ t1 = t2.
Proof.
  intros H. revert h2 t2.
  induction H as [bef aft Hno|bef gap text rest st' hits tail Hno Hhd Haft Htext H IH];
    intros h2 t2 [(-> & -> & Hno')|(gap' & text' & st2 & hits' & Heq & -> & Hno' & Hhd' & H')]
      %Scanned_inv; [done| | |].
  - exfalso. eapply Hno; [exact Heq|]. by apply head_den.
  - exfalso. eapply Hno'; [reflexivity|]. by apply head_den.
  - assert (length gap = length gap') as Hlen.
    { apply Nat.le_antisymm.
      - eapply first_gap; [exact Hno|by apply head_den|exact Heq].
      - eapply first_gap; [exact Hno'|by apply head_den|by symmetry]. }
    apply app_inj_1 in Heq as [-> Heq]; [|done].
    rewrite Heq, Hhd' in Hhd. injection Hhd as ->. subst rest.
    apply (inj (λ l, l ++ after st')) in Heq as ->.
    destruct (IH _ _ H') as [-> ->]. done.
Qed.

Lemma scan_eq r s hits tail :
  nonempty r → Scanned r [] s hits tail → scan r s = (hits, tail).
Proof.
  intros Hne H. pose proof (scan_spec r s Hne) as H'.
  destruct (Scanned_det _ _ _ _ _ _ _ H H') as [-> ->]. by destruct (scan r s).
Qed.

(** Scanning finds nothing exactly when the pattern matches nowhere. *)
Lemma finditer_nil_iff r s :
  nonempty r →
  finditer r s = [] ↔ ∀ p q st, s = p ++ q → ¬ den r (at_pos (rev p) q) st.
Proof.
  intros Hne. pose proof (scan_spec r s Hne) as H. unfold finditer. split.
  - destruct (scan r s) as [[|h hits] tail]; [|done]. cbn in *. intros _ p q st Hs.
    apply Scanned_inv in H as [(_ & _ & Hno)|(? & ? & ? & ? & _ & [=] & _)].
    specialize (Hno p q st). rewrite app_nil_r in Hno. by apply Hno.
  - intros Hno.
    apply Scanned_inv in H as [(-> & _ & _)|(gap & text & st' & ? & Hs & _ & _ & Hhd & _)];
      [done|].
    exfalso. apply (Hno gap (text ++ after st') st' Hs). apply head_den.
    by rewrite app_nil_r in Hhd.
Qed.

Lemma placed_app p h1 h2 :
  placed p (h1 ++ h2) →
  ∃ p', placed p' h2 ∧ p ≤ p' ∧ ∀ h, h ∈ h1 → p ≤ m_start h.2 ∧ m_end h.2 ≤ p'.
Proof.
  revert p. induction h1 as [|[gap m] h1 IH]; intros p; cbn.
  - intros H. exists p. split_and!; [done|lia|]. by intros h ?%elem_of_nil.
  - intros [Hst (p' & Hp' & Hle & Hall)%IH]. unfold m_end in *. exists p'.
    split_and!; [done|lia|]. intros h [->|Hh]%elem_of_cons; cbn; [lia|].
    specialize (Hall h Hh). lia.
Qed.

(** Matches come in order and do not overlap. *)
Lemma finditer_ordered r s pre m suf m' :
  finditer r s = pre ++ m :: suf → m' ∈ pre → m_end m' ≤ m_start m.
Proof.
  unfold finditer. intros H Hin. pose proof (scan_placed r s) as Hp.
  apply fmap_app_inv in H as (h1 & h2 & -> & Hh2 & Hh).
  rewrite Hh in Hp. apply list_elem_of_fmap in Hin as (h & -> & Hin).
  destruct h2 as [|h2 ?]; [done|]. cbn in Hh2. injection Hh2 as -> _.
  apply placed_app in Hp as (p' & Hp' & _ & Hall). specialize (Hall h Hin).
  destruct h2 as [gap m2]. cbn in *. destruct Hp' as [-> _]. lia.
Qed.

(** The parts of a text around a match. *)
Lemma is_match_split r s m :
  is_match r s m → ∃ p q st', s = p ++ m_text m ++ q ∧ m_start m = length p ∧
    den r (at_pos (rev p) (m_text m ++ q)) st' ∧ after st' = q ∧ m_caps m = caps st' ∧
    m = to_match (at_pos (rev p) (m_text m ++ q)) st'.
Proof.
  intros (p & q & st' & -> & Hden & ->).
  pose proof (den_extends _ _ _ Hden) as Hext. apply extends_consumed in Hext as [Hq _].
  exists p, (after st'), st'. cbn [to_match m_text m_start m_caps at_pos before after] in *.
  rewrite <- Hq, length_rev. done.
Qed.

Lemma is_match_slice r s m :
  is_match r s m → m_end m ≤ length s ∧ slice (m_start m) (m_end m) s = m_text m.
Proof.
  intros (p & q & st' & -> & Hst & _)%is_match_split. unfold m_end. rewrite Hst.
  split; [rewrite !length_app; lia|apply slice_app_mid].
Qed.

Lemma is_match_nonempty r s m : nonempty r → is_match r s m → m_text m ≠ [].
Proof.
  intros Hr (p & q & st' & _ & _ & Hden & Hq & _)%is_match_split Hc.
  pose proof (Hr _ _ Hden) as Hp. unfold progress in Hp. apply Nat.ltb_lt in Hp.
  cbn in Hp. rewrite Hc, Hq in Hp. cbn in Hp. lia.
Qed.

(** * Taking a match apart *)

Lemma den_RGroup n r st st' :
  den (RGroup n r) st st' →
  ∃ t mid, den r st mid ∧ after st = t ++ after mid ∧ before mid = rev t ++ before st ∧
    st' = Cursor (before mid) (after mid) ((n, t) :: caps mid).
Proof.
  intros (mid & Hden & ->). exists (consumed st mid), mid.
  pose proof (den_extends _ _ _ Hden) as [Ha Hb]%extends_consumed. done.
Qed.

Lemma den_rlits l st st' :
  den (rlits l) st st' → ∃ s, s ∈ l ∧ den (rlit s) st st'.
Proof.
  unfold rlits. induction l as [|s [|s' l] IH]; cbn [map ralt].
  - intros (? & ? & _ & [=] & _).
  - intros H. exists s. split; [left|done].
  - intros [H|H]; [exists s; split; [left|done]|].
    destruct (IH H) as (s2 & ? & ?). exists s2. split; [by right|done].
Qed.

(** Decompose the derivation of a match of a sequence. *)
Ltac den_inv :=
  repeat match goal with
  | H : den (rlit _) _ _ |- _ => apply den_rlit in H as (? & ? & ->); cbn [before after caps] in *
  | H : den (rlits _) _ _ |- _ => apply den_rlits in H as (? & ? & ?)
  | H : den (RGroup _ _) _ _ |- _ => apply den_RGroup in H as (? & ? & ? & ? & ? & ->); cbn [before after caps] in *
  | H : den (RStar _ (RClass _)) _ _ |- _ => apply den_star_class in H as (? & ? & ? & ? & ->); cbn [before after caps] in *
  | H : den (RPlus (RClass _)) _ _ |- _ => apply den_plus_class in H as (? & ? & ? & ? & ? & ->); cbn [before after caps] in *
  | H : den (RAssert _) _ _ |- _ => destruct H as (? & ->)
  | H : den (rseq (_ :: _)) _ _ |- _ => destruct H as (? & ? & ?)
  | H : den (rseq []) _ _ |- _ => cbn [rseq foldr den] in H; subst
  | H : den REmpty _ _ |- _ => cbn [den] in H; subst
  end.

(** * Running a pattern on a known text *)

Lemma run_rlit_list t bef rest cs k :
  run (rseq (map RChar t)) (Cursor bef (t ++ rest) cs) k = k (Cursor (rev t ++ bef) rest cs).
Proof.
  revert bef. induction t as [|c t IH]; intros bef; [done|]. cbn.
  rewrite Ascii.eqb_refl. rewrite IH. by rewrite <- (assoc_L (++)).
Qed.

Lemma run_rlit s bef rest cs k :
  run (rlit s) (Cursor bef (lit s ++ rest) cs) k = k (Cursor (rev (lit s) ++ bef) rest cs).
Proof. apply run_rlit_list. Qed.

Lemma run_rseq_cons r l st k : run (rseq (r :: l)) st k = run r st (λ st', run (rseq l) st' k).
Proof. done. Qed.

Lemma run_RGroup n r st k : run (RGroup n r) st k = run r st (λ st', k (capture n st st')).
Proof. done. Qed.

(** A greedy repetition of a class first tries the longest run. *)
Lemma run_star_class_longest f t bef rest cs k x :
  forallb f t = true → (∀ c r, rest = c :: r → f c = false) →
  k (Cursor (rev t ++ bef) rest cs) = Some x →
  run (RStar true (RClass f)) (Cursor bef (t ++ rest) cs) k = Some x.
Proof.
  intros Hf Hrest Hk. cbn [run after].
  assert (length (t ++ rest) < S (length (t ++ rest))) as Hn by lia.
  revert Hn Hk. generalize (S (length (t ++ rest))) as n. revert bef Hf.
  induction t as [|c t IH]; intros bef Hf n Hn Hk; (destruct n as [|n]; [lia|]); cbn.
  - cbn in Hk. destruct rest as [|c r]; cbn; [by rewrite Hk|].
    rewrite (Hrest c r) by done. by rewrite Hk.
  - cbn in Hf. apply andb_true_iff in Hf as [-> Hf].
    assert (progress (Cursor bef (c :: t ++ rest) cs) (Cursor (c :: bef) (t ++ rest) cs) = true)
      as ->. { unfold progress. apply Nat.ltb_lt. cbn. lia. }
    rewrite IH; [done|done|cbn in Hn; lia|]. by rewrite <- Hk; cbn; rewrite <- (assoc_L (++)).
Qed.

Lemma run_plus_class_longest f t bef rest cs k x :
  t ≠ [] → forallb f t = true → (∀ c r, rest = c :: r → f c = false) →
  k (Cursor (rev t ++ bef) rest cs) = Some x →
  run (RPlus (RClass f)) (Cursor bef (t ++ rest) cs) k = Some x.
Proof.
  intros Hne Hf Hrest Hk. destruct t as [|c t]; [done|]. cbn in Hf. apply andb_true_iff in Hf as [Hc Hf].
  unfold RPlus. change (run (RSeq ?r1 ?r2) ?st ?k) with (run r1 st (λ st', run r2 st' k)).
  cbn [run after app before caps]. rewrite Hc.
  apply (run_star_class_longest f t); [done|done|]. cbn in Hk. by rewrite <- (assoc_L (++)) in Hk.
Qed.

Lemma consumed_app bef bef' t rest cs cs' :
  consumed (Cursor bef (t ++ rest) cs) (Cursor bef' rest cs') = t.
Proof.
  unfold consumed. cbn [after]. rewrite length_app, Nat.add_sub. apply take_app_length.
Qed.

(** A group around such a repetition captures the run. *)
Lemma run_group_plus_longest n f t bef rest cs k x :
  t ≠ [] → forallb f t = true → (∀ c r, rest = c :: r → f c = false) →
  k (Cursor (rev t ++ bef) rest ((n, t) :: cs)) = Some x →
  run (RGroup n (RPlus (RClass f))) (Cursor bef (t ++ rest) cs) k = Some x.
Proof.
  intros Hne Hf Hrest Hk. rewrite run_RGroup. apply run_plus_class_longest; [done..|].
  unfold capture. by rewrite consumed_app.
Qed.

Lemma run_group_star_longest n f t bef rest cs k x :
  forallb f t = true → (∀ c r, rest = c :: r → f c = false) →
  k (Cursor (rev t ++ bef) rest ((n, t) :: cs)) = Some x →
  run (RGroup n (RStar true (RClass f))) (Cursor bef (t ++ rest) cs) k = Some x.
Proof.
  intros Hf Hrest Hk. rewrite run_RGroup. apply run_star_class_longest; [done..|].
  unfold capture. by rewrite consumed_app.
Qed.

Lemma match_start_run r s st' :
  run r (Cursor [] s []) Some = Some st' → match_start r s = Some (to_match (Cursor [] s []) st').
Proof. intros H. unfold match_start. by rewrite H. Qed.

(** A match at the start of the text is the first one. *)
Lemma search_run r s st' :
  run r (Cursor [] s []) Some = Some st' → search r s = Some (to_match (Cursor [] s []) st').
Proof.
  intros H. unfold search. assert (search_from r false [] s [] =
    Some ([], to_match (Cursor [] s []) st', st')) as ->; [|done].
  destruct s; cbn [search_from]; unfold accept; cbn [andb];
    change (λ st'0, Some st'0) with (@Some cursor); by rewrite H.
Qed.

Lemma run_star_class_step f n c bef aft cs k :
  run_star (run (RClass f)) true (S n) (Cursor bef (c :: aft) cs) k =
  match (if f c then run_star (run (RClass f)) true n (Cursor (c :: bef) aft cs) k else None) with
  | Some x => Some x
  | None => k (Cursor bef (c :: aft) cs)
  end.
Proof.
  cbn. destruct (f c); [|done].
  assert (progress (Cursor bef (c :: aft) cs) (Cursor (c :: bef) aft cs) = true) as ->; [|done].
  unfold progress. apply Nat.ltb_lt. cbn. lia.
Qed.

Lemma run_star_class_nil f n bef cs k :
  run_star (run (RClass f)) true (S n) (Cursor bef [] cs) k = k (Cursor bef [] cs).
Proof. done. Qed.

Lemma run_star_class_None f n bef aft cs k :
  length aft < n → run_star (run (RClass f)) true n (Cursor bef aft cs) k = None →
  ∀ t rest, aft = t ++ rest → forallb f t = true → k (Cursor (rev t ++ bef) rest cs) = None.
Proof.
  revert bef aft. induction n as [|n IH]; intros bef aft Hn; [lia|]. destruct aft as [|c aft].
  - rewrite run_star_class_nil. by intros Hk [] [].
  - rewrite run_star_class_step. intros H [|c2 t] rest Heq Hf.
    + cbn in Heq. subst rest. by destruct (if f c then _ else None).
    + cbn in Heq, Hf. injection Heq as <- ->. apply andb_true_iff in Hf as [Hc Hf]. rewrite Hc in H.
      destruct (run_star _ _ _ _ _) as [|] eqn:E in H; [done|].
      cbn [rev]. rewrite <- (assoc_L (++)). apply (IH (c :: bef) (t ++ rest)); [cbn in Hn; lia|done..].
Qed.

Lemma run_star_class_Some f n bef aft cs k x :
  length aft < n → run_star (run (RClass f)) true n (Cursor bef aft cs) k = Some x →
  ∃ t rest, aft = t ++ rest ∧ k (Cursor (rev t ++ bef) rest cs) = Some x ∧
    ∀ t2 rest2, rest = t2 ++ rest2 → t2 ≠ [] → forallb f t2 = true →
      k (Cursor (rev t2 ++ rev t ++ bef) rest2 cs) = None.
Proof.
  revert bef aft. induction n as [|n IH]; intros bef aft Hn; [lia|]. destruct aft as [|c aft].
  { rewrite run_star_class_nil. intros Hk. exists [], []. split_and!; [done|exact Hk|]. by intros [] ? ?. }
  rewrite run_star_class_step. cbn in Hn. destruct (f c) eqn:Ef.
  - destruct (run_star _ _ _ _ _) as [y|] eqn:E.
    + intros [= ->]. destruct (IH (c :: bef) aft ltac:(lia) E) as (t & rest & -> & Hk & Hno).
      exists (c :: t), rest. cbn [rev]. rewrite <- (assoc_L (++)). split_and!; [done|exact Hk|exact Hno].
    + intros Hk. exists [], (c :: aft). split_and!; [done|exact Hk|].
      intros [|c2 t2] rest2 H1 H2 H3; [done|]. injection H1 as <- ->. cbn in H3 |- *.
      apply andb_true_iff in H3 as [_ H3]. rewrite <- (assoc_L (++)).
      apply (run_star_class_None f n (c :: bef) (t2 ++ rest2) cs k); [lia|done..].
  - intros Hk. exists [], (c :: aft). split_and!; [done|exact Hk|].
    intros [|c2 t2] rest2 H1 H2 H3; [done|]. injection H1 as <- ->. cbn in H3. by rewrite Ef in H3.
Qed.

(** Backtracking order: where a greedy repetition of a class stops, nothing that it could
    still take leads to a match. *)
Lemma run_star_class_first f bef aft cs k x :
  run (RStar true (RClass f)) (Cursor bef aft cs) k = Some x →
  ∃ t rest, aft = t ++ rest ∧ k (Cursor (rev t ++ bef) rest cs) = Some x ∧
    ∀ t2 rest2, rest = t2 ++ rest2 → t2 ≠ [] → forallb f t2 = true →
      k (Cursor (rev t2 ++ rev t ++ bef) rest2 cs) = None.
Proof. apply (run_star_class_Some f (S (length aft))). lia. Qed.

(** Each reported match is what the matcher finds where it starts. *)
Definition run_match (r : regex) (s : str) (m : mtch) : Prop :=
  ∃ must p q st', s = p ++ q ∧
    run r (at_pos (rev p) q) (accept must (at_pos (rev p) q)) = Some st' ∧
    m = to_match (at_pos (rev p) q) st'.

Lemma search_from_run r must bef aft gap0 gap m st' s :
  s = rev bef ++ aft → search_from r must bef aft gap0 = Some (gap, m, st') → run_match r s m.
Proof.
  revert must bef gap0. induction aft as [|c aft IH]; intros must bef gap0 Hs; cbn [search_from];
    destruct (run r _ _) as [st1|] eqn:E; try done.
  - intros [= <- <- <-]. exists must, (rev bef), [], st1. unfold at_pos. by rewrite rev_involutive.
  - intros [= <- <- <-]. exists must, (rev bef), (c :: aft), st1. unfold at_pos. by rewrite rev_involutive.
  - apply IH. cbn [rev]. by rewrite <- (assoc_L (++)).
Qed.

Lemma scan_fuel_run n r must bef aft s h :
  s = rev bef ++ aft → h ∈ (scan_fuel n r must bef aft).1 → run_match r s h.2.
Proof.
  revert must bef aft. induction n as [|n IH]; intros must bef aft Hs; cbn; [by intros ?%elem_of_nil|].
  destruct (search_from r must bef aft []) as [[[gap m] st']|] eqn:E; [|by intros ?%elem_of_nil].
  pose proof (search_from_step _ _ _ _ _ _ _ E) as (Haft & Hbef & _).
  destruct (scan_fuel n r _ (before st') (after st')) as [hits tail] eqn:E2. cbn.
  intros [->|Hin]%elem_of_cons; [by eapply search_from_run|].
  eapply (IH _ (before st') (after st')); [|rewrite E2; exact Hin].
  rewrite Hbef, rev_app_distr, rev_involutive, <- (assoc_L (++)), <- (assoc_L (++)).
  by rewrite Hs, Haft.
Qed.

Lemma finditer_run r s m : m ∈ finditer r s → run_match r s m.
Proof.
  unfold finditer, scan. intros (h & -> & Hin)%list_elem_of_fmap. by eapply scan_fuel_run; [|exact Hin].
Qed.

(** Every place where the pattern matches lies inside some reported match. *)
Lemma Scanned_covers r bef aft hits tail p q st :
  nonempty r → Scanned r bef aft hits tail → aft = p ++ q →
  den r (at_pos (rev p ++ bef) q) st →
  ∃ h, h ∈ hits ∧ m_start h.2 ≤ length bef + length p < m_end h.2.
Proof.
  intros Hne H. revert p q st.
  induction H as [bef aft Hno|bef gap text rest st' hits tail Hno Hhd Haft Htext H IH];
    intros p q st Hpq Hden.
  { by destruct (Hno _ _ _ Hpq Hden). }
  pose proof (first_gap _ _ _ _ _ _ _ Hno Hden Hpq) as Hle.
  destruct (decide (length p < length gap + length text)) as [Hlt|Hge].
  { eexists. split; [left|]. unfold m_end. cbn. lia. }
  assert (∃ p', p = gap ++ text ++ p') as [p' ->].
  { exists (drop (length (gap ++ text)) p).
    rewrite <- (take_drop (length (gap ++ text)) p) at 1.
    rewrite <- (take_app_le p q) by (rewrite length_app; lia).
    rewrite <- Hpq, (assoc_L (++)), take_app_length. by rewrite <- (assoc_L (++)). }
  rewrite <- !(assoc_L (++)) in Hpq. apply (inj (app gap)), (inj (app text)) in Hpq.
  destruct (IH p' q st Hpq) as (h & Hh & Hin).
  { revert Hden. rewrite (assoc_L (++)), rev_app_distr. by rewrite <- (assoc_L (++)). }
  exists h. split; [by right|]. rewrite !length_app, !length_rev in *. rewrite length_app in Hin. lia.
Qed.

Lemma finditer_covers r s p q st :
  nonempty r → s = p ++ q → den r (at_pos (rev p) q) st →
  ∃ m, m ∈ finditer r s ∧ m_start m ≤ length p < m_end m.
Proof.
  intros Hne Hs Hden.
  destruct (Scanned_covers r [] s (scan r s).1 (scan r s).2 p q st) as (h & Hh & Hin); try done.
  - by apply scan_spec.
  - by rewrite app_nil_r.
  - exists h.2. split; [by apply list_elem_of_fmap_2|done].
Qed.
