(* ===== verification/PyDict.v ===== *)
(** Python dictionaries and sorting.  A [dict] keeps its keys in the order of
    their first insertion, and [sorted] is stable, so the order of a table's rows
    with equal keys depends on both: dictionaries are association lists in
    insertion order, and sorting is the stable insertion sort. *)
From S2P Require Import Prelude PyStr.

Section dict.
Context {K V : Type} `{EqDecision K}.

(** [d.get(k)] *)
Fixpoint dget (k : K) (d : list (K * V)) : option V :=
  match d with
  | [] => None
  | (k', v) :: d => if decide (k' = k) then Some v else dget k d
  end.

(** [d[k] = f(d.get(k))]: in place when the key is there, at the end otherwise. *)
Fixpoint dupd (k : K) (f : option V → V) (d : list (K * V)) : list (K * V) :=
  match d with
  | [] => [(k, f None)]
  | (k', v) :: d => if decide (k' = k) then (k', f (Some v)) :: d else (k', v) :: dupd k f d
  end.

(** [d[k] = v] *)
Definition dset (k : K) (v : V) : list (K * V) → list (K * V) := dupd k (λ _, v).

Lemma dget_dupd k f d : dget k (dupd k f d) = Some (f (dget k d)).
Proof.
  induction d as [|[k' v] d IH]; cbn; [by rewrite decide_True|].
  destruct (decide (k' = k)) as [->|Hne]; cbn; [by rewrite decide_True|].
  by rewrite decide_False.
Qed.

Lemma dget_dupd_ne k k' f d : k ≠ k' → dget k' (dupd k f d) = dget k' d.
Proof.
  intros Hne. induction d as [|[k2 v] d IH]; cbn; [by rewrite decide_False|].
  destruct (decide (k2 = k)) as [->|Hne2]; cbn; [by rewrite !decide_False|].
  by rewrite IH.
Qed.

Lemma dupd_keys_in k f d : k ∈ d.*1 → (dupd k f d).*1 = d.*1.
Proof.
  induction d as [|[k' v] d IH]; cbn; [by intros ?%elem_of_nil|].
  destruct (decide (k' = k)) as [->|Hne]; [done|].
  intros [->|H]%elem_of_cons; [done|]. cbn. by rewrite IH.
Qed.

Lemma dupd_keys_new k f d : k ∉ d.*1 → dupd k f d = d ++ [(k, f None)].
Proof.
  induction d as [|[k' v] d IH]; cbn; [done|]. intros H.
  rewrite decide_False by (intros ->; apply H; left).
  rewrite IH; [done|]. intros ?. apply H. by right.
Qed.

(** Updates keep the keys distinct. *)
Lemma dupd_nodup k f d : NoDup d.*1 → NoDup (dupd k f d).*1.
Proof.
  intros Hd. destruct (decide (k ∈ d.*1)) as [Hin|Hin].
  - by rewrite dupd_keys_in.
  - rewrite dupd_keys_new, fmap_app by done. apply NoDup_app. split_and!; [done| |].
    + intros x Hx ->%list_elem_of_singleton. done.
    + apply NoDup_singleton.
Qed.

Lemma dget_elem k v d : NoDup d.*1 → dget k d = Some v ↔ (k, v) ∈ d.
Proof.
  induction d as [|[k' v'] d IH]; cbn; intros Hd.
  { split; [done|]. by intros ?%elem_of_nil. }
  inversion_clear Hd as [|? ? Hni Hd']. rewrite elem_of_cons.
  destruct (decide (k' = k)) as [->|Hne].
  - split; [intros [= ->]; by left|]. intros [[= ->]|Hin]; [done|].
    exfalso. apply Hni. by apply (list_elem_of_fmap_2 fst) in Hin.
  - rewrite IH by done. split; [by right|]. intros [[= -> ->]|?]; done.
Qed.

(** A weight of the values: what one update changes of its sum. *)
Definition dsum (w : V → Z) (d : list (K * V)) : Z := foldr (λ p z, w p.2 + z)%Z 0%Z d.

Lemma dsum_app w d1 d2 : dsum w (d1 ++ d2) = (dsum w d1 + dsum w d2)%Z.
Proof. unfold dsum. induction d1 as [|p d1 IH]; cbn; [done|]. rewrite IH. lia. Qed.

Lemma dsum_dupd w k f d n :
  (∀ v, w (f (Some v)) = w v + n)%Z → (w (f None) = n)%Z →
  dsum w (dupd k f d) = (dsum w d + n)%Z.
Proof.
  intros Hs Hn. unfold dsum. induction d as [|[k' v] d IH]; cbn; [lia|].
  destruct (decide (k' = k)); cbn; [rewrite Hs|rewrite IH]; lia.
Qed.

(** The same for the part of the dictionary whose keys satisfy a test. *)
Definition dsum_if (P : K → bool) (w : V → Z) (d : list (K * V)) : Z :=
  foldr (λ p z, (if P p.1 then w p.2 else 0) + z)%Z 0%Z d.

Lemma dsum_if_dupd P w k f d n :
  (∀ v, w (f (Some v)) = w v + n)%Z → (w (f None) = n)%Z →
  dsum_if P w (dupd k f d) = (dsum_if P w d + if P k then n else 0)%Z.
Proof.
  intros Hs Hn. unfold dsum_if. induction d as [|[k' v] d IH]; cbn.
  { destruct (P k); lia. }
  destruct (decide (k' = k)) as [->|]; cbn; [|rewrite IH; lia].
  destruct (P k); [rewrite Hs|]; lia.
Qed.
Lemma dsum_if_app P w d1 d2 : dsum_if P w (d1 ++ d2) = (dsum_if P w d1 + dsum_if P w d2)%Z.
Proof. unfold dsum_if. induction d1 as [|p d1 IH]; cbn; [done|]. rewrite IH. lia. Qed.

Lemma dsum_if_ext P Q w d : (∀ k, P k = Q k) → dsum_if P w d = dsum_if Q w d.
Proof.
  intros H. unfold dsum_if. induction d as [|p d IH]; cbn; [done|]. by rewrite H, IH.
Qed.

Lemma dsum_if_true w d : dsum_if (λ _, true) w d = dsum w d.
Proof. done. Qed.

Lemma dsum_if_none w k d : k ∉ d.*1 → dsum_if (λ k', bool_decide (k' = k)) w d = 0%Z.
Proof.
  unfold dsum_if. induction d as [|[k' v] d IH]; cbn; [done|]. intros H.
  rewrite bool_decide_false by set_solver. rewrite IH by set_solver. done.
Qed.

Lemma dsum_if_cons P w k v d :
  dsum_if P w ((k, v) :: d) = ((if P k then w v else 0) + dsum_if P w d)%Z.
Proof. done. Qed.

(** The part of one key is its value. *)
Lemma dsum_if_key w k d :
  NoDup d.*1 → dsum_if (λ k', bool_decide (k' = k)) w d = default 0%Z (w <$> dget k d).
Proof.
  induction d as [|[k' v] d IH]; [done|]. intros [Hk Hd]%NoDup_cons.
  rewrite dsum_if_cons. cbn [dget]. destruct (decide (k' = k)) as [->|Hne].
  - rewrite bool_decide_true, dsum_if_none by done. cbn. lia.
  - rewrite bool_decide_false, IH by done. lia.
Qed.

Lemma dsum_if_perm P w d1 d2 : Permutation d1 d2 → dsum_if P w d1 = dsum_if P w d2.
Proof. unfold dsum_if. induction 1; cbn; lia. Qed.

Lemma dupd_forall (Q : V → Prop) k f d :
  Q (f None) → (∀ v, Q v → Q (f (Some v))) → Forall (λ p, Q p.2) d → Forall (λ p, Q p.2) (dupd k f d).
Proof.
  intros Hn Hs. induction 1 as [|[k' v] d Hv Hd IH]; cbn; [by constructor|].
  destruct (decide (k' = k)); constructor; cbn in *; auto.
Qed.
End dict.

(** Changing one term of a sum over distinct keys. *)
Lemma sum_one {K} `{EqDecision K} (f g : K → Z) (ks : list K) k n :
  NoDup ks → k ∈ ks → g k = (f k + n)%Z → (∀ k', k' ≠ k → g k' = f k') →
  foldr (λ k z, g k + z)%Z 0%Z ks = (foldr (λ k z, f k + z)%Z 0%Z ks + n)%Z.
Proof.
  intros Hnd Hin Hk Hother. induction Hnd as [|x ks Hx Hnd IH]; [by apply elem_of_nil in Hin|].
  cbn. apply elem_of_cons in Hin as [->|Hin].
  - rewrite Hk. assert (foldr (λ k z, g k + z)%Z 0%Z ks = foldr (λ k z, f k + z)%Z 0%Z ks) as ->;
      [|lia].
    clear IH Hnd. induction ks as [|y ks IH]; cbn; [done|].
    rewrite IH by set_solver. rewrite Hother by set_solver. done.
  - rewrite IH, Hother by (done || set_solver). lia.
Qed.

(** * Stable sorting *)

Section sort.
Context {A : Type} (leb : A → A → bool).

Fixpoint insert_sorted (a : A) (l : list A) : list A :=
  match l with
  | [] => [a]
  | b :: l => if leb a b then a :: b :: l else b :: insert_sorted a l
  end.

(** [sorted(l, key=...)] for the order [leb] of the keys. *)
Definition sort (l : list A) : list A := foldr insert_sorted [] l.

Lemma insert_sorted_perm a l : Permutation (a :: l) (insert_sorted a l).
Proof.
  induction l as [|b l IH]; cbn; [done|]. destruct (leb a b); [done|].
  rewrite <- IH. apply Permutation_swap.
Qed.

Lemma sort_perm l : Permutation l (sort l).
Proof. induction l as [|a l IH]; cbn; [done|]. by rewrite <- insert_sorted_perm, <- IH. Qed.

Context (leb_total : ∀ a b, leb a b = true ∨ leb b a = true).

Abbreviation le := (λ a b, leb a b = true).

(** The order need only be transitive on the elements of the list. *)
Section where_transitive.
Context (P : A → Prop).
Context (leb_trans : ∀ a b c, P a → P b → P c → leb a b = true → leb b c = true → leb a c = true).

Lemma insert_sorted_sorted a l :
  P a → Forall P l → StronglySorted le l → StronglySorted le (insert_sorted a l).
Proof.
  intros Ha HP. induction 1 as [|b l Hl IH Hb]; cbn; [by repeat constructor|].
  inversion_clear HP as [|? ? HPb HPl]. destruct (leb a b) eqn:E.
  - constructor; [by constructor|]. constructor; [done|].
    rewrite Forall_forall in Hb, HPl |- *. intros c Hc. eapply (leb_trans a b c); eauto.
  - constructor; [by apply IH|]. rewrite <- insert_sorted_perm. constructor; [|done].
    destruct (leb_total a b) as [H|H]; [congruence|done].
Qed.

Lemma sort_sorted_where l : Forall P l → StronglySorted le (sort l).
Proof.
  induction 1 as [|a l Ha Hl IH]; cbn; [constructor|]. apply insert_sorted_sorted; [done| |done].
  fold (sort l). by rewrite <- sort_perm.
Qed.
End where_transitive.

Lemma sort_sorted l :
  (∀ a b c, leb a b = true → leb b c = true → leb a c = true) → StronglySorted le (sort l).
Proof.
  intros Htrans. apply (sort_sorted_where (λ _, True)); [by intros; eapply Htrans|].
  by apply Forall_forall.
Qed.

(** Stability: elements that are equivalent under the order keep their order. *)
Lemma insert_sorted_filter (P : A → Prop) `{∀ a, Decision (P a)} a l :
  (∀ b, b ∈ l → P a → P b → leb a b = true) →
  filter P (insert_sorted a l) = filter P (a :: l).
Proof.
  intros HP. induction l as [|b l IH]; [done|]. cbn [insert_sorted].
  destruct (leb a b) eqn:E; [done|].
  rewrite (filter_cons P b), IH by (intros; apply HP; [by right|done..]).
  rewrite !filter_cons. destruct (decide (P b)), (decide (P a)); try done.
  exfalso. assert (leb a b = true) by (apply HP; [left|done..]). congruence.
Qed.

Lemma sort_stable (P : A → Prop) `{∀ a, Decision (P a)} l :
  (∀ a b, P a → P b → leb a b = true) → filter P (sort l) = filter P l.
Proof.
  intros HP. induction l as [|a l IH]; [done|]. cbn [sort foldr].
  fold (sort l). rewrite insert_sorted_filter by auto.
  rewrite !filter_cons, IH. done.
Qed.
End sort.

(** * Counting with dictionaries *)

(** [defaultdict(int)]: [d[key] += n]. *)
Definition dadd {K} `{EqDecision K} (key : K) (n : Z) : list (K * Z) → list (K * Z) :=
  dupd key (λ v, default 0 v + n)%Z.

(** [d[key]] of a [defaultdict(int)]; the entry it adds has the value 0. *)
Definition dnum {K} `{EqDecision K} (key : K) (d : list (K * Z)) : Z := default 0%Z (dget key d).

(** [sum(d.values())] *)
Definition dtotal {K} (d : list (K * Z)) : Z := dsum (λ v, v) d.

(** [defaultdict(lambda: defaultdict(int))]: [d[outer][inner] += n]. *)
Definition dadd2 {K L} `{EqDecision K} `{EqDecision L} (outer : K) (inner : L) (n : Z) :
    list (K * list (L * Z)) → list (K * list (L * Z)) :=
  dupd outer (λ cells, dadd inner n (default [] cells)).

Definition dcells {K L} `{EqDecision K} (outer : K) (d : list (K * list (L * Z))) : list (L * Z) :=
  default [] (dget outer d).

(** [sorted(d.items(), key=lambda item: -item[1])] *)
Definition by_count {K} (d : list (K * Z)) : list (K * Z) :=
  sort (λ a b, (b.2 <=? a.2)%Z) d.

(** [sorted(d.items(), key=lambda item: -sum(item[1].values()))] *)
Definition by_total {K L} (d : list (K * list (L * Z))) : list (K * list (L * Z)) :=
  sort (λ a b, (dtotal b.2 <=? dtotal a.2)%Z) d.

Section sums.
Context {K : Type} `{EqDecision K}.

Lemma dtotal_dadd (key : K) n d : dtotal (dadd key n d) = (dtotal d + n)%Z.
Proof. unfold dtotal, dadd. apply dsum_dupd; [intros v; cbn; lia|done]. Qed.

Lemma dnum_dadd (key k : K) n d :
  dnum k (dadd key n d) = (dnum k d + if bool_decide (key = k) then n else 0)%Z.
Proof.
  unfold dnum, dadd. case_bool_decide as H.
  - subst. by rewrite dget_dupd.
  - rewrite dget_dupd_ne by done. lia.
Qed.

End sums.

Section nested_sums.
Context {K L : Type} `{EqDecision K} `{EqDecision L}.

Lemma dcells_dadd2 (outer o : K) (inner : L) n d :
  dcells o (dadd2 outer inner n d) =
  if bool_decide (outer = o) then dadd inner n (dcells o d) else dcells o d.
Proof.
  unfold dcells, dadd2. case_bool_decide as H.
  - subst. by rewrite dget_dupd.
  - by rewrite dget_dupd_ne.
Qed.

Lemma dtotal_dadd2 (outer : K) (inner : L) n d :
  dsum dtotal (dadd2 outer inner n d) = (dsum dtotal d + n)%Z.
Proof.
  unfold dadd2. apply dsum_dupd; [intros v; apply dtotal_dadd|].
  apply (dtotal_dadd inner n []).
Qed.
End nested_sums.

Lemma by_count_ranked {K} (d : list (K * Z)) :
  Permutation d (by_count d) ∧ StronglySorted (λ a b, (b.2 <= a.2)%Z) (by_count d).
Proof.
  split; [apply sort_perm|].
  assert (StronglySorted (λ a b, (b.2 <=? a.2)%Z = true) (by_count d)) as H.
  { apply sort_sorted; intros; rewrite ?Z.leb_le in *; lia. }
  induction H as [|a l _ IH Ha]; constructor; [done|].
  eapply Forall_impl; [exact Ha|]. intros b. by rewrite Z.leb_le.
Qed.

(** Rows with the same count keep the order of the dictionary. *)
Lemma by_count_stable {K} (d : list (K * Z)) n :
  filter (λ p, p.2 = n) (by_count d) = filter (λ p, p.2 = n) d.
Proof. apply sort_stable. intros a b -> ->. by apply Z.leb_le. Qed.

(** Counting the elements of a list in a dictionary. *)
Section tally.
Context {K : Type} `{EqDecision K}.

Lemma tally_get (ks : list K) d key :
  dget key (foldl (λ d k, dadd k 1 d) d ks) =
  match dget key d, length (filter (λ k, k = key) ks) with
  | None, O => None
  | o, n => Some (default 0 o + Z.of_nat n)%Z
  end.
Proof.
  revert d. induction ks as [|k ks IH]; intros d; cbn [foldl].
  { cbn. destruct (dget key d); cbn; [f_equal; lia|done]. }
  rewrite IH, filter_cons. unfold dadd. destruct (decide (k = key)) as [->|Hne].
  - rewrite dget_dupd. cbn [length]. destruct (dget key d); cbn; f_equal; lia.
  - by rewrite dget_dupd_ne.
Qed.

Lemma tally_nodup (ks : list K) d :
  NoDup d.*1 → NoDup (foldl (λ d k, dadd k 1 d) d ks).*1.
Proof. revert d. induction ks; intros d Hd; [done|]. apply IHks. by apply dupd_nodup. Qed.

Lemma tally_total (ks : list K) d :
  dtotal (foldl (λ d k, dadd k 1 d) d ks) = (dtotal d + Z.of_nat (length ks))%Z.
Proof.
  revert d. induction ks as [|k ks IH]; intros d; cbn [foldl length]; [lia|].
  rewrite IH, dtotal_dadd. lia.
Qed.
End tally.
