(* ===== verification/PyFloat.v ===== *)
(** Python floats: IEEE 754 binary64 with rounding to nearest even, and the
    fixed-point text of ["%.1f"] and its relatives. *)
From Stdlib Require Export SpecFloat.
From S2P Require Import Prelude PyStr.

(** * Arithmetic *)

Definition prec : Z := 53.
Definition emax : Z := 1024.
Abbreviation float := spec_float.

(** The float nearest to an integer. *)
Definition of_int (z : Z) : float := binary_normalize prec emax z 0 false.

(** The float nearest to the decimal [m / 10^k], for the literals and inputs of the
    tools ([k] at most 22, [m] below [2^53]: one correctly rounded division). *)
Definition of_decimal (m : Z) (k : nat) : float :=
  SFdiv prec emax (of_int m) (of_int (10 ^ Z.of_nat k)).

(** The float nearest to a decimal numeral of digits: [m / 10^k], rounded once for any [m]. *)
Definition of_numeral (m : Z) (k : nat) : float :=
  match m, (10 ^ Z.of_nat k)%Z with
  | Zpos p, Zpos q => SFdiv prec emax (S754_finite false p 0) (S754_finite false q 0)
  | _, _ => S754_zero false
  end.

(** [a / b] of two integers: the quotient rounded once; one that is too large is an error. *)
Definition rounded_ratio (sign : bool) (p q : positive) : result float :=
  match SFdiv prec emax (S754_finite sign p 0) (S754_finite false q 0) with
  | S754_infinity _ => Raise OverflowError
  | x => Ok x
  end.
Definition int_ratio (a b : Z) : result float :=
  match a, b with
  | _, Z0 => Raise ZeroDivisionError
  | Z0, _ => Ok (S754_zero false)
  | Zpos p, Zpos q | Zneg p, Zneg q => rounded_ratio false p q
  | Zpos p, Zneg q | Zneg p, Zpos q => rounded_ratio true p q
  end.

Definition fmul : float → float → float := SFmul prec emax.
Definition fdiv : float → float → float := SFdiv prec emax.
Definition fsub : float → float → float := SFsub prec emax.
Definition fadd : float → float → float := SFadd prec emax.

Definition fltb (x y : float) : bool :=
  match SFcompare x y with Some Lt => true | _ => false end.
Definition fleb (x y : float) : bool :=
  match SFcompare x y with Some Lt | Some Eq => true | _ => false end.

(** [x / y] of two floats. *)
Definition float_ratio (x y : float) : result float :=
  match y with S754_zero _ => Raise ZeroDivisionError | _ => Ok (fdiv x y) end.

(** The float of an integer operand. *)
Definition float_of_int (z : Z) : result float :=
  match of_int z with S754_infinity _ => Raise OverflowError | x => Ok x end.

(** [math.sqrt(x)] *)
Definition float_sqrt (x : float) : result float :=
  if fltb x (S754_zero false) then Raise ValueError else Ok (SFsqrt prec emax x).

(** * [float(s)] *)

(** [s.lower()]: the capital letters of ASCII and of Latin-1 (192 to 222 but the multiplication
    sign 215) have their small letter 32 places behind. *)
Definition lower_char (c : ascii) : ascii :=
  let n := code c in
  if ((65 <=? n) && (n <=? 90)) || ((192 <=? n) && (n <=? 222) && negb (n =? 215))
  then ascii_of_nat (n + 32) else c.
Definition lower (s : str) : str := map lower_char s.

(** Digits with single underscores between them; an absent part counts as no digits. *)
Definition digit_part (s : str) : option str :=
  match s with
  | [] => Some []
  | _ => match int_digits 10 false 0 s with
         | Some _ => Some (List.filter is_digit s)
         | None => None
         end
  end.

(** The value [m * 10^e], rounded once. *)
Definition of_scientific (m e : Z) : float :=
  if (e <? 0)%Z then of_numeral m (Z.to_nat (- e)) else of_int (m * 10 ^ e).

Definition exponent_part (s : str) : option Z :=
  let '(sign, ds) := match s with
                     | "-"%char :: ds => ((-1)%Z, ds)
                     | "+"%char :: ds => (1%Z, ds)
                     | _ => (1%Z, s)
                     end in
  z ← int_digits 10 false 0 ds; Some (sign * z)%Z.

Definition unsigned_float (s : str) : option float :=
  if bool_decide (s ∈ [lit "inf"; lit "infinity"]) then Some (S754_infinity false)
  else if bool_decide (s = lit "nan") then Some S754_nan
  else
    e ← match split_first (lit "e") s with Some (_, e) => exponent_part e | None => Some 0%Z end;
    let mantissa := (partition_on (lit "e") s).1 in
    whole ← digit_part (partition_on (lit ".") mantissa).1;
    frac ← digit_part (partition_on (lit ".") mantissa).2;
    match whole ++ frac with
    | [] => None
    | ds => m ← int_digits 10 false 0 ds; Some (of_scientific m (e - Z.of_nat (length frac)))
    end.

(** Surrounding spaces, a sign, and a numeral, an infinity or a nan in either case. *)
Definition parse_float (s : str) : result float :=
  match lower (strip s) with
  | "-"%char :: s => or_raise ValueError (SFopp <$> unsigned_float s)
  | "+"%char :: s => or_raise ValueError (unsigned_float s)
  | s => or_raise ValueError (unsigned_float s)
  end.

(** * Fixed-point text *)

(** [m / d] rounded to an integer, ties to even. *)
Definition round_half_even (m d : Z) : Z :=
  let q := (m / d)%Z in
  let r := (m mod d)%Z in
  match (2 * r ?= d)%Z with
  | Lt => q
  | Gt => (q + 1)%Z
  | Eq => if Z.even q then q else (q + 1)%Z
  end.

(** The value [m * 2^e * 10^k] rounded to an integer. *)
Definition scaled (k : nat) (m : positive) (e : Z) : Z :=
  let n := (Zpos m * 10 ^ Z.of_nat k)%Z in
  if (0 <=? e)%Z then (n * 2 ^ e)%Z else round_half_even n (2 ^ (- e)).

(** A number of [k] decimals given in units of the last one. *)
Definition with_point (k : nat) (z : Z) : str :=
  let p := (10 ^ Z.of_nat k)%Z in
  let frac := digits (z mod p) in
  digits (z / p) ++ match k with
                    | O => []
                    | _ => "."%char :: repeat_text (lit "0") (k - length frac) ++ frac
                    end.

(** ["%.kf" % x] *)
Definition fixed (k : nat) (x : float) : str :=
  match x with
  | S754_zero s => (if s then lit "-" else []) ++ with_point k 0
  | S754_infinity s => (if s then lit "-" else []) ++ lit "inf"
  | S754_nan => lit "nan"
  | S754_finite s m e => (if s then lit "-" else []) ++ with_point k (scaled k m e)
  end.

(** * Rounding is to the nearest *)

Lemma round_half_even_nearest m d :
  (0 < d)%Z → (2 * Z.abs (m - round_half_even m d * d) ≤ d)%Z.
Proof.
  intros Hd. unfold round_half_even.
  pose proof (Z.div_mod m d ltac:(lia)) as Hm.
  pose proof (Z.mod_pos_bound m d Hd) as Hr.
  set (q := (m / d)%Z) in *. set (r := (m mod d)%Z) in *.
  destruct (Z.compare_spec (2 * r) d); [destruct (Z.even q)|..]; nia.
Qed.

(** * The order of floats and the minimum *)

(** [min] keeps the first of equal elements; of nothing it is a ValueError. *)
Definition min_float (l : list float) : result float :=
  match l with
  | [] => Raise ValueError
  | x :: l => Ok (foldl (λ least x, if fltb x least then x else least) x l)
  end.
Definition min_int (l : list Z) : result Z :=
  match l with [] => Raise ValueError | x :: l => Ok (foldl Z.min x l) end.
Definition max_int (l : list Z) : result Z :=
  match l with [] => Raise ValueError | x :: l => Ok (foldl Z.max x l) end.

Lemma fltb_trans x y z : fltb x y = true → fltb y z = true → fltb x z = true.
Proof.
  unfold fltb, SFcompare. intros Hxy Hyz.
  destruct x as [[]|[]| |[] mx ex], y as [[]|[]| |[] my ey], z as [[]|[]| |[] mz ez]; try done;
    repeat match goal with
    | H : context [(?a ?= ?b)%Z] |- _ => destruct (Z.compare_spec a b); try done; subst
    | |- context [(?a ?= ?b)%Z] => destruct (Z.compare_spec a b); try done; try lia; subst
    | H : context [(?a ?= ?b)%positive] |- _ => destruct (Pos.compare_spec a b); try done; subst
    | H : context [Pos.compare_cont Eq ?a ?b] |- _ =>
        change (Pos.compare_cont Eq a b) with (a ?= b)%positive in H
    | |- context [Pos.compare_cont Eq ?a ?b] => change (Pos.compare_cont Eq a b) with (a ?= b)%positive
    | |- context [(?a ?= ?b)%positive] => destruct (Pos.compare_spec a b); try done; try lia; subst
    end; try lia.
Qed.

Lemma compare_refl_pos (m : positive) : (m ?= m)%positive = Eq.
Proof. apply Pos.compare_refl. Qed.

Lemma fltb_irrefl a : fltb a a = false.
Proof.
  unfold fltb, SFcompare. destruct a as [[]|[]| |[] m e]; try done; rewrite Z.compare_refl;
    change (Pos.compare_cont Eq m m) with (m ?= m)%positive; by rewrite compare_refl_pos.
Qed.

Lemma foldl_min_spec l x :
  let least := foldl (λ least x, if fltb x least then x else least) x l in
  least ∈ x :: l ∧ (least = x ∨ fltb least x = true) ∧ ∀ y, y ∈ x :: l → fltb y least = false.
Proof.
  revert x. induction l as [|a l IH]; intros x; cbn.
  { split; [left|]. split; [by left|]. intros y ->%list_elem_of_singleton. apply fltb_irrefl. }
  destruct (fltb a x) eqn:E.
  - destruct (IH a) as (H1 & H2 & H3). set (least := foldl _ a l) in *.
    assert (fltb least x = true) as Hlt by (destruct H2 as [->|H2]; [done|by eapply fltb_trans]).
    split; [set_solver|]. split; [by right|]. intros y Hy.
    apply elem_of_cons in Hy as [->|Hy]; [|by apply H3].
    destruct (fltb x least) eqn:E2; [|done].
    pose proof (fltb_trans _ _ _ E2 Hlt) as Hxx. by rewrite fltb_irrefl in Hxx.
  - destruct (IH x) as (H1 & H2 & H3). set (least := foldl _ x l) in *.
    split; [set_solver|]. split; [done|]. intros y Hy.
    apply elem_of_cons in Hy as [->|Hy]; [apply H3; left|].
    apply elem_of_cons in Hy as [->|Hy]; [|apply H3; by right].
    destruct (fltb a least) eqn:E2; [|done]. exfalso. destruct H2 as [H2|H2]; [congruence|].
    pose proof (fltb_trans _ _ _ E2 H2). congruence.
Qed.

Lemma min_float_spec l :
  l ≠ [] → ∃ least, min_float l = Ok least ∧ least ∈ l ∧ ∀ x, x ∈ l → fltb x least = false.
Proof.
  destruct l as [|x l]; [done|]. intros _. destruct (foldl_min_spec l x) as (H1 & _ & H2). cbn. eauto.
Qed.

Lemma min_int_spec l : l ≠ [] → ∃ n, min_int l = Ok n ∧ n ∈ l ∧ ∀ x, x ∈ l → (n ≤ x)%Z.
Proof.
  destruct l as [|x l]; [done|]. intros _. cbn. eexists. split; [done|]. revert x.
  induction l as [|a l IH]; intros x; cbn.
  { split; [left|]. by intros y ->%list_elem_of_singleton. }
  destruct (IH (Z.min x a)) as [H1 H2]. split.
  - apply elem_of_cons in H1 as [->|H1]; [|set_solver]. destruct (Z.min_spec x a) as [[_ ->]|[_ ->]]; set_solver.
  - intros y Hy. pose proof (H2 (Z.min x a) ltac:(left)).
    apply elem_of_cons in Hy as [->|Hy]; [lia|].
    apply elem_of_cons in Hy as [->|Hy]; [lia|apply H2; by right].
Qed.

Lemma max_int_spec l : l ≠ [] → ∃ n, max_int l = Ok n ∧ n ∈ l ∧ ∀ x, x ∈ l → (x ≤ n)%Z.
Proof.
  destruct l as [|x l]; [done|]. intros _. cbn. eexists. split; [done|]. revert x.
  induction l as [|a l IH]; intros x; cbn.
  { split; [left|]. by intros y ->%list_elem_of_singleton. }
  destruct (IH (Z.max x a)) as [H1 H2]. split.
  - apply elem_of_cons in H1 as [->|H1]; [|set_solver]. destruct (Z.max_spec x a) as [[_ ->]|[_ ->]]; set_solver.
  - intros y Hy. pose proof (H2 (Z.max x a) ltac:(left)).
    apply elem_of_cons in Hy as [->|Hy]; [lia|].
    apply elem_of_cons in Hy as [->|Hy]; [lia|apply H2; by right].
Qed.

(** * No overflow for numbers of an ordinary size *)

Lemma digits2_bounds p : (2 ^ (Zpos (digits2_pos p) - 1) <= Zpos p < 2 ^ Zpos (digits2_pos p))%Z.
Proof.
  induction p as [p IH|p IH|]; cbn [digits2_pos]; [| |done];
    rewrite Pos2Z.inj_succ, Z.pow_succ_r by lia;
    replace (Z.succ (Zpos (digits2_pos p)) - 1)%Z with (Z.succ (Zpos (digits2_pos p) - 1)) by lia;
    rewrite Z.pow_succ_r by lia; lia.
Qed.

Lemma Zdigits2_le m D : (0 <= m < 2 ^ D)%Z → (0 <= D)%Z → (0 <= Zdigits2 m <= D)%Z.
Proof.
  intros [Hm Hlt] HD. destruct m as [|p|p]; [cbn; lia| |lia]. cbn [Zdigits2].
  pose proof (digits2_bounds p) as [H _]. split; [lia|].
  destruct (Z.le_gt_cases (Zpos (digits2_pos p)) D) as [|Hgt]; [done|].
  pose proof (Z.pow_le_mono_r 2 D (Zpos (digits2_pos p) - 1)). lia.
Qed.

Lemma digits2_shift p d : Zpos (digits2_pos (Pos.iter xO p d)) = (Zpos (digits2_pos p) + Zpos d)%Z.
Proof.
  induction d as [|d IH] using Pos.peano_ind; [cbn; lia|].
  rewrite Pos.iter_succ. cbn [digits2_pos]. lia.
Qed.

Lemma shr_1_le r : (0 <= shr_m r → 0 <= shr_m (shr_1 r) <= shr_m r)%Z.
Proof. destruct r as [[|[p|p|]|p] b s]; cbn; lia. Qed.

Lemma shr_iter_le n r : (0 <= shr_m r → 0 <= shr_m (SpecFloat.iter_pos shr_1 n r) <= shr_m r)%Z.
Proof.
  revert r. induction n as [n IH|n IH|]; intros r Hr; cbn [SpecFloat.iter_pos]; [| |by apply shr_1_le].
  - pose proof (shr_1_le r Hr) as H1. pose proof (IH (shr_1 r) ltac:(lia)) as H2.
    pose proof (IH (SpecFloat.iter_pos shr_1 n (shr_1 r)) ltac:(lia)). lia.
  - pose proof (IH r Hr) as H1. pose proof (IH (SpecFloat.iter_pos shr_1 n r) ltac:(lia)). lia.
Qed.

Section rounding.

(** A mantissa below [2^D] with an exponent that is at most [E]. *)
Context (D E : Z) (D_nonneg : (0 <= D)%Z).

Lemma shr_fexp_bounds m e l mrs e' :
  (0 <= m < 2 ^ D)%Z → (-1074 <= e <= E)%Z → shr_fexp prec emax m e l = (mrs, e') →
  (0 <= shr_m mrs <= m)%Z ∧ (e <= e' <= E + D)%Z.
Proof.
  intros Hm He. pose proof (Zdigits2_le m D Hm D_nonneg) as Hd.
  assert (shr_m (shr_record_of_loc m l) = m) as Hl by by destruct l as [|[]].
  unfold shr_fexp, fexp, emin, shr. change (3 - emax - prec)%Z with (-1074)%Z. change prec with 53%Z.
  destruct (_ - e)%Z as [|p|p] eqn:Ep; intros [= <- <-]; rewrite ?Hl; [lia| |lia].
  pose proof (shr_iter_le p (shr_record_of_loc m l)) as Hp. rewrite Hl in Hp. lia.
Qed.

End rounding.

(** A float that is not negative and not infinite. *)
Definition nonneg_float (x : float) : Prop :=
  match x with S754_zero false | S754_finite false _ _ => True | _ => False end.

Definition float_below (D lo hi : Z) (x : float) : Prop :=
  x = S754_zero false ∨ ∃ m e, x = S754_finite false m e ∧ (Zpos m < 2 ^ D)%Z ∧ (lo <= e <= hi)%Z.

Lemma float_below_nonneg D lo hi x : float_below D lo hi x → nonneg_float x.
Proof. by intros [->|(m & e & -> & _)]. Qed.

(** Rounding a small number does not overflow. *)
Lemma round_below m e l D E :
  (0 <= m < 2 ^ D)%Z → (0 <= D)%Z → (-1074 <= e <= E)%Z → (E + D + (D + 1) <= 971)%Z →
  float_below (D + 1) e (E + D + (D + 1)) (binary_round_aux prec emax false m e l).
Proof.
  intros Hm HD He Hmax. unfold binary_round_aux.
  destruct (shr_fexp prec emax m e l) as [r e1] eqn:E1.
  destruct (shr_fexp_bounds D E HD _ _ _ _ _ Hm He E1) as [Hr He1].
  set (n := round_nearest_even (shr_m r) (loc_of_shr_record r)).
  assert (0 <= n <= shr_m r + 1)%Z as Hn.
  { subst n. unfold round_nearest_even. destruct (loc_of_shr_record r) as [|[]]; [lia| |lia|lia].
    destruct (Z.even (shr_m r)); lia. }
  assert (0 <= n < 2 ^ (D + 1))%Z as Hn' by (rewrite Z.pow_add_r by lia; lia).
  destruct (shr_fexp prec emax n e1 loc_Exact) as [r2 e2] eqn:E2.
  assert (-1074 <= e1 <= E + D)%Z as He1' by lia.
  destruct (shr_fexp_bounds (D + 1) (E + D) ltac:(lia) _ _ _ _ _ Hn' He1' E2) as [Hr2 He2].
  destruct (shr_m r2) as [|p|p]; [by left| |lia].
  change (emax - prec)%Z with 971%Z. destruct (Z.leb_spec e2 971); [|lia].
  right. exists p, e2. split; [done|]. lia.
Qed.

(** An integer of at most 53 bits is a float. *)
Lemma of_int_exact z :
  (0 < z < 2 ^ 53)%Z →
  ∃ m e, of_int z = S754_finite false m e ∧ digits2_pos m = 53%positive ∧ (-52 <= e <= 0)%Z.
Proof.
  intros Hz. destruct z as [|p|p]; [lia| |lia]. unfold of_int, binary_normalize, binary_round.
  pose proof (Zdigits2_le (Zpos p) 53 ltac:(lia) ltac:(lia)) as Hd. cbn [Zdigits2] in Hd.
  destruct (shl_align p 0 (fexp prec emax (Zpos (digits2_pos p) + 0))) as [m e] eqn:Ea.
  assert (digits2_pos m = 53%positive ∧ -52 <= e <= 0)%Z as [Hm He].
  { revert Ea. unfold shl_align, fexp, emin. change (3 - emax - prec)%Z with (-1074)%Z.
    change prec with 53%Z. destruct (_ - 0)%Z as [|d|d] eqn:Ed; intros [= <- <-].
    - lia.
    - lia.
    - pose proof (digits2_shift p d). lia. }
  exists m, e. split; [|done].
  assert (shr_fexp prec emax (Zpos m) e loc_Exact = (shr_record_of_loc (Zpos m) loc_Exact, e)) as Hs.
  { unfold shr_fexp, fexp, emin, shr. cbn [Zdigits2]. rewrite Hm.
    change (3 - emax - prec)%Z with (-1074)%Z. change prec with 53%Z.
    replace (Z.max (53 + e - 53) (-1074) - e)%Z with 0%Z by lia. done. }
  unfold binary_round_aux. rewrite Hs. cbn [shr_m shr_record_of_loc loc_of_shr_record round_nearest_even].
  rewrite Hs. cbn [shr_m shr_record_of_loc]. change (emax - prec)%Z with 971%Z.
  destruct (Z.leb_spec e 971); [done|lia].
Qed.

(** The product and the quotient of two such numbers. *)
Lemma ratio_nonneg a b c :
  (0 < a < 2 ^ 53)%Z → (0 <= b < 2 ^ 53)%Z → (0 < c < 2 ^ 53)%Z →
  nonneg_float (fdiv (fmul (of_int a) (of_int b)) (of_int c)).
Proof.
  intros Ha Hb Hc. destruct (of_int_exact a Ha) as (ma & ea & -> & Hma & Hea).
  destruct (of_int_exact c Hc) as (mc & ec & -> & Hmc & Hec).
  pose proof (digits2_bounds ma) as Ba. pose proof (digits2_bounds mc) as Bc. rewrite Hma in Ba. rewrite Hmc in Bc.
  assert (float_below 107 (-104) 213 (fmul (S754_finite false ma ea) (of_int b))) as [->|(m & e & -> & Hm & He)].
  { destruct (decide (b = 0)%Z) as [->|Hne]; [by left|].
    destruct (of_int_exact b ltac:(lia)) as (mb & eb & -> & Hmb & Heb).
    pose proof (digits2_bounds mb) as Bb. rewrite Hmb in Bb. unfold fmul, SFmul. cbn [xorb].
    destruct (round_below (Zpos (ma * mb)) (ea + eb) loc_Exact 106 0) as [->|(m & e & -> & H1 & H2)]; [|lia..|by left|].
    - change (2 ^ 106)%Z with (2 ^ 53 * 2 ^ 53)%Z. nia.
    - right. exists m, e. split; [done|]. change (106 + 1)%Z with 107%Z in H1. lia. }
  { done. }
  unfold fdiv, SFdiv. unfold SFdiv_core_binary. cbn [Zdigits2 xorb]. rewrite Hmc.
  pose proof (Zdigits2_le (Zpos m) 107 ltac:(lia) ltac:(lia)) as Hd. cbn [Zdigits2] in Hd.
  unfold fexp, emin. change (3 - emax - prec)%Z with (-1074)%Z. change prec with 53%Z at 1 2.
  set (e' := Z.min _ _). assert (e' <= e - ec)%Z as He' by lia.
  assert (-1074 <= e')%Z as Hlow by lia. assert (e - ec - e' <= 106)%Z as Hs by lia.
  set (m' := match (e - ec - e')%Z with Z0 => Zpos m | Zpos _ => Z.shiftl (Zpos m) (e - ec - e') | Zneg _ => 0%Z end).
  assert (0 <= m' < 2 ^ 213)%Z as Hm'.
  { subst m'. destruct (e - ec - e')%Z as [|s|s] eqn:Es; [lia| |lia].
    rewrite Z.shiftl_mul_pow2 by lia. change (2 ^ 213)%Z with (2 ^ 107 * 2 ^ 106)%Z.
    pose proof (Z.pow_le_mono_r 2 (Zpos s) 106 ltac:(lia) Hs). nia. }
  pose proof (Z_div_mod m' (Zpos mc) ltac:(lia)) as Hdiv.
  destruct (Z.div_eucl m' (Zpos mc)) as [q r]. destruct Hdiv as [Hq Hr].
  apply (float_below_nonneg (213 + 1) e' (265 + 213 + (213 + 1))).
  apply round_below; [|lia..]. nia.
Qed.

(** * Signs *)

Definition zero_float (x : float) : bool := match x with S754_zero _ => true | _ => false end.

(** Not below zero: a number with a plus sign, a zero or a nan. *)
Definition not_negative (x : float) : bool :=
  match x with S754_finite true _ _ | S754_infinity true => false | _ => true end.

Lemma not_negative_fltb x : fltb x (S754_zero false) = negb (not_negative x).
Proof. by destruct x as [[]|[]| |[]]. Qed.

Lemma not_negative_round m e l : not_negative (binary_round_aux prec emax false m e l) = true.
Proof.
  unfold binary_round_aux. destruct (shr_fexp _ _ _ _ _) as [r e1].
  destruct (shr_fexp _ _ _ _ _) as [r2 e2]. destruct (shr_m r2); [done| |done]. by destruct (_ <=? _)%Z.
Qed.

Lemma not_negative_normalize m e s :
  (0 <= m)%Z → not_negative (binary_normalize prec emax m e s) = true.
Proof.
  intros Hm. destruct m as [|p|p]; [done| |lia]. unfold binary_normalize, binary_round.
  destruct (shl_align _ _ _). apply not_negative_round.
Qed.

Lemma not_negative_square x : not_negative (fmul x x) = true.
Proof.
  destruct x as [s|s| |s m e]; unfold fmul, SFmul; [done|by destruct s|done|].
  rewrite xorb_nilpotent. apply not_negative_round.
Qed.

Lemma not_negative_add x y :
  not_negative x = true → not_negative y = true → not_negative (fadd x y) = true.
Proof.
  unfold fadd, SFadd. destruct x as [[]|[]| |[] mx ex], y as [[]|[]| |[] my ey]; try done.
  intros _ _. apply not_negative_normalize. unfold cond_Zopp.
  destruct (shl_align mx ex _), (shl_align my ey _). cbn. lia.
Qed.

Lemma not_negative_mul x y :
  not_negative x = true → not_negative y = true → not_negative (fmul x y) = true.
Proof.
  unfold fmul, SFmul. destruct x as [[]|[]| |[] mx ex], y as [[]|[]| |[] my ey]; try done.
  intros _ _. apply not_negative_round.
Qed.

Lemma not_negative_div x y :
  not_negative x = true → not_negative y = true → zero_float y = false →
  not_negative (fdiv x y) = true.
Proof.
  unfold fdiv, SFdiv. destruct x as [[]|[]| |[] mx ex], y as [[]|[]| |[] my ey]; try done.
  intros _ _ _. destruct (SFdiv_core_binary _ _ _ _ _ _) as [[m e] l]. apply not_negative_round.
Qed.

Lemma not_negative_sqrt x : not_negative x = true → not_negative (SFsqrt prec emax x) = true.
Proof.
  destruct x as [[]|[]| |[] m e]; try done. intros _. unfold SFsqrt.
  destruct (SFsqrt_core_binary _ _ _ _) as [[mz ez] lz]. apply not_negative_round.
Qed.

(** * Numbers that are at least one *)

(** Not below one, or the infinity or the nan that an overflow can end in. *)
Definition at_least_one (x : float) : Prop :=
  match x with
  | S754_nan | S754_infinity false => True
  | S754_finite false m e => (1 <= Zpos (digits2_pos m) + e)%Z
  | _ => False
  end.

Lemma at_least_one_not_negative x : at_least_one x → not_negative x = true.
Proof. by destruct x as [[]|[]| |[]]. Qed.

Lemma at_least_one_not_zero x : at_least_one x → zero_float x = false.
Proof. by destruct x as [[]|[]| |[]]. Qed.

Lemma Zdigits2_mono a b : (0 < a <= b)%Z → (Zdigits2 a <= Zdigits2 b)%Z.
Proof.
  intros H. destruct a as [|a|a]; [lia| |lia]. destruct b as [|b|b]; [lia| |lia]. cbn [Zdigits2].
  pose proof (digits2_bounds a) as [Ha _]. pose proof (digits2_bounds b) as [_ Hb].
  destruct (Z.le_gt_cases (Zpos (digits2_pos a)) (Zpos (digits2_pos b))) as [|Hgt]; [done|].
  pose proof (Z.pow_le_mono_r 2 (Zpos (digits2_pos b)) (Zpos (digits2_pos a) - 1)). lia.
Qed.

Lemma Zdigits2_above m D : (0 <= D)%Z → (2 ^ D <= m)%Z → (D + 1 <= Zdigits2 m)%Z.
Proof.
  intros HD Hm. pose proof (Z.pow_pos_nonneg 2 D). destruct m as [|p|p]; [lia| |lia]. cbn [Zdigits2].
  pose proof (digits2_bounds p) as [_ Hp].
  destruct (Z.le_gt_cases (D + 1) (Zpos (digits2_pos p))) as [|Hgt]; [done|].
  pose proof (Z.pow_le_mono_r 2 (Zpos (digits2_pos p)) D). lia.
Qed.

(** Shifting out fewer bits than there are keeps the leading one. *)
Lemma shr_1_digits r :
  (0 < shr_m r)%Z → (1 < Zdigits2 (shr_m r))%Z →
  (0 < shr_m (shr_1 r))%Z ∧ (Zdigits2 (shr_m (shr_1 r)) = Zdigits2 (shr_m r) - 1)%Z.
Proof. destruct r as [[|[p|p|]|[p|p|]] b s]; cbn; lia. Qed.

Lemma shr_iter_digits n r :
  (0 < shr_m r)%Z → (Zpos n < Zdigits2 (shr_m r))%Z →
  (0 < shr_m (SpecFloat.iter_pos shr_1 n r))%Z ∧
  (Zdigits2 (shr_m (SpecFloat.iter_pos shr_1 n r)) = Zdigits2 (shr_m r) - Zpos n)%Z.
Proof.
  revert r. induction n as [n IH|n IH|]; intros r Hr Hn; cbn [SpecFloat.iter_pos].
  - destruct (shr_1_digits r) as [H1 H2]; [lia..|]. destruct (IH (shr_1 r)) as [H3 H4]; [lia..|].
    destruct (IH (SpecFloat.iter_pos shr_1 n (shr_1 r))) as [H5 H6]; [lia..|]. lia.
  - destruct (IH r) as [H3 H4]; [lia..|].
    destruct (IH (SpecFloat.iter_pos shr_1 n r)) as [H5 H6]; [lia..|]. lia.
  - apply shr_1_digits; lia.
Qed.

Lemma shr_fexp_one m e l r e' :
  (0 < m)%Z → (1 <= Zdigits2 m + e)%Z → shr_fexp prec emax m e l = (r, e') →
  (0 < shr_m r)%Z ∧ (1 <= Zdigits2 (shr_m r) + e')%Z.
Proof.
  intros Hm He. assert (shr_m (shr_record_of_loc m l) = m) as Hl by by destruct l as [|[]].
  unfold shr_fexp, fexp, emin, shr. change (3 - emax - prec)%Z with (-1074)%Z. change prec with 53%Z.
  destruct (_ - e)%Z as [|p|p] eqn:Ep; intros [= <- <-]; rewrite ?Hl; [done| |done].
  destruct (shr_iter_digits p (shr_record_of_loc m l)) as [H1 H2]; rewrite ?Hl in *; lia.
Qed.

Lemma round_one m e l :
  (0 < m)%Z → (1 <= Zdigits2 m + e)%Z → at_least_one (binary_round_aux prec emax false m e l).
Proof.
  intros Hm He. unfold binary_round_aux. destruct (shr_fexp prec emax m e l) as [r e1] eqn:E1.
  destruct (shr_fexp_one _ _ _ _ _ Hm He E1) as [Hr He1].
  set (n := round_nearest_even (shr_m r) (loc_of_shr_record r)).
  assert (shr_m r <= n)%Z as Hn.
  { subst n. unfold round_nearest_even. destruct (loc_of_shr_record r) as [|[]]; [lia| |lia|lia].
    destruct (Z.even (shr_m r)); lia. }
  pose proof (Zdigits2_mono (shr_m r) n ltac:(lia)).
  destruct (shr_fexp prec emax n e1 loc_Exact) as [r2 e2] eqn:E2.
  destruct (shr_fexp_one n e1 loc_Exact r2 e2) as [Hr2 He2]; [lia|lia|done|].
  destruct (shr_m r2) as [|p|p]; [lia| |lia]. by destruct (_ <=? _)%Z.
Qed.

Lemma shl_align_digits m e e' m2 e2 :
  shl_align m e e' = (m2, e2) → (Zpos (digits2_pos m2) + e2 = Zpos (digits2_pos m) + e)%Z.
Proof.
  unfold shl_align. destruct (e' - e)%Z as [|d|d] eqn:Ed; intros [= <- <-]; [done..|].
  rewrite digits2_shift. lia.
Qed.

Lemma normalize_one m e s :
  (0 < m)%Z → (1 <= Zdigits2 m + e)%Z → at_least_one (binary_normalize prec emax m e s).
Proof.
  intros Hm He. destruct m as [|p|p]; [lia| |lia]. unfold binary_normalize, binary_round.
  destruct (shl_align p e _) as [m2 e2] eqn:Ea. apply shl_align_digits in Ea.
  apply round_one; cbn [Zdigits2] in *; lia.
Qed.

Lemma at_least_one_mul x y : at_least_one x → at_least_one y → at_least_one (fmul x y).
Proof.
  unfold fmul, SFmul. destruct x as [[]|[]| |[] mx ex], y as [[]|[]| |[] my ey]; try done.
  intros Hx Hy. cbn [at_least_one] in *. apply round_one; [done|].
  pose proof (digits2_bounds mx) as [Hmx _]. pose proof (digits2_bounds my) as [Hmy _].
  pose proof (Zdigits2_above (Zpos (mx * my)) (Zpos (digits2_pos mx) - 1 + (Zpos (digits2_pos my) - 1))) as Hd.
  rewrite Z.pow_add_r in Hd by lia. cbn [Zdigits2] in *. rewrite Pos2Z.inj_mul in *. nia.
Qed.

Lemma at_least_one_add x y : at_least_one x → not_negative y = true → at_least_one (fadd x y).
Proof.
  unfold fadd, SFadd. destruct x as [[]|[]| |[] mx ex], y as [[]|[]| |[] my ey]; try done.
  intros Hx _. cbn [at_least_one] in Hx.
  destruct (shl_align mx ex _) as [m1 e1] eqn:E1. destruct (shl_align my ey _) as [m2 e2] eqn:E2.
  cbn [cond_Zopp fst]. assert (e1 = Z.min ex ey) as He.
  { revert E1. unfold shl_align. destruct (Z.min ex ey - ex)%Z eqn:Ed; intros [= <- <-]; lia. }
  apply shl_align_digits in E1. apply normalize_one; [lia|].
  pose proof (Zdigits2_mono (Zpos m1) (Zpos m1 + Zpos m2) ltac:(lia)). cbn [Zdigits2] in *. lia.
Qed.

(** * Numbers and their order *)

Definition is_nan (x : float) : bool := match x with S754_nan => true | _ => false end.

Lemma shr_fexp_nonneg m e l r e' : (0 <= m)%Z → shr_fexp prec emax m e l = (r, e') → (0 <= shr_m r)%Z.
Proof.
  intros Hm. assert (shr_m (shr_record_of_loc m l) = m) as Hl by by destruct l as [|[]].
  unfold shr_fexp, shr. destruct (_ - e)%Z as [|p|p]; intros [= <- <-]; rewrite ?Hl; [done| |done].
  pose proof (shr_iter_le p (shr_record_of_loc m l)) as Hp. rewrite Hl in Hp. lia.
Qed.

Lemma round_is_number sign m e l : (0 <= m)%Z → is_nan (binary_round_aux prec emax sign m e l) = false.
Proof.
  intros Hm. unfold binary_round_aux. destruct (shr_fexp prec emax m e l) as [r e1] eqn:E1.
  pose proof (shr_fexp_nonneg _ _ _ _ _ Hm E1) as Hr.
  set (n := round_nearest_even (shr_m r) (loc_of_shr_record r)).
  assert (0 <= n)%Z as Hn.
  { subst n. unfold round_nearest_even. destruct (loc_of_shr_record r) as [|[]]; [lia| |lia|lia].
    destruct (Z.even (shr_m r)); lia. }
  destruct (shr_fexp prec emax n e1 loc_Exact) as [r2 e2] eqn:E2.
  pose proof (shr_fexp_nonneg _ _ _ _ _ Hn E2) as Hr2.
  destruct (shr_m r2); [done| |lia]. by destruct (_ <=? _)%Z.
Qed.

Lemma normalize_is_number m e s : is_nan (binary_normalize prec emax m e s) = false.
Proof.
  destruct m as [|p|p]; [done|..]; unfold binary_normalize, binary_round;
    destruct (shl_align _ _ _); by apply round_is_number.
Qed.

Lemma sub_is_number sx mx ex y : is_nan y = false → is_nan (fsub (S754_finite sx mx ex) y) = false.
Proof.
  unfold fsub, SFsub. destruct y as [s|s| |s m e]; try done. intros _. apply normalize_is_number.
Qed.

Lemma mul_is_number sx mx ex y : is_nan y = false → is_nan (fmul (S754_finite sx mx ex) y) = false.
Proof.
  unfold fmul, SFmul. destruct y as [s|s| |s m e]; try done. intros _. by apply round_is_number.
Qed.

Lemma quotient_nonneg p q ep eq :
  (0 <= (SFdiv_core_binary prec emax (Zpos p) ep (Zpos q) eq).1.1)%Z.
Proof.
  unfold SFdiv_core_binary. set (e' := Z.min _ _).
  set (m' := match (ep - eq - e')%Z with Z0 => Zpos p | Zpos _ => Z.shiftl (Zpos p) (ep - eq - e') | Zneg _ => 0%Z end).
  assert (0 <= m')%Z as Hm.
  { subst m'. destruct (ep - eq - e')%Z; [lia|apply Z.shiftl_nonneg; lia|lia]. }
  pose proof (Z_div_mod m' (Zpos q) ltac:(lia)) as Hd.
  destruct (Z.div_eucl m' (Zpos q)) as [a r]. cbn. nia.
Qed.

Lemma int_ratio_is_number a b x : int_ratio a b = Ok x → is_nan x = false.
Proof.
  assert (∀ sign p q x, rounded_ratio sign p q = Ok x → is_nan x = false) as H.
  { intros sign p q y. unfold rounded_ratio, SFdiv. pose proof (quotient_nonneg p q 0 0) as Hq.
    destruct (SFdiv_core_binary _ _ _ _ _ _) as [[m e] l]. cbn [fst] in Hq.
    pose proof (round_is_number (xorb sign false) m e l Hq) as Hn.
    destruct (binary_round_aux _ _ _ _ _ _); intros [= <-]; done. }
  unfold int_ratio. destruct a, b; try done; try apply H; by intros [= <-].
Qed.

(** Numbers of at most 53 bits have a ratio. *)
Lemma int_ratio_small a b :
  (0 < a < 2 ^ 53)%Z → (0 < b < 2 ^ 53)%Z → is_ok (int_ratio a b) = true.
Proof.
  intros Ha Hb. destruct a as [|p|], b as [|q|]; try lia. cbn [int_ratio]. unfold rounded_ratio.
  assert (nonneg_float (SFdiv prec emax (S754_finite false p 0) (S754_finite false q 0))) as H;
    [|by destruct (SFdiv _ _ _ _) as [[]|[]| |[]]].
  unfold SFdiv, SFdiv_core_binary. cbn [Zdigits2 xorb].
  pose proof (Zdigits2_le (Zpos p) 53 ltac:(lia) ltac:(lia)) as Hp. cbn [Zdigits2] in Hp.
  pose proof (Zdigits2_le (Zpos q) 53 ltac:(lia) ltac:(lia)) as Hq. cbn [Zdigits2] in Hq.
  unfold fexp, emin. change (3 - emax - prec)%Z with (-1074)%Z. change prec with 53%Z at 1 2.
  set (e' := Z.min _ _). assert (-106 <= e' <= 0)%Z as He' by lia.
  set (m' := match (0 - 0 - e')%Z with Z0 => Zpos p | Zpos _ => Z.shiftl (Zpos p) (0 - 0 - e') | Zneg _ => 0%Z end).
  assert (0 <= m' < 2 ^ 159)%Z as Hm'.
  { subst m'. destruct (0 - 0 - e')%Z as [|s|s] eqn:Es; [lia| |lia].
    rewrite Z.shiftl_mul_pow2 by lia. change (2 ^ 159)%Z with (2 ^ 53 * 2 ^ 106)%Z.
    pose proof (Z.pow_le_mono_r 2 (Zpos s) 106 ltac:(lia) ltac:(lia)). nia. }
  pose proof (Z_div_mod m' (Zpos q) ltac:(lia)) as Hdiv.
  destruct (Z.div_eucl m' (Zpos q)) as [n r]. destruct Hdiv as [Hn Hr].
  apply (float_below_nonneg (159 + 1) e' (0 + 159 + (159 + 1))).
  apply round_below; [|lia..]. nia.
Qed.

(** The order of numbers is total. *)
Lemma not_below_trans x y z :
  is_nan x = false → is_nan y = false → is_nan z = false →
  fltb y x = false → fltb z y = false → fltb z x = false.
Proof.
  unfold fltb, SFcompare. intros Hx Hy Hz Hxy Hyz.
  destruct x as [[]|[]| |[] mx ex], y as [[]|[]| |[] my ey], z as [[]|[]| |[] mz ez]; try done;
    repeat match goal with
    | H : context [(?a ?= ?b)%Z] |- _ => destruct (Z.compare_spec a b); try done; subst
    | |- context [(?a ?= ?b)%Z] => destruct (Z.compare_spec a b); try done; try lia; subst
    | H : context [(?a ?= ?b)%positive] |- _ => destruct (Pos.compare_spec a b); try done; subst
    | H : context [Pos.compare_cont Eq ?a ?b] |- _ =>
        change (Pos.compare_cont Eq a b) with (a ?= b)%positive in H
    | |- context [Pos.compare_cont Eq ?a ?b] => change (Pos.compare_cont Eq a b) with (a ?= b)%positive
    | |- context [(?a ?= ?b)%positive] => destruct (Pos.compare_spec a b); try done; try lia; subst
    end; try lia.
Qed.

Lemma not_below_total x y : fltb y x = false ∨ fltb x y = false.
Proof.
  destruct (fltb y x) eqn:E; [right|by left]. destruct (fltb x y) eqn:E2; [|done].
  pose proof (fltb_trans _ _ _ E E2) as H. by rewrite fltb_irrefl in H.
Qed.
