(* ===== verification/PyFormat.v ===== *)
(** The formatting of numbers and texts the tools print: padding, thousands
    separators, hexadecimal text, and what removing the separators gives back. *)
From S2P Require Import Prelude PyStr.

(** ["%-ns" % s] and ["%ns" % s] *)
Definition ljust (n : nat) (s : str) : str := s ++ repeat_text (lit " ") (n - length s).
Definition rjust (n : nat) (s : str) : str := repeat_text (lit " ") (n - length s) ++ s.

(** Groups of three digits counted from the right; [n] digits come before the text. *)
Fixpoint group_digits (s : str) : str :=
  match s with
  | [] => []
  | c :: s' =>
      let rest := group_digits s' in
      match s' with
      | [] => [c]
      | _ => if (length s' mod 3 =? 0)%nat then c :: ","%char :: rest else c :: rest
      end
  end.

(** ["{:,}".format(z)] for an integer. *)
Definition with_commas (z : Z) : str :=
  if (z <? 0)%Z then "-"%char :: group_digits (digits (- z)) else group_digits (digits z).

(** Hexadecimal digits, most significant first. *)
Definition hex_char (d : Z) : ascii :=
  if (d <? 10)%Z then digit_char d else ascii_of_nat (87 + Z.to_nat d).

Fixpoint hex_fuel (n : nat) (z : Z) (acc : str) : str :=
  match n with
  | O => acc
  | S n =>
      let acc := hex_char (z mod 16) :: acc in
      if (z <? 16)%Z then acc else hex_fuel n (z / 16) acc
  end.

(** [hex(z)] *)
Definition hex (z : Z) : str :=
  let text z := lit "0x" ++ hex_fuel (S (Z.to_nat (Z.log2 z))) z [] in
  if (z <? 0)%Z then "-"%char :: text (- z)%Z else text z.

Definition not_comma (c : ascii) : bool := negb (Ascii.eqb c ",").

Lemma filter_group_digits s :
  forallb not_comma s = true → List.filter not_comma (group_digits s) = s.
Proof.
  induction s as [|c s IH]; [done|]. intros [Hc Hs]%andb_true_iff. specialize (IH Hs).
  cbn [group_digits]. destruct s as [|d s]; [cbn; by rewrite Hc|].
  destruct (_ =? 0)%nat; cbn [List.filter]; rewrite Hc; [|by rewrite IH].
  change (not_comma ",") with false. cbv iota. by rewrite IH.
Qed.

(** Without its separators the text is the decimal text. *)
Lemma with_commas_dec z : List.filter not_comma (with_commas z) = dec z.
Proof.
  assert (∀ z, (0 ≤ z)%Z → forallb not_comma (digits z) = true) as Hd.
  { intros z' Hz. pose proof (digits_all_digits (S (Z.to_nat (Z.log2 z'))) z' Hz) as H.
    fold (digits z') in H. rewrite forallb_forall in H |- *. intros c Hc. specialize (H c Hc).
    unfold not_comma. by destruct (Ascii.eqb_spec c ",") as [->|]. }
  unfold with_commas, dec. destruct (Z.ltb_spec z 0).
  - cbn [List.filter]. change (not_comma "-") with true. cbv iota.
    by rewrite filter_group_digits by (apply Hd; lia).
  - by apply filter_group_digits, Hd.
Qed.

(** * Hexadecimal text is read back *)

Lemma hex_char_value d : (0 ≤ d < 16)%Z → digit_value (hex_char d) = Some d.
Proof.
  intros Hd. assert (d = 0 ∨ d = 1 ∨ d = 2 ∨ d = 3 ∨ d = 4 ∨ d = 5 ∨ d = 6 ∨ d = 7 ∨ d = 8 ∨ d = 9
    ∨ d = 10 ∨ d = 11 ∨ d = 12 ∨ d = 13 ∨ d = 14 ∨ d = 15)%Z as H by lia.
  by repeat destruct H as [->|H]; [..|subst].
Qed.

(** A hexadecimal digit is neither an underscore nor a space. *)
Definition hex_safe (c : ascii) : bool := negb (Ascii.eqb c "_") && negb (is_space c).

Lemma hex_char_safe d : (0 ≤ d < 16)%Z → hex_safe (hex_char d) = true.
Proof.
  intros Hd. assert (d = 0 ∨ d = 1 ∨ d = 2 ∨ d = 3 ∨ d = 4 ∨ d = 5 ∨ d = 6 ∨ d = 7 ∨ d = 8 ∨ d = 9
    ∨ d = 10 ∨ d = 11 ∨ d = 12 ∨ d = 13 ∨ d = 14 ∨ d = 15)%Z as H by lia.
  by repeat destruct H as [->|H]; [..|subst].
Qed.

Lemma hex_fuel_step n z acc :
  hex_fuel (S n) z acc =
  if (z <? 16)%Z then hex_char (z mod 16) :: acc
  else hex_fuel n (z / 16) (hex_char (z mod 16) :: acc).
Proof. done. Qed.

Lemma int_digits_hex_step z acc d :
  (0 ≤ d < 16)%Z →
  int_digits 16 false z (hex_char d :: acc) = int_digits 16 true (16 * z + d) acc ∧
  int_digits 16 true z (hex_char d :: acc) = int_digits 16 true (16 * z + d) acc.
Proof.
  intros Hd. pose proof (hex_char_safe d Hd) as Hs.
  unfold hex_safe in Hs. apply andb_true_iff in Hs as [Hs%negb_true_iff _].
  cbn [int_digits]. rewrite Hs, hex_char_value by done. destruct (Z.ltb_spec d 16); [done|lia].
Qed.

Lemma int_digits_hex_fuel n z acc :
  (0 ≤ z)%Z → (z < 16 ^ Z.of_nat n)%Z → n ≠ O →
  int_digits 16 false 0 (hex_fuel n z acc) = int_digits 16 true z acc.
Proof.
  revert z acc. induction n as [|n IH]; intros z acc Hz Hn Hne; [done|].
  rewrite hex_fuel_step. destruct (Z.ltb_spec z 16) as [Hlt|Hge].
  - rewrite Z.mod_small by lia. rewrite (proj1 (int_digits_hex_step 0 acc z ltac:(lia))).
    f_equal; lia.
  - destruct n as [|n]; [change (16 ^ Z.of_nat 1)%Z with 16%Z in Hn; lia|].
    assert (0 ≤ z mod 16 < 16)%Z as Hmod by (apply Z.mod_pos_bound; lia).
    rewrite IH; [|apply Z.div_pos; lia| |done].
    + rewrite (proj2 (int_digits_hex_step (z / 16) acc _ Hmod)). f_equal.
      rewrite (Z.div_mod z 16) at 3; lia.
    + apply Z.div_lt_upper_bound; [lia|].
      rewrite Nat2Z.inj_succ, Z.pow_succ_r in Hn by lia. lia.
Qed.

Lemma hex_fuel_safe n z acc :
  (0 ≤ z)%Z → forallb hex_safe acc = true → forallb hex_safe (hex_fuel n z acc) = true.
Proof.
  revert z acc. induction n as [|n IH]; intros z acc Hz Hacc; [done|].
  rewrite hex_fuel_step.
  assert (forallb hex_safe (hex_char (z mod 16) :: acc) = true) as H.
  { cbn [forallb]. rewrite hex_char_safe, Hacc; [done|]. apply Z.mod_pos_bound. lia. }
  destruct (z <? 16)%Z; [done|]. apply IH; [apply Z.div_pos; lia|done].
Qed.

Lemma skip_prefix_safe h :
  forallb hex_safe h = true → skip_hex_prefix ("0"%char :: "x"%char :: h) = h.
Proof.
  destruct h as [|c h]; [done|]. cbn [forallb]. intros [Hc _]%andb_true_iff. clear -Hc.
  destruct c as [[] [] [] [] [] [] [] []]; done || by vm_compute in Hc.
Qed.

(** [int(hex(z), 16) == z] *)
Lemma parse_int_hex z : (0 ≤ z)%Z → parse_int 16 (hex z) = Ok z.
Proof.
  intros Hz. unfold hex. destruct (Z.ltb_spec z 0); [lia|].
  set (h := hex_fuel _ z []).
  assert (forallb hex_safe h = true) as Hs by (by apply hex_fuel_safe).
  assert (no_space (lit "0x" ++ h)) as Hns.
  { unfold no_space. rewrite forallb_app. apply andb_true_iff. split; [done|].
    rewrite forallb_forall in Hs |- *. intros c Hc%Hs. unfold hex_safe in Hc.
    by apply andb_true_iff in Hc as [_ ?]. }
  unfold parse_int. rewrite strip_no_space by done.
  change (lit "0x" ++ h) with ("0"%char :: "x"%char :: h). cbv iota.
  change (16 =? 16)%Z with true. cbv iota.
  rewrite (skip_prefix_safe h Hs).
  unfold h. rewrite int_digits_hex_fuel; [cbn [int_digits]; f_equal; lia|done| |done].
  eapply Z.lt_le_trans; [by apply digits_bound|]. apply Z.pow_le_mono_l. lia.
Qed.

(** * [repr] of a text *)

Definition hex2 (n : nat) : str := [hex_char (Z.of_nat n / 16); hex_char (Z.of_nat n mod 16)].

(** [c.isprintable()] on the code points 0..255. *)
Definition is_printable (c : ascii) : bool :=
  let n := code c in
  ((32 <=? n) && (n <=? 126)) || ((161 <=? n) && negb (n =? 173)).

Definition repr_char (q c : ascii) : str :=
  if Ascii.eqb c q || Ascii.eqb c "\" then ["\"%char; c]
  else if Ascii.eqb c newline then lit "\n"
  else if Ascii.eqb c tab then lit "\t"
  else if Ascii.eqb c "013" then lit "\r"
  else if is_printable c then [c]
  else lit "\x" ++ hex2 (code c).

(** Single quotes, unless the text has some and no double quotes. *)
Definition repr (s : str) : str :=
  let q := if bool_decide ("'"%char ∈ s) && negb (bool_decide (dquote ∈ s)) then dquote
           else "'"%char in
  q :: concat (map (repr_char q) s) ++ [q].
