(* ===== verification/RcScan.v ===== *)
(** blorp/scripts/attribution/instrument_rc.py, the part that reads the C text:
    function bodies, the function a brace opens, balanced parentheses, atomic
    operations and the check that helpers are only called. *)
From S2P Require Import Prelude PyStr Regex.

Definition KINDS : list str := [lit "record"; lit "list"; lit "union"; lit "string"; lit "other"].
Definition CATEGORY_BITS : Z := 7.
Definition CATEGORY_MASK : Z := Z.shiftl 1 CATEGORY_BITS - 1.
Definition NAME_WINDOW : nat := 200.

(** * The patterns *)

(** [blorp_(?:record|list|union|callable)_(?:dup|drop)_\w+|blorp_string_(?:retain|release)] *)
Definition helper_word : regex :=
  RAlt (rseq [rlit "blorp_"; rlits ["record"; "list"; "union"; "callable"]; rlit "_";
              rlits ["dup"; "drop"]; rlit "_"; RPlus Rw])
       (rseq [rlit "blorp_string_"; rlits ["retain"; "release"]]).

Definition open_call : regex := RSeq (RStar true Rs) (rlit "(").

Definition HELPER_CALL : regex :=
  rseq [RAssert WordBoundary; RGroup 1 helper_word; open_call].

Definition list_operations : regex :=
  rlits ["get"; "append"; "concat"; "set"; "suffix"; "repeat"].

Definition LIST_RUNTIME_CALL : regex :=
  rseq [RAssert WordBoundary;
        RGroup 1 (rseq [rlit "blorp_list_"; list_operations; RStar true Rw]); open_call].

Definition STRING_RUNTIME_CALL : regex :=
  rseq [RAssert WordBoundary;
        RGroup 1 (rseq [rlit "blorp_string_";
                        RNot (RAlt (RSeq (rlit "retain") (RAssert WordBoundary))
                                   (RSeq (rlit "release") (RAssert WordBoundary)));
                        RPlus Rw]); open_call].

Definition LIST_RUNTIME_NAME : regex :=
  rseq [rlit "blorp_list_"; RGroup 1 list_operations; rlit "_"].

Definition HELPER_NAME : regex :=
  RAlt (rseq [rlit "blorp_"; rlits ["record"; "list"; "union"; "callable"]; rlit "_";
              RGroup 1 (rlits ["dup"; "drop"]); rlit "_"; RPlus Rw; RAssert TextEnd])
       (rseq [rlit "blorp_string_"; RGroup 2 (rlits ["retain"; "release"]); RAssert TextEnd]).

Definition USER_NAME : regex :=
  rseq [rlit "blorp_f_"; RGroup 1 (RPlus Rd); RAssert TextEnd].

Definition ATOMIC : regex :=
  rseq [rlit "atomic_fetch_"; RGroup 1 (rlits ["add"; "sub"]); rlit "_explicit(";
        RStar true Rs; rlit "&"].

Definition MARKER : regex :=
  rseq [rlit "/*RC:"; RGroup 1 (RStar true (RClass (none_of (lit "*")))); rlit "*/"].

(** A quoted literal: escaped pairs or anything but the quote and the backslash. *)
Definition quoted (q : ascii) : regex :=
  rseq [RChar q;
        RStar true (RAlt (RSeq (RChar "\") (RClass (λ _, true)))
                         (RClass (none_of [q; "\"%char])));
        RChar q].

Definition block_comment : regex :=
  rseq [rlit "/*"; RStar false (RClass (λ _, true)); rlit "*/"].
Definition line_comment : regex := rseq [rlit "//"; RStar true (RClass (none_of [newline]))].
Definition directive : regex :=
  rseq [RAssert LineStart; RStar true (RClass (one_of [" "%char; tab])); RChar "#";
        RStar true (RAlt (RSeq (RChar "\") (RChar newline)) (RClass (none_of [newline])))].

Definition SCAN : regex :=
  ralt [quoted dquote; quoted "'"; block_comment; line_comment; directive;
        RClass (one_of (lit "{}"))].

#[global] Arguments HELPER_CALL : simpl never.
#[global] Arguments LIST_RUNTIME_CALL : simpl never.
#[global] Arguments STRING_RUNTIME_CALL : simpl never.
#[global] Arguments ATOMIC : simpl never.
#[global] Arguments MARKER : simpl never.
#[global] Arguments SCAN : simpl never.

(** * Failing *)

Definition fail {A} (message : str) : result A :=
  Raise (SystemExit (lit "error: instrument_rc: " ++ message)).

(** * The function a brace opens *)

(** Both loops walk left; [n] is the position plus one, 0 is the end of the walk. *)
Fixpoint skip_space_left (source : str) (n : nat) : nat :=
  match n with
  | O => O
  | S i => match source !! i with
           | Some c => if is_space c then skip_space_left source i else n
           | None => n
           end
  end.

Fixpoint open_paren_left (source : str) (n : nat) (depth : Z) : option nat :=
  match n with
  | O => None
  | S i =>
      match source !! i with
      | Some ")"%char => open_paren_left source i (depth + 1)
      | Some "("%char =>
          if (depth - 1 =? 0)%Z then Some i else open_paren_left source i (depth - 1)
      | _ => open_paren_left source i depth
      end
  end.

Definition name_pattern : regex :=
  rseq [RGroup 1 (RPlus Rw); RStar true Rs; RAssert TextEnd].

(** The text [source[max(0, index - NAME_WINDOW):index]].  When no parenthesis
    matches, [index] is -1 and the slice is all but the last character. *)
Definition name_window (source : str) (index : option nat) : str :=
  match index with
  | Some i => slice (i - NAME_WINDOW) i source
  | None => slice 0 (length source - 1) source
  end.

Definition function_name_before (source : str) (brace : nat) : option str :=
  match skip_space_left source brace with
  | O => None
  | S index =>
      match source !! index with
      | Some ")"%char =>
          let open := open_paren_left source (S index) 0 in
          (λ m, group m 1) <$> search name_pattern (name_window source open)
      | _ => None
      end
  end.

(** * Top-level function bodies *)

Record scan_state := ScanState {
  found : list (str * nat * nat);
  depth : Z;
  open_at : option nat;
}.

Definition scan_token (source : str) (st : scan_state) (token : mtch) : result scan_state :=
  let text := m_text token in
  if decide (text = lit "{") then
    Ok (ScanState (found st) (depth st + 1)
          (if (depth st =? 0)%Z then Some (m_start token) else open_at st))
  else if decide (text = lit "}") then
    let depth' := (depth st - 1)%Z in
    if (depth' =? 0)%Z then
      brace ← or_raise TypeError (open_at st);
      match function_name_before source brace with
      | Some name =>
          Ok (ScanState (found st ++ [(name, S brace, m_start token)]) depth' (open_at st))
      | None => Ok (ScanState (found st) depth' (open_at st))
      end
    else Ok (ScanState (found st) depth' (open_at st))
  else Ok st.

Definition functions (source : str) : result (list (str * nat * nat)) :=
  st ← foldM (scan_token source) (ScanState [] 0 None) (finditer SCAN source);
  Ok (found st).

(** * Kinds and atomic operations *)

Fixpoint kind_index (function : str) (kinds : list str) (index : nat) : nat :=
  match kinds with
  | [] => 4
  | kind :: kinds =>
      if startswith (lit "blorp_" ++ kind) function then index
      else kind_index function kinds (S index)
  end.

(** The position of the kind in [KINDS]; [other] is the fifth. *)
Definition kind_of (function : str) : nat := kind_index function (take 4 KINDS) 0.

Fixpoint match_end_from (s : str) (index : nat) (depth : Z) : result nat :=
  match s with
  | [] => fail (lit "unbalanced parenthesis")
  | c :: s =>
      if Ascii.eqb c "(" then match_end_from s (S index) (depth + 1)
      else if Ascii.eqb c ")" then
        if (depth - 1 =? 0)%Z then Ok (S index) else match_end_from s (S index) (depth - 1)
      else match_end_from s (S index) depth
  end.

Definition match_end (source : str) (open_paren : nat) : result nat :=
  match_end_from (drop open_paren source) open_paren 0.

Record wrap_state := WrapState { pieces : list str; cursor_at : nat; sites : nat }.

Definition atomic_open (m : mtch) : nat :=
  m_start m + length (lit "atomic_fetch_" ++ group m 1 ++ lit "_explicit").

Definition wrap_atomic (body function : str) (counter : nat → nat → str)
    (st : wrap_state) (m : mtch) : result wrap_state :=
  end_ ← match_end body (atomic_open m);
  let direction := if decide (group m 1 = lit "add") then 0 else 1 in
  let gap := slice (cursor_at st) (m_start m) body in
  let wrapped := lit "(" ++ counter (kind_of function) direction ++ lit ","
                 ++ slice (m_start m) end_ body ++ lit ")" in
  Ok (WrapState (pieces st ++ [gap; wrapped]) end_ (S (sites st))).

(** Wrap each atomic operation of a body so that it also counts. *)
Definition count_atomics (body function : str) (counter : nat → nat → str) :
    result (str * nat) :=
  st ← foldM (wrap_atomic body function counter) (WrapState [] 0 0) (finditer ATOMIC body);
  Ok (concat (pieces st ++ [drop (cursor_at st) body]), sites st).

(** * Helpers are only called *)

Definition OTHER_USE : regex :=
  rseq [RAssert WordBoundary; RGroup 1 helper_word; RAssert WordBoundary; RNot open_call].

Definition check_only_calls (source : str) : result unit :=
  match finditer OTHER_USE source with
  | [] => Ok tt
  | m :: _ =>
      fail (lit "helper " ++ group m 1 ++ lit " is used other than by a call (offset "
            ++ decn (m_start m) ++ lit ")")
  end.

(** * Balanced parentheses *)

Definition paren_delta (c : ascii) : Z :=
  if Ascii.eqb c "(" then 1 else if Ascii.eqb c ")" then -1 else 0.
Arguments paren_delta : simpl never.
Fixpoint paren_level (t : str) : Z :=
  match t with [] => 0%Z | c :: t => (paren_delta c + paren_level t)%Z end.

(** A text whose first parenthesis is closed by its last character. *)
Definition balanced (t : str) : Prop :=
  t ≠ [] ∧ paren_level t = 0%Z ∧
  ∀ p q, t = p ++ q → p ≠ [] → q ≠ [] → (0 < paren_level p)%Z.

Lemma paren_delta_open : paren_delta "(" = 1%Z.
Proof. reflexivity. Qed.

Lemma match_end_from_spec s i d e :
  (1 ≤ d)%Z →
  match_end_from s i d = Ok e ↔
  ∃ t rest, s = t ++ rest ∧ e = i + length t ∧ (d + paren_level t = 0)%Z ∧
    ∀ p q, t = p ++ q → q ≠ [] → (0 < d + paren_level p)%Z.
Proof.
  revert i d. induction s as [|c s IH]; intros i d Hd.
  { split; [done|]. intros (t & rest & Hs & _ & Ht & _).
    destruct t; [cbn in Ht; lia|done]. }
  assert (match_end_from (c :: s) i d =
    if (d + paren_delta c =? 0)%Z then Ok (S i)
    else match_end_from s (S i) (d + paren_delta c)) as ->.
  { cbn. unfold paren_delta. destruct (Ascii.eqb c "("), (Ascii.eqb c ")"); cbn.
    1, 2: destruct (d + 1 =? 0)%Z eqn:E; [lia|done].
    - by replace (d + -1)%Z with (d - 1)%Z by lia.
    - destruct (d + 0 =? 0)%Z eqn:E; [lia|]. by replace (d + 0)%Z with d by lia. }
  assert (-1 ≤ paren_delta c)%Z as Hc.
  { unfold paren_delta. by repeat case_match. }
  destruct (d + paren_delta c =? 0)%Z eqn:E.
  - split.
    + intros [= <-]. exists [c], s. cbn. split_and!; [done|lia|lia|].
      intros [|c' p] q Hpq Hq; cbn; [lia|]. destruct p, q; done.
    + intros ([|c' t] & rest & Hs & -> & Ht & Hp); cbn in *; [lia|].
      injection Hs as <- ->. destruct t as [|c' t]; [f_equal; cbn; lia|].
      specialize (Hp [c] (c' :: t) eq_refl ltac:(done)). cbn in Hp. lia.
  - rewrite IH by lia. split.
    + intros (t & rest & -> & -> & Ht & Hp). exists (c :: t), rest. cbn.
      split_and!; [done|lia|lia|]. intros [|c' p] q Hpq Hq; cbn; [lia|].
      injection Hpq as <- Hpq. specialize (Hp p q Hpq Hq). lia.
    + intros ([|c' t] & rest & Hs & -> & Ht & Hp); cbn in *; [lia|].
      injection Hs as <- ->. exists t, rest. split_and!; [done|lia|lia|].
      intros p q -> Hq. specialize (Hp (c :: p) q eq_refl Hq). cbn in Hp. lia.
Qed.

Lemma match_end_balanced source o e :
  source !! o = Some "("%char →
  match_end source o = Ok e ↔
  ∃ t rest, drop o source = t ++ rest ∧ balanced t ∧ e = o + length t.
Proof.
  intros Ho. unfold match_end. rewrite (drop_S _ _ _ Ho).
  cbn [match_end_from]. rewrite Ascii.eqb_refl, match_end_from_spec by lia. split.
  - intros (t & rest & -> & -> & Ht & Hp). exists ("("%char :: t), rest.
    split_and!; [done| |cbn; lia]. unfold balanced. cbn. rewrite paren_delta_open.
    split_and!; [done|lia|]. intros [|c p] q Hpq Hp0 Hq; [done|].
    cbn in Hpq. injection Hpq as <- ->.
    specialize (Hp p q eq_refl Hq). cbn. rewrite paren_delta_open. lia.
  - intros (t & rest & Hs & (Ht0 & Ht & Hp) & ->). destruct t as [|c t]; [done|].
    injection Hs as <- ->. exists t, rest. cbn in *. rewrite paren_delta_open in Ht.
    split_and!; [done|lia|lia|]. intros p q -> Hq.
    specialize (Hp ("("%char :: p) q eq_refl ltac:(done) Hq).
    cbn in Hp. rewrite paren_delta_open in Hp. lia.
Qed.

(** * The patterns never match the empty text *)

Lemma nonempty_ATOMIC : nonempty ATOMIC.
Proof. apply minw_nonempty. vm_compute. lia. Qed.
Lemma nonempty_SCAN : nonempty SCAN.
Proof. apply minw_nonempty. vm_compute. lia. Qed.
Lemma nonempty_MARKER : nonempty MARKER.
Proof. apply minw_nonempty. vm_compute. lia. Qed.
Lemma nonempty_HELPER_CALL : nonempty HELPER_CALL.
Proof. apply minw_nonempty. vm_compute. lia. Qed.
Lemma nonempty_OTHER_USE : nonempty OTHER_USE.
Proof. apply minw_nonempty. vm_compute. lia. Qed.
#[export] Hint Resolve nonempty_ATOMIC nonempty_SCAN nonempty_MARKER nonempty_HELPER_CALL
  nonempty_OTHER_USE : text.

(** * Atomic operations *)

Inductive operation := Add | Sub.
Definition operation_name (op : operation) : str :=
  match op with Add => lit "add" | Sub => lit "sub" end.
Definition direction (op : operation) : nat := match op with Add => 0 | Sub => 1 end.

Lemma ATOMIC_match s m :
  is_match ATOMIC s m →
  ∃ op p sp q, s = p ++ m_text m ++ q ∧ m_start m = length p ∧
    group m 1 = operation_name op ∧
    m_text m = lit "atomic_fetch_" ++ operation_name op ++ lit "_explicit(" ++ sp ++ lit "&".
Proof.
  intros (p & q & st' & Hs & Hst & Hden & Hq & Hcaps & Hm)%is_match_split.
  unfold ATOMIC, Rs in Hden. den_inv. subst. cbn [after before caps at_pos] in *. subst.
  match goal with H : lit ?w ++ _ = ?t ++ _, Hw : ?w ∈ _ |- _ =>
    apply (inj (λ l, l ++ _)) in H; subst t;
    assert (∃ op, lit w = operation_name op) as [op Hop] end.
  { match goal with Hw : _ ∈ ["add"; "sub"] |- _ =>
      apply elem_of_cons in Hw as [->|Hw]; [by exists Add|];
      apply list_elem_of_singleton in Hw as ->; by exists Sub end. }
  exists op, p. match goal with H : m_text m ++ _ = _ |- _ => rename H into Htext end.
  rewrite Hop in *. match type of Htext with _ = _ ++ _ ++ _ ++ ?sp ++ _ ++ _ =>
    exists sp; rewrite ?(assoc_L (++)) in Htext; apply (inj (λ l, l ++ _)) in Htext end.
  eexists. split_and!; [done|done| |by rewrite Htext, <- ?(assoc_L (++))].
  unfold group, group_opt. by rewrite Hcaps.
Qed.

(** [Wrapped counter K s out n]: [out] is [s] with [n] atomic calls wrapped, each in
    a comma expression whose left side counts, under a kind of [K] and the direction
    of the operation, and whose right side is the call. *)
Inductive Wrapped (counter : nat → nat → str) (K : nat → Prop) : str → str → nat → Prop :=
  | Wrapped_text t : Wrapped counter K t t 0
  | Wrapped_call kind op args :
      K kind → balanced args →
      Wrapped counter K
        (lit "atomic_fetch_" ++ operation_name op ++ lit "_explicit" ++ args)
        (lit "(" ++ counter kind (direction op) ++ lit ","
           ++ (lit "atomic_fetch_" ++ operation_name op ++ lit "_explicit" ++ args) ++ lit ")")
        1
  | Wrapped_app s1 o1 n1 s2 o2 n2 :
      Wrapped counter K s1 o1 n1 → Wrapped counter K s2 o2 n2 →
      Wrapped counter K (s1 ++ s2) (o1 ++ o2) (n1 + n2).

Lemma Wrapped_mono counter (K K' : nat → Prop) s out n :
  (∀ k, K k → K' k) → Wrapped counter K s out n → Wrapped counter K' s out n.
Proof. intros HK. induction 1; constructor; auto. Qed.

Lemma kind_of_bound function : kind_of function < 5.
Proof.
  unfold kind_of, KINDS. cbn [take kind_index]. repeat case_match; lia.
Qed.

(** An atomic call inside the arguments of another one: the C that the compiler
    emits has none. *)
Fixpoint nested_in (body : str) (ms : list mtch) : bool :=
  match ms with
  | m1 :: (m2 :: _) as ms' =>
      match match_end body (atomic_open m1) with
      | Ok e => m_start m2 <? e
      | Raise _ => false
      end || nested_in body ms'
  | _ => false
  end.
Definition nested_atomics (body : str) : bool := nested_in body (finditer ATOMIC body).

Lemma nested_in_app body pre m1 m2 suf e :
  nested_in body (pre ++ m1 :: m2 :: suf) = false →
  match_end body (atomic_open m1) = Ok e → e ≤ m_start m2.
Proof.
  intros H He. induction pre as [|m pre IH]; cbn in H.
  - rewrite He in H. apply orb_false_iff in H as [H _]. apply Nat.ltb_ge in H. lia.
  - destruct pre as [|m' pre]; apply orb_false_iff in H as [_ H]; by apply IH.
Qed.

(** Where the call of an atomic match ends. *)
Lemma atomic_call body m e :
  is_match ATOMIC body m → match_end body (atomic_open m) = Ok e →
  ∃ op args, group m 1 = operation_name op ∧ balanced args ∧
    m_start m ≤ e ≤ length body ∧
    slice (m_start m) e body =
      lit "atomic_fetch_" ++ operation_name op ++ lit "_explicit" ++ args.
Proof.
  intros (op & p & sp & q & Hs & Hst & Hop & Htext)%ATOMIC_match He.
  unfold atomic_open in He. rewrite Hst, Hop in He.
  set (w := lit "atomic_fetch_" ++ operation_name op ++ lit "_explicit") in *.
  assert (body = (p ++ w) ++ "("%char :: sp ++ lit "&" ++ q) as Hbody.
  { rewrite Hs, Htext. unfold w. by rewrite <- !(assoc_L (++)). }
  rewrite <- length_app in He. apply match_end_balanced in He.
  2: { rewrite Hbody. by apply list_lookup_middle. }
  destruct He as (args & rest & Hd & Hbal & ->).
  assert (body = p ++ (w ++ args) ++ rest) as Hbody'.
  { rewrite Hbody, drop_app_length in Hd. rewrite Hbody, Hd. by rewrite <- !(assoc_L (++)). }
  exists op, args. split_and!; [done|done| | |].
  - rewrite Hst, length_app. lia.
  - rewrite Hbody', !length_app. lia.
  - rewrite Hst, length_app, <- Nat.add_assoc, <- length_app, Hbody', slice_app_mid.
    unfold w. by rewrite <- !(assoc_L (++)).
Qed.

Lemma count_atomics_wrapped body function counter out n :
  nested_atomics body = false →
  count_atomics body function counter = Ok (out, n) →
  Wrapped counter (eq (kind_of function)) body out n ∧ n = length (finditer ATOMIC body).
Proof.
  unfold nested_atomics, count_atomics. intros Hn H. inv_ok. rename x into st, Hx into Hfold.
  set (I := λ pre st, Wrapped counter (eq (kind_of function))
    (take (cursor_at st) body) (concat (pieces st)) (sites st) ∧
    sites st = length pre ∧ cursor_at st ≤ length body ∧
    (∀ m suf, finditer ATOMIC body = pre ++ m :: suf → cursor_at st ≤ m_start m)).
  assert (I (finditer ATOMIC body) st) as (HW & Hlen & Hle & _).
  { eapply (foldM_prefix _ I); [|split_and!|exact Hfold]; cbn; [|constructor|done|lia|lia].
    intros pre m suf a a' Hms (HW & Hlen & Hle & Hnext) Hstep. unfold wrap_atomic in Hstep.
    inv_ok. rename x into e, Hx into He. specialize (Hnext _ _ Hms).
    assert (is_match ATOMIC body m) as Hm.
    { apply finditer_is_match. rewrite Hms. set_solver. }
    destruct (atomic_call _ _ _ Hm He) as (op & args & Hop & Hbal & Hb & Hsl).
    split_and!; cbn.
    - rewrite concat_app. cbn. rewrite app_nil_r.
      assert (take e body = take (cursor_at a) body ++
        slice (cursor_at a) (m_start m) body ++ slice (m_start m) e body) as ->.
      { rewrite (slice_join (cursor_at a)), <- !slice_0, slice_join; [done|lia..]. }
      replace (S (sites a)) with (sites a + (0 + 1)) by lia.
      apply Wrapped_app; [done|]. apply Wrapped_app; [constructor|].
      rewrite Hsl, Hop.
      assert ((if decide (operation_name op = lit "add") then 0 else 1) = direction op) as ->.
      { by destruct op. }
      by constructor.
    - rewrite length_app. cbn. lia.
    - lia.
    - intros m2 suf2 Hms2. rewrite Hms, <- (assoc_L (++)) in Hms2.
      apply (inj (app pre)) in Hms2. injection Hms2 as ->.
      eapply nested_in_app; [|exact He]. rewrite <- Hms. exact Hn. }
  split; [|done]. rewrite concat_app. cbn. rewrite app_nil_r.
  rewrite <- (take_drop (cursor_at st) body) at 1.
  rewrite <- (Nat.add_0_r (sites st)). apply Wrapped_app; [done|constructor].
Qed.

(** * Top-level blocks *)

Definition brace_delta (m : mtch) : Z :=
  if decide (m_text m = lit "{") then 1 else if decide (m_text m = lit "}") then -1 else 0.
#[global] Arguments brace_delta : simpl never.

(** The brace depth just before position [p]. *)
Fixpoint depth_at (toks : list mtch) (p : nat) : Z :=
  match toks with
  | [] => 0
  | m :: toks => ((if (m_start m <? p)%nat then brace_delta m else 0) + depth_at toks p)%Z
  end.

Definition brace_at (toks : list mtch) (c : string) (p : nat) : Prop :=
  ∃ m, m ∈ toks ∧ m_start m = p ∧ m_text m = lit c.

(** A block that opens at depth 0 and that its closing brace brings back to depth 0. *)
Definition top_block (toks : list mtch) (b e : nat) : Prop :=
  brace_at toks "{" b ∧ brace_at toks "}" e ∧ b < e ∧ depth_at toks b = 0%Z ∧
  (∀ p, b < p ≤ e → (0 < depth_at toks p)%Z) ∧ depth_at toks (S e) = 0%Z.

Lemma depth_at_app t1 t2 p : depth_at (t1 ++ t2) p = (depth_at t1 p + depth_at t2 p)%Z.
Proof. induction t1 as [|m t1 IH]; cbn; [done|]. rewrite IH. lia. Qed.

Lemma depth_at_end toks p q :
  (∀ m, m ∈ toks → m_start m < p ∧ m_start m < q) → depth_at toks p = depth_at toks q.
Proof.
  intros H. induction toks as [|m toks IH]; cbn; [done|].
  destruct (H m) as [Hp Hq]; [left|]. apply Nat.ltb_lt in Hp, Hq. rewrite Hp, Hq.
  rewrite IH; [done|]. intros m' ?. apply H. by right.
Qed.

(** What has been seen of the tokens: all of them lie before [p]. *)
Definition tokens_before (toks : list mtch) (p : nat) : Prop :=
  ∀ m, m ∈ toks → m_start m < p.

Lemma depth_at_snoc toks m p :
  depth_at (toks ++ [m]) p = (depth_at toks p + if (m_start m <? p)%nat then brace_delta m else 0)%Z.
Proof. rewrite depth_at_app. cbn. lia. Qed.

Lemma brace_at_before toks c p q : tokens_before toks q → brace_at toks c p → p < q.
Proof. intros Hb (m & Hm & <- & _). auto. Qed.

Lemma brace_at_app t1 t2 c p : brace_at (t1 ++ t2) c p ↔ brace_at t1 c p ∨ brace_at t2 c p.
Proof. unfold brace_at. setoid_rewrite elem_of_app. naive_solver. Qed.

Lemma brace_at_one m c p : brace_at [m] c p ↔ m_start m = p ∧ m_text m = lit c.
Proof. unfold brace_at. setoid_rewrite list_elem_of_singleton. naive_solver. Qed.

(** A token at the end does not change the blocks that are already closed. *)
Lemma top_block_snoc_old toks m b e :
  tokens_before toks (m_start m) → e < m_start m →
  top_block (toks ++ [m]) b e ↔ top_block toks b e.
Proof.
  intros Hbef He. unfold top_block.
  assert (∀ p, p ≤ m_start m → depth_at (toks ++ [m]) p = depth_at toks p) as Hd.
  { intros p Hp. rewrite depth_at_snoc. destruct (Nat.ltb_spec (m_start m) p); lia. }
  rewrite !brace_at_app, !brace_at_one. split.
  - intros ([Hb|[Hb _]] & [Hc|[Hc _]] & Hlt & H0 & Hin & Hend); try lia.
    rewrite Hd in H0, Hend by lia. split_and!; try done.
    intros p Hp. rewrite <- Hd by lia. by apply Hin.
  - intros (Hb & Hc & Hlt & H0 & Hin & Hend). rewrite !Hd by lia.
    split_and!; eauto. intros p Hp. rewrite Hd by lia. by apply Hin.
Qed.

(** The open block, if there is one. *)
Definition open_block (toks : list mtch) (b : nat) : Prop :=
  brace_at toks "{" b ∧ depth_at toks b = 0%Z ∧
  ∀ p, b < p → (0 < depth_at toks p)%Z.

Lemma open_block_unique toks b b' : open_block toks b → open_block toks b' → b = b'.
Proof.
  intros (_ & H0 & Hp) (_ & H0' & Hp').
  destruct (Nat.lt_trichotomy b b') as [H|[H|H]]; [|done|].
  - specialize (Hp _ H). lia.
  - specialize (Hp' _ H). lia.
Qed.

(** A closing brace at the end closes exactly the open block. *)
Lemma top_block_snoc_new toks m b :
  tokens_before toks (m_start m) → m_text m = lit "}" →
  top_block (toks ++ [m]) b (m_start m) ↔
  open_block toks b ∧ depth_at toks (m_start m) = 1%Z.
Proof.
  intros Hbef Hm. unfold top_block, open_block.
  assert (brace_delta m = -1)%Z as Hdelta.
  { unfold brace_delta. rewrite Hm. by vm_compute. }
  assert (∀ p, p ≤ m_start m → depth_at (toks ++ [m]) p = depth_at toks p) as Hd.
  { intros p Hp. rewrite depth_at_snoc. destruct (Nat.ltb_spec (m_start m) p); lia. }
  assert (depth_at (toks ++ [m]) (S (m_start m)) = depth_at toks (m_start m) - 1)%Z as Hlast.
  { rewrite depth_at_snoc. destruct (Nat.ltb_spec (m_start m) (S (m_start m))); [|lia].
    rewrite (depth_at_end toks (S (m_start m)) (m_start m)); [lia|].
    intros m' Hm'. specialize (Hbef m' Hm'). lia. }
  assert (∀ p, m_start m ≤ p → depth_at toks p = depth_at toks (m_start m)) as Hlater.
  { intros p Hp. apply depth_at_end. intros m' Hm'. specialize (Hbef m' Hm'). lia. }
  rewrite !brace_at_app, !brace_at_one, Hlast. split.
  - intros ([Hb|[Hb Hb']] & _ & Hlt & H0 & Hin & Hend); [|lia].
    rewrite Hd in H0 by lia. split_and!; try done; try lia.
    intros p Hp. destruct (decide (p ≤ m_start m)).
    + rewrite <- Hd by done. by apply Hin.
    + rewrite Hlater by lia. lia.
  - intros ((Hb & H0 & Hin) & H1).
    pose proof (brace_at_before _ _ _ _ Hbef Hb) as Hlt.
    rewrite Hd by lia. split_and!; try done; eauto; try lia.
    intros p Hp. rewrite Hd by lia. apply Hin. lia.
Qed.

Lemma top_block_before toks q b e : tokens_before toks q → top_block toks b e → e < q.
Proof. intros Hbef (_ & Hc & _). by eapply brace_at_before. Qed.

Lemma top_block_snoc_other toks m b e :
  tokens_before toks (m_start m) → m_text m ≠ lit "}" →
  top_block (toks ++ [m]) b e ↔ top_block toks b e.
Proof.
  intros Hbef Hm. destruct (decide (e < m_start m)) as [He|He].
  { by apply top_block_snoc_old. }
  split; intros H; exfalso; apply He; [|by eapply top_block_before].
  destruct H as (_ & Hc & _). apply brace_at_app in Hc as [Hc|Hc].
  - by eapply brace_at_before.
  - by apply brace_at_one in Hc as [_ ?].
Qed.

(** An open block stays open as long as the depth stays positive. *)
Lemma open_block_snoc toks m b :
  tokens_before toks (m_start m) →
  (0 < depth_at toks (m_start m) + brace_delta m)%Z →
  open_block toks b → open_block (toks ++ [m]) b.
Proof.
  intros Hbef Hd (Hb & H0 & Hp). pose proof (brace_at_before _ _ _ _ Hbef Hb) as Hlt.
  split_and!; [rewrite brace_at_app; by left| |].
  - rewrite depth_at_snoc, H0. destruct (Nat.ltb_spec (m_start m) b); lia.
  - intros p Hbp. rewrite depth_at_snoc. specialize (Hp p Hbp).
    destruct (Nat.ltb_spec (m_start m) p); [|lia].
    rewrite (depth_at_end toks p (m_start m)); [lia|].
    intros m' Hm'. specialize (Hbef m' Hm'). lia.
Qed.

Lemma open_block_start toks m :
  tokens_before toks (m_start m) → m_text m = lit "{" →
  depth_at toks (m_start m) = 0%Z → open_block (toks ++ [m]) (m_start m).
Proof.
  intros Hbef Hm H0. assert (brace_delta m = 1)%Z as Hdelta.
  { unfold brace_delta. by rewrite Hm. }
  split_and!.
  - rewrite brace_at_app, brace_at_one. by right.
  - rewrite depth_at_snoc, H0. destruct (Nat.ltb_spec (m_start m) (m_start m)); lia.
  - intros p Hp. rewrite depth_at_snoc. destruct (Nat.ltb_spec (m_start m) p); [|lia].
    rewrite (depth_at_end toks p (m_start m)); [lia|].
    intros m' Hm'. specialize (Hbef m' Hm'). lia.
Qed.

(** The spans of the bodies come in order, each behind the end of the one before. *)
Fixpoint spans_from (p : nat) (l : list (str * nat * nat)) : Prop :=
  match l with
  | [] => True
  | (_, a, e) :: l => p < a ∧ a ≤ e ∧ spans_from e l
  end.

Lemma spans_from_snoc p l name a e :
  spans_from p l → (p < a) → a ≤ e → (∀ n' a' e', (n', a', e') ∈ l → e' < a) →
  spans_from p (l ++ [(name, a, e)]).
Proof.
  revert p. induction l as [|[[n0 a0] e0] l IH]; intros p; cbn; [done|].
  intros (H1 & H2 & H3) Hp Hae Hall. split_and!; try done. apply IH; try done.
  - apply (Hall n0 a0). left.
  - intros n' a' e' Hin. apply (Hall n' a'). by right.
Qed.

Record scanned_prefix (source : str) (toks : list mtch) (st : scan_state) : Prop := {
  sp_depth : ∀ p, tokens_before toks p → depth_at toks p = depth st;
  sp_open : (0 < depth st)%Z → ∃ b, open_at st = Some b ∧ open_block toks b;
  sp_found : ∀ name a e, (name, a, e) ∈ found st ↔
    ∃ b, a = S b ∧ top_block toks b e ∧ function_name_before source b = Some name;
  sp_spans : spans_from 0 (found st);
}.

Lemma tokens_before_snoc toks m p :
  tokens_before (toks ++ [m]) p → m_start m < p ∧ tokens_before toks p.
Proof.
  intros H. split.
  - apply H, elem_of_app. right. by left.
  - intros m' ?. apply H, elem_of_app. by left.
Qed.

Lemma scanned_depth source toks m st p :
  tokens_before toks (m_start m) → scanned_prefix source toks st →
  tokens_before (toks ++ [m]) p →
  depth_at (toks ++ [m]) p = (depth st + brace_delta m)%Z.
Proof.
  intros Hbef Hst [Hlt Hp]%tokens_before_snoc. rewrite depth_at_snoc.
  rewrite (sp_depth _ _ _ Hst) by done. destruct (Nat.ltb_spec (m_start m) p); lia.
Qed.

Lemma scan_other source toks m st :
  tokens_before toks (m_start m) → scanned_prefix source toks st →
  m_text m ≠ lit "{" → m_text m ≠ lit "}" → scanned_prefix source (toks ++ [m]) st.
Proof.
  intros Hbef Hst Ho Hc. assert (brace_delta m = 0)%Z as Hdelta.
  { unfold brace_delta. by rewrite !decide_False. }
  pose proof (sp_depth _ _ _ Hst _ Hbef) as Hd.
  constructor.
  - intros p Hp. erewrite scanned_depth by done. lia.
  - intros H. destruct (sp_open _ _ _ Hst H) as (b & Hb & Hopen). exists b.
    split; [done|]. apply open_block_snoc; [done|lia|done].
  - intros name a e. rewrite (sp_found _ _ _ Hst).
    by setoid_rewrite top_block_snoc_other.
  - apply Hst.
Qed.

Lemma scan_open source toks m st :
  tokens_before toks (m_start m) → scanned_prefix source toks st → m_text m = lit "{" →
  scanned_prefix source (toks ++ [m]) (ScanState (found st) (depth st + 1)
    (if (depth st =? 0)%Z then Some (m_start m) else open_at st)).
Proof.
  intros Hbef Hst Hm. assert (brace_delta m = 1)%Z as Hdelta.
  { unfold brace_delta. by rewrite Hm. }
  pose proof (sp_depth _ _ _ Hst _ Hbef) as Hd.
  constructor; cbn.
  - intros p Hp. erewrite scanned_depth by done. lia.
  - intros H. destruct (Z.eqb_spec (depth st) 0) as [H0|H0].
    + eexists. split; [done|]. apply open_block_start; [done..|lia].
    + destruct (sp_open _ _ _ Hst) as (b & Hb & Hopen); [lia|]. exists b.
      split; [done|]. apply open_block_snoc; [done|lia|done].
  - intros name a e. rewrite (sp_found _ _ _ Hst).
    setoid_rewrite top_block_snoc_other; [done|done|]. by rewrite Hm.
  - apply Hst.
Qed.

(** After a closing brace: what the state is but for the list of functions. *)
Lemma scan_close_rest source toks m st b :
  tokens_before toks (m_start m) → scanned_prefix source toks st → m_text m = lit "}" →
  (∀ p, tokens_before (toks ++ [m]) p → depth_at (toks ++ [m]) p = (depth st - 1)%Z) ∧
  ((0 < depth st - 1)%Z → ∃ b, open_at st = Some b ∧ open_block (toks ++ [m]) b) ∧
  (∀ e, top_block (toks ++ [m]) b e ↔
     top_block toks b e ∨ (e = m_start m ∧ open_block toks b ∧ depth st = 1%Z)).
Proof.
  intros Hbef Hst Hm. assert (brace_delta m = -1)%Z as Hdelta.
  { unfold brace_delta. by rewrite Hm. }
  pose proof (sp_depth _ _ _ Hst _ Hbef) as Hd. split_and!.
  - intros p Hp. erewrite scanned_depth by done. lia.
  - intros H. destruct (sp_open _ _ _ Hst) as (b' & Hb & Hopen); [lia|]. exists b'.
    split; [done|]. apply open_block_snoc; [done|lia|done].
  - intros e. destruct (Nat.lt_trichotomy e (m_start m)) as [He|[->|He]].
    + rewrite top_block_snoc_old by done. split; [auto|]. intros [?|(-> & _)]; [done|lia].
    + rewrite top_block_snoc_new by done. rewrite Hd. split; [auto|].
      intros [H|(_ & H)]; [|done]. apply top_block_before with (q := m_start m) in H; [lia|done].
    + split; [|intros [H|(-> & _)]; [|lia]].
      * intros (_ & Hc & _). apply brace_at_app in Hc as [Hc|Hc].
        -- pose proof (brace_at_before _ _ _ _ Hbef Hc). lia.
        -- apply brace_at_one in Hc as [? _]. lia.
      * apply top_block_before with (q := m_start m) in H; [lia|done].
Qed.

Lemma scan_close source toks m st :
  tokens_before toks (m_start m) → scanned_prefix source toks st → m_text m = lit "}" →
  ∃ st', scan_token source st m = Ok st' ∧ scanned_prefix source (toks ++ [m]) st'.
Proof.
  intros Hbef Hst Hm.
  pose proof (scan_close_rest source toks m st) as Hrest.
  assert (∀ b, _) as Hrest' by (intros b; exact (Hrest b Hbef Hst Hm)). clear Hrest.
  destruct (Hrest' 0) as (Hdepth & Hopen & _).
  unfold scan_token. rewrite Hm, decide_False, decide_True by done.
  destruct (Z.eqb_spec (depth st - 1) 0) as [H1|H1].
  - destruct (sp_open _ _ _ Hst) as (b & Hb & Hblock); [lia|]. rewrite Hb. cbn.
    destruct (Hrest' b) as (_ & _ & Hnew).
    assert (∀ name a e, (∃ b', a = S b' ∧ top_block (toks ++ [m]) b' e ∧
        function_name_before source b' = Some name) ↔ (name, a, e) ∈ found st ∨
        (a = S b ∧ e = m_start m ∧ function_name_before source b = Some name)) as Hiff.
    { intros name a e. rewrite (sp_found _ _ _ Hst). split.
      - intros (b' & -> & Ht & Hn). destruct (Hrest' b') as (_ & _ & Hb').
        apply Hb' in Ht as [Ht|(-> & Hb2 & _)]; [eauto|].
        rewrite (open_block_unique _ _ _ Hb2 Hblock) in *. auto.
      - intros [(b' & -> & Ht & Hn)|(-> & -> & Hn)].
        + exists b'. destruct (Hrest' b') as (_ & _ & Hb'). rewrite Hb'. auto.
        + exists b. rewrite Hnew. split_and!; [done| |done]. right. split_and!; [done..|lia]. }
    destruct (function_name_before source b) as [fn|] eqn:Hname; eexists;
      (split; [done|]); constructor; cbn; try done; try lia; try apply Hst.
    + intros name a e. rewrite Hiff, elem_of_app, list_elem_of_singleton. naive_solver.
    + pose proof (brace_at_before _ _ _ _ Hbef (proj1 Hblock)).
      apply spans_from_snoc; [apply Hst|lia|lia|].
      intros n' a' e' (b' & _ & Ht & _)%(sp_found _ _ _ Hst).
      destruct Hblock as (_ & _ & Hpos). destruct Ht as (_ & _ & _ & _ & _ & Hend).
      destruct (decide (b < S e')) as [Hlt|]; [|lia]. specialize (Hpos _ Hlt). lia.
    + intros name a e. rewrite Hiff. naive_solver.
  - eexists. split; [done|]. constructor; cbn; try done; try apply Hst.
    intros name a e. rewrite (sp_found _ _ _ Hst).
    split; intros (b & -> & Ht & Hn); exists b; (split_and!; [done| |done]);
      destruct (Hrest' b) as (_ & _ & Hb); [by apply Hb; left|].
    apply Hb in Ht as [?|(_ & _ & ?)]; [done|lia].
Qed.

Lemma functions_scanned source :
  ∃ st, functions source = Ok (found st) ∧ scanned_prefix source (finditer SCAN source) st.
Proof.
  destruct (foldM_total (scan_token source) (scanned_prefix source) (finditer SCAN source))
    with (a := ScanState [] 0 None) as (st & Hfold & Hst).
  - intros toks m suf st Hm Hst.
    assert (tokens_before toks (m_start m)) as Hbef.
    { intros m' Hm'. pose proof (finditer_ordered _ _ _ _ _ _ Hm Hm') as Hle.
      assert (m_text m' ≠ []) as Hne.
      { apply (is_match_nonempty SCAN source); [auto with text|].
        apply finditer_is_match. rewrite Hm. apply elem_of_app. by left. }
      unfold m_end in Hle. destruct (m_text m'); [done|cbn in Hle; lia]. }
    destruct (decide (m_text m = lit "{")) as [Ho|Ho].
    { unfold scan_token. rewrite decide_True by done. eexists. split; [done|].
      by apply scan_open. }
    destruct (decide (m_text m = lit "}")) as [Hc|Hc]; [by apply scan_close|].
    unfold scan_token. rewrite !decide_False by done. eexists. split; [done|].
    by apply scan_other.
  - constructor; cbn; [done|lia| |done]. intros name a e. split.
    + by intros ?%elem_of_nil.
    + by intros (b & _ & ((m & ?%elem_of_nil & _) & _) & _).
  - exists st. unfold functions. by rewrite Hfold.
Qed.

(** [functions] finds exactly the named blocks of depth 0. *)
Lemma functions_blocks source :
  ∃ l, functions source = Ok l ∧ spans_from 0 l ∧
    ∀ name a e, (name, a, e) ∈ l ↔
      ∃ b, a = S b ∧ top_block (finditer SCAN source) b e ∧
        function_name_before source b = Some name.
Proof.
  destruct (functions_scanned source) as (st & -> & Hst). exists (found st).
  split_and!; [done|apply Hst|apply Hst].
Qed.

(** The braces of a block are characters of the text. *)
Lemma brace_at_lookup source c p :
  brace_at (finditer SCAN source) (String c "") p → source !! p = Some c.
Proof.
  intros (m & Hm & <- & Ht). apply finditer_is_match, is_match_split in Hm
    as (q & r & _ & Hs & -> & _). rewrite Hs, Ht. by apply list_lookup_middle.
Qed.

(** * Helpers are only called *)

(** The names of the dup and drop helpers. *)
Inductive is_helper : str → Prop :=
  | helper_counted kind op name :
      kind ∈ ["record"; "list"; "union"; "callable"] → op ∈ ["dup"; "drop"] →
      name ≠ [] → forallb is_word name = true →
      is_helper (lit "blorp_" ++ lit kind ++ lit "_" ++ lit op ++ lit "_" ++ name)
  | helper_string op :
      op ∈ ["retain"; "release"] → is_helper (lit "blorp_string_" ++ lit op).

(** The text goes on with spaces and an opening parenthesis. *)
Definition opens_call (q : str) : Prop :=
  ∃ sp r, q = sp ++ lit "(" ++ r ∧ forallb is_space sp = true.

Lemma den_open_call st : (∃ st', den open_call st st') ↔ opens_call (after st).
Proof.
  unfold open_call, Rs, opens_call. split.
  - intros (st' & m & H & Hp). apply den_star_class in H as (sp & rest & -> & Hsp & ->).
    apply den_rlit in Hp as (r & Hr & _). cbn in Hr. exists sp, r. by rewrite Hr.
  - intros (sp & r & H & Hsp). eexists _, _. split.
    + apply den_star_class. exists sp, (lit "(" ++ r). done.
    + apply den_rlit. by exists r.
Qed.

Lemma opens_call_dec q : opens_call q ∨ ¬ opens_call q.
Proof.
  pose proof (den_open_call (at_pos [] q)) as H. cbn [after at_pos] in H. rewrite <- H.
  destruct (outcomes open_call (at_pos [] q)) as [|st l] eqn:E.
  - right. intros (st & Hst%outcomes_den). rewrite E in Hst. by apply elem_of_nil in Hst.
  - left. exists st. apply outcomes_den. rewrite E. left.
Qed.

Lemma den_rlits_intro l s st st' : s ∈ l → den (rlit s) st st' → den (rlits l) st st'.
Proof.
  unfold rlits. induction l as [|s0 [|s1 l] IH]; cbn [map ralt].
  - by intros ?%elem_of_nil.
  - by intros ->%list_elem_of_singleton.
  - intros [->|H]%elem_of_cons Hd; [by left|]. right. by apply IH.
Qed.

Lemma den_rseq_cons r l st st' : den (rseq (r :: l)) st st' ↔ ∃ m, den r st m ∧ den (rseq l) m st'.
Proof. done. Qed.

Lemma den_RAlt r1 r2 st st' : den (RAlt r1 r2) st st' ↔ den r1 st st' ∨ den r2 st st'.
Proof. done. Qed.

(** Going through a literal and one of several literals. *)
Lemma den_seq_rlit s l bef rest cs st' :
  den (rseq l) (Cursor (rev (lit s) ++ bef) rest cs) st' →
  den (rseq (rlit s :: l)) (Cursor bef (lit s ++ rest) cs) st'.
Proof. intros H. eexists. split; [apply den_rlit; by exists rest|done]. Qed.

Lemma den_seq_rlits s ss l bef rest cs st' :
  s ∈ ss → den (rseq l) (Cursor (rev (lit s) ++ bef) rest cs) st' →
  den (rseq (rlits ss :: l)) (Cursor bef (lit s ++ rest) cs) st'.
Proof.
  intros Hs H. eexists. split; [|done]. eapply den_rlits_intro; [done|].
  apply den_rlit. by exists rest.
Qed.

Lemma den_helper_word st st' :
  den helper_word st st' ↔
  ∃ w rest, after st = w ++ rest ∧ is_helper w ∧
    st' = Cursor (rev w ++ before st) rest (caps st).
Proof.
  split.
  - unfold helper_word, Rw. intros [H|H]; den_inv; subst; cbn [before after caps] in *.
    + match goal with H : after st = lit "blorp_" ++ _ |- _ => rename H into Ha end.
      subst. eexists _, _. split; [|split; [by eapply helper_counted|]].
      * rewrite Ha, <- ?(assoc_L (++)). done.
      * by rewrite !rev_app_distr, <- ?(assoc_L (++)).
    + match goal with H : after st = lit "blorp_string_" ++ _ |- _ => rename H into Ha end.
      subst. eexists _, _. split; [|split; [by eapply helper_string|]].
      * rewrite Ha, <- ?(assoc_L (++)). done.
      * by rewrite !rev_app_distr, <- ?(assoc_L (++)).
  - destruct st as [bef aft cs]. cbn [before after caps]. intros (w & rest & -> & Hw & ->).
    destruct Hw as [kind op name Hk Hop Hne Hname|op Hop]; apply den_RAlt; [left|right];
      rewrite ?rev_app_distr, <- ?(assoc_L (++)).
    + apply den_seq_rlit, den_seq_rlits, den_seq_rlit, den_seq_rlits, den_seq_rlit; [done..|].
      eexists. split; [apply den_plus_class; exists name, rest; done|done].
    + apply den_seq_rlit, den_seq_rlits; done.
Qed.

Lemma is_helper_first w : is_helper w → ∃ t, w = "b"%char :: t.
Proof. intros [kind op name|op]; eexists; reflexivity. Qed.

Lemma is_helper_words w : is_helper w → forallb is_word w = true.
Proof.
  intros [kind op name Hk Hop _ Hn|op Hop].
  - rewrite !forallb_app, Hn. rewrite !andb_true_iff.
    split_and!; try reflexivity.
    + repeat (apply elem_of_cons in Hk as [->|Hk]; [reflexivity|]). by apply elem_of_nil in Hk.
    + repeat (apply elem_of_cons in Hop as [->|Hop]; [reflexivity|]). by apply elem_of_nil in Hop.
  - rewrite forallb_app. apply andb_true_iff. split; [reflexivity|].
    repeat (apply elem_of_cons in Hop as [->|Hop]; [reflexivity|]). by apply elem_of_nil in Hop.
Qed.

(** No word character at the end of the text before, at the start of the text after. *)
Definition word_start (p : str) : Prop := ∀ c, head (rev p) = Some c → is_word c = false.
Definition word_end (q : str) : Prop := ∀ c, head q = Some c → is_word c = false.

Lemma den_OTHER_USE p q :
  (∃ st, den OTHER_USE (at_pos (rev p) q) st) ↔
  ∃ w r, q = w ++ r ∧ is_helper w ∧ word_start p ∧ word_end r ∧ ¬ opens_call r.
Proof.
  unfold OTHER_USE, at_pos. split.
  - intros (st & H). den_inv. subst.
    match goal with H : den helper_word _ _ |- _ =>
      apply den_helper_word in H as (w & r & Hw & Hh & Hst) end.
    subst. cbn [before after caps] in *. rewrite Hst in *. cbn [before after caps] in *.
    apply (inj (λ l, l ++ r)) in Hw. subst.
    match goal with H : den (RNot _) _ _ |- _ => destruct H as [Hno ->] end.
    exists w, r. destruct (is_helper_first _ Hh) as [t Ht].
    pose proof (is_helper_words _ Hh) as Hwords.
    repeat match goal with H : holds WordBoundary _ = true |- _ =>
      unfold holds, at_word_boundary in H; cbn in H end.
    split_and!; [done|done| | |].
    + intros c Hc. subst w. destruct (rev p) as [|c' ?]; [done|].
      injection Hc as ->. cbn in *. by destruct (is_word c).
    + intros c Hc. destruct r as [|c' r]; [done|]. injection Hc as ->.
      assert (∃ l t', rev w ++ rev p = l :: t' ∧ is_word l = true) as (l & t' & Hl & Hlw).
      { destruct (rev w) as [|l rw] eqn:E.
        - apply rev_eq_nil in E. by subst.
        - exists l, (rw ++ rev p). split; [done|]. rewrite forallb_forall in Hwords.
          apply Hwords. rewrite in_rev, E. by left. }
      rewrite Hl, Hlw in *. by destruct (is_word c).
    + intros Ho. apply Hno. by apply (den_open_call (Cursor (rev w ++ rev p) r [(1, w)])).
  - intros (w & r & -> & Hh & Hs & He & Hno).
    destruct (is_helper_first _ Hh) as [t Ht]. pose proof (is_helper_words _ Hh) as Hwords.
    eexists. eexists. split.
    { split; [|reflexivity]. unfold holds, at_word_boundary. cbn. subst w. cbn.
      destruct (rev p) as [|c l] eqn:E; [done|]. unfold word_start in Hs. rewrite E in Hs. by rewrite (Hs c eq_refl). }
    eexists. split.
    { eexists. split; [|reflexivity]. apply den_helper_word. exists w, r. done. }
    unfold capture. cbn [before after caps].
    eexists. split.
    { split; [|reflexivity]. unfold holds, at_word_boundary. cbn.
      assert (∃ l t', rev w ++ rev p = l :: t' ∧ is_word l = true) as (l & t' & -> & ->).
      { destruct (rev w) as [|l rw] eqn:E.
        - apply rev_eq_nil in E. by subst.
        - exists l, (rw ++ rev p). split; [done|]. rewrite forallb_forall in Hwords.
          apply Hwords. rewrite in_rev, E. by left. }
      destruct r as [|c r]; [done|]. by rewrite (He c eq_refl). }
    eexists. split; [|reflexivity]. split; [|reflexivity].
    intros Hst. by apply den_open_call in Hst.
Qed.

Lemma fail_Raise {A} message : @fail A message = Raise (SystemExit (lit "error: instrument_rc: " ++ message)).
Proof. done. Qed.

(** Reading parentheses fails in one way only. *)
Lemma match_end_from_Raise s i d e :
  match_end_from s i d = Raise e → match_end_from s i d = fail (lit "unbalanced parenthesis").
Proof.
  revert i d. induction s as [|c s IH]; intros i d; cbn; [done|].
  repeat case_match; eauto; done.
Qed.

Lemma count_atomics_Raise body function counter e :
  count_atomics body function counter = Raise e →
  count_atomics body function counter = fail (lit "unbalanced parenthesis") ∧
  ∃ m, m ∈ finditer ATOMIC body ∧ is_ok (match_end body (atomic_open m)) = false.
Proof.
  unfold count_atomics. destruct (foldM _ _ _) as [st|e'] eqn:E; [done|].
  apply foldM_Raise in E as (st & m & Hm & Hst). unfold wrap_atomic in Hst.
  destruct (match_end body (atomic_open m)) as [e2|e2] eqn:He; [done|].
  pose proof (match_end_from_Raise _ _ _ _ He) as Hf. fold (match_end body (atomic_open m)) in Hf.
  cbn in Hst. injection Hst as <-. rewrite He in Hf. intros _. cbn. split.
  - by rewrite fail_Raise in *; injection Hf as ->.
  - exists m. split; [done|]. by rewrite He.
Qed.

(** * Properties *)

(** C3: [functions] never raises, and what it returns is exactly the set of top-level
    blocks (a brace at depth 0 up to the brace that closes it, literals, comments and
    directives not counted) that a function name precedes; the bodies come in the
    order of the text, do not overlap, and lie strictly between their two braces. *)
Theorem functions_correct source :
  ∃ l, functions source = Ok l ∧ spans_from 0 l ∧
    (∀ name a e, (name, a, e) ∈ l ↔
      ∃ b, a = S b ∧ top_block (finditer SCAN source) b e ∧
        function_name_before source b = Some name) ∧
    (∀ name a e, (name, a, e) ∈ l →
      source !! (a - 1) = Some "{"%char ∧ source !! e = Some "}"%char).
Proof.
  destruct (functions_blocks source) as (l & Hl & Hsp & Hin). exists l.
  split_and!; [done|done|done|]. intros name a e (b & -> & (Hb & He & _) & _)%Hin.
  rewrite Nat.sub_succ, Nat.sub_0_r. split; by apply brace_at_lookup.
Qed.

(** C4: [match_end] returns the position behind a balanced text that starts at the given
    opening parenthesis, and exists with an error when there is none. *)
Theorem match_end_correct source open_paren :
  source !! open_paren = Some "("%char →
  (∀ e, match_end source open_paren = Ok e ↔
     ∃ t rest, drop open_paren source = t ++ rest ∧ balanced t ∧ e = open_paren + length t) ∧
  ((∀ t rest, drop open_paren source = t ++ rest → ¬ balanced t) →
     match_end source open_paren = fail (lit "unbalanced parenthesis")).
Proof.
  intros Ho. split; [intros e; by apply match_end_balanced|]. intros Hno.
  destruct (match_end source open_paren) as [e|e] eqn:E.
  - apply match_end_balanced in E as (t & rest & Hd & Hb & _); [|done].
    by destruct (Hno _ _ Hd).
  - rewrite <- E. by eapply match_end_from_Raise.
Qed.

Lemma match_end_correct_witness :
  ∃ e, match_end (lit "f((x), y) + (z") 1 = Ok e ∧ e = 9 ∧
    ∃ t rest, drop 1 (lit "f((x), y) + (z") = t ++ rest ∧ balanced t ∧ e = 1 + length t.
Proof.
  exists 9. split; [reflexivity|]. split; [reflexivity|].
  apply (match_end_correct (lit "f((x), y) + (z") 1); reflexivity.
Defined.

(** C5: [count_atomics] on a body whose atomic operations are not nested either puts a
    counter of the function's kind and of the operation's direction in front of exactly
    the atomic operations, all of them, leaving the rest of the text as it is, and
    returns their number; or some operation's parenthesis is not closed and it exits. *)
Theorem count_atomics_correct body function counter :
  nested_atomics body = false →
  (∃ out, count_atomics body function counter = Ok (out, length (finditer ATOMIC body)) ∧
     Wrapped counter (eq (kind_of function)) body out (length (finditer ATOMIC body))) ∨
  (count_atomics body function counter = fail (lit "unbalanced parenthesis") ∧
   ∃ m, m ∈ finditer ATOMIC body ∧ is_ok (match_end body (atomic_open m)) = false).
Proof.
  intros Hn. destruct (count_atomics body function counter) as [[out n]|e] eqn:E; [left|right].
  - destruct (count_atomics_wrapped _ _ _ _ _ Hn E) as [HW ->]. by exists out.
  - rewrite <- E. by eapply count_atomics_Raise.
Qed.

Definition atomic_sample : str :=
  lit "if(atomic_fetch_sub_explicit(&v->references,1,memory_order_acq_rel)==1)free(v);".

Lemma count_atomics_correct_witness :
  nested_atomics atomic_sample = false ∧
  ∃ out, count_atomics atomic_sample (lit "blorp_list_drop_3") (λ k d, decn k ++ decn d)
    = Ok (out, 1) ∧
    Wrapped (λ k d, decn k ++ decn d) (eq 1) atomic_sample out 1.
Proof.
  split; [vm_compute; reflexivity|].
  destruct (count_atomics_correct atomic_sample (lit "blorp_list_drop_3")
    (λ k d, decn k ++ decn d)) as [H|[H _]].
  - vm_compute. reflexivity.
  - exact H.
  - vm_compute in H. discriminate H.
Defined.

(** The condition is needed: of two nested operations the inner one is written twice, and what
    stands behind it in the arguments of the outer one too. *)
Definition nested_sample : str := lit "atomic_fetch_add_explicit(&a[atomic_fetch_sub_explicit(&i,1,r)],1,r);".

Lemma nested_repeats :
  count_atomics nested_sample (lit "f") (λ k d, lit "n") =
  Ok (lit "(n,atomic_fetch_add_explicit(&a[atomic_fetch_sub_explicit(&i,1,r)],1,r))(n,atomic_fetch_sub_explicit(&i,1,r))],1,r);", 2).
Proof. vm_compute. reflexivity. Qed.

(** C6: [check_only_calls] accepts a text exactly when every helper name that stands in it
    as a whole word is followed by spaces and an opening parenthesis. *)
Theorem check_only_calls_correct source :
  check_only_calls source = Ok tt ↔
  ∀ p w q, source = p ++ w ++ q → is_helper w → word_start p → word_end q → opens_call q.
Proof.
  transitivity (finditer OTHER_USE source = []).
  { unfold check_only_calls. destruct (finditer OTHER_USE source); by split. }
  rewrite (finditer_nil_iff _ _ nonempty_OTHER_USE). split.
  - intros Hno p w q Hs Hw Hst He. destruct (opens_call_dec q) as [|Hn]; [done|].
    exfalso. destruct (proj2 (den_OTHER_USE p (w ++ q))) as [st Hden];
      [by exists w, q|by eapply (Hno p (w ++ q))].
  - intros Hall p q st Hs Hden.
    destruct (proj1 (den_OTHER_USE p q)) as (w & r & -> & Hw & Hst & He & Hno); [eauto|].
    apply Hno. by apply (Hall p w r).
Qed.
