(* ===== verification/RcTags.v ===== *)
(** blorp/scripts/attribution/instrument_rc.py, the part that attributes each
    reference-count call to a source: the numbered categories, the marker
    regions of a user function, and the rewriting of the calls of one body. *)
From S2P Require Import Prelude PyStr Regex RcScan.

(** * Categories *)

(** [class Categories]: the names in tag order. *)
Abbreviation categories := (list str).
Definition Categories_init : categories := [lit "untagged"].

Fixpoint index_of (name : str) (names : list str) : nat :=
  match names with
  | [] => 0
  | n :: names => if decide (n = name) then 0 else S (index_of name names)
  end.

Definition number (self : categories) (name : str) : result (categories * nat) :=
  if decide (name ∈ self) then Ok (self, index_of name self)
  else
    let names := self ++ [name] in
    if (CATEGORY_MASK + 1 <? Z.of_nat (length names))%Z
    then fail (lit "more than " ++ dec (CATEGORY_MASK + 1) ++ lit " categories")
    else Ok (names, index_of name names).

(** * Marker regions *)

(** [a, b, c = fields[i:j]]: the number of values must be right. *)
Definition unpack2 (l : list str) : result (str * str) :=
  match l with [a; b] => Ok (a, b) | _ => Raise ValueError end.
Definition unpack3 (l : list str) : result (str * str * str) :=
  match l with [a; b; c] => Ok (a, b, c) | _ => Raise ValueError end.

Definition field (fields : list str) (i : nat) : result str :=
  or_raise IndexError (fields !! i).

Definition marker_fields (marker : mtch) : list str := split_ws (group marker 1).

(** The first loop: the reason of every acquisition and the kind of every created owner. *)
Record owners := Owners { acquired : gmap str str; created : gmap str str }.

Definition collect_fields (os : owners) (fields : list str) : result owners :=
  if decide (take 2 fields = [lit "B"; lit "A"]) then
    reason ← field fields 2;
    owner ← field fields 5;
    Ok (Owners (<[owner := reason]> (acquired os)) (created os))
  else
    f0 ← field fields 0;
    if decide (f0 = lit "K") then
      kind ← field fields 2;
      owner ← field fields 1;
      Ok (Owners (acquired os) (<[owner := kind]> (created os)))
    else Ok os.

Definition collect_owner (os : owners) (marker : mtch) : result owners :=
  collect_fields os (marker_fields marker).

Definition collect_owners (body : str) : result owners :=
  foldM collect_owner (Owners ∅ ∅) (finditer MARKER body).

(** [acquired.get(owner) or created.get(owner)]: an empty text counts as missing. *)
Definition owner_origin (os : owners) (owner : str) : option str :=
  match acquired os !! owner with
  | Some (c :: r) => Some (c :: r)
  | _ => created os !! owner
  end.

Definition acquire_category (reason source paired : str) : str :=
  lit "acquire:" ++ reason
  ++ (if decide (reason = lit "projection") then [] else lit ":" ++ source)
  ++ (if decide (paired = lit "pair") then lit "+pair" else []).

Definition drop_category (origin partner : str) : str :=
  lit "drop:" ++ origin
  ++ (if decide (partner = lit "none") then [] else lit "+pair:" ++ partner).

(** The category that holds behind a marker. *)
Definition next_category (name : str) (os : owners) (fields : list str) (category : str) :
    result str :=
  f0 ← field fields 0;
  if decide (f0 = lit "B") then
    f1 ← field fields 1;
    if decide (f1 = lit "A") then
      '(reason, source, paired) ← unpack3 (slice 2 5 fields);
      Ok (acquire_category reason source paired)
    else
      '(owner, partner) ← unpack2 (slice 2 4 fields);
      match owner_origin os owner with
      | None => fail (name ++ lit " drops owner " ++ owner ++ lit ", which no marker created")
      | Some origin => Ok (drop_category origin partner)
      end
  else if decide (f0 = lit "E") then Ok (lit "unmarked")
  else Ok category.

Record region_state := RegionState {
  regions : list (str * str);
  region_cursor : nat;
  category : str;
}.

Definition region_step (name body : str) (os : owners) (st : region_state) (marker : mtch) :
    result region_state :=
  category' ← next_category name os (marker_fields marker) (category st);
  Ok (RegionState (regions st ++ [(slice (region_cursor st) (m_start marker) body, category st)])
        (m_end marker) category').

Definition region_tags (body name : str) : result (list (str * str)) :=
  os ← collect_owners body;
  st ← foldM (region_step name body os) (RegionState [] 0 (lit "unmarked"))
         (finditer MARKER body);
  Ok (regions st ++ [(drop (region_cursor st) body, category st)]).

(** * Tagging the calls of a body *)

Definition tag_calls (text tag_expression : str) : str :=
  sub HELPER_CALL
    (λ m, lit "(blorp_rc_tag=" ++ tag_expression ++ lit "," ++ group m 1 ++ lit ")(") text.

(** The tag of a user function: the function number above the category bits. *)
Definition function_bits (n : Z) : Z := Z.shiftl n CATEGORY_BITS.
Definition user_tag (n : Z) (category : nat) : Z := Z.lor (function_bits n) (Z.of_nat category).

Definition user_tag_text (t : Z) : str := dec t ++ lit "u".

(** The expression that keeps the function bits and sets the category. *)
Definition category_tag_text (category : nat) : str :=
  lit "(blorp_rc_tag&~" ++ dec CATEGORY_MASK ++ lit "u)|" ++ decn category ++ lit "u".

Definition tag_runtime_calls (function_bits : Z) (text : str) : str :=
  foldl (λ text pattern,
           sub pattern (λ m, lit "(blorp_rc_tag=" ++ user_tag_text function_bits ++ lit ","
                             ++ group m 1 ++ lit ")(") text)
    text [LIST_RUNTIME_CALL; STRING_RUNTIME_CALL].

Definition tag_region (n : Z) (st : list str * categories) (region : str * str) :
    result (list str * categories) :=
  let '(out, cs) := st in
  let '(text, category) := region in
  '(cs, c) ← number cs category;
  let text := tag_calls text (user_tag_text (user_tag n c)) in
  Ok (out ++ [tag_runtime_calls (function_bits n) text], cs).

Definition rewrite_tagged (name body : str) (cs : categories) : result (str * categories) :=
  match match_start USER_NAME name with
  | Some user =>
      n ← int (group user 1);
      rs ← region_tags body name;
      '(out, cs) ← foldM (tag_region n) ([], cs) rs;
      Ok (concat out, cs)
  | None =>
  match match_start LIST_RUNTIME_NAME name with
  | Some list_runtime =>
      '(cs, c) ← number cs (lit "runtime_list:" ++ group list_runtime 1);
      Ok (tag_calls body (category_tag_text c), cs)
  | None =>
  match match_start HELPER_NAME name with
  | Some _ =>
      match search ATOMIC body with
      | None =>
          match search HELPER_CALL body with
          | None => Ok (body, cs)
          | Some _ =>
              Ok (lit "const unsigned blorp_rc_saved=blorp_rc_tag;"
                  ++ tag_calls body (lit "blorp_rc_saved"), cs)
          end
      | Some first_atomic =>
          operation ← field (split_on (lit "_") name) 2;
          if bool_decide (operation = lit "dup") || startswith (lit "blorp_string_") name
          then Ok (body, cs)
          else
            parent ← field (split_on (lit "_") name) 1;
            '(cs, c) ← number cs (lit "cascade:" ++ parent);
            let head := take (m_start first_atomic) body in
            let tail := drop (m_start first_atomic) body in
            Ok (head ++ tag_calls tail (category_tag_text c), cs)
      end
  | None =>
      match search HELPER_CALL body with
      | Some _ =>
          '(cs, c) ← number cs (lit "runtime_other");
          Ok (tag_calls body (category_tag_text c), cs)
      | None => Ok (body, cs)
      end
  end end end.

(** * The tag in the generated C *)

(** The report's [t>>CATEGORY_BITS] and [t&CATEGORY_MASK], and the expression
    [(blorp_rc_tag&~CATEGORY_MASK)|category], on [unsigned] of 32 bits. *)
Definition UINT_MAX : Z := 2 ^ 32 - 1.
Definition tag_function (t : Z) : Z := Z.shiftr t CATEGORY_BITS.
Definition tag_category (t : Z) : Z := Z.land t CATEGORY_MASK.
Definition set_category (t : Z) (category : nat) : Z :=
  Z.lor (Z.land t (Z.lxor UINT_MAX CATEGORY_MASK)) (Z.of_nat category).

Definition max_categories : nat := 128.

Lemma user_tag_sum n c :
  c < max_categories → user_tag n c = (n * 128 + Z.of_nat c)%Z.
Proof.
  intros Hc. unfold max_categories in Hc. unfold user_tag, function_bits, CATEGORY_BITS.
  rewrite Z.shiftl_mul_pow2 by lia. change (2 ^ 7)%Z with 128%Z.
  rewrite <- Z.add_lor_land.
  assert (Z.land (n * 128) (Z.of_nat c) = 0)%Z as ->; [|lia].
  change 128%Z with (2 ^ 7)%Z. rewrite <- Z.shiftl_mul_pow2 by lia.
  apply Z.bits_inj'. intros i Hi. rewrite Z.land_spec, Z.shiftl_spec, Z.bits_0 by done.
  destruct (Z.lt_ge_cases i 7) as [Hlt|Hge].
  - by rewrite Z.testbit_neg_r by lia.
  - assert (Z.testbit (Z.of_nat c) i = false) as ->; [|by rewrite andb_false_r].
    apply Z.bits_above_log2; [lia|].
    destruct (decide (c = 0)) as [->|Hne]; [change (Z.log2 (Z.of_nat 0)) with 0%Z; lia|].
    assert (Z.log2 (Z.of_nat c) < 7)%Z; [|lia]. apply Z.log2_lt_pow2; [lia|]. change (2 ^ 7)%Z with 128%Z. lia.
Qed.

Lemma tag_function_user_tag n c : c < max_categories → tag_function (user_tag n c) = n.
Proof.
  intros Hc. unfold tag_function, CATEGORY_BITS.
  rewrite user_tag_sum, Z.shiftr_div_pow2 by (done || lia).
  change (2 ^ 7)%Z with 128%Z. unfold max_categories in Hc.
  rewrite Z.div_add_l, Z.div_small; lia.
Qed.

Lemma tag_category_user_tag n c :
  c < max_categories → tag_category (user_tag n c) = Z.of_nat c.
Proof.
  intros Hc. unfold tag_category. change CATEGORY_MASK with (Z.ones 7).
  rewrite user_tag_sum, Z.land_ones by (done || lia). change (2 ^ 7)%Z with 128%Z.
  unfold max_categories in Hc. rewrite Z.add_comm, Z.mod_add, Z.mod_small; lia.
Qed.

Lemma set_category_user_tag n c c' :
  (0 ≤ n < 2 ^ 25)%Z → c < max_categories → c' < max_categories →
  set_category (user_tag n c) c' = user_tag n c'.
Proof.
  intros Hn Hc Hc'. unfold set_category, user_tag at 2. f_equal.
  change (Z.lxor UINT_MAX CATEGORY_MASK) with (Z.shiftl (Z.ones 25) 7).
  unfold user_tag, function_bits, CATEGORY_BITS.
  rewrite Z.land_lor_distr_l, <- Z.shiftl_land, Z.land_ones, Z.mod_small by lia.
  assert (Z.land (Z.of_nat c) (Z.shiftl (Z.ones 25) 7) = 0)%Z as ->; [|apply Z.lor_0_r].
  pose proof (tag_category_user_tag 0 c Hc) as H. unfold tag_category in H.
  change (user_tag 0 c) with (Z.of_nat c) in H. rewrite <- H, <- Z.land_assoc.
  by rewrite Z.land_0_r.
Qed.

Lemma user_tag_bounds n c limit :
  (0 ≤ n ≤ limit)%Z → c < max_categories →
  (0 ≤ user_tag n c < Z.shiftl (limit + 1) CATEGORY_BITS)%Z.
Proof.
  intros Hn Hc. rewrite user_tag_sum by done. unfold CATEGORY_BITS.
  rewrite Z.shiftl_mul_pow2 by lia. change (2 ^ 7)%Z with 128%Z.
  unfold max_categories in Hc. lia.
Qed.

Lemma user_tag_32 n c :
  (0 ≤ n < 2 ^ 25)%Z → c < max_categories → (0 ≤ user_tag n c ≤ UINT_MAX)%Z.
Proof.
  intros Hn Hc. rewrite user_tag_sum by done. unfold UINT_MAX, max_categories in *. lia.
Qed.

(** * The category table *)

Record categories_ok (cs : categories) : Prop := {
  cs_nodup : NoDup cs;
  cs_bound : length cs ≤ max_categories;
  cs_untagged : cs !! 0 = Some (lit "untagged");
}.

Lemma categories_ok_init : categories_ok Categories_init.
Proof. split; [apply NoDup_singleton|cbn; unfold max_categories; lia|done]. Qed.

Lemma index_of_lookup name cs : name ∈ cs → cs !! index_of name cs = Some name.
Proof.
  induction cs as [|n cs IH]; [by intros ?%elem_of_nil|].
  intros H. cbn. destruct (decide (n = name)) as [->|Hne]; [done|].
  apply elem_of_cons in H as [->|H]; [done|]. cbn. auto.
Qed.

Lemma index_of_app name cs more : name ∈ cs → index_of name (cs ++ more) = index_of name cs.
Proof.
  induction cs as [|n cs IH]; [by intros ?%elem_of_nil|].
  intros H. cbn. destruct (decide (n = name)) as [->|Hne]; [done|].
  apply elem_of_cons in H as [->|H]; [done|]. by rewrite IH.
Qed.

(** What [number] does to a well-formed table, in every case. *)
Lemma number_cases cs name :
  categories_ok cs →
  (name ∈ cs ∧ number cs name = Ok (cs, index_of name cs)) ∨
  (name ∉ cs ∧ length cs < max_categories ∧ number cs name = Ok (cs ++ [name], length cs)) ∨
  (name ∉ cs ∧ length cs = max_categories ∧
   number cs name = fail (lit "more than 128 categories")).
Proof.
  intros [_ Hlen _]. unfold number. destruct (decide (name ∈ cs)) as [Hin|Hin]; [by left|right].
  rewrite length_app. cbn [length].
  change (CATEGORY_MASK + 1)%Z with 128%Z. unfold max_categories in *.
  destruct (Z.ltb_spec 128 (Z.of_nat (length cs + 1))).
  - right. split_and!; [done|lia|done].
  - left. split_and!; [done|lia|]. f_equal. f_equal.
    clear Hlen H. induction cs as [|n cs IH]; cbn; [by rewrite decide_True|].
    rewrite decide_False by (intros ->; apply Hin; left). f_equal. apply IH.
    intros ?. apply Hin. by right.
Qed.

Lemma number_ok cs name cs' c :
  categories_ok cs → number cs name = Ok (cs', c) →
  categories_ok cs' ∧ cs `prefix_of` cs' ∧ cs' !! c = Some name ∧ c < max_categories.
Proof.
  intros Hok H. destruct (number_cases cs name Hok)
    as [(Hin & E)|[(Hin & Hlen & E)|(_ & _ & E)]]; rewrite E in H; [..|done];
    injection H as <- <-.
  - pose proof (index_of_lookup _ _ Hin) as Hl. split_and!; [done|done|done|].
    apply lookup_lt_Some in Hl. destruct Hok. lia.
  - destruct Hok as [Hnd _ Hu]. split_and!; [split| |by apply list_lookup_middle|done].
    + apply NoDup_app. split_and!; [done| |apply NoDup_singleton].
      intros n Hn ->%list_elem_of_singleton. done.
    + rewrite length_app. cbn. lia.
    + by apply lookup_app_l_Some.
    + by apply prefix_app_r.
Qed.

(** * The regions of a body, from its scan *)

(** [region_tags] as a function of the markers' fields and the texts between them. *)
Fixpoint regions_of (name : str) (os : owners) (category : str)
    (l : list (str * list str)) (tail : str) : result (list (str * str)) :=
  match l with
  | [] => Ok [(tail, category)]
  | (gap, fields) :: l =>
      category' ← next_category name os fields category;
      rs ← regions_of name os category' l tail;
      Ok ((gap, category) :: rs)
  end.

Definition scan_fields (hits : list (str * mtch)) : list (str * list str) :=
  (λ h, (h.1, marker_fields h.2)) <$> hits.

Lemma region_fold name body os hits tail st :
  laid_out body (region_cursor st) hits tail →
  (st' ← foldM (region_step name body os) st hits.*2;
   Ok (regions st' ++ [(drop (region_cursor st') body, category st')])) =
  (rs ← regions_of name os (category st) (scan_fields hits) tail;
   Ok (regions st ++ rs)).
Proof.
  revert st. induction hits as [|[gap m] hits IH]; intros st Hl; cbn in *.
  { by rewrite Hl. }
  destruct Hl as (_ & _ & Hgap & _ & Hl).
  assert (region_step name body os st m =
    (category' ← next_category name os (marker_fields m) (category st);
     Ok (RegionState (regions st ++ [(slice (region_cursor st) (m_start m) body, category st)])
           (m_end m) category'))) as -> by done.
  destruct (next_category name os (marker_fields m) (category st)) as [cat|e]; cbn; [|done].
  rewrite IH by done. cbn. rewrite Hgap.
  destruct (regions_of _ _ _ _ _); cbn; [|done]. by rewrite <- (assoc_L (++)).
Qed.

Lemma region_tags_scan body name :
  region_tags body name =
  (os ← foldM collect_fields (Owners ∅ ∅) (scan_fields (scan MARKER body).1).*2;
   regions_of name os (lit "unmarked") (scan_fields (scan MARKER body).1)
     (scan MARKER body).2).
Proof.
  unfold region_tags, collect_owners.
  assert (∀ os ms, foldM collect_owner os ms = foldM collect_fields os (marker_fields <$> ms))
    as Hfold.
  { intros os ms. revert os. induction ms as [|m ms IH]; intros os; cbn; [done|].
    change (collect_owner os m) with (collect_fields os (marker_fields m)).
    destruct (collect_fields os (marker_fields m)); cbn; [apply IH|done]. }
  assert ((scan_fields (scan MARKER body).1).*2 = marker_fields <$> finditer MARKER body) as ->.
  { unfold scan_fields, finditer. induction (scan MARKER body).1 as [|h hits IH]; cbn; [done|]. by rewrite IH. }
  rewrite Hfold. destruct (foldM _ _ _) as [os|e]; cbn; [|done].
  pose proof (region_fold name body os (scan MARKER body).1 (scan MARKER body).2
    (RegionState [] 0 (lit "unmarked")) (scan_laid_out MARKER body)) as H.
  unfold finditer. cbn in H. rewrite H. by destruct (regions_of _ _ _ _ _).
Qed.

Lemma regions_of_texts name os cat l tail rs :
  regions_of name os cat l tail = Ok rs → rs.*1 = l.*1 ++ [tail].
Proof.
  revert cat rs. induction l as [|[gap fields] l IH]; intros cat rs H; cbn in H; inv_ok;
    [done|]. cbn. f_equal. by eapply IH.
Qed.

(** The texts of the regions are the body without its markers. *)
Lemma region_tags_strip body name rs :
  region_tags body name = Ok rs → concat rs.*1 = sub MARKER (λ _, []) body.
Proof.
  rewrite region_tags_scan. intros H. inv_ok. apply regions_of_texts in H. rewrite H.
  rewrite sub_unscan. unfold unscan, scan_fields. rewrite concat_app. cbn.
  rewrite app_nil_r. f_equal. clear.
  induction (scan MARKER body).1 as [|h hits IH]; cbn; [done|].
  rewrite app_nil_r. f_equal. exact IH.
Qed.

(** * Marked bodies *)

(** The comments the marker compiler writes around the operations of a body. *)
Inductive mark :=
  | MarkAcquire (reason source paired owner code : str)
  | MarkDrop (owner partner code : str)
  | MarkCreated (owner kind : str).

Definition marker_text (fields : list str) : str :=
  lit "/*RC:" ++ join (lit " ") fields ++ lit "*/".

(** The marker comments of a mark, each with the text that follows it; [t] follows the mark. *)
Definition mark_markers (m : mark) (t : str) : list (list str * str) :=
  match m with
  | MarkAcquire reason source paired owner code =>
      [([lit "B"; lit "A"; reason; source; paired; owner], code); ([lit "E"], t)]
  | MarkDrop owner partner code => [([lit "B"; lit "D"; owner; partner], code); ([lit "E"], t)]
  | MarkCreated owner kind => [([lit "K"; owner; kind], t)]
  end.

(** A body: its first text, then marks, each followed by a text. *)
Definition render_markers (t0 : str) (l : list (list str * str)) : str :=
  t0 ++ concat ((λ x, marker_text x.1 ++ x.2) <$> l).
Definition body_markers (l : list (mark * str)) : list (list str * str) :=
  l ≫= λ x, mark_markers x.1 x.2.
Definition render_body (t0 : str) (l : list (mark * str)) : str :=
  render_markers t0 (body_markers l).

Definition no_star (w : str) : Prop := forallb (none_of (lit "*")) w = true.
Definition word_ok (w : str) : Prop := w ≠ [] ∧ no_space w ∧ no_star w.
Definition clean (t : str) : Prop := contains (lit "/*RC:") t = false.

Definition markers_ok (l : list (list str * str)) : Prop :=
  Forall (λ x, x.1 ≠ [] ∧ Forall word_ok x.1 ∧ clean x.2) l.

(** What the body's owners come from. *)
Definition mark_owners (os : owners) (m : mark) : owners :=
  match m with
  | MarkAcquire reason _ _ owner _ => Owners (<[owner := reason]> (acquired os)) (created os)
  | MarkCreated owner kind => Owners (acquired os) (<[owner := kind]> (created os))
  | MarkDrop _ _ _ => os
  end.
Definition body_owners (l : list (mark * str)) : owners :=
  foldl mark_owners (Owners ∅ ∅) l.*1.

(** The regions a body is meant to have. *)
Definition mark_regions (name : str) (os : owners) (m : mark) (t : str) :
    result (list (str * str)) :=
  match m with
  | MarkAcquire reason source paired owner code =>
      Ok [(code, acquire_category reason source paired); (t, lit "unmarked")]
  | MarkDrop owner partner code =>
      match owner_origin os owner with
      | Some origin => Ok [(code, drop_category origin partner); (t, lit "unmarked")]
      | None => fail (name ++ lit " drops owner " ++ owner ++ lit ", which no marker created")
      end
  | MarkCreated owner kind => Ok [(t, lit "unmarked")]
  end.

Definition body_regions (name t0 : str) (l : list (mark * str)) : result (list (str * str)) :=
  rss ← mapR (λ x, mark_regions name (body_owners l) x.1 x.2) l;
  Ok ((t0, lit "unmarked") :: concat rss).

(** * Scanning a marked body finds its markers *)

Definition marker_open : str := lit "/*RC:".

Lemma den_MARKER_open st st' : den MARKER st st' → ∃ rest, after st = marker_open ++ rest.
Proof. unfold MARKER. intros H. den_inv. eauto. Qed.

(** An occurrence of the opening cannot straddle the end of a clean text. *)
Lemma clean_no_open t p q rest r :
  clean t → t = p ++ q → q ≠ [] → (rest = [] ∨ ∃ r', rest = marker_open ++ r') →
  q ++ rest ≠ marker_open ++ r.
Proof.
  unfold clean. intros Hc -> Hq Hrest Heq.
  apply not_true_iff_false in Hc. apply Hc. apply contains_iff.
  destruct (decide (length marker_open ≤ length q)) as [Hle|Hgt].
  - exists p, (drop (length marker_open) q). f_equal.
    rewrite <- (take_drop (length marker_open) q) at 1. f_equal.
    rewrite <- (take_app_le q rest) by done. by rewrite Heq, take_app_length.
  - exfalso. destruct Hrest as [->|[r' ->]].
    + rewrite app_nil_r in Heq. apply (f_equal length) in Heq.
      rewrite length_app in Heq. lia.
    + assert ((q ++ marker_open ++ r') !! length q = Some "/"%char) as H1
        by (by apply list_lookup_middle).
      rewrite Heq in H1. rewrite lookup_app_l in H1 by lia.
      destruct q as [|c q]; [done|]. cbn in Hgt.
      destruct q as [|? [|? [|? [|? q]]]]; cbn in *; try done; lia.
Qed.

Lemma clean_no_match bef t rest :
  clean t → (rest = [] ∨ ∃ r', rest = marker_open ++ r') →
  no_match_in MARKER bef t rest.
Proof.
  intros Hc Hrest p q st -> Hq Hden. apply den_MARKER_open in Hden as [r Hr].
  cbn in Hr. by eapply (clean_no_open (p ++ q) p q).
Qed.

Lemma forallb_join f sep l :
  forallb f sep = true → Forall (λ w, forallb f w = true) l → forallb f (join sep l) = true.
Proof.
  intros Hsep. induction 1 as [|w l Hw Hl IH]; [done|].
  destruct l as [|w' l]; [done|].
  change (join sep (w :: w' :: l)) with (w ++ sep ++ join sep (w' :: l)).
  by rewrite !forallb_app, Hw, Hsep, IH.
Qed.

Lemma marker_first_outcome bef fields rest :
  no_star (join (lit " ") fields) →
  head (outcomes MARKER (at_pos bef (marker_text fields ++ rest))) =
  Some (Cursor (rev (marker_text fields) ++ bef) rest [(1, join (lit " ") fields)]).
Proof.
  intros Hstar. unfold no_star in Hstar. rewrite <- first_some_id, <- run_outcomes.
  unfold MARKER, marker_text, at_pos. set (w := join (lit " ") fields) in *.
  rewrite <- !(assoc_L (++)). rewrite run_rseq_cons, run_rlit.
  rewrite run_rseq_cons, run_RGroup.
  eapply run_star_class_longest; [done| |].
  - by intros c r [= <- _].
  - rewrite run_rseq_cons. unfold capture. cbn [before after caps]. rewrite run_rlit.
    cbn. f_equal. f_equal.
    + rewrite !rev_app_distr, <- !(assoc_L (++)). done.
    + f_equal. f_equal. unfold consumed. cbn [after].
      by rewrite (length_app w), Nat.add_sub, take_app_length.
Qed.

Fixpoint marker_hits (p : nat) (t0 : str) (l : list (list str * str)) : list (str * mtch) :=
  match l with
  | [] => []
  | (fields, t) :: l =>
      (t0, Match (p + length t0) (marker_text fields) [(1, join (lit " ") fields)])
      :: marker_hits (p + length t0 + length (marker_text fields)) t l
  end.

Definition last_text (t0 : str) (l : list (list str * str)) : str := List.last (l.*2) t0.

Lemma words_no_star fields : Forall word_ok fields → no_star (join (lit " ") fields).
Proof.
  intros H. apply forallb_join; [by vm_compute|].
  eapply Forall_impl; [exact H|]. by intros w (_ & _ & ?).
Qed.

Lemma render_markers_start t0 l :
  render_markers t0 l = t0 ++ match l with
    | [] => []
    | x :: l' => marker_text x.1 ++ render_markers x.2 l' end.
Proof.
  unfold render_markers. destruct l as [|[fields t] l]; [done|]. cbn.
  by rewrite <- !(assoc_L (++)).
Qed.

Lemma scanned_markers bef t0 l :
  clean t0 → markers_ok l →
  Scanned MARKER bef (render_markers t0 l) (marker_hits (length bef) t0 l) (List.last (t0 :: l.*2) []).
Proof.
  intros Ht0 Hl. revert bef t0 Ht0. induction Hl as [|[fields t] l (Hne & Hw & Ht) Hl IH];
    intros bef t0 Ht0; rewrite render_markers_start.
  - rewrite app_nil_r. constructor. intros p q st Hpq Hden.
    destruct (decide (q = [])) as [->|Hq].
    + eapply nonempty_end; [|exact Hden]. auto with text.
    + apply den_MARKER_open in Hden as [r Hr]. cbn in Hr.
      apply (clean_no_open t0 p q [] r Ht0 Hpq Hq (or_introl eq_refl)).
      by rewrite app_nil_r.
  - cbn [fst snd]. cbn [marker_hits].
    change (List.last (t0 :: ((fields, t) :: l).*2) []) with (List.last (t :: l.*2) []).
    pose proof (marker_first_outcome (rev t0 ++ bef) fields (render_markers t l)
      (words_no_star _ Hw)) as Hhd.
    refine (Scanned_hit MARKER bef t0 (marker_text fields) _ _ _ _ _ Hhd eq_refl _ _);
      [|done|].
    + apply clean_no_match; [done|]. right. unfold marker_text.
      rewrite <- !(assoc_L (++)). eauto.
    + specialize (IH (rev (t0 ++ marker_text fields) ++ bef) t Ht).
      rewrite length_app, length_rev, length_app, Nat.add_comm, Nat.add_assoc in IH.
      exact IH.
Qed.

Lemma group_marker p w fields : group (Match p w [(1, fields)]) 1 = fields.
Proof. done. Qed.

(** Reading the markers back: the fields between the texts. *)
Fixpoint gaps_fields (t0 : str) (l : list (list str * str)) : list (str * list str) :=
  match l with
  | [] => []
  | (fields, t) :: l => (t0, fields) :: gaps_fields t l
  end.

Lemma scan_fields_markers p t0 l :
  markers_ok l → scan_fields (marker_hits p t0 l) = gaps_fields t0 l.
Proof.
  intros Hl. revert p t0. induction Hl as [|[fields t] l (Hne & Hw & Ht) Hl IH];
    intros p t0; [done|].
  cbn [marker_hits scan_fields gaps_fields]. unfold scan_fields in *. cbn [fmap list_fmap].
  rewrite IH. f_equal. f_equal. unfold marker_fields. cbn. rewrite group_marker.
  apply split_ws_join. eapply Forall_impl; [exact Hw|]. by intros w (? & ? & _).
Qed.

Lemma region_tags_markers name t0 l :
  clean t0 → markers_ok l →
  region_tags (render_markers t0 l) name =
  (os ← foldM collect_fields (Owners ∅ ∅) l.*1;
   regions_of name os (lit "unmarked") (gaps_fields t0 l) (List.last (t0 :: l.*2) [])).
Proof.
  intros Ht0 Hl. rewrite region_tags_scan.
  rewrite (scan_eq MARKER _ _ _ nonempty_MARKER (scanned_markers [] t0 l Ht0 Hl)).
  cbn [fst snd]. rewrite scan_fields_markers by done.
  assert ((gaps_fields t0 l).*2 = l.*1) as ->; [|done].
  clear. revert t0. induction l as [|[fields t] l IH]; intros t0; [done|]. cbn. by rewrite IH.
Qed.

Definition mark_ok (x : mark * str) : Prop :=
  clean x.2 ∧
  match x.1 with
  | MarkAcquire reason source paired owner code =>
      Forall word_ok [reason; source; paired; owner] ∧ clean code
  | MarkDrop owner partner code => Forall word_ok [owner; partner] ∧ clean code
  | MarkCreated owner kind => Forall word_ok [owner; kind]
  end.

Lemma word_ok_letter c : no_space [c] → no_star [c] → word_ok [c].
Proof. intros. unfold word_ok. by split_and!. Qed.

Lemma mark_markers_ok x : mark_ok x → markers_ok (mark_markers x.1 x.2).
Proof.
  assert (word_ok (lit "A") ∧ word_ok (lit "B") ∧ word_ok (lit "D") ∧ word_ok (lit "E") ∧
    word_ok (lit "K")) as (? & ? & ? & ? & ?) by (split_and!; by apply word_ok_letter).
  destruct x as [m t]. intros [Ht Hm]. unfold markers_ok.
  destruct m; cbn in *; [destruct Hm as [Hm ?]..|]; decompose_Forall_hyps;
    repeat first [done | apply Forall_cons_2 | apply Forall_nil_2 | apply conj].
Qed.

Lemma body_markers_ok l : Forall mark_ok l → markers_ok (body_markers l).
Proof.
  unfold body_markers. induction 1 as [|x l Hx Hl IH]; cbn; [constructor|].
  apply Forall_app. split; [by apply mark_markers_ok|done].
Qed.

Lemma collect_body os l :
  foldM collect_fields os (body_markers l).*1 = Ok (foldl mark_owners os l.*1).
Proof.
  revert os. induction l as [|[m t] l IH]; intros os; [done|].
  unfold body_markers in *. cbn. rewrite fmap_app, foldM_app.
  assert (foldM collect_fields os (mark_markers m t).*1 = Ok (mark_owners os m)) as ->.
  { by destruct m. }
  cbn. apply IH.
Qed.

Lemma next_acquire name os reason source paired owner c :
  next_category name os [lit "B"; lit "A"; reason; source; paired; owner] c =
  Ok (acquire_category reason source paired).
Proof. reflexivity. Qed.

Lemma next_drop name os owner partner c :
  next_category name os [lit "B"; lit "D"; owner; partner] c =
  match owner_origin os owner with
  | None => fail (name ++ lit " drops owner " ++ owner ++ lit ", which no marker created")
  | Some origin => Ok (drop_category origin partner)
  end.
Proof. reflexivity. Qed.

Lemma next_created name os owner kind c :
  next_category name os [lit "K"; owner; kind] c = Ok c.
Proof. reflexivity. Qed.

Lemma next_end name os c : next_category name os [lit "E"] c = Ok (lit "unmarked").
Proof. reflexivity. Qed.

Lemma regions_of_body name os t0 l :
  regions_of name os (lit "unmarked") (gaps_fields t0 (body_markers l))
    (List.last (t0 :: (body_markers l).*2) []) =
  (rss ← mapR (λ x, mark_regions name os x.1 x.2) l;
   Ok ((t0, lit "unmarked") :: concat rss)).
Proof.
  revert t0. induction l as [|[m t] l IH]; intros t0; [done|].
  specialize (IH t).
  destruct m as [reason source paired owner code|owner partner code|owner kind].
  - change (body_markers ((MarkAcquire reason source paired owner code, t) :: l))
      with (([lit "B"; lit "A"; reason; source; paired; owner], code) :: ([lit "E"], t)
            :: body_markers l).
    cbn -[next_category] in *. rewrite next_acquire. cbn -[next_category].
    rewrite next_end. cbn -[next_category]. rewrite IH. by destruct (mapR _ l).
  - change (body_markers ((MarkDrop owner partner code, t) :: l))
      with (([lit "B"; lit "D"; owner; partner], code) :: ([lit "E"], t) :: body_markers l).
    cbn -[next_category] in *. rewrite next_drop.
    destruct (owner_origin os owner); cbn -[next_category]; [|done].
    rewrite next_end. cbn -[next_category]. rewrite IH. by destruct (mapR _ l).
  - change (body_markers ((MarkCreated owner kind, t) :: l))
      with (([lit "K"; owner; kind], t) :: body_markers l).
    cbn -[next_category] in *. rewrite next_created. cbn -[next_category].
    rewrite IH. by destruct (mapR _ l).
Qed.

(** Parsing the markers of a rendered body gives the regions it was rendered from. *)
Lemma region_tags_render name t0 l :
  clean t0 → Forall mark_ok l → region_tags (render_body t0 l) name = body_regions name t0 l.
Proof.
  intros Ht0 Hl. unfold render_body.
  rewrite region_tags_markers by (done || by apply body_markers_ok).
  rewrite collect_body. cbn [mbind result_bind]. apply regions_of_body.
Qed.

(** * Tagging the calls of a text *)

(** A text as the texts before its calls, each with the helper's name and the spaces
    behind it, and the rest; the same text with every call tagged. *)
Definition calls_text (l : list (str * str * str)) (tail : str) : str :=
  concat ((λ c, c.1.1 ++ c.1.2 ++ c.2 ++ lit "(") <$> l) ++ tail.
Definition tagged_text (e : str) (l : list (str * str * str)) (tail : str) : str :=
  concat ((λ c, c.1.1 ++ lit "(blorp_rc_tag=" ++ e ++ lit "," ++ c.1.2 ++ lit ")(") <$> l)
  ++ tail.

(** The text from one of the calls on. *)
Lemma calls_text_at l1 gap w sp l2 tail :
  calls_text (l1 ++ (gap, w, sp) :: l2) tail =
  calls_text l1 gap ++ w ++ sp ++ lit "(" ++ calls_text l2 tail.
Proof.
  unfold calls_text. rewrite fmap_app, concat_app. cbn. by rewrite <- !(assoc_L (++)).
Qed.

Definition call_ok (c : str * str * str) : Prop :=
  is_helper c.1.2 ∧ forallb is_space c.2 = true.

Lemma den_HELPER_CALL st st' :
  den HELPER_CALL st st' →
  ∃ w sp rest, after st = w ++ sp ++ lit "(" ++ rest ∧ is_helper w ∧
    forallb is_space sp = true ∧ after st' = rest ∧ caps st' = (1, w) :: caps st ∧
    word_start (rev (before st)).
Proof.
  unfold HELPER_CALL, open_call, Rs. intros H. den_inv. subst.
  match goal with H : holds WordBoundary _ = true |- _ => rename H into Hb end.
  match goal with H : den helper_word _ _ |- _ =>
    apply den_helper_word in H as (w & r & Hw & Hh & Hst) end.
  subst. cbn [before after caps] in *.
  match goal with H : after _ = _ ++ r, H' : after _ = _ ++ r |- _ =>
    rewrite H in H'; apply (inj (λ l, l ++ r)) in H'; subst; rename H into Hw' end.
  match goal with H : den (RSeq _ _) _ _ |- _ => destruct H as (m & Hm & Hp) end.
  apply den_star_class in Hm as (sp & rest & Hr & Hsp & ->). cbn [before after caps] in *.
  apply den_rlit in Hp as (rest' & Hr' & ->). cbn [before after caps] in *.
  subst. eexists _, sp, rest'. split_and!; [done..|].
  unfold word_start. rewrite rev_involutive. intros c Hc.
  destruct (is_helper_first _ Hh) as [t ->]. unfold holds, at_word_boundary in Hb.
  destruct (before st) as [|d l]; [done|]. injection Hc as ->.
  match goal with H : after st = _ |- _ => rewrite H in Hb end. cbn in Hb. by destruct (is_word c).
Qed.

Lemma HELPER_CALL_den p w q :
  is_helper w → word_start p → opens_call q →
  ∃ st, den HELPER_CALL (at_pos (rev p) (w ++ q)) st.
Proof.
  intros Hh Hs (st' & Hq)%(den_open_call (Cursor (rev w ++ rev p) q [(1, w)])).
  exists st'. unfold HELPER_CALL, at_pos. destruct (is_helper_first _ Hh) as [t Ht].
  eexists. split.
  { split; [|reflexivity]. unfold holds, at_word_boundary. cbn. rewrite Ht. cbn.
    unfold word_start in Hs. destruct (rev p) as [|c l]; [done|]. by rewrite (Hs c eq_refl). }
  eexists. split.
  { eexists. split; [|reflexivity]. apply den_helper_word. by exists w, q. }
  eexists. split; [|reflexivity]. unfold capture, consumed. cbn [before after caps].
  by rewrite length_app, Nat.add_sub, take_app_length.
Qed.

(** Whole words that start at the same place are the same. *)
Lemma whole_word_unique w w' q q' :
  forallb is_word w = true → forallb is_word w' = true → word_end q → word_end q' →
  w ++ q = w' ++ q' → w = w' ∧ q = q'.
Proof.
  intros Hw Hw' Hq Hq'. revert w' Hw'. induction w as [|c w IH]; intros [|c' w'] Hw' H;
    cbn in *; try done.
  - rewrite H in Hq. rewrite (Hq c' eq_refl) in Hw'. done.
  - rewrite <- H in Hq'. rewrite (Hq' c eq_refl) in Hw. done.
  - injection H as -> H. apply andb_true_iff in Hw as [_ Hw], Hw' as [_ Hw'].
    destruct (IH Hw w' Hw' H) as [-> ->]. done.
Qed.

(** Behind the first character of a call's text no helper starts. *)
Lemma no_helper_inside bef w sp k x t :
  is_helper w → forallb is_space sp = true →
  w ++ sp ++ lit "(" = k ++ x :: t → k ≠ [] →
  word_start (bef ++ k) → x ≠ "b"%char.
Proof.
  intros Hh%is_helper_words Hsp H Hk Hst ->.
  destruct (decide (length k < length w)) as [Hlt|Hge].
  - assert (∃ y k', k = k' ++ [y]) as (y & k' & ->).
    { destruct k as [|y k _] using rev_ind; [done|]. eauto. }
    assert (is_word y = false) as Hy.
    { apply Hst. by rewrite (assoc_L (++)), rev_app_distr. }
    rewrite length_app in Hlt. cbn in Hlt.
    assert (w !! length k' = Some y) as Hl.
    { rewrite <- (lookup_app_l w (sp ++ lit "(")) by lia.
      rewrite H, <- (assoc_L (++)). by apply list_lookup_middle. }
    rewrite forallb_forall in Hh. apply list_elem_of_lookup_2, list_elem_of_In, Hh in Hl. congruence.
  - assert ((w ++ sp ++ lit "(") !! length k = Some "b"%char) as Hl
      by (rewrite H; by apply list_lookup_middle).
    rewrite lookup_app_r in Hl by lia. apply lookup_app_Some in Hl as [Hl|[_ Hl]].
    + rewrite forallb_forall in Hsp. apply list_elem_of_lookup_2, list_elem_of_In, Hsp in Hl.
      by vm_compute in Hl.
    + destruct (length k - length w - length sp) as [|[|?]]; by vm_compute in Hl.
Qed.

Lemma spaces_word_end sp t :
  forallb is_space sp = true → word_end (sp ++ lit "(" ++ t).
Proof.
  intros Hsp c Hc. destruct sp as [|c' sp]; cbn in Hc; [by injection Hc as <-|].
  injection Hc as ->. cbn in Hsp. apply andb_true_iff in Hsp as [Hsp _].
  destruct (is_word c) eqn:E; [|done]. exfalso. clear -Hsp E.
  destruct c as [[] [] [] [] [] [] [] []]; by vm_compute in Hsp, E.
Qed.

(** A helper that starts in a scanned text starts at the match or behind it. *)
Lemma call_gap bef gap w sp rest p w' q :
  no_match_in HELPER_CALL bef gap (w ++ sp ++ lit "(" ++ rest) →
  is_helper w → forallb is_space sp = true →
  gap ++ w ++ sp ++ lit "(" ++ rest = p ++ w' ++ q →
  is_helper w' → word_start (rev bef ++ p) → word_end q → opens_call q →
  (p = gap ∧ w' = w) ∨ ∃ p', p = gap ++ w ++ sp ++ lit "(" ++ p' ∧ rest = p' ++ w' ++ q.
Proof.
  intros Hno Hw Hsp Heq Hw' Hst He Hq.
  destruct (app_eq_inv _ _ _ _ Heq) as [([|x k] & -> & Hk)|([|x k] & -> & Hk)].
  1, 3: left; rewrite app_nil_r; split; [done|]; cbn in Hk;
    destruct (whole_word_unique w' w q (sp ++ lit "(" ++ rest)) as [-> _];
    [by apply is_helper_words..|done|by apply spaces_word_end|done|done].
  - exfalso. destruct (HELPER_CALL_den (rev bef ++ p) w' q Hw' Hst Hq) as [st Hden].
    apply (Hno p (x :: k) st eq_refl ltac:(done)).
    rewrite rev_app_distr, rev_involutive, Hk in Hden. exact Hden.
  - right. assert ((w ++ sp ++ lit "(") ++ rest = (x :: k) ++ w' ++ q) as Hk'
      by by rewrite <- !(assoc_L (++)).
    destruct (app_eq_inv _ _ _ _ Hk') as [([|y k2] & Hk2 & Hrest)|(k2 & Hk2 & Hrest)].
    + exists []. rewrite app_nil_r in Hk2. rewrite <- Hk2, app_nil_r.
      done.
    + exfalso. destruct (is_helper_first _ Hw') as [t ->]. cbn in Hrest.
      injection Hrest as <- _.
      by eapply (no_helper_inside (rev bef ++ gap) w sp (x :: k));
        [..|rewrite <- (assoc_L (++))|].
    + exists k2. rewrite Hk2. split; [by rewrite <- !(assoc_L (++))|done].
Qed.

(** The result of a scan for calls. *)
Lemma scanned_calls e bef aft hits tail :
  Scanned HELPER_CALL bef aft hits tail →
  ∃ l, aft = calls_text l tail ∧
    unscan (λ m, lit "(blorp_rc_tag=" ++ e ++ lit "," ++ group m 1 ++ lit ")(") (hits, tail)
      = tagged_text e l tail ∧
    Forall call_ok l ∧
    (∀ l1 gap w sp l2, l = l1 ++ (gap, w, sp) :: l2 → word_start (rev bef ++ calls_text l1 gap)) ∧
    ∀ p w q, aft = p ++ w ++ q → is_helper w → word_start (rev bef ++ p) → word_end q →
      opens_call q → ∃ l1 gap sp l2, l = l1 ++ (gap, w, sp) :: l2 ∧ p = calls_text l1 gap.
Proof.
  induction 1 as [bef aft Hno|bef gap text rest st' hits tail Hno Hhd Haft Htext H IH].
  - exists []. split_and!; [done|done|constructor|by intros []|].
    intros p w q Heq Hw Hst He Hq.
    destruct (HELPER_CALL_den (rev bef ++ p) w q Hw Hst Hq) as [st Hden].
    exfalso. apply (Hno p (w ++ q) st Heq).
    by rewrite rev_app_distr, rev_involutive in Hden.
  - destruct IH as (l & Hl & Htag & Hok & Hstart & Hall).
    apply head_den, den_HELPER_CALL in Hhd as (w & sp & rest' & Hw & Hh & Hsp & Hr & Hcaps & Hb).
    cbn in Hw. rewrite Haft in Hr. subst rest'.
    assert (text = w ++ sp ++ lit "(") as ->.
    { rewrite !(assoc_L (++)) in Hw. apply (inj (λ l, l ++ rest)) in Hw.
      by rewrite <- (assoc_L (++)) in Hw. }
    exists ((gap, w, sp) :: l). unfold calls_text, tagged_text in *. cbn.
    split_and!.
    + rewrite Hl. by rewrite <- !(assoc_L (++)).
    + rewrite Hcaps. unfold unscan in *. cbn in *. rewrite group_marker.
      rewrite <- !(assoc_L (++)), Htag. by rewrite <- ?(assoc_L (++)).
    + by constructor.
    + intros [|x l1] gap' w' sp' l2 Heq; injection Heq as <-.
      * cbn [before at_pos] in Hb. by rewrite rev_app_distr, rev_involutive in Hb.
      * subst l. specialize (Hstart l1 gap' w' sp' l2 eq_refl).
        rewrite rev_app_distr, rev_involutive in Hstart. intros c Hc. apply Hstart.
        rewrite <- Hc. cbn. by rewrite <- !(assoc_L (++)).
    + intros p w' q Heq Hw' Hst He Hq. rewrite <- !(assoc_L (++)) in Heq.
      destruct (call_gap bef gap w sp rest p w' q) as [[-> ->]|(p' & -> & Hrest)]; try done.
      { by rewrite <- !(assoc_L (++)) in Hno. }
      { exists [], gap, sp, l. done. }
      destruct (Hall p' w' q Hrest Hw') as (l1 & g & s & l2 & -> & Hp'); [|done..|].
      * rewrite rev_app_distr, rev_involutive.
        intros c Hc. apply Hst. rewrite <- Hc. clear. rewrite <- !(assoc_L (++)). done.
      * exists ((gap, w, sp) :: l1), g, s, l2. split; [done|]. cbn. subst p'.
        by rewrite <- !(assoc_L (++)).
Qed.

(** * Properties *)

(** C7: [tag_calls] tags exactly the helper calls of a text: the text is a sequence of
    calls (helper name, spaces, opening parenthesis) with other text around them, each
    call becomes the tagged one and nothing else changes; and a helper's name stands at a place
    of the text as a whole word that is called (no word character in front of it, spaces and
    an opening parenthesis behind it) if and only if it is the name of one of these calls. *)
Theorem tag_calls_correct text e :
  ∃ l tail, text = calls_text l tail ∧ tag_calls text e = tagged_text e l tail ∧
    Forall call_ok l ∧
    ∀ p w, (∃ q, text = p ++ w ++ q ∧ is_helper w ∧ word_start p ∧ word_end q ∧ opens_call q) ↔
      (∃ l1 gap sp l2, l = l1 ++ (gap, w, sp) :: l2 ∧ p = calls_text l1 gap).
Proof.
  destruct (scanned_calls e [] text (scan HELPER_CALL text).1 (scan HELPER_CALL text).2)
    as (l & Hl & Ht & Hok & Hst & Hall); [apply scan_spec; auto with text|].
  exists l, (scan HELPER_CALL text).2. split_and!; [done| |done|].
  - unfold tag_calls. rewrite sub_unscan, <- Ht. by destruct (scan HELPER_CALL text).
  - intros p w. split; [intros (q & H1 & H2 & H3 & H4 & H5); by eapply Hall|].
    intros (l1 & gap & sp & l2 & -> & ->). apply Forall_app in Hok as [_ Hok].
    inversion_clear Hok as [|? ? [Hh Hsp] _].
    exists (sp ++ lit "(" ++ calls_text l2 (scan HELPER_CALL text).2).
    split; [etransitivity; [exact Hl|apply calls_text_at]|].
    split_and!; [done|by eapply Hst|by apply spaces_word_end|].
    by eexists sp, _.
Qed.

(** C8: [Categories.number] on a well-formed table (distinct names, at most 128, the first
    one "untagged") returns the index of a known name, appends an unknown one, exits when
    the table is full; the table stays well-formed, no name moves, and the returned number
    indexes the name. *)
Theorem number_correct cs name :
  categories_ok cs →
  ((name ∈ cs ∧ number cs name = Ok (cs, index_of name cs)) ∨
   (name ∉ cs ∧ length cs < max_categories ∧ number cs name = Ok (cs ++ [name], length cs)) ∨
   (name ∉ cs ∧ length cs = max_categories ∧
    number cs name = fail (lit "more than 128 categories"))) ∧
  ∀ cs' c, number cs name = Ok (cs', c) →
    categories_ok cs' ∧ cs `prefix_of` cs' ∧ cs' !! c = Some name ∧ c < max_categories.
Proof. intros Hok. split; [by apply number_cases|]. intros cs' c. by apply number_ok. Qed.

Lemma number_correct_witness :
  categories_ok Categories_init ∧
  ∃ cs' c, number Categories_init (lit "cascade:list") = Ok (cs', c) ∧
    categories_ok cs' ∧ cs' !! c = Some (lit "cascade:list").
Proof.
  split; [apply categories_ok_init|].
  exists [lit "untagged"; lit "cascade:list"], 1. split; [reflexivity|].
  destruct (number_correct Categories_init (lit "cascade:list") categories_ok_init) as [_ H].
  destruct (H [lit "untagged"; lit "cascade:list"] 1 eq_refl) as (H1 & _ & H2 & _).
  split; [exact H1|exact H2].
Defined.

(** A tag of a function number below 2^25 and a category below 128 is a 32-bit
    unsigned number from which the C report reads both back, and the expression that sets
    another category keeps the function number. *)
Theorem tag_roundtrip n c c' :
  (0 ≤ n < 2 ^ 25)%Z → c < max_categories → c' < max_categories →
  (0 ≤ user_tag n c ≤ UINT_MAX)%Z ∧
  tag_function (user_tag n c) = n ∧ tag_category (user_tag n c) = Z.of_nat c ∧
  set_category (user_tag n c) c' = user_tag n c'.
Proof.
  intros Hn Hc Hc'. split_and!; [by apply user_tag_32..| | |].
  - by apply tag_function_user_tag.
  - by apply tag_category_user_tag.
  - by apply set_category_user_tag.
Qed.

(** The regions of a body lose nothing but the markers: their texts one after the other
    are the body with every marker comment removed. *)
Theorem region_tags_texts body name rs :
  region_tags body name = Ok rs → concat rs.*1 = sub MARKER (λ _, []) body.
Proof. apply region_tags_strip. Qed.

Definition marked_sample : str :=
  lit "a;/*RC:B A argument parameter pair h1*/dup(x);/*RC:E*/b;/*RC:B D h1 none*/drop(x);/*RC:E*/".

Lemma region_tags_texts_witness :
  ∃ rs, region_tags marked_sample (lit "blorp_f_1") = Ok rs ∧
    concat rs.*1 = lit "a;dup(x);b;drop(x);".
Proof.
  eexists. split; [vm_compute; reflexivity|].
  etransitivity; [apply (region_tags_texts marked_sample (lit "blorp_f_1")); vm_compute; reflexivity|].
  vm_compute. reflexivity.
Defined.

(** C10: Round trip of the marker comments: on a body written as texts and marks,
    [region_tags] returns the regions of the marks with the categories they stand for
    (an acquisition by its reason and source, a drop by the origin of its owner), and
    exits exactly when a drop names an owner that no mark of the body created. *)
Theorem region_tags_roundtrip name t0 l :
  clean t0 → Forall mark_ok l → region_tags (render_body t0 l) name = body_regions name t0 l.
Proof. apply region_tags_render. Qed.

Definition marks_sample : list (mark * str) :=
  [(MarkAcquire (lit "argument") (lit "parameter") (lit "pair") (lit "h1") (lit "dup(x);"),
    lit "b;");
   (MarkDrop (lit "h1") (lit "none") (lit "drop(x);"), [])].

Lemma region_tags_roundtrip_witness :
  clean (lit "a;") ∧ Forall mark_ok marks_sample ∧
  region_tags (render_body (lit "a;") marks_sample) (lit "blorp_f_1") =
  Ok [(lit "a;", lit "unmarked"); (lit "dup(x);", lit "acquire:argument:parameter+pair");
      (lit "b;", lit "unmarked"); (lit "drop(x);", lit "drop:argument"); ([], lit "unmarked")].
Proof.
  assert (clean (lit "a;")) as H0 by reflexivity.
  assert (Forall mark_ok marks_sample) as H1.
  { unfold marks_sample, mark_ok. repeat first [done | constructor]. }
  split; [exact H0|]. split; [exact H1|].
  etransitivity; [apply (region_tags_roundtrip (lit "blorp_f_1") (lit "a;") marks_sample H0 H1)|].
  reflexivity.
Defined.
