(* ===== verification/InstrumentRc.v ===== *)
(** blorp/scripts/attribution/instrument_rc.py, the part that puts the rewritten
    program together: [rewrite], the C prelude of the counters, and [main]. *)
From S2P Require Import Prelude PyStr Regex RcScan RcTags.

Inductive mode := Kinds | Tagged.
#[export] Instance mode_eq_dec : EqDecision mode.
Proof. solve_decision. Defined.

Definition tagged_counter (kind direction : nat) : str :=
  lit "blorp_rc_counts[blorp_rc_tag][" ++ decn (kind * 2 + direction) ++ lit "]++".
Definition kinds_counter (kind direction : nat) : str :=
  lit "blorp_rc_kind_counts[" ++ decn (kind * 2 + direction) ++ lit "]++".

Record rewrite_state := RewriteState {
  rw_categories : categories;
  rw_pieces : list str;
  rw_cursor : nat;
  wrapped : nat;
}.

Definition rewrite_function (source : str) (md : mode) (st : rewrite_state)
    (f : str * nat * nat) : result rewrite_state :=
  let '(name, start, end_) := f in
  let body := slice start end_ source in
  '(body, cs) ← match md with
                | Tagged => rewrite_tagged name body (rw_categories st)
                | Kinds => Ok (body, rw_categories st)
                end;
  let counter := match md with Tagged => tagged_counter | Kinds => kinds_counter end in
  '(body, n) ← count_atomics body name counter;
  Ok (RewriteState cs (rw_pieces st ++ [slice (rw_cursor st) start source; body])
        end_ (wrapped st + n)).

Definition rewrite (source : str) (md : mode) : result (str * categories) :=
  fs ← functions source;
  st ← foldM (rewrite_function source md) (RewriteState Categories_init [] 0 0) fs;
  let found := length (finditer ATOMIC source) in
  if decide (wrapped st = found) then
    Ok (concat (rw_pieces st ++ [drop (rw_cursor st) source]), rw_categories st)
  else
    fail (lit "wrapped " ++ decn (wrapped st) ++ lit " atomic operations but the source has "
          ++ decn found ++ lit "; one sits outside a function body").

(** * The C prelude *)

Definition PRELUDE_COMMON : str := qlit "#include <stdatomic.h>
#include <stdio.h>
#include <stdlib.h>
".

Definition kind_names : str :=
  join (lit ",") (map (λ kind, dquote :: kind ++ [dquote]) KINDS).

Definition kinds_prelude : str :=
  PRELUDE_COMMON ++ qlit "static unsigned long blorp_rc_kind_counts[10];
static void blorp_rc_report(void){static const char *kinds[]={" ++ kind_names
  ++ qlit "};const char *path=getenv(`BLORP_RC_OUT`);
FILE *out=path?fopen(path,`w`):stderr;if(!out)return;
for(int k=0;k<5;k++)for(int d=0;d<2;d++)fprintf(out,`%s\t%s\t%lu\n`,kinds[k],d?`dec`:`inc`,blorp_rc_kind_counts[2*k+d]);
if(path)fclose(out);}
__attribute__((constructor)) static void blorp_rc_install(void){atexit(blorp_rc_report);}
".

(** The number of tags: one row of counters for each. *)
Definition tag_count (function_limit : Z) : Z := Z.shiftl (function_limit + 1) CATEGORY_BITS.

Definition tagged_prelude (function_limit : Z) : str :=
  let tags := tag_count function_limit in
  PRELUDE_COMMON ++ lit "static unsigned long blorp_rc_counts[" ++ dec tags ++ qlit "][10];
static unsigned blorp_rc_tag;
static void blorp_rc_report(void){static const char *kinds[]={" ++ kind_names
  ++ qlit "};const char *path=getenv(`BLORP_RC_OUT`);
FILE *out=path?fopen(path,`w`):stderr;if(!out)return;
for(unsigned t=0;t<" ++ dec tags
  ++ qlit "u;t++)for(int k=0;k<5;k++)for(int d=0;d<2;d++){unsigned long n=blorp_rc_counts[t][2*k+d];
if(n)fprintf(out,`%s\t%s\t%u\t%u\t%lu\n`,kinds[k],d?`dec`:`inc`,t>>" ++ dec CATEGORY_BITS
  ++ lit ",t&" ++ dec CATEGORY_MASK ++ qlit "u,n);}
if(path)fclose(out);}
__attribute__((constructor)) static void blorp_rc_install(void){atexit(blorp_rc_report);}
".

Definition prelude (md : mode) (function_limit : Z) : str :=
  match md with Kinds => kinds_prelude | Tagged => tagged_prelude function_limit end.

(** * main *)

Definition USER_CALL : regex :=
  rseq [RAssert WordBoundary; rlit "blorp_f_"; RGroup 1 (RPlus Rd); rlit "("].

(** [max([int(m.group(1)) for m in ...] or [0])] *)
Definition function_limit (source : str) : result Z :=
  ns ← mapR (λ m, int (group m 1)) (finditer USER_CALL source);
  Ok (match ns with [] => 0%Z | n :: ns => foldl Z.max n ns end).

Definition categories_text (cs : categories) : str :=
  concat (imap (λ index name, decn index ++ [tab] ++ name ++ [newline]) cs).

Definition parse_arguments (arguments : list str) :
    option (mode * str * str * option str) :=
  match arguments with
  | [flag; source_path; output_path] =>
      if decide (flag = lit "--kinds") then Some (Kinds, source_path, output_path, None)
      else None
  | [flag; source_path; output_path; categories_path] =>
      if decide (flag = lit "--tagged")
      then Some (Tagged, source_path, output_path, Some categories_path) else None
  | _ => None
  end.

(** The files before and after, and the line on standard error.  [usage] is the
    module's docstring. *)
Definition main (usage : str) (files : gmap str str) (arguments : list str) :
    result (gmap str str * str) :=
  match parse_arguments arguments with
  | None => Raise (SystemExit usage)
  | Some (md, source_path, output_path, categories_path) =>
      source ← or_raise OSError (files !! source_path);
      _ ← check_only_calls source;
      '(rewritten, cs) ← rewrite source md;
      limit ← function_limit source;
      let files := <[output_path := prelude md limit ++ rewritten]> files in
      let files := match categories_path with
                   | Some (c :: path) => <[c :: path := categories_text cs]> files
                   | _ => files
                   end in
      let mode_name := match md with Kinds => lit "kinds" | Tagged => lit "tagged" end in
      Ok (files, lit "instrumented " ++ mode_name ++ lit ": "
                 ++ decn (length (finditer ATOMIC source)) ++ lit " atomic operations, "
                 ++ decn (length cs) ++ lit " categories" ++ [newline])
  end.

(** * What the rewritten program is *)

Section rewriting.
Context (source : str).

(** No body nests one atomic operation in the arguments of another. *)
Definition flat_bodies (fs : list (str * nat * nat)) : Prop :=
  Forall (λ f, nested_atomics (slice f.1.2 f.2 source) = false) fs.

Lemma rewrite_kinds_fold fs st st' :
  spans_from (rw_cursor st) fs → flat_bodies fs →
  foldM (rewrite_function source Kinds) st fs = Ok st' →
  rw_cursor st ≤ length source →
  (∀ f, f ∈ fs → f.2 ≤ length source) →
  Wrapped kinds_counter (λ k, k < 5) (take (rw_cursor st) source)
    (concat (rw_pieces st)) (wrapped st) →
  Wrapped kinds_counter (λ k, k < 5) (take (rw_cursor st') source)
    (concat (rw_pieces st')) (wrapped st') ∧
  rw_categories st' = rw_categories st.
Proof.
  revert st. induction fs as [|[[name a] e] fs IH]; intros st Hsp Hflat Hfold Hle Hends HW;
    cbn in Hfold; inv_ok; [done|].
  destruct Hsp as (Hpa & Hae & Hsp). inversion_clear Hflat as [|? ? Hf Hflat'].
  unfold rewrite_function in Hx. cbn in Hx. inv_ok. destruct x0 as [out n]. inv_ok.
  apply count_atomics_wrapped in Hx0 as [HWb _]; [|done].
  assert (e ≤ length source) by (apply (Hends (name, a, e)); left).
  eapply IH in Hfold as [HW' Hcs]; [split; [exact HW'|done]|done|done|done| |].
  - intros f Hin. apply Hends. by right.
  - cbn. rewrite concat_app. cbn. rewrite app_nil_r.
    assert (take e source = take (rw_cursor st) source ++
      slice (rw_cursor st) a source ++ slice a e source) as ->.
    { rewrite (slice_join (rw_cursor st)), <- !slice_0, slice_join; [done|lia..]. }
    replace (wrapped st + n) with (wrapped st + (0 + n)) by lia.
    apply Wrapped_app; [done|]. apply Wrapped_app; [constructor|].
    eapply Wrapped_mono; [|exact HWb]. intros k <-. apply kind_of_bound.
Qed.

Lemma functions_ends fs :
  functions source = Ok fs → spans_from 0 fs ∧ ∀ f, f ∈ fs → f.2 ≤ length source.
Proof.
  intros Hfs. destruct (functions_blocks source) as (l & Hl & Hsp & Hin).
  rewrite Hfs in Hl. injection Hl as <-. split; [done|].
  intros [[name a] e] (b & _ & (_ & Hc & _) & _)%Hin.
  apply brace_at_lookup, lookup_lt_Some in Hc. cbn. lia.
Qed.

Lemma rewrite_kinds_wrapped fs out cs :
  functions source = Ok fs → flat_bodies fs → rewrite source Kinds = Ok (out, cs) →
  Wrapped kinds_counter (λ k, k < 5) source out (length (finditer ATOMIC source)) ∧
  cs = Categories_init.
Proof.
  intros Hfs Hflat H. unfold rewrite in H. rewrite Hfs in H. cbn in H. inv_ok.
  destruct (functions_ends _ Hfs) as [Hsp Hends].
  destruct (decide _) as [Heq|]; [|done]. injection H as <- <-.
  apply rewrite_kinds_fold in Hx as [HW Hcs]; try done; [|cbn; lia|constructor].
  split; [|done]. rewrite <- Heq, concat_app. cbn. rewrite app_nil_r.
  rewrite <- (take_drop (rw_cursor x) source) at 1.
  rewrite <- (Nat.add_0_r (wrapped x)). apply Wrapped_app; [done|constructor].
Qed.
End rewriting.

(** * The category table of a rewritten program *)

Lemma rewrite_tagged_categories name body cs out cs' :
  categories_ok cs → rewrite_tagged name body cs = Ok (out, cs') →
  categories_ok cs' ∧ cs `prefix_of` cs'.
Proof.
  intros Hok H. unfold rewrite_tagged in H.
  assert (∀ rest n out0 cs1 out1 cs2, categories_ok cs1 →
    foldM (tag_region n) (out0, cs1) rest = Ok (out1, cs2) →
    categories_ok cs2 ∧ cs1 `prefix_of` cs2) as Hregions.
  { induction rest as [|[t c] rest IH]; intros n out0 cs1 out1 cs2 Hok1 Hf; cbn in Hf;
      inv_ok; [done|]. destruct x as [out2 cs3]. destruct x0 as [cs4 k]. inv_ok.
    apply number_ok in Hx0 as (Hok3 & Hpre & _); [|done].
    apply IH in Hf as [Hok2 Hpre2]; [|done]. split; [done|]. by etrans. }
  assert (∀ nm cs1 k, number cs nm = Ok (cs1, k) → categories_ok cs1 ∧ cs `prefix_of` cs1)
    as Hnumber by (intros nm cs1 k (? & ? & _)%number_ok; done).
  repeat (case_match; inv_ok; try done); eauto.
  all: repeat match goal with x : _ * _ |- _ => destruct x end; cbn in *; inv_ok; eauto.
Qed.

Lemma rewrite_categories source md out cs :
  rewrite source md = Ok (out, cs) → categories_ok cs.
Proof.
  unfold rewrite. intros H. inv_ok. destruct (decide _); [|done]. injection H as _ <-.
  refine (foldM_inv (rewrite_function source md) (λ st, categories_ok (rw_categories st)) _ _
    (RewriteState Categories_init [] 0 0) _ categories_ok_init Hx0).
  intros st [[name a] e'] st' _ Hok Hst. unfold rewrite_function in Hst.
  apply bind_Ok in Hst as ([body cs1] & Hbody & Hst). inv_ok.
  destruct x1 as [body' n]. inv_ok. cbn.
  destruct md; [by injection Hbody as _ <-|]. by eapply rewrite_tagged_categories.
Qed.

(** * The counter table is large enough *)

Lemma nonempty_USER_CALL : nonempty USER_CALL.
Proof. apply minw_nonempty. vm_compute. lia. Qed.

Definition user_call_text (ds : str) : str := lit "blorp_f_" ++ ds ++ lit "(".

Lemma USER_CALL_match s m :
  is_match USER_CALL s m →
  ∃ ds, ds ≠ [] ∧ forallb is_digit ds = true ∧ m_text m = user_call_text ds ∧
    group m 1 = ds.
Proof.
  intros (p & q & st' & Hs & Hst & Hden & Hq & Hcaps & Hm)%is_match_split.
  unfold USER_CALL, Rd in Hden. den_inv. subst. cbn [after before caps at_pos] in *. subst.
  match goal with H : ?x ++ _ = ?t ++ _, Hx : ?x ≠ [] |- _ =>
    apply (inj (λ l, l ++ _)) in H; subst t; exists x end.
  split_and!; [done|done| |by unfold group, group_opt; rewrite Hcaps].
  match goal with H : m_text m ++ q = _ |- _ =>
    rewrite ?(assoc_L (++)) in H; apply (inj (λ l, l ++ q)) in H; rewrite H end.
  unfold user_call_text. by rewrite <- ?(assoc_L (++)).
Qed.


Lemma USER_CALL_den p ds q :
  word_start p → ds ≠ [] → forallb is_digit ds = true →
  ∃ st, den USER_CALL (at_pos (rev p) (user_call_text ds ++ q)) st.
Proof.
  intros Hp Hne Hds. set (rest := lit "(" ++ q).
  eexists. unfold USER_CALL, user_call_text, at_pos. rewrite <- !(assoc_L (++)). fold rest.
  eexists. split; [split; [|reflexivity]|].
  { unfold holds, at_word_boundary. cbn. unfold word_start in Hp.
    destruct (rev p) as [|c r]; [done|]. by rewrite (Hp c eq_refl). }
  eexists. split; [apply den_rlit; eexists; split; reflexivity|]. cbn [before after caps].
  eexists. split.
  { eexists. split; [|reflexivity]. apply den_plus_class. exists ds, rest.
    split_and!; try done. }
  cbn [before after caps capture].
  eexists. split; [apply den_rlit; exists q; split; reflexivity|reflexivity].
Qed.

Lemma user_call_first ds i :
  forallb is_digit ds = true → user_call_text ds !! i = Some "b"%char → i = 0.
Proof.
  intros Hds. unfold user_call_text.
  destruct i as [|[|[|[|[|[|[|[|i]]]]]]]]; try by (cbn; intros [=]).
  change (lit "blorp_f_" ++ ds ++ lit "(") with
    ("b" :: "l" :: "o" :: "r" :: "p" :: "_" :: "f" :: "_" :: ds ++ lit "(")%char.
  cbn [lookup list_lookup]. intros [H|[_ H]]%lookup_app_Some.
  - exfalso. rewrite forallb_forall in Hds. specialize (Hds "b"%char).
    apply list_elem_of_lookup_2, list_elem_of_In, Hds in H. by vm_compute in H.
  - exfalso. destruct (i - length ds); by cbn in H.
Qed.

Lemma user_call_found source p ds q :
  source = p ++ user_call_text ds ++ q → word_start p → ds ≠ [] →
  forallb is_digit ds = true →
  ∃ m, m ∈ finditer USER_CALL source ∧ group m 1 = ds.
Proof.
  intros Hs Hp Hne Hds. destruct (USER_CALL_den p ds q Hp Hne Hds) as [st Hden].
  destruct (finditer_covers _ _ _ _ _ nonempty_USER_CALL Hs Hden) as (m & Hm & Hlo & Hhi).
  exists m. split; [done|].
  pose proof (finditer_is_match _ _ _ Hm) as Hmatch.
  destruct (USER_CALL_match _ _ Hmatch) as (ds' & Hne' & Hds' & Htext & ->).
  apply is_match_split in Hmatch as (p' & q' & _ & Hs' & Hst & _).
  unfold m_end in Hhi. rewrite Hst, Htext in *.
  assert (length p - length p' = 0) as H0.
  { apply (user_call_first ds'); [done|].
    assert (source !! length p = Some "b"%char) as Hb.
    { rewrite Hs. unfold user_call_text. by apply list_lookup_middle. }
    rewrite Hs', lookup_app_r in Hb by done.
    by rewrite lookup_app_l in Hb by lia. }
  rewrite Hs in Hs'. apply app_inj_1 in Hs' as [_ Hs']; [|lia].
  unfold user_call_text in Hs'. rewrite <- !(assoc_L (++)) in Hs'.
  apply (inj (app (lit "blorp_f_"))) in Hs'.
  by destruct (run_unique is_digit ds ds' "("%char "("%char q q' Hds Hds' eq_refl eq_refl Hs').
Qed.

Lemma foldl_max_le n ns z : (z = n ∨ z ∈ ns → z ≤ foldl Z.max n ns)%Z.
Proof.
  revert n z. induction ns as [|n' ns IH]; intros n z; cbn.
  - intros [->|?%elem_of_nil]; [lia|done].
  - intros H. destruct (decide (z ≤ Z.max n n')%Z) as [Hle|Hgt].
    + etrans; [exact Hle|]. apply IH. by left.
    + apply IH. right. destruct H as [->|[->|?]%elem_of_cons]; [lia|lia|done].
Qed.

(** [function_limit] is at least the number of every function the text mentions. *)
Lemma function_limit_covers source :
  ∃ limit, function_limit source = Ok limit ∧
    ∀ p ds q, source = p ++ user_call_text ds ++ q → word_start p → ds ≠ [] →
      forallb is_digit ds = true → ∃ n, int ds = Ok n ∧ (0 ≤ n ≤ limit)%Z.
Proof.
  assert (∃ ns, mapR (λ m, int (group m 1)) (finditer USER_CALL source) = Ok ns) as [ns Hns].
  { assert (∀ m, m ∈ finditer USER_CALL source → ∃ z, int (group m 1) = Ok z) as Hall.
    { intros m (ds & Hne & Hds & _ & ->)%finditer_is_match%USER_CALL_match.
      destruct (int_all_digits ds Hds Hne) as (z & Hz & _). eauto. }
    induction (finditer USER_CALL source) as [|m ms IH]; [by exists []|].
    destruct (Hall m) as [z Hz]; [left|].
    destruct IH as [ns Hns]; [intros; apply Hall; by right|].
    exists (z :: ns). cbn. by rewrite Hz; cbn; rewrite Hns. }
  unfold function_limit. rewrite Hns. cbn. eexists. split; [done|].
  intros p ds q Hs Hp Hne Hds.
  destruct (user_call_found _ _ _ _ Hs Hp Hne Hds) as (m & Hm & Hg).
  destruct (int_all_digits ds Hds Hne) as (z & Hz & Hz0). exists z. split_and!; [done|done|].
  assert (z ∈ ns) as Hin.
  { apply mapR_Forall2 in Hns. apply list_elem_of_lookup in Hm as [i Hi].
    destruct (Forall2_lookup_l _ _ _ _ _ Hns Hi) as (z' & Hz' & Hint).
    rewrite Hg, Hz in Hint. injection Hint as <-. by eapply list_elem_of_lookup_2. }
  destruct ns as [|n ns]; [by apply elem_of_nil in Hin|].
  apply foldl_max_le. by apply elem_of_cons in Hin.
Qed.

Lemma function_limit_nonneg source limit : function_limit source = Ok limit → (0 ≤ limit)%Z.
Proof.
  unfold function_limit. intros H. inv_ok. destruct x as [|n ns]; [lia|].
  apply mapR_Forall2 in Hx. inversion Hx as [|m ? ms ? Hm _ Heq]; subst.
  assert (m ∈ finditer USER_CALL source) as Hin by (rewrite <- Heq; left).
  apply finditer_is_match, USER_CALL_match in Hin as (ds & Hne & Hds & _ & Hg).
  destruct (int_all_digits ds Hds Hne) as (z & Hz & Hz0). rewrite Hg, Hz in Hm.
  injection Hm as <-. etrans; [exact Hz0|]. apply foldl_max_le. by left.
Qed.

(** * Properties *)

(** C11: [instrument_rc.py --kinds IN OUT] that succeeds writes OUT and no other file: the
    counting prelude, then the rewritten source.  When no function body of the source nests one
    atomic operation in the arguments of another, that is the source with a counter in front of
    every atomic operation (of one of the five kinds and of the operation's direction) and
    nothing else changed. *)
Theorem main_kinds usage files source_path output_path source files' out_message :
  files !! source_path = Some source →
  main usage files [lit "--kinds"; source_path; output_path] = Ok (files', out_message) →
  ∃ out, files' = <[output_path := kinds_prelude ++ out]> files ∧
    ((∀ fs, functions source = Ok fs → flat_bodies source fs) →
     Wrapped kinds_counter (λ k, k < 5) source out (length (finditer ATOMIC source))).
Proof.
  intros Hs H. unfold main, parse_arguments in H. rewrite decide_True in H by done.
  rewrite Hs in H. cbn -[rewrite check_only_calls function_limit prelude decn] in H.
  apply bind_Ok in H as ([] & _ & H). apply bind_Ok in H as ([out cs] & Hr & H).
  apply bind_Ok in H as (limit & _ & H). injection H as <- _. exists out. split; [done|].
  destruct (functions source) as [fs|e] eqn:Hfs; [|unfold rewrite in Hr; by rewrite Hfs in Hr].
  intros Hflat. by eapply rewrite_kinds_wrapped; [exact Hfs|apply Hflat|exact Hr].
Qed.

Definition c_sample : str := qlit "#define A {
static int blorp_list_drop_3(struct l *v){
if(atomic_fetch_sub_explicit(&v->references,1,memory_order_acq_rel)==1)free(v);return '}';}
".

Definition kinds_run : result (gmap str str * str) :=
  main [] {[lit "in.c" := c_sample]} [lit "--kinds"; lit "in.c"; lit "out.c"].

Lemma main_kinds_witness :
  ∃ files' message out,
    kinds_run = Ok (files', message) ∧
    files' = <[lit "out.c" := kinds_prelude ++ out]> {[lit "in.c" := c_sample]} ∧
    Wrapped kinds_counter (λ k, k < 5) c_sample out 1.
Proof.
  assert (is_ok kinds_run = true) as Hok by (vm_compute; reflexivity).
  destruct (is_ok_Ok _ Hok) as [[files' message] E]. exists files', message.
  destruct (main_kinds [] {[lit "in.c" := c_sample]} (lit "in.c") (lit "out.c") c_sample
    files' message) as (out & H1 & H2); [reflexivity|exact E|].
  exists out. split; [exact E|]. split; [exact H1|]. apply H2.
  intros fs Hfs. vm_compute in Hfs. injection Hfs as <-. repeat constructor.
Defined.

(** Whatever a rewriting returns, its category table is well-formed: "untagged" first,
    all names distinct, and at most 128 of them, so every category fits its seven bits. *)
Theorem rewrite_categories_ok source md out cs :
  rewrite source md = Ok (out, cs) → categories_ok cs.
Proof. apply rewrite_categories. Qed.

Definition tagged_sample : str := qlit "
void blorp_f_12(void){/*RC:K h1 record*/x();/*RC:B D h1 none*/blorp_record_drop_2 (v);/*RC:E*/}
".

Lemma rewrite_categories_ok_witness :
  ∃ out cs, rewrite tagged_sample Tagged = Ok (out, cs) ∧ categories_ok cs ∧
    cs = [lit "untagged"; lit "unmarked"; lit "drop:record"].
Proof.
  destruct (rewrite tagged_sample Tagged) as [[out cs]|e] eqn:E; [|vm_compute in E; discriminate E].
  exists out, cs. split; [reflexivity|].
  split; [exact (rewrite_categories_ok tagged_sample Tagged out cs E)|].
  vm_compute in E. injection E as _ <-. reflexivity.
Defined.

(** The counter table has a row for every tag the program can set: the number of every
    user function the source calls or defines, with any category, packs to a tag below the
    number of rows. *)
Lemma counter_table_covers source :
  ∃ limit, function_limit source = Ok limit ∧ (0 ≤ limit)%Z ∧
    ∀ p ds q c, source = p ++ user_call_text ds ++ q → word_start p → ds ≠ [] →
      forallb is_digit ds = true → c < max_categories →
      ∃ n, int ds = Ok n ∧ (0 ≤ user_tag n c < tag_count limit)%Z.
Proof.
  destruct (function_limit_covers source) as (limit & Hl & Hc).
  exists limit. split; [done|]. split; [by eapply function_limit_nonneg|].
  intros p ds q c Hs Hp Hne Hds Hcm.
  destruct (Hc p ds q) as (n & Hn & Hb); [done..|]. exists n. split; [done|].
  by apply user_tag_bounds.
Qed.
