(* ===== verification/InstrumentCopies.v ===== *)
(** blorp/scripts/attribution/instrument_copies.py: the four passes that put a
    counter into the List and String update helpers, the splitting of the C text into
    one statement per line, and main. *)
From S2P Require Import Prelude PyStr PyFormat PyDict Regex.

Definition PRELUDE : str := qlit "
#include <stdint.h>
#include <stdio.h>
#include <stdlib.h>
#include <mach-o/loader.h>
extern const struct mach_header_64 _mh_execute_header;
enum { PROF_LIST_FALLBACK, PROF_LIST_UNIQUE, PROF_STRING_FALLBACK, PROF_STRING_UNIQUE,
       PROF_LIST_BORROWED, PROF_STRING_BORROWED, PROF_KINDS };
static const char *prof_kind_names[] = {`list_fallback`,`list_unique`,`string_fallback`,`string_unique`,
                                        `list_borrowed`,`string_borrowed`};
#define PROF_SLOTS (1u<<16)
struct prof_row { void *address; unsigned kind; unsigned long long hits, units; };
static struct prof_row prof_rows[PROF_SLOTS];
static void prof_hit(unsigned kind, void *address, long long units) {
  uintptr_t key = ((uintptr_t)address * 0x9E3779B97F4A7C15ull) ^ kind;
  unsigned slot = (unsigned)(key >> 20) & (PROF_SLOTS - 1);
  for (;;) {
    struct prof_row *row = &prof_rows[slot];
    if (row->hits == 0) { row->address = address; row->kind = kind; }
    if (row->address == address && row->kind == kind) { row->hits++; row->units += (unsigned long long)units; return; }
    slot = (slot + 1) & (PROF_SLOTS - 1);
  }
}
static void prof_report(void) {
  FILE *out = fopen(getenv(`BLORP_PROF_OUT`) ? getenv(`BLORP_PROF_OUT`) : `prof.tsv`, `w`);
  fprintf(out, `#load\t%p\n`, (void *)&_mh_execute_header);
  for (unsigned i = 0; i < PROF_SLOTS; i++)
    if (prof_rows[i].hits)
      fprintf(out, `%s\t%p\t%llu\t%llu\n`, prof_kind_names[prof_rows[i].kind], prof_rows[i].address,
              prof_rows[i].hits, prof_rows[i].units);
  fclose(out);
}
__attribute__((constructor)) static void prof_start(void) { atexit(prof_report); }
#define PROF_RA __builtin_return_address(0)
".

Definition NOINLINE : str := lit "__attribute__((noinline)) ".

(** * The helpers *)

(** [[a-z0-9_]] and [[^{)]*] *)
Definition is_lower_word (c : ascii) : bool :=
  let n := code c in ((97 <=? n) && (n <=? 122)) || is_digit c || Ascii.eqb c "_".
Definition parameters_end : regex := RStar true (RClass (none_of (lit "{)"))).

Definition LIST_TYPE : regex := rseq [rlit "struct blorp_l_"; RPlus (RClass is_lower_word)].

Definition list_take_left_pattern : regex :=
  rseq [LIST_TYPE; rlit "* blorp_list_"; rlits ["append"; "set"; "concat"]; rlit "_take_left_";
        RPlus (RClass is_lower_word); rlit "("; parameters_end; rlit "){"].

Definition list_borrowed_pattern : regex :=
  rseq [LIST_TYPE; rlit "* blorp_list_"; rlits ["append"; "set"; "concat"]; rlit "_";
        RPlus (RClass is_digit); rlit "_"; RPlus (RClass is_lower_word); rlit "(const "; LIST_TYPE;
        rlit " *"; RGroup 1 (rlits ["values"; "left"]); rlit ","; parameters_end; rlit "){"].

Definition string_take_left_pattern : regex :=
  rseq [rlit "struct blorp_string *blorp_string_"; rlits ["concat"; "append_int"];
        rlit "_take_left(struct blorp_string *left,"; parameters_end; rlit ") {"].

Definition string_borrowed_pattern : regex :=
  rseq [rlit "struct blorp_string *blorp_string_"; rlits ["concat"; "append_int"];
        rlit "(const struct blorp_string *left,"; parameters_end; rlit ") {"].

(** * instrument *)

(** The text and the dictionary [helpers] of match counts. *)
Abbreviation helper_counts := (list (str * Z)).

Definition rewrite (label : str) (pattern : regex) (replace : mtch → str)
    (st : str * helper_counts) : str * helper_counts :=
  let '(text, helpers) := st in
  let '(text, count) := subn pattern replace text in
  (text, dset label (Z.of_nat count) helpers).

Definition hooked (hook : mtch → str) (m : mtch) : str := NOINLINE ++ m_text m ++ hook m.

Definition list_take_left_hook (m : mtch) : str :=
  lit "prof_hit(atomic_load_explicit(&values->references,memory_order_acquire)!=1"
  ++ lit "?PROF_LIST_FALLBACK:PROF_LIST_UNIQUE,PROF_RA,values->length);".
Definition list_borrowed_hook (m : mtch) : str :=
  lit "prof_hit(PROF_LIST_BORROWED,PROF_RA," ++ group m 1 ++ lit "->length);".
Definition string_take_left_hook (m : mtch) : str :=
  lit "prof_hit(atomic_load_explicit(&left->references,memory_order_acquire)!=1"
  ++ lit "?PROF_STRING_FALLBACK:PROF_STRING_UNIQUE,PROF_RA,left->length);".
Definition string_borrowed_hook (m : mtch) : str :=
  lit "prof_hit(PROF_STRING_BORROWED,PROF_RA,left->length);".

(** The passes in their order, each with its label. *)
Definition passes : list (str * (regex * (mtch → str))) :=
  [(lit "list take_left", (list_take_left_pattern, hooked list_take_left_hook));
   (lit "list borrowed", (list_borrowed_pattern, hooked list_borrowed_hook));
   (lit "string take_left", (string_take_left_pattern, hooked string_take_left_hook));
   (lit "string borrowed", (string_borrowed_pattern, hooked string_borrowed_hook))].

Definition instrument (text : str) (helpers : helper_counts) : str * helper_counts :=
  let '(text, helpers) :=
    foldl (λ st p, rewrite p.1 p.2.1 p.2.2 st) (text, helpers) passes in
  (PRELUDE ++ text, helpers).

(** * split_statements *)

Definition one_of_text (l : string) (c : ascii) : bool := one_of (lit l) c.
Definition is_quote (c : ascii) : bool := Ascii.eqb c dquote || Ascii.eqb c "'".

(** [at_line_start] behind the character [c]. *)
Definition line_start_after (at_line_start : bool) (c : ascii) : bool :=
  Ascii.eqb c newline || (at_line_start && one_of [" "%char; tab] c).

(** What the branch for ordinary text appends, and [directive] behind it. *)
Definition plain_step (directive at_line_start : bool) (c : ascii) : str * bool :=
  let directive := directive || (at_line_start && Ascii.eqb c "#") in
  if Ascii.eqb c newline then ([c], false)
  else if negb directive && one_of_text ";{}" c then ([c; newline], directive)
  else ([c], directive).

(** The loop on the text from position [i] on; every round takes at least one
    character, so the length of the text is enough fuel. *)
Fixpoint split_loop (fuel : nat) (s : str) (quote : option ascii)
    (directive at_line_start : bool) : result str :=
  match fuel, s with
  | O, _ | _, [] => Ok []
  | S fuel, c :: t =>
      match quote with
      | Some q =>
          if Ascii.eqb c "\" then
            match t with
            | [] => Raise IndexError
            | d :: t =>
                out ← split_loop fuel t quote directive at_line_start;
                Ok (c :: d :: out)
            end
          else
            out ← split_loop fuel t (if Ascii.eqb c q then None else quote) directive
                    (line_start_after at_line_start c);
            Ok (c :: out)
      | None =>
          if startswith (lit "/*") s then
            '(comment, rest) ← or_raise ValueError (split_first (lit "*/") s);
            out ← split_loop fuel rest None directive at_line_start;
            Ok (comment ++ lit "*/" ++ out)
          else if is_quote c then
            out ← split_loop fuel t (Some c) directive (line_start_after at_line_start c);
            Ok (c :: out)
          else
            let '(emitted, directive') := plain_step directive at_line_start c in
            out ← split_loop fuel t None directive' (line_start_after at_line_start c);
            Ok (emitted ++ out)
      end
  end.

Definition split_statements (source : str) : result str :=
  split_loop (length source) source None false true.

(** * main *)

(** What a run leaves: the files, standard error, and the exception that ended it. *)
Record outcome := Outcome { files_after : gmap str str; err_text : str; raised : option exn }.

(** The loop that prints the counts and stops at the first count of zero. *)
Fixpoint print_counts (l : helper_counts) : str * option exn :=
  match l with
  | [] => ([], None)
  | (label, count) :: l =>
      let line := ljust 18 label ++ lit " " ++ dec count ++ [newline] in
      if (count =? 0)%Z then
        (line, Some (SystemExit (lit "error: instrument_copies: no " ++ label
           ++ lit " helper matched; the runtime's helper shape changed")))
      else let '(text, e) := print_counts l in (line ++ text, e)
  end.

(** [sorted(helpers.items())]: the labels are distinct, so they decide the order. *)
Definition sorted_items (helpers : helper_counts) : helper_counts :=
  sort (λ a b, str_leb a.1 b.1) helpers.

Definition main (usage : str) (files : gmap str str) (arguments : list str) : outcome :=
  match arguments with
  | [in_path; out_path] =>
      match files !! in_path with
      | None => Outcome files [] (Some OSError)
      | Some text =>
          let '(instrumented, helpers) := instrument text [] in
          match split_statements instrumented with
          | Raise e => Outcome files [] (Some e)
          | Ok instrumented =>
              let '(text, e) := print_counts (sorted_items helpers) in
              Outcome (<[out_path := instrumented]> files) text e
          end
      end
  | _ => Outcome files [] (Some (SystemExit usage))
  end.

(** * How a C text reads *)

Inductive literal_char := Escaped (c : ascii) | Inner (c : ascii).
Inductive piece := Plain (c : ascii) | Comment (t : str) | Literal (q : ascii) (l : list literal_char).

(** What stands behind the last complete piece: nothing, a literal that nothing closes,
    one that ends in a lone backslash, or a comment that nothing closes. *)
Inductive ending :=
  | EndComplete
  | EndLiteral (q : ascii) (l : list literal_char)
  | EndBackslash (q : ascii) (l : list literal_char)
  | EndComment (t : str).

Definition literal_text (l : list literal_char) : str :=
  concat ((λ x, match x with Escaped c => ["\"%char; c] | Inner c => [c] end) <$> l).
Definition piece_text (x : piece) : str :=
  match x with
  | Plain c => [c]
  | Comment t => t
  | Literal q l => q :: literal_text l ++ [q]
  end.
Definition ending_text (e : ending) : str :=
  match e with
  | EndComplete => []
  | EndLiteral q l => q :: literal_text l
  | EndBackslash q l => q :: literal_text l ++ ["\"%char]
  | EndComment t => t
  end.
Definition reading_text (ps : list piece) (e : ending) : str :=
  concat (piece_text <$> ps) ++ ending_text e.

Definition literal_ok (q : ascii) (l : list literal_char) : Prop :=
  is_quote q = true ∧
  Forall (λ x, match x with Escaped _ => True | Inner c => c ≠ "\"%char ∧ c ≠ q end) l.
Definition ending_ok (e : ending) : Prop :=
  match e with
  | EndComplete => True
  | EndLiteral q l | EndBackslash q l => literal_ok q l
  | EndComment t => startswith (lit "/*") t = true ∧ split_first (lit "*/") t = None
  end.

(** A comment ends at the first star and slash behind its first character. *)
Fixpoint reading_ok (ps : list piece) (e : ending) : Prop :=
  match ps with
  | [] => ending_ok e
  | x :: ps =>
      match x with
      | Plain c => is_quote c = false ∧ startswith (lit "/*") (c :: reading_text ps e) = false
      | Comment t =>
          ∃ a, t = a ++ lit "*/" ∧ startswith (lit "/*") t = true ∧
            split_first (lit "*/") t = Some (a, [])
      | Literal q l => literal_ok q l
      end ∧ reading_ok ps e
  end.

(** A line start lasts over spaces and tabs. *)
Definition literal_line_start (q : ascii) (l : list literal_char) : bool :=
  foldl (λ b x, match x with Escaped _ => b | Inner c => line_start_after b c end) false l.

(** The lines of a reading: a newline behind each of [;], [{] and [}] that is ordinary
    text outside a directive.  [directive] is whether the text is in one. *)
Fixpoint statement_lines (directive at_line_start : bool) (ps : list piece) : str :=
  match ps with
  | [] => []
  | Plain c :: ps =>
      let directive' :=
        negb (Ascii.eqb c newline) && (directive || (at_line_start && Ascii.eqb c "#")) in
      [c] ++ (if negb directive' && one_of_text ";{}" c then [newline] else [])
      ++ statement_lines directive' (line_start_after at_line_start c) ps
  | Comment t :: ps => t ++ statement_lines directive at_line_start ps
  | Literal q l :: ps =>
      piece_text (Literal q l)
      ++ statement_lines directive (line_start_after (literal_line_start q l) q) ps
  end.

Definition reading_result (ps : list piece) (e : ending) : result str :=
  match e with
  | EndComplete | EndLiteral _ _ => Ok (statement_lines false true ps ++ ending_text e)
  | EndBackslash _ _ => Raise IndexError
  | EndComment _ => Raise ValueError
  end.

Lemma split_loop_S fuel c t q d a :
  split_loop (S fuel) (c :: t) q d a =
  match q with
  | Some q =>
      if Ascii.eqb c "\" then
        match t with
        | [] => Raise IndexError
        | d' :: t => out ← split_loop fuel t (Some q) d a; Ok (c :: d' :: out)
        end
      else
        out ← split_loop fuel t (if Ascii.eqb c q then None else Some q) d (line_start_after a c);
        Ok (c :: out)
  | None =>
      if startswith (lit "/*") (c :: t) then
        '(comment, rest) ← or_raise ValueError (split_first (lit "*/") (c :: t));
        out ← split_loop fuel rest None d a;
        Ok (comment ++ lit "*/" ++ out)
      else if is_quote c then
        out ← split_loop fuel t (Some c) d (line_start_after a c); Ok (c :: out)
      else
        let '(emitted, d') := plain_step d a c in
        out ← split_loop fuel t None d' (line_start_after a c); Ok (emitted ++ out)
  end.
Proof. destruct q; reflexivity. Qed.

Lemma split_loop_fuel n m s q d a :
  length s ≤ n → length s ≤ m → split_loop n s q d a = split_loop m s q d a.
Proof.
  revert m s q d a. induction n as [|n IH]; intros m s q d a Hn Hm.
  { destruct s; [by destruct m|cbn in Hn; lia]. }
  destruct m as [|m]; [by destruct s; [|cbn in Hm; lia]|].
  destruct s as [|c s]; [done|]. cbn in Hn, Hm. cbn [split_loop].
  destruct q as [q|].
  - destruct (Ascii.eqb c "\"); [|by rewrite (IH m) by lia].
    destruct s as [|c' s]; [done|]. cbn in Hn, Hm. by rewrite (IH m) by lia.
  - destruct (startswith _ _) eqn:Es.
    + destruct (split_first _ _) as [[x y]|] eqn:E; [|done]. cbn [or_raise].
      pose proof (length_split_first _ _ _ _ E) as Hl. cbn in Hl. cbn [mbind result_bind].
      change (length (lit "*/")) with 2 in Hl. by rewrite (IH m) by lia.
    + destruct (is_quote c); [by rewrite (IH m) by lia|].
      destruct (plain_step d a c) as [em d']. by rewrite (IH m) by lia.
Qed.

(** The loop with enough fuel, and its steps. *)
Definition split_from (s : str) := split_loop (length s) s.
Arguments split_from : simpl never.

Lemma split_from_nil q dir a : split_from [] q dir a = Ok [].
Proof. done. Qed.

Lemma split_from_escape c d s q dir a :
  c = "\"%char →
  split_from (c :: d :: s) (Some q) dir a =
  (out ← split_from s (Some q) dir a; Ok (c :: d :: out)).
Proof.
  intros ->. unfold split_from. cbn [length]. rewrite split_loop_S.
  change (Ascii.eqb "\" "\") with true. cbv iota.
  by rewrite (split_loop_fuel (S (length s)) (length s)) by lia.
Qed.

Lemma split_from_inner c s q dir a :
  c ≠ "\"%char →
  split_from (c :: s) (Some q) dir a =
  (out ← split_from s (if Ascii.eqb c q then None else Some q) dir (line_start_after a c);
   Ok (c :: out)).
Proof.
  intros H. unfold split_from. cbn [length]. rewrite split_loop_S.
  destruct (Ascii.eqb_spec c "\"); [done|]. done.
Qed.

Lemma split_from_comment t s dir a x :
  startswith (lit "/*") t = true → split_first (lit "*/") t = Some (x, []) →
  split_from (t ++ s) None dir a = (out ← split_from s None dir a; Ok (t ++ out)).
Proof.
  intros Ht Hx. pose proof (split_first_Some _ _ _ _ Hx) as Htx. rewrite app_nil_r in Htx.
  destruct t as [|c t]; [done|]. unfold split_from. cbn [app length]. rewrite split_loop_S.
  change (c :: t ++ s) with ((c :: t) ++ s).
  rewrite startswith_app_le, Ht by by apply startswith_length.
  rewrite (split_first_app _ _ s _ _ Hx). cbn [or_raise mbind result_bind].
  rewrite app_nil_l, (split_loop_fuel (length (t ++ s)) (length s)) by
    (rewrite ?length_app; lia).
  destruct (split_loop _ _ _ _ _); [|done].
  cbn. by rewrite (assoc_L (++)), <- Htx.
Qed.

Lemma split_from_open_comment t dir a :
  startswith (lit "/*") t = true → split_first (lit "*/") t = None →
  split_from t None dir a = Raise ValueError.
Proof.
  intros Ht Hx. destruct t as [|c t]; [done|]. unfold split_from. cbn [length]. rewrite split_loop_S.
  by rewrite Ht, Hx.
Qed.

Lemma quote_not_slash q : is_quote q = true → Ascii.eqb "/" q = false.
Proof. destruct (Ascii.eqb_spec "/" q) as [<-|]; [by vm_compute|done]. Qed.

Lemma split_from_quote q s dir a :
  is_quote q = true →
  split_from (q :: s) None dir a =
  (out ← split_from s (Some q) dir false; Ok (q :: out)).
Proof.
  intros H. unfold split_from. cbn [length]. rewrite split_loop_S.
  assert (startswith (lit "/*") (q :: s) = false) as ->.
  { change (startswith (lit "/*") (q :: s)) with (Ascii.eqb "/" q && startswith (lit "*") s).
    by rewrite quote_not_slash. }
  rewrite H. unfold line_start_after.
  assert (Ascii.eqb q newline || (a && one_of [" "%char; tab] q) = false) as ->; [|done].
  unfold is_quote in H. apply orb_true_iff in H as [->%Ascii.eqb_eq| ->%Ascii.eqb_eq];
    by destruct a; vm_compute.
Qed.

Lemma split_from_plain c s dir a :
  is_quote c = false → startswith (lit "/*") (c :: s) = false →
  split_from (c :: s) None dir a =
  (out ← split_from s None (plain_step dir a c).2 (line_start_after a c);
   Ok ((plain_step dir a c).1 ++ out)).
Proof.
  intros Hq Hs. unfold split_from. cbn [length]. rewrite split_loop_S. rewrite Hs, Hq.
  by destruct (plain_step dir a c).
Qed.

Lemma split_from_literal q l s dir a :
  literal_ok q l →
  split_from (literal_text l ++ s) (Some q) dir a =
  (out ← split_from s (Some q) dir
           (foldl (λ b x, match x with Escaped _ => b | Inner c => line_start_after b c end) a l);
   Ok (literal_text l ++ out)).
Proof.
  intros [Hq Hl]. revert a. induction Hl as [|x l Hx Hl IH]; intros a.
  { cbn. by destruct (split_from s _ _ _). }
  destruct x as [c|c]; unfold literal_text; cbn [fmap list_fmap concat app foldl];
    fold (literal_text l).
  - rewrite split_from_escape by done. rewrite IH. by destruct (split_from s _ _ _).
  - destruct Hx as [Hx Hcq]. rewrite split_from_inner by done.
    destruct (Ascii.eqb_spec c q); [done|]. rewrite IH. by destruct (split_from s _ _ _).
Qed.

Lemma split_reading ps e dir a :
  reading_ok ps e →
  split_from (reading_text ps e) None dir a =
  match e with
  | EndComplete | EndLiteral _ _ => Ok (statement_lines dir a ps ++ ending_text e)
  | EndBackslash _ _ => Raise IndexError
  | EndComment _ => Raise ValueError
  end.
Proof.
  unfold reading_text. revert dir a. induction ps as [|x ps IH]; intros dir a Hok.
  - cbn in *. destruct e as [|q l|q l|t]; cbn [ending_text]; [done|..].
    + rewrite split_from_quote by apply Hok.
      rewrite <- (app_nil_r (literal_text l)) at 1. rewrite split_from_literal by done.
      rewrite split_from_nil. cbn. by rewrite app_nil_r.
    + rewrite split_from_quote by apply Hok. by rewrite split_from_literal.
    + cbn in Hok. destruct Hok. by apply split_from_open_comment.
  - cbn [reading_ok] in Hok. destruct Hok as [Hx Hok]. assert (IH' := λ d b, IH d b Hok); clear IH; rename IH' into IH.
    cbn [fmap list_fmap concat]. rewrite <- (assoc_L (++)). fold (reading_text ps e) in *.
    destruct x as [c|t|q l]; cbn [piece_text statement_lines].
    + destruct Hx as [Hq Hs]. cbn [app]. rewrite split_from_plain by done. rewrite IH.
      unfold plain_step. destruct (Ascii.eqb_spec c newline) as [->|Hn].
      { cbn [fst snd negb andb]. destruct e; try done; cbn; by rewrite andb_false_r. }
      cbn [negb andb]. destruct (negb _ && _) eqn:E; cbn [fst snd]; by destruct e.
    + destruct Hx as (b & Ht & Hs & Hf). erewrite split_from_comment by done. rewrite IH.
      destruct e; try done; cbn; by rewrite <- !(assoc_L (++)).
    + pose proof Hx as [Hq _]. cbn [app]. rewrite split_from_quote by done.
      rewrite <- (assoc_L (++)), split_from_literal by done. cbn [app].
      rewrite split_from_inner by (intros ->; by vm_compute in Hq).
      rewrite Ascii.eqb_refl, IH. unfold literal_line_start.
      destruct e; try done; cbn; by rewrite <- !(assoc_L (++)).
Qed.

(** * Every text has a reading *)

Lemma read_literal q s :
  is_quote q = true →
  ∃ l, literal_ok q l ∧
    (s = literal_text l ∨ s = literal_text l ++ ["\"%char] ∨
     ∃ r, s = literal_text l ++ q :: r).
Proof.
  intros Hq. remember (length s) as n eqn:Hn. revert s Hn.
  induction n as [n IH] using lt_wf_ind. intros [|c s] ->.
  { exists []. split; [split; [done|constructor]|by left]. }
  destruct (decide (c = "\"%char)) as [->|Hc]; [destruct s as [|d s]|
    destruct (decide (c = q)) as [->|Hcq]].
  - exists []. split; [split; [done|constructor]|]. right. by left.
  - destruct (IH (length s)) with (s := s) as (l & [_ Hl] & H); [cbn; lia|done|].
    exists (Escaped d :: l). split; [split; [done|by constructor]|].
    change (literal_text (Escaped d :: l)) with ("\"%char :: d :: literal_text l).
    destruct H as [->|[->|(r & ->)]]; [by left|by right; left|]. right; right. by exists r.
  - exists []. split; [split; [done|constructor]|]. right; right. by exists s.
  - destruct (IH (length s)) with (s := s) as (l & [_ Hl] & H); [cbn; lia|done|].
    exists (Inner c :: l). split; [split; [done|by constructor]|].
    change (literal_text (Inner c :: l)) with (c :: literal_text l).
    destruct H as [->|[->|(r & ->)]]; [by left|by right; left|]. right; right. by exists r.
Qed.

Lemma reading_exists s : ∃ ps e, reading_ok ps e ∧ s = reading_text ps e.
Proof.
  remember (length s) as n eqn:Hn. revert s Hn.
  induction n as [n IH] using lt_wf_ind. intros s ->.
  destruct s as [|c s]; [by exists [], EndComplete|].
  destruct (startswith (lit "/*") (c :: s)) eqn:Es.
  { destruct (split_first (lit "*/") (c :: s)) as [[a b]|] eqn:Ef;
      [|by exists [], (EndComment (c :: s))].
    pose proof (split_first_Some _ _ _ _ Ef) as Hs.
    destruct (IH (length b)) with (s := b) as (ps & e & Hok & Hb); [|done|].
    { rewrite Hs, !length_app. change (length (lit "*/")) with 2. lia. }
    exists (Comment (a ++ lit "*/") :: ps), e. split; [split; [|done]|].
    - exists a. split_and!; [done| |by eapply split_first_at].
      rewrite Hs, (assoc_L (++)), startswith_app_le in Es; [done|].
      rewrite length_app. change (length (lit "/*")) with 2.
      change (length (lit "*/")) with 2. lia.
    - rewrite Hs, Hb. unfold reading_text. cbn. by rewrite <- !(assoc_L (++)). }
  destruct (is_quote c) eqn:Eq.
  - destruct (read_literal c s Eq) as (l & Hl & [->|[->|(r & ->)]]).
    + by exists [], (EndLiteral c l).
    + by exists [], (EndBackslash c l).
    + destruct (IH (length r)) with (s := r) as (ps & e & Hok & Hr); [|done|].
      { cbn. rewrite length_app. cbn. lia. }
      exists (Literal c l :: ps), e. split; [by split|]. rewrite Hr.
      unfold reading_text. cbn. by rewrite <- !(assoc_L (++)).
  - destruct (IH (length s)) with (s := s) as (ps & e & Hok & Hr); [cbn; lia|done|].
    exists (Plain c :: ps), e. split; [|by rewrite Hr].
    split; [|done]. by rewrite <- Hr.
Qed.

(** Newlines inserted behind some of the characters [;], [{] and [}]. *)
Inductive lines_inserted : str → str → Prop :=
  | li_nil : lines_inserted [] []
  | li_keep c s out : lines_inserted s out → lines_inserted (c :: s) (c :: out)
  | li_break c s out :
      one_of_text ";{}" c = true → lines_inserted s out →
      lines_inserted (c :: s) (c :: newline :: out).

Lemma lines_inserted_keep t s out : lines_inserted s out → lines_inserted (t ++ s) (t ++ out).
Proof. intros H. induction t as [|c t IH]; cbn; [done|by constructor]. Qed.

Lemma statement_lines_inserted d a ps t :
  lines_inserted (concat (piece_text <$> ps) ++ t) (statement_lines d a ps ++ t).
Proof.
  revert d a. induction ps as [|x ps IH]; intros d a; cbn.
  { rewrite <- (app_nil_r t) at 1 2. apply lines_inserted_keep. constructor. }
  destruct x as [c|t'|q l]; cbn; rewrite <- ?(assoc_L (++)).
  - destruct (negb _ && one_of_text ";{}" c) eqn:E; cbn.
    + apply li_break; [by apply andb_true_iff in E as [_ ?]|apply IH].
    + apply li_keep, IH.
  - apply lines_inserted_keep, IH.
  - constructor. apply lines_inserted_keep, (lines_inserted_keep [q]), IH.
Qed.

(** * What the passes insert *)

Lemma sublist_unscan f hits tail :
  (∀ m, sublist (m_text m) (f m)) → sublist (unscan m_text (hits, tail)) (unscan f (hits, tail)).
Proof.
  intros Hf. unfold unscan. cbn. induction hits as [|[gap m] hits IH]; cbn; [done|].
  rewrite <- !(assoc_L (++)). apply sublist_app; [done|]. apply sublist_app; [apply Hf|done].
Qed.

Lemma subn_sublist r f s :
  (∀ m, sublist (m_text m) (f m)) → sublist s (subn r f s).1.
Proof.
  intros Hf. change (subn r f s).1 with (sub r f s). rewrite sub_unscan.
  rewrite <- (scan_cover r s) at 1. destruct (scan r s). by apply sublist_unscan.
Qed.

Lemma hooked_sublist hook m : sublist (m_text m) (hooked hook m).
Proof. unfold hooked. apply sublist_inserts_l, sublist_inserts_r. done. Qed.

Lemma instrument_sublist text helpers : sublist text (instrument text helpers).1.
Proof.
  unfold instrument.
  assert (∀ ps st, Forall (λ p, ∃ hook, p.2.2 = hooked hook) ps →
    sublist st.1 (foldl (λ st p, rewrite p.1 p.2.1 p.2.2 st) st ps).1) as H.
  { induction ps as [|[label [pattern f]] ps IH]; intros [t h] Hps; cbn; [done|].
    inversion_clear Hps as [|? ? [hook Hh] Hps']. cbn in Hh. subst f.
    etransitivity; [|by apply IH]. unfold rewrite. cbn.
    pose proof (subn_sublist pattern (hooked hook) t (hooked_sublist hook)) as Hs.
    by destruct (subn pattern (hooked hook) t). }
  specialize (H passes (text, helpers)).
  destruct (foldl _ _ _) as [t h]. cbn in *. apply sublist_inserts_l, H.
  unfold passes. repeat (apply Forall_cons_2; [by eexists|]). apply Forall_nil_2.
Qed.

Lemma lines_inserted_sublist s out : lines_inserted s out → sublist s out.
Proof. induction 1; by repeat constructor. Qed.

Definition zero_count_exit (label : str) : exn :=
  SystemExit (lit "error: instrument_copies: no " ++ label
    ++ lit " helper matched; the runtime's helper shape changed").

Definition counted (l : list (str * nat)) : helper_counts := map (λ p, (p.1, Z.of_nat p.2)) l.

(** The first label whose count is zero ends the run. *)
Lemma print_counts_find l :
  (print_counts (counted l)).2 = zero_count_exit ∘ fst <$> List.find (λ p, p.2 =? 0) l.
Proof.
  induction l as [|[label n] l IH]; [done|]. cbn [counted map print_counts List.find fst snd].
  fold (counted l). destruct n as [|n]; [done|]. cbn -[print_counts].
  by destruct (print_counts (counted l)).
Qed.

Lemma split_lines_inserted s out : split_statements s = Ok out → lines_inserted s out.
Proof.
  intros Eo. destruct (reading_exists s) as (ps & e & Hok & Hs).
  pose proof (split_reading ps e false true Hok) as Hr. rewrite <- Hs in Hr.
  change (split_from s None false true) with (split_statements s) in Hr.
  rewrite Eo in Hr. rewrite Hs. destruct e; try done; injection Hr as ->; apply statement_lines_inserted.
Qed.

(** [hooked_at pattern hook s s' n]: the [n] leftmost matches of the pattern that do not overlap
    stand in [s] (between and behind them, nothing matches), and [s'] is [s] with [NOINLINE] in
    front of each and its hook behind it. *)
Definition hooked_at (pattern : regex) (hook : mtch → str) (s s' : str) (n : nat) : Prop :=
  ∃ hits tail, Scanned pattern [] s hits tail ∧ s = unscan m_text (hits, tail) ∧
    s' = unscan (λ m, NOINLINE ++ m_text m ++ hook m) (hits, tail) ∧ n = length hits.

Lemma subn_hooked_at pattern hook s :
  nonempty pattern →
  hooked_at pattern hook s (subn pattern (hooked hook) s).1 (subn pattern (hooked hook) s).2.
Proof.
  intros Hne. exists (scan pattern s).1, (scan pattern s).2. split; [by apply scan_spec|].
  change (subn pattern (hooked hook) s).1 with (sub pattern (hooked hook) s). rewrite sub_unscan.
  unfold subn. pose proof (scan_cover pattern s) as Hc. destruct (scan pattern s) as [hits tail].
  by split_and!.
Qed.

Lemma instrument_hooks text :
  ∃ t1 t2 t3 t4 n1 n2 n3 n4,
    hooked_at list_take_left_pattern list_take_left_hook text t1 n1 ∧
    hooked_at list_borrowed_pattern list_borrowed_hook t1 t2 n2 ∧
    hooked_at string_take_left_pattern string_take_left_hook t2 t3 n3 ∧
    hooked_at string_borrowed_pattern string_borrowed_hook t3 t4 n4 ∧
    instrument text [] = (PRELUDE ++ t4, counted
      [(lit "list take_left", n1); (lit "list borrowed", n2);
       (lit "string take_left", n3); (lit "string borrowed", n4)]).
Proof.
  assert (∀ label pattern hook t h, nonempty pattern → ∃ t' n, hooked_at pattern hook t t' n ∧
    rewrite label pattern (hooked hook) (t, h) = (t', dset label (Z.of_nat n) h)) as Hpass.
  { intros label pattern hook t h Hne. pose proof (subn_hooked_at pattern hook t Hne) as H.
    unfold rewrite. destruct (subn pattern (hooked hook) t) as [t' n]. by exists t', n. }
  assert (∀ r, 0 < minw r → nonempty r) as Hne by (intros; by apply minw_nonempty).
  unfold instrument, passes. cbn [foldl fst snd].
  edestruct Hpass as (t1 & n1 & H1 & ->); [apply Hne; vm_compute; lia|].
  edestruct Hpass as (t2 & n2 & H2 & ->); [apply Hne; vm_compute; lia|].
  edestruct Hpass as (t3 & n3 & H3 & ->); [apply Hne; vm_compute; lia|].
  edestruct Hpass as (t4 & n4 & H4 & ->); [apply Hne; vm_compute; lia|].
  by exists t1, t2, t3, t4, n1, n2, n3, n4.
Qed.

Lemma sorted_labels n1 n2 n3 n4 :
  sorted_items (counted [(lit "list take_left", n1); (lit "list borrowed", n2);
                         (lit "string take_left", n3); (lit "string borrowed", n4)]) =
  counted [(lit "list borrowed", n2); (lit "list take_left", n1);
           (lit "string borrowed", n4); (lit "string take_left", n3)].
Proof. reflexivity. Qed.

(** * Properties *)

(** C13: Every C text reads as a sequence of ordinary characters, comments and literals with
    an ending, and for every such reading [split_statements] returns the text with a newline
    behind each semicolon and brace of ordinary text outside a directive and nothing else
    changed; it raises IndexError exactly for a literal that ends in a lone backslash and
    ValueError exactly for a comment that nothing closes. *)
Theorem split_statements_correct :
  (∀ source, ∃ ps e, reading_ok ps e ∧ source = reading_text ps e) ∧
  ∀ ps e, reading_ok ps e → split_statements (reading_text ps e) = reading_result ps e.
Proof.
  split; [apply reading_exists|]. intros ps e. apply (split_reading ps e false true).
Qed.

Definition pieces_sample : list piece :=
  [Plain "f"; Literal dquote [Inner ";"; Escaped dquote]; Plain ";"; Comment (lit "/*{*/");
   Plain newline; Plain "#"; Plain ";"].

Lemma split_statements_correct_witness :
  reading_ok pieces_sample EndComplete ∧
  split_statements (reading_text pieces_sample EndComplete) =
    Ok (statement_lines false true pieces_sample ++ []).
Proof.
  assert (reading_ok pieces_sample EndComplete) as H.
  { repeat split; try reflexivity; try (by repeat constructor).
    exists (lit "/*{"). repeat split; reflexivity. }
  split; [exact H|]. exact (proj2 split_statements_correct pieces_sample EndComplete H).
Defined.

(** C14: [instrument_copies.py IN OUT] hooks the four helper shapes one after the other: each
    pass finds the leftmost matches of its pattern in the text of the pass before, puts
    [NOINLINE] in front of each and the counting call behind it, changes nothing else, and
    counts them.  OUT alone is written, and only when the resulting text can be split: then it
    is the prelude and the hooked text with newlines inserted behind semicolons and braces, and
    the whole C program is still in it, in order.  The run ends with an error exactly when a
    pass found no place, and it names the first such shape in the order of the labels. *)
Theorem main_copies usage files in_path out_path text :
  files !! in_path = Some text →
  let o := main usage files [in_path; out_path] in
  ∃ t1 t2 t3 t4 n1 n2 n3 n4,
    hooked_at list_take_left_pattern list_take_left_hook text t1 n1 ∧
    hooked_at list_borrowed_pattern list_borrowed_hook t1 t2 n2 ∧
    hooked_at string_take_left_pattern string_take_left_hook t2 t3 n3 ∧
    hooked_at string_borrowed_pattern string_borrowed_hook t3 t4 n4 ∧
    ((∃ e, split_statements (PRELUDE ++ t4) = Raise e ∧ o = Outcome files [] (Some e)) ∨
     (∃ out, split_statements (PRELUDE ++ t4) = Ok out ∧ lines_inserted (PRELUDE ++ t4) out ∧
        sublist text out ∧ files_after o = <[out_path := out]> files ∧
        raised o = zero_count_exit ∘ fst <$> List.find (λ p, p.2 =? 0)
          [(lit "list borrowed", n2); (lit "list take_left", n1);
           (lit "string borrowed", n4); (lit "string take_left", n3)])).
Proof.
  intros Ht. pose proof (instrument_sublist text []) as Hsub.
  destruct (instrument_hooks text) as (t1 & t2 & t3 & t4 & n1 & n2 & n3 & n4 & H1 & H2 & H3 & H4 & Hi).
  exists t1, t2, t3, t4, n1, n2, n3, n4. split_and!; [done..|].
  unfold main. rewrite Ht. rewrite Hi in Hsub |- *. cbn [fst] in Hsub. rewrite sorted_labels.
  destruct (split_statements (PRELUDE ++ t4)) as [out|e'] eqn:Eo; [right|left; exists e'; split; reflexivity].
  pose proof (split_lines_inserted _ _ Eo) as Hli. exists out.
  pose proof (print_counts_find [(lit "list borrowed", n2); (lit "list take_left", n1);
    (lit "string borrowed", n4); (lit "string take_left", n3)]) as Hp.
  unfold counted in Hp. cbn [map fst snd] in Hp. destruct (print_counts _) as [err raised].
  split; [reflexivity|]. split; [exact Hli|]. split; [|split; [reflexivity|exact Hp]].
  etransitivity; [exact Hsub|]. apply lines_inserted_sublist, Hli.
Qed.

(** A program with one helper shape of four. *)
Definition copies_sample : str := qlit "struct blorp_string *blorp_string_concat(const struct blorp_string *left,int n) {return f(';');}".

Lemma main_copies_witness :
  files_after (main [] {[lit "i" := copies_sample]} [lit "i"; lit "o"]) !! lit "o" ≠ None ∧
  raised (main [] {[lit "i" := copies_sample]} [lit "i"; lit "o"])
    = Some (zero_count_exit (lit "list borrowed")).
Proof.
  destruct (main_copies [] {[lit "i" := copies_sample]} (lit "i") (lit "o") copies_sample)
    as (t1 & t2 & t3 & t4 & n1 & n2 & n3 & n4 & _ & _ & _ & _ & H); [reflexivity|].
  assert (raised (main [] {[lit "i" := copies_sample]} [lit "i"; lit "o"])
    = Some (zero_count_exit (lit "list borrowed"))) as Hr by (vm_compute; reflexivity).
  split; [|exact Hr]. destruct H as [(e & He & Ho)|(out & _ & _ & _ & Hf & _)].
  - rewrite Ho in Hr. exfalso. unfold raised in Hr. injection Hr as ->.
    assert (files_after (main [] {[lit "i" := copies_sample]} [lit "i"; lit "o"]) !! lit "o" ≠ None) as Hx
      by (vm_compute; discriminate).
    rewrite Ho in Hx. apply Hx. reflexivity.
  - rewrite Hf, lookup_insert_eq. discriminate.
Defined.
