(* ===== verification/PatchMarkers.v ===== *)
(** blorp/scripts/attribution/patch_emit_markers.py: the edits that turn a scratch copy
    of the emitter into the marker compiler, and main. *)
From S2P Require Import Prelude PyStr.

(** A literal in which every tilde stands for a double quote. *)
Definition tlit (s : string) : str :=
  map (λ c, if Ascii.eqb c "~"%char then dquote else c) (lit s).
Arguments tlit _%_string_scope : simpl never.

Definition REASON_FUNCTIONS : str := tlit "
-- Scratch attribution marker: why an AcquireOwner exists, from its neighbours.
private pure func rc_reason_before_definition(operations: List[OwnershipOperation], index: Int) -> String:
	match operations.get(index):
		Some(AcquireOwner(_, _, _)): rc_reason_before_definition(operations, index.add(1))
		Some(DropOwner(_, _)): rc_reason_before_definition(operations, index.add(1))
		Some(DefineValue(definition)):
			match definition.operation:
				CallDefinition(_, _) | InvokeCallableDefinition(_, _): ~call~
				ConstructRecordDefinition(_, _) | ConstructDefinition(_, _) | ConstructListDefinition(_) | CapturedCallableDefinition(_, _): ~stored~
				_: ~other_definition~
		Some(ExecuteJoin(_)): ~before_control~
		Some(ExecuteLoop(_)): ~before_control~
		None: ~block_end~


private pure func rc_reason(operations: List[OwnershipOperation], position: Int, borrowed_value: Int) -> String:
	var projected: Bool = False
	if position.greater_than(0):
		match operations.get(position.subtract(1)):
			Some(DefineValue(definition)):
				match definition.operation:
					ReadRecordFieldDefinition(_, _): projected = value_number(definition.id) == borrowed_value
					_: void
			_: void
	if projected:
		~projection~
	else:
		rc_reason_before_definition(operations, position.add(1))


private pure func rc_source_name(source: BorrowSource) -> String:
	match source:
		ParameterBorrow(_): ~parameter~
		OwnerBorrow(_): ~owner~
		PayloadBorrow(_): ~payload~


-- True when only acquisitions, drops and at most `definitions_left` definitions
-- separate the operation at `index` from a drop of `owner`: the pair
-- ~acquire from owner, then drop owner~ that a move would replace.
private pure func rc_drops_owner_after(operations: List[OwnershipOperation], index: Int, owner: Int, definitions_left: Int) -> Bool:
	match operations.get(index):
		Some(DropOwner(dropped, _)):
			if owner_number(dropped) == owner:
				True
			else:
				rc_drops_owner_after(operations, index.add(1), owner, definitions_left)
		Some(AcquireOwner(_, _, _)): rc_drops_owner_after(operations, index.add(1), owner, definitions_left)
		Some(DefineValue(_)):
			if definitions_left.greater_than(0):
				rc_drops_owner_after(operations, index.add(1), owner, definitions_left.subtract(1))
			else:
				False
		_: False


-- The reason of the acquisition from `owner` that precedes `index` (skipping acquisitions,
-- drops and at most `definitions_left` definitions), or ~none~.
private pure func rc_partner_reason(operations: List[OwnershipOperation], index: Int, owner: Int, definitions_left: Int) -> String:
	if index.less_than(0):
		~none~
	else:
		match operations.get(index):
			Some(AcquireOwner(_, borrowed, _)):
				match borrowed.source:
					OwnerBorrow(source):
						if owner_number(source) == owner:
							rc_reason(operations, index, value_number(borrowed.value))
						else:
							rc_partner_reason(operations, index.subtract(1), owner, definitions_left)
					_: rc_partner_reason(operations, index.subtract(1), owner, definitions_left)
			Some(DropOwner(_, _)): rc_partner_reason(operations, index.subtract(1), owner, definitions_left)
			Some(DefineValue(_)):
				if definitions_left.greater_than(0):
					rc_partner_reason(operations, index.subtract(1), owner, definitions_left.subtract(1))
				else:
					~none~
			_: ~none~


private pure func rc_acquire_pair(operations: List[OwnershipOperation], position: Int, source: BorrowSource) -> String:
	match source:
		OwnerBorrow(owner):
			if rc_drops_owner_after(operations, position.add(1), owner_number(owner), 1):
				~pair~
			else:
				~solo~
		_: ~solo~


private pure func rc_marked(operations: List[OwnershipOperation], position: Int, operation: OwnershipOperation, emitted: String) -> String:
	match operation:
		AcquireOwner(owner, borrowed, _):
			~/*RC:B A ${rc_reason(operations, position, value_number(borrowed.value))} ${rc_source_name(borrowed.source)} ${rc_acquire_pair(operations, position, borrowed.source)} ${owner_number(owner).to_string()}*/${emitted}/*RC:E*/~
		DropOwner(owner, _):
			~/*RC:B D ${owner_number(owner).to_string()} ${rc_partner_reason(operations, position.subtract(1), owner_number(owner), 1)}*/${emitted}/*RC:E*/~
		_: emitted


private pure func rc_definition_kind(operation: OwnedValueOperation) -> String:
	match operation:
		ParameterDefinition(_): ~parameter~
		CallDefinition(_, _) | InvokeCallableDefinition(_, _): ~call_result~
		ConstructRecordDefinition(_, _) | ConstructDefinition(_, _) | ConstructListDefinition(_) | CapturedCallableDefinition(_, _) | FreeCallableDefinition(_): ~constructed~
		ListSuffixDefinition(_, _): ~list_suffix~
		StringDefinition(_): ~string_literal~
		_: ~other~


".

(** Anchor and replacement, in the order they are applied. *)
Definition EDITS : list (str * str) :=
  [(tlit "		OwnedValueOperation(
",
    tlit "		BorrowSource(ParameterBorrow, OwnerBorrow, PayloadBorrow),
		OwnedValueOperation(
");
   (tlit "	var fragments: List[String] = [output]
	var failure: Option[Diagnostic] = None

	for operation in operations:
		match append_ownership_operation(~~, operation, unions, types, records, nearest):
			Err(error):
				failure = Some(error)
				break
			Ok(emitted):
				fragments = fragments.append(emitted)
",
    tlit "	var fragments: List[String] = [output]
	var failure: Option[Diagnostic] = None
	var position = 0

	for operation in operations:
		match append_ownership_operation(~~, operation, unions, types, records, nearest):
			Err(error):
				failure = Some(error)
				break
			Ok(emitted):
				fragments = fragments.append(rc_marked(operations, position, operation, emitted))
		position = position.add(1)
");
   (tlit "		match append_ownership_operation(entered, AcquireOwner(acquisition.owner, acquisition.borrow, join_parameter(loop.result).span), unions, types, records, None):
			Ok(acquired): entered = acquired
",
    tlit "		match append_ownership_operation(~~, AcquireOwner(acquisition.owner, acquisition.borrow, join_parameter(loop.result).span), unions, types, records, None):
			Ok(acquired): entered = ~${entered}/*RC:B A loop_entry ${rc_source_name(acquisition.borrow.source)} solo ${owner_number(acquisition.owner).to_string()}*/${acquired}/*RC:E*/~
");
   (tlit "				Ok(binding): Ok(~${value}${binding}~)
",
    tlit "				Ok(binding): Ok(~${value}${binding}/*RC:K ${owner_number(owner).to_string()} ${rc_definition_kind(definition.operation)}*/~)
");
   (tlit "Ok(binding): result = ~${result}${binding}~",
    tlit "Ok(binding): result = ~${result}${binding}/*RC:K ${owner_number(owner).to_string()} input_owner*/~");
   (tlit "Ok(binding): snapshots = ~${snapshots}${binding}~",
    tlit "Ok(binding): snapshots = ~${snapshots}${binding}/*RC:K ${owner_number(owner).to_string()} loop_header*/~");
   (tlit "Ok(binding): joined = ~${joined}${binding}~",
    tlit "Ok(binding): joined = ~${joined}${binding}/*RC:K ${owner_number(owner).to_string()} join_output*/~");
   (tlit "private pure func append_ownership_operation(
",
    REASON_FUNCTIONS ++ tlit "private pure func append_ownership_operation(
")].

#[global] Arguments REASON_FUNCTIONS : simpl never.

(** * Applying the edits *)

Definition anchor_exit (count : nat) (old : str) : exn :=
  SystemExit (lit "error: patch_emit_markers: anchor found " ++ decn count
              ++ lit " times (expected 1):" ++ [newline] ++ old).

Definition apply_edit (text : str) (edit : str * str) : result str :=
  let '(old, new) := edit in
  if decide (count_sub old text = 1) then Ok (replace_first old new text)
  else Raise (anchor_exit (count_sub old text) old).

Definition apply_edits (edits : list (str * str)) (text : str) : result str :=
  foldM apply_edit text edits.

(** * main *)

Definition emit_path (root : str) : str :=
  rstrip_by (Ascii.eqb "/") root ++ lit "/emit/emit.brp".

(** The files after the run and the line it prints; the script reads its first
    argument when it is loaded. *)
Definition main (files : gmap str str) (arguments : list str) : result (gmap str str * str) :=
  root ← or_raise IndexError (arguments !! 0);
  let path := emit_path root in
  text ← or_raise OSError (files !! path);
  text ← apply_edits EDITS text;
  Ok (<[path := text]> files,
      lit "patched " ++ path ++ lit " with " ++ decn (length EDITS) ++ lit " edits" ++ [newline]).

(** * What the edits do *)

(** [old] stands in [text] behind [a], nowhere earlier, and not again in [b]. *)
Definition occurs_once (old text a b : str) : Prop :=
  text = a ++ old ++ b ∧
  (∀ p q, text = p ++ old ++ q → length a ≤ length p) ∧
  (∀ p q, b ≠ p ++ old ++ q).

(** Each anchor in turn is replaced at its only occurrence. *)
Inductive Edited : list (str * str) → str → str → Prop :=
  | Edited_nil text : Edited [] text text
  | Edited_cons old new edits text a b out :
      occurs_once old text a b → Edited edits (a ++ new ++ b) out →
      Edited ((old, new) :: edits) text out.

Lemma occurs_once_count old text :
  old ≠ [] → count_sub old text = 1 ↔ ∃ a b, occurs_once old text a b.
Proof.
  intros Hne. rewrite count_sub_1 by done. split.
  - intros (a & b & Hs & Hb). exists a, b. split_and!.
    + by apply split_first_Some.
    + intros p q. by apply (split_first_leftmost _ _ _ _ _ _ Hs).
    + intros p q. by apply split_first_None.
  - intros (a & b & Hs & Hleft & Hb).
    destruct (split_first old text) as [[a' b']|] eqn:E;
      [|by destruct (split_first_None _ _ _ _ E Hs)].
    pose proof (split_first_Some _ _ _ _ E) as Hs'.
    assert (length a = length a') as Hlen.
    { apply Nat.le_antisymm; [by eapply Hleft|].
      by apply (split_first_leftmost _ _ _ _ _ _ E Hs). }
    rewrite Hs in Hs'. apply app_inj_1 in Hs' as [-> Hs']; [|done].
    apply (inj (app old)) in Hs' as ->. exists a', b'. split; [done|].
    destruct (split_first old b') as [[p q]|] eqn:E'; [|done].
    by destruct (Hb p q (split_first_Some _ _ _ _ E')).
Qed.

Lemma occurs_once_replace old new text a b :
  occurs_once old text a b → replace_first old new text = a ++ new ++ b.
Proof.
  intros (Hs & Hleft & Hb). unfold replace_first.
  destruct (split_first old text) as [[a' b']|] eqn:E;
    [|by destruct (split_first_None _ _ _ _ E Hs)].
  pose proof (split_first_Some _ _ _ _ E) as Hs'.
  assert (length a = length a') as Hlen.
  { apply Nat.le_antisymm; [by eapply Hleft|].
      by apply (split_first_leftmost _ _ _ _ _ _ E Hs). }
  rewrite Hs in Hs'. apply app_inj_1 in Hs' as [-> Hs']; [|done].
  by apply (inj (app old)) in Hs' as ->.
Qed.

Definition anchors_ok (edits : list (str * str)) : Prop := Forall (λ e, e.1 ≠ []) edits.

Lemma apply_edit_eq text old new :
  apply_edit text (old, new) =
  if decide (count_sub old text = 1) then Ok (replace_first old new text)
  else Raise (anchor_exit (count_sub old text) old).
Proof. done. Qed.

Lemma apply_edits_Edited edits text out :
  anchors_ok edits → apply_edits edits text = Ok out ↔ Edited edits text out.
Proof.
  intros Hok. unfold apply_edits. revert text. induction Hok as [|[old new] edits Hne Hok IH];
    intros text; cbn [foldM].
  { split; [intros [= ->]; constructor|by inversion 1]. }
  cbn in Hne. rewrite apply_edit_eq. destruct (decide (count_sub old text = 1)) as [H1|H1].
  - apply occurs_once_count in H1 as (a & b & H); [|done].
    rewrite (occurs_once_replace _ _ _ _ _ H). cbn [mbind result_bind]. rewrite IH. split.
    + by econstructor.
    + inversion 1 as [|? ? ? ? a' b' ? H' Hrest]; subst.
      pose proof (occurs_once_replace old new _ _ _ H) as E1.
      rewrite (occurs_once_replace old new _ _ _ H') in E1. by rewrite E1 in Hrest.
  - split; [done|]. inversion 1 as [|? ? ? ? a' b' ? H' Hrest]; subst.
    exfalso. apply H1, occurs_once_count; eauto.
Qed.

Lemma apply_edits_Raise edits text e :
  anchors_ok edits → apply_edits edits text = Raise e →
  ∃ done old new rest text', edits = done ++ (old, new) :: rest ∧ Edited done text text' ∧
    ¬ (∃ a b, occurs_once old text' a b) ∧ e = anchor_exit (count_sub old text') old.
Proof.
  intros Hok. unfold apply_edits. revert text. induction Hok as [|[old new] edits Hne Hok IH];
    intros text H; cbn [foldM] in H; [done|].
  cbn in Hne. rewrite apply_edit_eq in H.
  destruct (decide (count_sub old text = 1)) as [H1|H1].
  - apply occurs_once_count in H1 as (a & b & Ho); [|done].
    rewrite (occurs_once_replace _ _ _ _ _ Ho) in H. cbn [mbind result_bind] in H.
    apply IH in H as (dn & old' & new' & rest & text' & -> & Hd & Hno & ->).
    exists ((old, new) :: dn), old', new', rest, text'. split_and!; [done| |done|done].
    by econstructor.
  - cbn in H. injection H as <-. exists [], old, new, edits, text.
    split_and!; [done|constructor| |done]. by rewrite <- occurs_once_count.
Qed.

Lemma EDITS_ok : anchors_ok EDITS.
Proof. unfold anchors_ok, EDITS. repeat constructor; discriminate. Qed.

(** An anchor with a character that the text does not have is found 0 times. *)
Lemma apply_edits_absent c old new edits text :
  c ∈ old → c ∉ text → apply_edits ((old, new) :: edits) text = Raise (anchor_exit 0 old).
Proof.
  intros Hold Hno. unfold apply_edits. cbn [foldM]. rewrite apply_edit_eq.
  assert (count_sub old text = 0) as ->; [|done].
  apply count_sub_None. destruct (split_first old text) as [[a b]|] eqn:E; [|done].
  exfalso. apply split_first_Some in E. apply Hno. rewrite E. set_solver.
Qed.

(** * Properties *)

(** C15: [patch_emit_markers.py] that succeeds replaces, one after the other, each of the
    eight anchors at its only occurrence in the text so far, and writes nothing but the
    emitter; otherwise it stops at the first anchor that does not occur exactly once and
    writes nothing. *)
Theorem main_patch files root text :
  files !! emit_path root = Some text →
  (∃ out message, main files [root] = Ok (<[emit_path root := out]> files, message) ∧
     Edited EDITS text out) ∨
  (∃ before old new rest text', EDITS = before ++ (old, new) :: rest ∧
     Edited before text text' ∧ ¬ (∃ a b, occurs_once old text' a b) ∧
     main files [root] = Raise (anchor_exit (count_sub old text') old)).
Proof.
  intros Hf. unfold main. cbn [lookup list_lookup or_raise mbind result_bind]. rewrite Hf.
  cbn [or_raise mbind result_bind].
  destruct (apply_edits EDITS text) as [out|e] eqn:E; cbn [mbind result_bind]; [left|right].
  - exists out. eexists. split; [done|]. by apply apply_edits_Edited, E; apply EDITS_ok.
  - destruct (apply_edits_Raise _ _ _ EDITS_ok E) as (dn & old & new & rest & text' & H1 & H2 & H3 & ->).
    by exists dn, old, new, rest, text'.
Qed.

(** A text with the eight anchors. *)
Definition emitter_sample : str := concat (fst <$> EDITS).

Lemma main_patch_witness :
  is_ok (main {[emit_path (lit "s/") := emitter_sample]} [lit "s/"]) = true ∧
  ∃ out message, main {[emit_path (lit "s/") := emitter_sample]} [lit "s/"]
    = Ok (<[emit_path (lit "s/") := out]> {[emit_path (lit "s/") := emitter_sample]}, message).
Proof.
  assert (is_ok (main {[emit_path (lit "s/") := emitter_sample]} [lit "s/"]) = true) as Hok
    by (vm_compute; reflexivity).
  split; [exact Hok|].
  destruct (main_patch {[emit_path (lit "s/") := emitter_sample]} (lit "s/") emitter_sample)
    as [(out & message & H & _)|(b & o & n & r & t & _ & _ & _ & H)].
  - reflexivity.
  - exists out, message. exact H.
  - rewrite H in Hok. discriminate Hok.
Defined.

(** Every anchor of a Blorp block is written with tabs, so on an emitter indented with
    spaces only the script never succeeds: it stops at the first anchor, found 0 times. *)
Theorem patch_needs_tabs text :
  tab ∉ text →
  ∃ old new rest, EDITS = (old, new) :: rest ∧
    apply_edits EDITS text = Raise (anchor_exit 0 old).
Proof.
  intros Hno. eexists _, _, _. split; [reflexivity|]. apply (apply_edits_absent tab); [|done].
  vm_compute. left.
Qed.

Lemma patch_needs_tabs_witness :
  tab ∉ lit "    match x:" ∧ is_ok (apply_edits EDITS (lit "    match x:")) = false.
Proof.
  assert (tab ∉ lit "    match x:") as H.
  { intros Hin. apply (bool_decide_pack _) in Hin. vm_compute in Hin. exact Hin. }
  split; [exact H|].
  destruct (patch_needs_tabs (lit "    match x:") H) as (old & new & rest & _ & ->). reflexivity.
Defined.
