(* ===== verification/RcReasons.v ===== *)
(** blorp/scripts/attribution/patch_emit_markers.py, the functions it adds to the
    emitter ([REASON_FUNCTIONS] and the marker texts of [EDITS]): why an owner is
    acquired, which acquisition a drop is paired with, and the comments around the
    emitted operations, up to the regions that instrument_rc.py reads back. *)
From S2P Require Import Prelude PyStr Regex RcScan RcTags.

(** * Ownership operations *)

(** The parts of the operations that the added functions read. *)
Inductive borrow_source :=
  | ParameterBorrow (value : Z)
  | OwnerBorrow (owner : Z)
  | PayloadBorrow (value : Z).

Inductive value_operation :=
  | ConstructRecordDefinition | ReadRecordFieldDefinition | ParameterDefinition
  | VoidDefinition | IntegerDefinition | FloatDefinition | StringDefinition
  | CallDefinition | InvokeCallableDefinition | FreeCallableDefinition
  | CapturedCallableDefinition | ConstructDefinition | ConstructListDefinition
  | PayloadDefinition | ListElementDefinition | ListSuffixDefinition.

Inductive result_ownership :=
  | UnmanagedResult | BorrowedResult (source : borrow_source) | OwnedResult (owner : Z).

Record definition := Definition_ {
  value_id : Z;
  operation : value_operation;
  result_of : result_ownership;
}.

Inductive ownership_operation :=
  | DefineValue (d : definition)
  | ExecuteJoin
  | ExecuteLoop
  | AcquireOwner (owner value : Z) (source : borrow_source)
  | DropOwner (owner : Z).

(** * Reasons *)

(** The reason at the rest of the operations. *)
Fixpoint reason_from (rest : list ownership_operation) : str :=
  match rest with
  | AcquireOwner _ _ _ :: rest | DropOwner _ :: rest => reason_from rest
  | DefineValue d :: _ =>
      match operation d with
      | CallDefinition | InvokeCallableDefinition => lit "call"
      | ConstructRecordDefinition | ConstructDefinition | ConstructListDefinition
      | CapturedCallableDefinition => lit "stored"
      | _ => lit "other_definition"
      end
  | ExecuteJoin :: _ | ExecuteLoop :: _ => lit "before_control"
  | [] => lit "block_end"
  end.

Definition rc_reason_before_definition (operations : list ownership_operation) (index : nat) : str :=
  reason_from (drop index operations).

Definition is_read (d : definition) : bool :=
  match operation d with ReadRecordFieldDefinition => true | _ => false end.

Definition rc_reason (operations : list ownership_operation) (position : nat)
    (borrowed_value : Z) : str :=
  let projected :=
    match position with
    | O => false
    | S previous =>
        match operations !! previous with
        | Some (DefineValue d) => is_read d && (value_id d =? borrowed_value)%Z
        | _ => false
        end
    end in
  if projected then lit "projection"
  else rc_reason_before_definition operations (S position).

Definition rc_source_name (source : borrow_source) : str :=
  match source with
  | ParameterBorrow _ => lit "parameter"
  | OwnerBorrow _ => lit "owner"
  | PayloadBorrow _ => lit "payload"
  end.

Fixpoint drops_from (rest : list ownership_operation) (owner : Z) (definitions_left : nat) : bool :=
  match rest with
  | DropOwner dropped :: rest =>
      if (dropped =? owner)%Z then true else drops_from rest owner definitions_left
  | AcquireOwner _ _ _ :: rest => drops_from rest owner definitions_left
  | DefineValue _ :: rest =>
      match definitions_left with
      | S n => drops_from rest owner n
      | O => false
      end
  | _ => false
  end.

Definition rc_drops_owner_after (operations : list ownership_operation) (index : nat)
    (owner : Z) (definitions_left : nat) : bool :=
  drops_from (drop index operations) owner definitions_left.

(** [n] is the index plus one: the walk to the left ends at 0. *)
Fixpoint partner_before (operations : list ownership_operation) (n : nat) (owner : Z)
    (definitions_left : nat) : str :=
  match n with
  | O => lit "none"
  | S index =>
      match operations !! index with
      | Some (AcquireOwner _ value (OwnerBorrow source)) =>
          if (source =? owner)%Z then rc_reason operations index value
          else partner_before operations index owner definitions_left
      | Some (AcquireOwner _ _ _) | Some (DropOwner _) =>
          partner_before operations index owner definitions_left
      | Some (DefineValue _) =>
          match definitions_left with
          | S n => partner_before operations index owner n
          | O => lit "none"
          end
      | _ => lit "none"
      end
  end.

Definition rc_partner_reason (operations : list ownership_operation) (index : Z) (owner : Z)
    (definitions_left : nat) : str :=
  partner_before operations (Z.to_nat (index + 1)) owner definitions_left.

Definition rc_acquire_pair (operations : list ownership_operation) (position : nat)
    (source : borrow_source) : str :=
  match source with
  | OwnerBorrow owner =>
      if rc_drops_owner_after operations (S position) owner 1 then lit "pair" else lit "solo"
  | _ => lit "solo"
  end.

(** * Markers *)

Definition rc_marked (operations : list ownership_operation) (position : nat)
    (op : ownership_operation) (emitted : str) : str :=
  match op with
  | AcquireOwner owner value source =>
      lit "/*RC:B A " ++ rc_reason operations position value ++ lit " "
      ++ rc_source_name source ++ lit " " ++ rc_acquire_pair operations position source
      ++ lit " " ++ dec owner ++ lit "*/" ++ emitted ++ lit "/*RC:E*/"
  | DropOwner owner =>
      lit "/*RC:B D " ++ dec owner ++ lit " "
      ++ rc_partner_reason operations (Z.of_nat position - 1) owner 1
      ++ lit "*/" ++ emitted ++ lit "/*RC:E*/"
  | _ => emitted
  end.

Definition rc_definition_kind (operation : value_operation) : str :=
  match operation with
  | ParameterDefinition => lit "parameter"
  | CallDefinition | InvokeCallableDefinition => lit "call_result"
  | ConstructRecordDefinition | ConstructDefinition | ConstructListDefinition
  | CapturedCallableDefinition | FreeCallableDefinition => lit "constructed"
  | ListSuffixDefinition => lit "list_suffix"
  | StringDefinition => lit "string_literal"
  | _ => lit "other"
  end.

(** The patched text of a definition: its code, then the marker of the owner it creates. *)
Definition definition_marked (d : definition) (emitted : str) : str :=
  match result_of d with
  | OwnedResult owner =>
      emitted ++ lit "/*RC:K " ++ dec owner ++ lit " " ++ rc_definition_kind (operation d) ++ lit "*/"
  | _ => emitted
  end.

(** The patched operation list: what [append_ownership_operation] wrote for each
    operation, with the markers. *)
Definition emitted_marked (operations : list ownership_operation) (position : nat)
    (op : ownership_operation) (emitted : str) : str :=
  rc_marked operations position op
    (match op with DefineValue d => definition_marked d emitted | _ => emitted end).

Definition append_operations (operations : list ownership_operation) (emitted : nat → str) : str :=
  concat (imap (λ position op, emitted_marked operations position op (emitted position)) operations).

(** * Pairs are seen from both ends *)

Lemma reason_from_not_none rest : reason_from rest ≠ lit "none".
Proof.
  induction rest as [|[d| | |owner value source|owner] rest IH]; cbn; try done.
  by destruct (operation d).
Qed.

Lemma rc_reason_not_none operations position value :
  rc_reason operations position value ≠ lit "none".
Proof.
  unfold rc_reason. destruct (match position with O => false | _ => _ end); [done|].
  apply reason_from_not_none.
Qed.

(** What may stand between an acquisition and the drop it is paired with: [n] definitions,
    and drops and acquisitions. *)
Fixpoint quiet (l : list ownership_operation) (n : nat) : bool :=
  match l with
  | [] => true
  | AcquireOwner _ _ _ :: l | DropOwner _ :: l => quiet l n
  | DefineValue _ :: l => match n with S n => quiet l n | O => false end
  | _ => false
  end.

Definition calm (op : ownership_operation) : bool :=
  match op with ExecuteJoin | ExecuteLoop => false | _ => true end.
Definition definitions (l : list ownership_operation) : nat :=
  length (List.filter (λ op, match op with DefineValue _ => true | _ => false end) l).

Lemma quiet_iff l n : quiet l n = true ↔ forallb calm l = true ∧ definitions l ≤ n.
Proof.
  unfold definitions. revert n. induction l as [|[d| | |o v s|o] l IH]; intros n; cbn;
    rewrite ?IH; try naive_solver lia.
  destruct n; [naive_solver lia|]. rewrite IH. naive_solver lia.
Qed.

Lemma quiet_app l k n m :
  quiet l n = true → quiet k m = true → quiet (l ++ k) (n + m) = true.
Proof.
  rewrite !quiet_iff. unfold definitions.
  rewrite forallb_app, List.filter_app, length_app, andb_true_iff. naive_solver lia.
Qed.

Lemma quiet_app_inv l k n :
  quiet (l ++ k) n = true → quiet l n = true ∧ quiet k n = true ∧
    quiet l (n - definitions k) = true ∧ definitions k ≤ n.
Proof.
  rewrite !quiet_iff. unfold definitions.
  rewrite forallb_app, List.filter_app, length_app, andb_true_iff. naive_solver lia.
Qed.

Lemma drops_from_spec rest owner n :
  drops_from rest owner n = true ↔
  ∃ l k, rest = l ++ DropOwner owner :: k ∧ quiet l n = true ∧ DropOwner owner ∉ l.
Proof.
  split.
  - revert n. induction rest as [|[d| | |o v s|o] rest IH]; intros n; cbn; try done.
    + destruct n as [|n]; [done|]. intros (l & k & -> & Hq & Hn)%IH.
      exists (DefineValue d :: l), k. split_and!; [done|done|]. set_solver.
    + intros (l & k & -> & Hq & Hn)%IH. exists (AcquireOwner o v s :: l), k.
      split_and!; [done|done|]. set_solver.
    + destruct (Z.eqb_spec o owner) as [->|Hne].
      * intros _. exists [], rest. split_and!; [done|done|]. set_solver.
      * intros (l & k & -> & Hq & Hn)%IH. exists (DropOwner o :: l), k.
        split_and!; [done|done|]. set_solver.
  - intros (l & k & -> & Hq & Hn). revert n Hq.
    induction l as [|[d| | |o v s|o] l IH]; intros n Hq; cbn in *; try done.
    + by rewrite Z.eqb_refl.
    + destruct n; [done|]. apply IH; [set_solver|done].
    + apply IH; [set_solver|done].
    + destruct (o =? owner)%Z; [done|]. apply IH; [set_solver|done].
Qed.

Lemma slice_one {A} i (x : A) l : l !! i = Some x → slice i (S i) l = [x].
Proof.
  intros Hx. unfold slice. replace (S i - i) with 1 by lia. by rewrite (drop_S _ _ _ Hx).
Qed.

(** The walk to the left, on the operations before the index. *)
Lemma partner_before_spec operations i n owner r :
  i ≤ length operations →
  partner_before operations i owner n = r → r ≠ lit "none" →
  ∃ p o v l, p < i ∧ operations !! p = Some (AcquireOwner o v (OwnerBorrow owner)) ∧
    r = rc_reason operations p v ∧ slice (S p) i operations = l ∧ quiet l n = true ∧
    Forall (λ op, ∀ o v, op ≠ AcquireOwner o v (OwnerBorrow owner)) l.
Proof.
  revert n. induction i as [|i IH]; intros n Hi H Hr; cbn in H; [congruence|].
  assert (∀ x m n', operations !! i = Some x → quiet [x] m = true → n = n' + m →
    (∀ o v, x ≠ AcquireOwner o v (OwnerBorrow owner)) →
    partner_before operations i owner n' = r →
    ∃ p o v l, p < S i ∧ operations !! p = Some (AcquireOwner o v (OwnerBorrow owner)) ∧
      r = rc_reason operations p v ∧ slice (S p) (S i) operations = l ∧ quiet l n = true ∧
      Forall (λ op, ∀ o v, op ≠ AcquireOwner o v (OwnerBorrow owner)) l) as Hstep.
  { intros x m n' Hx Hqx -> Hne Hp. destruct (IH n' ltac:(lia) Hp Hr)
      as (p & o & v & l & Hpi & Hl & -> & Hs & Hql & Hf).
    exists p, o, v, (l ++ [x]). split_and!; [lia|done|done| |by apply quiet_app|].
    - rewrite <- (slice_join (S p) i (S i)), Hs by lia. f_equal. by apply slice_one.
    - apply Forall_app. split; [done|]. by constructor. }
  destruct (operations !! i) as [[d| | |o v [b|b|b]|o]|] eqn:Hx; try congruence.
  1: destruct n as [|n]; [congruence|]; by apply (Hstep _ 1 n eq_refl); try lia.
  2: destruct (Z.eqb_spec b owner) as [->|Hne];
    [exists i, o, v, []; rewrite slice_ge by lia; split_and!; try done; lia|].
  all: apply (Hstep _ 0 n eq_refl); try done; try lia; congruence.
Qed.

(** The walk to the left finds an acquisition over quiet operations. *)
Lemma partner_before_finds operations p o v owner i n :
  operations !! p = Some (AcquireOwner o v (OwnerBorrow owner)) → p < i →
  i ≤ length operations → quiet (slice (S p) i operations) n = true →
  partner_before operations i owner n ≠ lit "none".
Proof.
  intros Hp. revert n. induction i as [|i IH]; intros n Hpi Hi Hq; [lia|]. cbn.
  destruct (decide (i = p)) as [->|Hne].
  { rewrite Hp, Z.eqb_refl. apply rc_reason_not_none. }
  destruct (lookup_lt_is_Some_2 operations i) as [x Hx]; [lia|].
  rewrite <- (slice_join (S p) i (S i)), (slice_one i x) in Hq by (done || lia).
  apply quiet_app_inv in Hq as (Hq & Hqx & Hq' & Hn). rewrite Hx.
  destruct x as [d| | |o' v' [b|b|b]|o']; try done; try (apply IH; [lia..|done]).
  - cbn in Hn. destruct n as [|n]; [lia|]. apply IH; [lia..|].
    replace n with (S n - definitions [DefineValue d]); [done|cbn; lia].
  - destruct (b =? owner)%Z; [apply rc_reason_not_none|]. by apply IH; [lia..|].
Qed.

(** The operations between two positions, and the one behind them. *)
Lemma drop_slice_cons {A} p i (x : A) l :
  l !! i = Some x → p ≤ i → drop p l = slice p i l ++ x :: drop (S i) l.
Proof. intros Hx Hp. by rewrite <- (drop_S _ _ _ Hx), slice_drop. Qed.

#[export] Instance borrow_source_eq_dec : EqDecision borrow_source.
Proof. solve_decision. Defined.
#[export] Instance value_operation_eq_dec : EqDecision value_operation.
Proof. solve_decision. Defined.
#[export] Instance result_ownership_eq_dec : EqDecision result_ownership.
Proof. solve_decision. Defined.
#[export] Instance definition_eq_dec : EqDecision definition.
Proof. solve_decision. Defined.
#[export] Instance ownership_operation_eq_dec : EqDecision ownership_operation.
Proof. solve_decision. Defined.

Lemma partner_pair operations i owner r :
  operations !! i = Some (DropOwner owner) →
  rc_partner_reason operations (Z.of_nat i - 1) owner 1 = r → r ≠ lit "none" →
  ∃ p o v, p < i ∧ operations !! p = Some (AcquireOwner o v (OwnerBorrow owner)) ∧
    r = rc_reason operations p v ∧
    rc_acquire_pair operations p (OwnerBorrow owner) = lit "pair".
Proof.
  intros Hi H Hr. unfold rc_partner_reason in H.
  replace (Z.to_nat (Z.of_nat i - 1 + 1)) with i in H by lia.
  pose proof (lookup_lt_Some _ _ _ Hi) as Hlt.
  destruct (partner_before_spec operations i 1 owner r ltac:(lia) H Hr)
    as (p & o & v & l & Hp & Hl & Hrp & Hs & Hq & _).
  exists p, o, v. split_and!; [done|done|done|].
  unfold rc_acquire_pair. assert (rc_drops_owner_after operations (S p) owner 1 = true) as ->;
    [|done].
  unfold rc_drops_owner_after. apply drops_from_spec.
  rewrite (drop_slice_cons (S p) i _ _ Hi) by lia. rewrite Hs.
  destruct (decide (DropOwner owner ∈ l)) as [Hin|Hin]; [|by eexists l, _].
  apply list_elem_of_split_l in Hin as (l1 & l2 & -> & Hn).
  exists l1, (l2 ++ DropOwner owner :: drop (S i) operations).
  rewrite <- (assoc_L (++)). split_and!; [done| |done].
  by apply quiet_app_inv in Hq as [? _].
Qed.

Lemma pair_partner operations p o v owner :
  operations !! p = Some (AcquireOwner o v (OwnerBorrow owner)) →
  rc_acquire_pair operations p (OwnerBorrow owner) = lit "pair" →
  ∃ i, p < i ∧ operations !! i = Some (DropOwner owner) ∧
    DropOwner owner ∉ slice (S p) i operations ∧
    rc_partner_reason operations (Z.of_nat i - 1) owner 1 ≠ lit "none".
Proof.
  intros Hp H. unfold rc_acquire_pair in H.
  destruct (rc_drops_owner_after _ _ _ _) eqn:E; [|done].
  apply drops_from_spec in E as (l & k & Hd & Hq & Hn).
  assert (operations !! (S p + length l) = Some (DropOwner owner)) as Hi.
  { rewrite <- lookup_drop, Hd. by apply list_lookup_middle. }
  assert (slice (S p) (S p + length l) operations = l) as Hs.
  { unfold slice. rewrite Hd. replace (S p + length l - S p) with (length l) by lia.
    by apply take_app_length. }
  exists (S p + length l). split_and!; [lia|done|by rewrite Hs|].
  unfold rc_partner_reason.
  replace (Z.to_nat (Z.of_nat (S p + length l) - 1 + 1)) with (S p + length l) by lia.
  eapply partner_before_finds; [exact Hp|lia| |by rewrite Hs].
  apply lookup_lt_Some in Hi. lia.
Qed.

(** * The marked body of an operation list *)

(** A part of a body: its first text and its marks, each followed by a text. *)
Abbreviation part := (str * list (mark * str))%type.

Definition render (b : part) : str := render_body b.1 b.2.

(** The text [t] behind the last text of a part. *)
Fixpoint extend_last (l : list (mark * str)) (t : str) : list (mark * str) :=
  match l with
  | [] => []
  | [(m, t0)] => [(m, t0 ++ t)]
  | x :: l => x :: extend_last l t
  end.

Definition app_part (a b : part) : part :=
  match a.2 with
  | [] => (a.1 ++ b.1, b.2)
  | _ => (a.1, extend_last a.2 b.1 ++ b.2)
  end.

Lemma render_markers_app t0 l k :
  render_markers t0 (l ++ k) = render_markers t0 l ++ concat ((λ x, marker_text x.1 ++ x.2) <$> k).
Proof. unfold render_markers. by rewrite fmap_app, concat_app, (assoc_L (++)). Qed.

Lemma mark_markers_extend m t0 t :
  concat ((λ x, marker_text x.1 ++ x.2) <$> mark_markers m (t0 ++ t)) =
  concat ((λ x, marker_text x.1 ++ x.2) <$> mark_markers m t0) ++ t.
Proof. destruct m; cbn; by rewrite ?app_nil_r, <- ?(assoc_L (++)). Qed.

Lemma render_marks_app l k :
  concat ((λ x, marker_text x.1 ++ x.2) <$> body_markers (l ++ k)) =
  concat ((λ x, marker_text x.1 ++ x.2) <$> body_markers l)
  ++ concat ((λ x, marker_text x.1 ++ x.2) <$> body_markers k).
Proof. unfold body_markers. by rewrite bind_app, fmap_app, concat_app. Qed.

Lemma render_extend_last l t :
  l ≠ [] →
  concat ((λ x, marker_text x.1 ++ x.2) <$> body_markers (extend_last l t)) =
  concat ((λ x, marker_text x.1 ++ x.2) <$> body_markers l) ++ t.
Proof.
  intros Hl. induction l as [|[m t0] l IH]; [done|]. destruct l as [|y l].
  - unfold body_markers. cbn [extend_last mbind list_bind fst snd]. rewrite !app_nil_r.
    apply mark_markers_extend.
  - change (extend_last ((m, t0) :: y :: l) t) with ([(m, t0)] ++ extend_last (y :: l) t).
    change ((m, t0) :: y :: l) with ([(m, t0)] ++ y :: l).
    rewrite !render_marks_app, IH by done. by rewrite (assoc_L (++)).
Qed.

Lemma render_app a b : render (app_part a b) = render a ++ render b.
Proof.
  destruct a as [t l], b as [t' l']. unfold app_part, render, render_body, render_markers.
  destruct l as [|x l]; cbn [fst snd].
  - cbn. by rewrite app_nil_r, <- (assoc_L (++)).
  - rewrite render_marks_app, render_extend_last by done. by rewrite <- !(assoc_L (++)).
Qed.

(** The part of one operation; [e] is the part the emitter wrote for it: marks stand
    only in the parts of joins and loops, which have operation lists of their own. *)
Definition op_part (operations : list ownership_operation) (position : nat)
    (op : ownership_operation) (e : part) : part :=
  match op with
  | AcquireOwner owner value source =>
      ([], [(MarkAcquire (rc_reason operations position value) (rc_source_name source)
               (rc_acquire_pair operations position source) (dec owner) e.1, [])])
  | DropOwner owner =>
      ([], [(MarkDrop (dec owner)
               (rc_partner_reason operations (Z.of_nat position - 1) owner 1) e.1, [])])
  | DefineValue d =>
      match result_of d with
      | OwnedResult owner =>
          (e.1, [(MarkCreated (dec owner) (rc_definition_kind (operation d)), [])])
      | _ => e
      end
  | _ => e
  end.

Definition no_marks (op : ownership_operation) (e : part) : Prop :=
  match op with ExecuteJoin | ExecuteLoop => True | _ => e.2 = [] end.

Lemma render_text t : render (t, []) = t.
Proof. unfold render, render_body, render_markers. cbn. by rewrite app_nil_r. Qed.

Lemma render_op_part operations position op e :
  no_marks op e → render (op_part operations position op e) =
  emitted_marked operations position op (render e).
Proof.
  unfold no_marks, emitted_marked. destruct e as [t l]. intros Hl.
  destruct op as [d| | |o v s|o]; cbn [op_part rc_marked]; try done; cbn in Hl; subst l.
  - unfold definition_marked. destruct (result_of d); rewrite ?render_text; try done.
    unfold render, render_body, render_markers, body_markers, marker_text.
    cbn -[dec rc_definition_kind]. rewrite ?app_nil_r, <- ?(assoc_L (++)). done.
  - rewrite render_text. unfold render, render_body, render_markers, body_markers, marker_text.
    cbn -[dec rc_reason rc_source_name rc_acquire_pair].
    rewrite ?app_nil_r, <- ?(assoc_L (++)). done.
  - rewrite render_text. unfold render, render_body, render_markers, body_markers, marker_text.
    cbn -[dec rc_partner_reason Z.sub Z.of_nat]. rewrite ?app_nil_r, <- ?(assoc_L (++)). done.
Qed.

Definition body_part (operations : list ownership_operation) (e : nat → part) : part :=
  foldr app_part ([], []) (imap (λ i op, op_part operations i op (e i)) operations).

Lemma render_body_part operations e :
  (∀ i op, operations !! i = Some op → no_marks op (e i)) →
  render (body_part operations e) = append_operations operations (λ i, render (e i)).
Proof.
  intros He. unfold body_part, append_operations.
  assert (∀ (f : nat → ownership_operation → part) g l,
    (∀ i op, l !! i = Some op → render (f i op) = g i op) →
    render (foldr app_part ([], []) (imap f l)) = concat (imap g l)) as H.
  { intros f g l. revert f g. induction l as [|op l IH]; intros f g Hfg; [done|].
    cbn [imap foldr concat]. rewrite render_app, (Hfg 0 op eq_refl). f_equal.
    apply IH. intros i op' Hi. apply (Hfg (S i) op' Hi). }
  apply H. intros i op Hi. apply render_op_part. by apply He.
Qed.

(** Text without a marker whose last character does not begin one either (a statement ends in
    a semicolon or a brace), so that a marker cannot straddle two texts. *)
Definition tidy (t : str) : Prop :=
  clean t ∧ ∀ c, head (rev t) = Some c → c ∉ lit "/*RC".

Lemma tidy_nil : tidy [].
Proof. done. Qed.

(** A literal text, checked by evaluation. *)
Lemma tidy_bool t :
  negb (contains (lit "/*RC:") t)
  && match head (rev t) with Some c => bool_decide (c ∉ lit "/*RC") | None => true end = true → tidy t.
Proof.
  intros [Hc Ht]%andb_prop. split; [by apply negb_true_iff|].
  intros c Hh. rewrite Hh in Ht. by apply bool_decide_eq_true in Ht.
Qed.

Lemma tidy_app a b : tidy a → tidy b → tidy (a ++ b).
Proof.
  intros [Ha Hae] [Hb Hbe]. split.
  - unfold clean in *. apply not_true_iff_false. intros Hc.
    apply contains_iff in Hc as (p & q & Heq).
    apply app_eq_inv in Heq as [(k & -> & Hk)|(k & -> & Hk)].
    + apply eq_sym, app_eq_inv in Hk as [(k2 & -> & Hk2)|(k2 & Hk2 & Hk3)].
      * apply not_true_iff_false in Ha. apply Ha, contains_iff. by exists p, k2.
      * destruct k2 as [|x k2].
        { rewrite app_nil_r in Hk2. subst k. apply not_true_iff_false in Ha.
          apply Ha, contains_iff. exists p, []. by rewrite app_nil_r. }
        destruct k as [|y k].
        { cbn in Hk2. rewrite <- Hk2 in Hk3. apply not_true_iff_false in Hb.
          apply Hb, contains_iff. exists [], q. cbn. by rewrite Hk3. }
        destruct (exists_last (l := y :: k)) as (k' & z & Hz); [done|].
        assert (z ∈ take 4 (lit "/*RC:")) as Hin.
        { pose proof (f_equal length Hk2) as Hlen. rewrite length_app in Hlen.
          change (length (lit "/*RC:")) with 5 in Hlen. cbn [length] in Hlen.
          rewrite Hk2, firstn_app. apply elem_of_app. left.
          rewrite take_ge, Hz by (cbn; lia). apply elem_of_app. right. left. }
        apply (Hae z); [|exact Hin]. by rewrite Hz, !rev_app_distr.
    + apply not_true_iff_false in Hb. apply Hb, contains_iff. by exists k, q.
  - intros c Hc. rewrite rev_app_distr in Hc. destruct (rev b) as [|x l] eqn:E; [by apply Hae|].
    by apply Hbe.
Qed.

Definition part_ok (b : part) : Prop :=
  tidy b.1 ∧ Forall (λ x, mark_ok x ∧ tidy x.2) b.2.

Lemma part_ok_app a b : part_ok a → part_ok b → part_ok (app_part a b).
Proof.
  intros [Ha Hla] [Hb Hlb]. destruct a as [t l], b as [t' l']. cbn in *.
  destruct l as [|x l]; cbn [app_part fst snd].
  { split; [by apply tidy_app|done]. }
  split; [done|]. apply Forall_app. split; [|done]. cbn [fst].
  assert (x :: l ≠ []) as Hne by done. revert Hla Hne. generalize (x :: l) as k.
  induction k as [|[m t0] k IH]; intros Hk Hne; [done|].
  inversion_clear Hk as [|? ? [[_ Hm] Ht] Hk'].
  destruct k as [|y k]; cbn [extend_last]; [|constructor; [|by apply IH]].
  - constructor; [|done]. destruct (tidy_app _ _ Ht Hb) as [Hc Hd].
    split; [split; [exact Hc|exact Hm]|split; [exact Hc|exact Hd]].
  - split; [|done]. split; [apply Ht|done].
Qed.

Lemma dec_word z : word_ok (dec z).
Proof.
  assert (∀ z, (0 ≤ z)%Z → word_ok (digits z)) as Hd.
  { intros z' Hz. pose proof (digits_all_digits (S (Z.to_nat (Z.log2 z'))) z' Hz) as H.
    fold (digits z') in H. split_and!; [apply digits_nonempty|by apply digits_no_space|].
    unfold no_star. rewrite forallb_forall in H |- *. intros c Hc. specialize (H c Hc).
    clear -H. destruct c as [[] [] [] [] [] [] [] []]; done || by vm_compute in H. }
  unfold dec. destruct (Z.ltb_spec z 0); [|by apply Hd].
  destruct (Hd (- z)%Z) as (Hne & Hs & Hst); [lia|].
  split_and!; [done|exact Hs|exact Hst].
Qed.

(** A literal word, checked by evaluation. *)
Lemma word_ok_bool w :
  negb (bool_decide (w = [])) && forallb (λ c, negb (is_space c)) w
  && forallb (none_of (lit "*")) w = true → word_ok w.
Proof.
  rewrite !andb_true_iff, negb_true_iff, bool_decide_eq_false. by intros [[? ?] ?].
Qed.

Lemma reason_from_word rest : word_ok (reason_from rest).
Proof.
  induction rest as [|[d| | |o v s|o] rest IH]; cbn [reason_from]; try done;
    [|by apply word_ok_bool..].
  destruct (operation d); by apply word_ok_bool.
Qed.

Lemma rc_reason_word operations p v : word_ok (rc_reason operations p v).
Proof.
  unfold rc_reason. destruct (match p with O => false | _ => _ end);
    [by apply word_ok_bool|apply reason_from_word].
Qed.

Lemma partner_before_word operations n owner left_ :
  word_ok (partner_before operations n owner left_).
Proof.
  revert left_. induction n as [|i IH]; intros n; cbn [partner_before]; [by apply word_ok_bool|].
  destruct (operations !! i) as [[d| | |o v [b|b|b]|o]|]; try by apply word_ok_bool; try apply IH.
  all: try apply IH.
  - destruct n; [by apply word_ok_bool|apply IH].
  - destruct (b =? owner)%Z; [apply rc_reason_word|apply IH].
Qed.

Lemma op_part_ok operations i op e :
  no_marks op e → part_ok e → part_ok (op_part operations i op e).
Proof.
  intros Hn [Ht Hl]. destruct op as [d| | |o v s|o]; cbn [op_part no_marks] in *; try done.
  - destruct (result_of d); try done. split; [done|]. constructor; [|constructor].
    split; [|apply tidy_nil]. split; [done|].
    constructor; [apply dec_word|]. constructor; [|constructor].
    destruct (operation d); by apply word_ok_bool.
  - split; [apply tidy_nil|]. constructor; [|constructor]. split; [|apply tidy_nil].
    split; [done|]. split; [|apply Ht].
    constructor; [apply rc_reason_word|]. constructor; [destruct s; by apply word_ok_bool|].
    constructor; [|constructor; [apply dec_word|constructor]].
    unfold rc_acquire_pair. destruct s; try by apply word_ok_bool.
    destruct (rc_drops_owner_after _ _ _ _); by apply word_ok_bool.
  - split; [apply tidy_nil|]. constructor; [|constructor]. split; [|apply tidy_nil].
    split; [done|]. split; [|apply Ht].
    constructor; [apply dec_word|]. constructor; [apply partner_before_word|constructor].
Qed.

Lemma body_part_ok operations e :
  (∀ i op, operations !! i = Some op → no_marks op (e i) ∧ part_ok (e i)) →
  part_ok (body_part operations e).
Proof.
  intros He. unfold body_part.
  assert (∀ (f : nat → ownership_operation → part) l,
    (∀ i op, l !! i = Some op → part_ok (f i op)) → part_ok (foldr app_part ([], []) (imap f l))) as H.
  { intros f l. revert f. induction l as [|op l IH]; intros f Hf; cbn [imap foldr].
    { split; [apply tidy_nil|constructor]. }
    apply part_ok_app; [by apply (Hf 0)|]. apply IH. intros i op' Hi. by apply (Hf (S i)). }
  apply H. intros i op Hi. destruct (He i op Hi). by apply op_part_ok.
Qed.

(** [append_return] of the emitter: what [append_function] writes behind the operations of
    every function. *)
Definition append_return (result : str) : str := lit "return " ++ result ++ lit ";".

(** The body [append_function] writes between the braces. *)
Definition function_body (operations : list ownership_operation) (e : nat → part) (result : str) : str :=
  append_operations operations (λ i, render (e i)) ++ append_return result.
Definition function_part (operations : list ownership_operation) (e : nat → part) (result : str) : part :=
  app_part (body_part operations e) (append_return result, []).

Lemma append_return_tidy result : clean (append_return result) → tidy (append_return result).
Proof.
  intros H. split; [done|]. intros c. unfold append_return. rewrite !rev_app_distr. cbn.
  intros [= <-]. by vm_compute; set_solver.
Qed.

(** The marker compiler and the reader of the markers agree. *)
Lemma emitted_regions name operations e result :
  (∀ i op, operations !! i = Some op → no_marks op (e i) ∧ part_ok (e i)) →
  clean (append_return result) →
  region_tags (function_body operations e result) name =
  body_regions name (function_part operations e result).1 (function_part operations e result).2.
Proof.
  intros He Hr. unfold function_body.
  rewrite <- render_body_part by (intros i op Hi; by apply (He i op Hi)).
  rewrite <- (render_text (append_return result)), <- render_app.
  destruct (part_ok_app _ (append_return result, []) (body_part_ok operations e He)) as [Ht Hl].
  { split; [by apply append_return_tidy|constructor]. }
  unfold render. apply region_tags_render; [apply Ht|].
  eapply Forall_impl; [exact Hl|]. by intros x [? _].
Qed.

(** * Properties *)

(** C16: The marks of acquisitions and drops agree from both sides.  When the drop of an owner
    is marked with a partner reason other than "none", an earlier acquisition borrows from
    that owner, has that reason, and is itself marked "pair"; and behind an acquisition from
    an owner that is marked "pair" comes a first drop of that owner, and this drop is marked
    with a partner. *)
Theorem pairs_agree operations :
  (∀ i owner, operations !! i = Some (DropOwner owner) →
     rc_partner_reason operations (Z.of_nat i - 1) owner 1 ≠ lit "none" →
     ∃ p o v, p < i ∧ operations !! p = Some (AcquireOwner o v (OwnerBorrow owner)) ∧
       rc_partner_reason operations (Z.of_nat i - 1) owner 1 = rc_reason operations p v ∧
       rc_acquire_pair operations p (OwnerBorrow owner) = lit "pair") ∧
  (∀ p o v owner, operations !! p = Some (AcquireOwner o v (OwnerBorrow owner)) →
     rc_acquire_pair operations p (OwnerBorrow owner) = lit "pair" →
     ∃ i, p < i ∧ operations !! i = Some (DropOwner owner) ∧
       DropOwner owner ∉ slice (S p) i operations ∧
       rc_partner_reason operations (Z.of_nat i - 1) owner 1 ≠ lit "none").
Proof.
  split; [intros i owner Hi Hr; by eapply partner_pair|intros p o v owner; apply pair_partner].
Qed.

Definition operations_sample : list ownership_operation :=
  [DefineValue (Definition_ 7 ReadRecordFieldDefinition (BorrowedResult (OwnerBorrow 1)));
   AcquireOwner 2 7 (OwnerBorrow 1); DropOwner 1;
   DefineValue (Definition_ 8 CallDefinition (OwnedResult 3)); DropOwner 3].

Lemma pairs_agree_witness :
  rc_partner_reason operations_sample 1 1 1 = lit "projection" ∧
  (∃ p o v, p < 2 ∧ operations_sample !! p = Some (AcquireOwner o v (OwnerBorrow 1)) ∧
    rc_acquire_pair operations_sample p (OwnerBorrow 1) = lit "pair") ∧
  (∃ i, 1 < i ∧ operations_sample !! i = Some (DropOwner 1)).
Proof.
  destruct (pairs_agree operations_sample) as [Hdrop Hacquire]. split; [reflexivity|]. split.
  - destruct (Hdrop 2 1%Z) as (p & o & v & H1 & H2 & _ & H3); [reflexivity|discriminate|].
    exists p, o, v. split; [exact H1|]. split; [exact H2|exact H3].
  - destruct (Hacquire 1 2%Z 7%Z 1%Z) as (i & H1 & H2 & _); [reflexivity|reflexivity|].
    exists i. split; [exact H1|exact H2].
Defined.
