(* ===== verification/AllocationSites.v ===== *)
(** blorp/scripts/allocation-sites: reading a report of allocation stacks, naming the
    addresses with an external symbolizer, attributing every stack to a compiled
    function and its helper, and the tables. *)
From S2P Require Import Prelude PyStr PyFormat PyDict PyFloat Regex.

Definition ALLOCATOR_PREFIX : str := lit "blorp_memory_".
Definition COMPILED_FUNCTION : regex :=
  rseq [RAssert TextStart; RGroup 1 (rseq [rlit "blorp_f_"; RPlus Rd]);
        RAlt (rlit ".") (RAssert TextEnd)].
Definition ATOS_LOAD_ADDRESS : Z := 0x100000000.
Definition SYMBOLIZER_BATCH : nat := 2000.
Definition NO_COMPILED_CALLER : str := lit "(no compiled caller)".
Definition DIRECT_ALLOCATION : str := lit "(direct)".

#[global] Arguments SYMBOLIZER_BATCH : simpl never.
#[global] Arguments COMPILED_FUNCTION : simpl never.

Definition fail {A} (message : str) : result A :=
  Raise (SystemExit (lit "error: allocation-sites: " ++ message)).

(** * The report *)

Record site := Site {
  count : Z;
  size : Z;
  resizes : Z;
  resized : Z;
  frames : list Z;
}.

(** The lines a file object yields: the text between newlines, and no line behind the last. *)
Definition file_lines (text : str) : list str :=
  match rev (split_on [newline] text) with
  | [] :: lines => rev lines
  | _ => split_on [newline] text
  end.

(** [int(field, base)]: the number, or the text of the ValueError. *)
Definition int_field (base : Z) (field : str) : str + Z :=
  match parse_int base field with
  | Ok z => inr z
  | Raise _ => inl (lit "invalid literal for int() with base " ++ dec base ++ lit ": " ++ repr field)
  end.

Fixpoint int_fields (base : Z) (fields : list str) : str + list Z :=
  match fields with
  | [] => inr []
  | field :: fields =>
      match int_field base field with
      | inl problem => inl problem
      | inr z =>
          match int_fields base fields with
          | inl problem => inl problem
          | inr zs => inr (z :: zs)
          end
      end
  end.

(** One line of the report, or the problem with it. *)
Definition read_line (line : str) : str + site :=
  let fields := split_ws line in
  if length fields <? 4 then inl (lit "fewer than 4 fields")
  else
    match int_fields 10 (take 4 fields), int_fields 16 (drop 4 fields) with
    | inl problem, _ => inl problem
    | inr [count; size; resizes; resized], inr frames =>
        inr (Site count size resizes resized frames)
    | _, inl problem => inl problem
    | _, _ => inl []
    end.

Fixpoint read_lines (path : str) (number : nat) (lines : list str) : result (list site) :=
  match lines with
  | [] => Ok []
  | line :: lines =>
      match read_line line with
      | inl problem =>
          fail (path ++ lit ":" ++ decn number ++ lit ": malformed report line (" ++ problem ++ lit ")")
      | inr s =>
          sites ← read_lines path (S number) lines;
          Ok (s :: sites)
      end
  end.

(** * The symbolizer *)

Record completed := Completed { returncode : Z; stdout : str; stderr : str }.

Definition function_name (lines : list str) : result str :=
  first ← or_raise IndexError (lines !! 0);
  let name := (partition_on (lit " (in ") (strip first)).1 in
  Ok (if startswith (lit "0x") name || startswith (lit "??") name then lit "?" else name).

(** The slices of a list of [n] elements each. *)
Fixpoint batches_fuel {A} (fuel n : nat) (l : list A) : list (list A) :=
  match fuel, l with
  | O, _ | _, [] => []
  | S fuel, _ => take n l :: batches_fuel fuel n (drop n l)
  end.
Definition batches {A} (n : nat) (l : list A) : list (list A) := batches_fuel (length l) n l.

Section environment.

(** What the script asks its environment: whether a tool is on PATH, what a command
    prints, and the text of an operating-system error. *)
Context (which : str → bool) (run_command : list str → option completed) (os_error : str → str).

Definition read_report (files : gmap str str) (path : str) : result (list site) :=
  match files !! path with
  | None => fail (lit "cannot read report: " ++ os_error path)
  | Some text => read_lines path 1 (file_lines text)
  end.

Definition symbolizer_command (binary : str) (addresses : list Z) : result (list str * nat) :=
  if which (lit "atos") then
    Ok ([lit "atos"; lit "-o"; binary; lit "-l"; hex ATOS_LOAD_ADDRESS]
        ++ map (λ address, hex (ATOS_LOAD_ADDRESS + address - 1)) addresses, 1)
  else if which (lit "addr2line") then
    Ok ([lit "addr2line"; lit "-f"; lit "-e"; binary] ++ map (λ address, hex (address - 1)) addresses, 2)
  else fail (lit "needs atos (macOS) or addr2line (Linux binutils) on PATH").

(** The names of one batch, in front of the names so far. *)
Definition name_batch (output : list str) (per_address : nat) (names : gmap Z str)
    (indexed : nat * Z) : result (gmap Z str) :=
  let '(index, address) := indexed in
  name ← function_name (slice (index * per_address) ((index + 1) * per_address) output);
  Ok (<[address := name]> names).

Definition symbolize_batch (binary : str) (names : gmap Z str) (batch : list Z) :
    result (gmap Z str) :=
  '(command, lines_per_address) ← symbolizer_command binary batch;
  tool ← or_raise IndexError (command !! 0);
  match run_command command with
  | None => fail (lit "cannot run " ++ tool ++ lit ": " ++ os_error tool)
  | Some run =>
      if negb (returncode run =? 0)%Z then
        fail (tool ++ lit " failed with status " ++ dec (returncode run) ++ lit ": "
              ++ strip (stderr run))
      else
        let output := splitlines (stdout run) in
        if negb (length output =? length batch * lines_per_address) then
          fail (tool ++ lit " printed " ++ decn (length output) ++ lit " lines for "
                ++ decn (length batch) ++ lit " addresses, expected "
                ++ decn (length batch * lines_per_address))
        else foldM (name_batch output lines_per_address) names (imap pair batch)
  end.

(** [sorted(addresses)] of a set. *)
Definition ordered (addresses : gset Z) : list Z := sort Z.leb (elements addresses).

Definition symbolize (binary : str) (addresses : gset Z) : result (gmap Z str) :=
  foldM (symbolize_batch binary) ∅ (batches SYMBOLIZER_BATCH (ordered addresses)).

(** * Names and classes *)

Definition comment_then_definition : regex :=
  rseq [rlit "/*"; RStar true Rs; RGroup 1 (RPlusLazy (RClass (none_of (lit "*"))));
        RStar true Rs; rlit "*/"; RStar false (RClass (none_of (lit ";{}()/")));
        RAssert WordBoundary; rlit "blorp_f_"; RGroup 2 (RPlus Rd); RStar true Rs; rlit "("].

Definition function_comments (text : str) : gmap str str :=
  foldl (λ d m, <[lit "blorp_f_" ++ group m 2 := group m 1]> d) ∅
    (finditer comment_then_definition text).

Definition read_function_comments (files : gmap str str) (path : str) : result (gmap str str) :=
  text ← or_raise OSError (files !! path); Ok (function_comments text).

(** The loop of [classify]; [callee] is the name of the frame before. *)
Fixpoint classify_from (names : gmap Z str) (callee : option str) (frames : list Z) :
    result (str * str) :=
  match frames with
  | [] => Ok (NO_COMPILED_CALLER, DIRECT_ALLOCATION)
  | frame :: frames =>
      name ← or_raise KeyError (names !! frame);
      match match_start COMPILED_FUNCTION name with
      | Some compiled =>
          Ok (group compiled 1,
              match callee with
              | Some callee => if startswith ALLOCATOR_PREFIX callee then DIRECT_ALLOCATION else callee
              | None => DIRECT_ALLOCATION
              end)
      | None => classify_from names (Some name) frames
      end
  end.

Definition classify (frames : list Z) (names : gmap Z str) : result (str * str) :=
  classify_from names None frames.

(** * Totals *)

Definition cells : Type := Z * Z * Z.

Definition add_cells (c : cells) (s : site) : cells :=
  (c.1.1 + count s, c.1.2 + size s, c.2 + resizes s)%Z.

(** [current = table.get(key, (0, 0, 0)); table[key] = ...] *)
Definition add_site {K} `{EqDecision K} (key : K) (s : site) :
    list (K * cells) → list (K * cells) :=
  dupd key (λ c, add_cells (default (0, 0, 0)%Z c) s).

Record totals := Totals {
  by_site : list (str * cells);
  by_helper : list ((str * str) * cells);
  total : cells;
}.

Definition add_totals (names : gmap Z str) (t : totals) (s : site) : result totals :=
  '(site_name, helper) ← classify (frames s) names;
  Ok (Totals (add_site site_name s (by_site t)) (add_site (site_name, helper) s (by_helper t))
        (add_cells (total t) s)).

Definition collect (names : gmap Z str) (sites : list site) : result totals :=
  foldM (add_totals names) (Totals [] [] (0, 0, 0)%Z) sites.

(** * Tables *)

(** [l[:n]] *)
Definition take_limit {A} (n : Z) (l : list A) : list A :=
  if (n <? 0)%Z then take (length l - Z.to_nat (- n)) l else take (Z.to_nat n) l.

Definition table_head : str :=
  rjust 12 (lit "allocs") ++ lit " " ++ rjust 6 (lit "%") ++ lit " " ++ rjust 14 (lit "bytes")
  ++ lit " " ++ rjust 10 (lit "resizes") ++ lit "  site" ++ [newline].

(** [100.0 * count / max(total_count, 1)] *)
Definition share (count total_count : Z) : float :=
  fdiv (fmul (of_int 100) (of_int count)) (of_int (Z.max total_count 1)).

Definition table_row (label : str) (total_count : Z) (c : cells) : str :=
  rjust 12 (dec c.1.1) ++ lit " " ++ rjust 5 (fixed 1 (share c.1.1 total_count)) ++ lit "% "
  ++ rjust 14 (dec c.1.2) ++ lit " " ++ rjust 10 (dec c.2) ++ lit "  " ++ label ++ [newline].

Section table.
Context {K : Type} (key_leb : K → K → bool).

(** [(-item[1][0], item[0])]: more allocations first, then the key. *)
Definition rank_leb (a b : K * cells) : bool :=
  (b.2.1.1 <? a.2.1.1)%Z || ((b.2.1.1 =? a.2.1.1)%Z && key_leb a.1 b.1).

Definition ranked (t : list (K * cells)) : list (K * cells) := sort rank_leb t.

Definition print_table (title : str) (t : list (K * cells)) (labels : K → str) (limit : Z)
    (total_count : Z) : str :=
  title ++ [newline] ++ table_head
  ++ concat (map (λ row, table_row (labels row.1) total_count row.2) (take_limit limit (ranked t)))
  ++ [newline].

End table.

(** The order of tuples of texts. *)
Definition pair_leb (a b : str * str) : bool :=
  str_ltb a.1 b.1 || (bool_decide (a.1 = b.1) && str_leb a.2 b.2).

(** * main *)

Record options := Options {
  report : str;
  binary : str;
  generated_c : option str;
  top : Z;
}.

Definition site_label (comments : gmap str str) (s : str) : str :=
  match comments !! s with Some comment => comment ++ lit " (" ++ s ++ lit ")" | None => s end.

(** The printed text: the totals, the number of stacks and the two tables. *)
Definition report_output (comments : gmap str str) (t : totals) (stacks : nat) (limit : Z) : str :=
  lit "total: " ++ dec (total t).1.1 ++ lit " allocations, " ++ dec (total t).1.2
  ++ lit " bytes requested, " ++ dec (total t).2 ++ lit " resizes, "
  ++ decn stacks ++ lit " distinct stacks" ++ [newline; newline]
  ++ print_table str_leb (lit "By site") (by_site t) (site_label comments) limit (total t).1.1
  ++ print_table pair_leb (lit "By site and immediate helper") (by_helper t)
       (λ key, site_label comments key.1 ++ lit " <- " ++ key.2) limit (total t).1.1.

(** The set of all frames of the report. *)
Definition all_frames (sites : list site) : gset Z := list_to_set (sites ≫= frames).

(** What the run prints.  The arguments are those argparse returned. *)
Definition main (files : gmap str str) (arguments : options) : result str :=
  sites ← read_report files (report arguments);
  names ← symbolize (binary arguments) (all_frames sites);
  comments ← match generated_c arguments with
             | Some (c :: path) =>
                 match read_function_comments files (c :: path) with
                 | Ok comments => Ok comments
                 | Raise _ => fail (lit "cannot read generated C: " ++ os_error (c :: path))
                 end
             | _ => Ok ∅
             end;
  t ← collect names sites;
  Ok (report_output comments t (length sites) (top arguments)).

End environment.

(** * Conservation of the totals *)

Inductive measure := Allocations | Bytes | Resizes.

Definition cell_measure (m : measure) (c : cells) : Z :=
  match m with Allocations => c.1.1 | Bytes => c.1.2 | Resizes => c.2 end.
Definition site_measure (m : measure) (s : site) : Z :=
  match m with Allocations => count s | Bytes => size s | Resizes => resizes s end.

(** What the stacks that pass a test add up to. *)
Definition sum_sites (m : measure) (P : site → bool) (sites : list site) : Z :=
  foldr (λ s z, (if P s then site_measure m s else 0) + z)%Z 0%Z sites.

Definition attributed (names : gmap Z str) (name : str) (s : site) : bool :=
  match classify (frames s) names with Ok (n, _) => bool_decide (n = name) | Raise _ => false end.

Lemma cell_measure_add m c s :
  cell_measure m (add_cells c s) = (cell_measure m c + site_measure m s)%Z.
Proof. by destruct m. Qed.

Lemma sum_sites_snoc m P l s :
  sum_sites m P (l ++ [s]) = (sum_sites m P l + if P s then site_measure m s else 0)%Z.
Proof. unfold sum_sites. induction l as [|x l IH]; cbn; [|rewrite IH]; lia. Qed.

Record conserved (names : gmap Z str) (sites : list site) (t : totals) : Prop := {
  cons_site_keys : NoDup (by_site t).*1;
  cons_helper_keys : NoDup (by_helper t).*1;
  cons_total : ∀ m, cell_measure m (total t) = sum_sites m (λ _, true) sites;
  cons_sites : ∀ m, dsum (cell_measure m) (by_site t) = cell_measure m (total t);
  cons_helpers : ∀ m, dsum (cell_measure m) (by_helper t) = cell_measure m (total t);
  cons_site : ∀ m name,
    dsum_if (λ k, bool_decide (k = name)) (cell_measure m) (by_site t) =
    sum_sites m (attributed names name) sites;
  cons_site_helpers : ∀ m name,
    dsum_if (λ k, bool_decide (k.1 = name)) (cell_measure m) (by_helper t) =
    dsum_if (λ k, bool_decide (k = name)) (cell_measure m) (by_site t);
}.

Lemma add_site_sum {K} `{EqDecision K} m (key : K) s t :
  dsum (cell_measure m) (add_site key s t) = (dsum (cell_measure m) t + site_measure m s)%Z.
Proof.
  unfold add_site. apply dsum_dupd; [intros v; apply cell_measure_add|]. by destruct m.
Qed.

Lemma add_site_sum_if {K} `{EqDecision K} P m (key : K) s t :
  dsum_if P (cell_measure m) (add_site key s t) =
  (dsum_if P (cell_measure m) t + if P key then site_measure m s else 0)%Z.
Proof.
  unfold add_site. apply dsum_if_dupd; [intros v; apply cell_measure_add|]. by destruct m.
Qed.

Lemma collect_conserved names sites t :
  collect names sites = Ok t → conserved names sites t.
Proof.
  unfold collect. apply (foldM_prefix (add_totals names) (conserved names) sites).
  - intros pre s suf t0 t1 _ [H1 H2 H3 H4 H5 H6 H7] H. unfold add_totals in H.
    apply bind_Ok in H as ([name helper] & Hc & H). injection H as <-.
    constructor; cbn [by_site by_helper total].
    + by apply dupd_nodup.
    + by apply dupd_nodup.
    + intros m. by rewrite cell_measure_add, sum_sites_snoc, H3.
    + intros m. by rewrite add_site_sum, cell_measure_add, H4.
    + intros m. by rewrite add_site_sum, cell_measure_add, H5.
    + intros m name'. rewrite add_site_sum_if, sum_sites_snoc, H6. unfold attributed at 3.
      by rewrite Hc.
    + intros m name'. by rewrite !add_site_sum_if, H7.
  - constructor; cbn; try done; try (intros []; done); constructor.
Qed.

(** * Attribution of one stack *)

(** The compiled function a name stands for. *)
Definition compiled_function (name : str) : option str :=
  (λ m, group m 1) <$> match_start COMPILED_FUNCTION name.

(** The names of a stack, which are all known. *)
Definition frame_names (names : gmap Z str) (frames : list Z) (l : list str) : Prop :=
  Forall2 (λ f n, names !! f = Some n) frames l.

Definition helper_of (callee : option str) : str :=
  match callee with
  | Some callee => if startswith ALLOCATOR_PREFIX callee then DIRECT_ALLOCATION else callee
  | None => DIRECT_ALLOCATION
  end.

Lemma last_cons_default {A} (x : A) l :
  match last l with Some y => Some y | None => Some x end = last (x :: l).
Proof. by destruct l as [|y l _] using rev_ind; [|rewrite app_comm_cons, !last_snoc]. Qed.

Lemma classify_from_spec names callee frames l :
  frame_names names frames l →
  (∀ pre name post f, l = pre ++ name :: post → Forall (λ n, compiled_function n = None) pre →
     compiled_function name = Some f →
     classify_from names callee frames =
     Ok (f, helper_of (match last pre with Some n => Some n | None => callee end))) ∧
  (Forall (λ n, compiled_function n = None) l →
     classify_from names callee frames = Ok (NO_COMPILED_CALLER, DIRECT_ALLOCATION)).
Proof.
  intros Hl. revert callee. induction Hl as [|f n frames l Hf Hl IH]; intros callee; cbn.
  { split; [|done]. by intros [] ? ? ? ?. }
  rewrite Hf. cbn. split.
  - intros [|x pre] name post g Hpre Hno Hg; injection Hpre as -> ->.
    + unfold compiled_function in Hg. destruct (match_start _ _); [|done].
      cbn in Hg. injection Hg as <-. by destruct callee.
    + inversion_clear Hno as [|? ? Hx Hno']. unfold compiled_function in Hx.
      destruct (match_start _ x); [done|]. destruct (IH (Some x)) as [H _].
      rewrite (H pre name post g eq_refl Hno' Hg). rewrite last_cons_default. destruct (last (x :: pre)) eqn:E; [done|by apply last_None in E].
  - intros Hno. inversion_clear Hno as [|? ? Hx Hno']. unfold compiled_function in Hx.
    destruct (match_start _ n); [done|]. by apply IH.
Qed.

(** * Batches *)

Lemma batches_fuel_concat {A} fuel n (l : list A) :
  0 < n → length l ≤ fuel → concat (batches_fuel fuel n l) = l.
Proof.
  intros Hn. revert l. induction fuel as [|fuel IH]; intros l Hl; [by destruct l; [|cbn in Hl; lia]|].
  destruct l as [|a l]; [done|]. cbn [batches_fuel concat]. rewrite IH.
  - apply take_drop.
  - rewrite length_drop. cbn in *. lia.
Qed.

Lemma batches_concat {A} n (l : list A) : 0 < n → concat (batches n l) = l.
Proof. intros Hn. by apply batches_fuel_concat. Qed.

(** The [i]-th group of a list of groups of the same length. *)
Lemma slice_concat {A} per (ls : list (list A)) i l :
  Forall (λ l, length l = per) ls → ls !! i = Some l →
  slice (i * per) ((i + 1) * per) (concat ls) = l.
Proof.
  intros Hls. revert i. induction Hls as [|l0 ls Hl0 Hls IH]; intros i Hi; [done|].
  destruct i as [|i]; cbn [lookup list_lookup] in Hi.
  - injection Hi as ->. rewrite Nat.mul_0_l, Nat.mul_1_l. cbn [concat].
    rewrite slice_0, <- Hl0. apply take_app_length.
  - specialize (IH i Hi). unfold slice in *. cbn [concat].
    rewrite drop_app_ge by lia. replace (S i * per - length l0) with (i * per) by lia.
    replace ((S i + 1) * per - S i * per) with ((i + 1) * per - i * per) by lia. exact IH.
Qed.

Lemma classify_total names callee frames :
  (∀ f, f ∈ frames → is_Some (names !! f)) → ∃ r, classify_from names callee frames = Ok r.
Proof.
  revert callee. induction frames as [|f frames IH]; intros callee Hf; cbn; [eauto|].
  destruct (Hf f) as [n ->]; [left|]. cbn.
  destruct (match_start COMPILED_FUNCTION n); [eauto|]. apply IH. intros f' ?. apply Hf. by right.
Qed.

Lemma collect_total names sites :
  (∀ s f, s ∈ sites → f ∈ frames s → is_Some (names !! f)) → ∃ t, collect names sites = Ok t.
Proof.
  intros Hall. unfold collect.
  destruct (foldM_total (add_totals names) (λ _ _, True) sites)
    with (a := Totals [] [] (0, 0, 0)%Z) as (t & Ht & _); [|done|eauto].
  intros pre s suf t -> _. unfold add_totals.
  destruct (classify_total names None (frames s)) as [[n h] Hc].
  { intros f Hf. apply (Hall s); [set_solver|done]. }
  unfold classify. rewrite Hc. cbn. eauto.
Qed.

(** * A symbolizer that answers every address on its own *)

(** A table of what [f] reads from the answer to each address. *)
Section answers.

Context {N : Type} (f : list str → result N) (answer : Z → list str).

Definition named (l : list Z) (names : gmap Z N) : Prop :=
  ∀ a, (a ∈ l → ∃ n, names !! a = Some n ∧ f (answer a) = Ok n) ∧ (a ∉ l → names !! a = None).

Lemma named_nil : named [] ∅.
Proof. intros a. split; [by intros ?%elem_of_nil|done]. Qed.

Lemma named_snoc l names a n :
  named l names → f (answer a) = Ok n → named (l ++ [a]) (<[a := n]> names).
Proof.
  intros Hl Hn b. destruct (Hl b) as [Hin Hout]. split.
  - intros Hb. destruct (decide (a = b)) as [<-|Hne].
    + exists n. by rewrite lookup_insert_eq.
    + rewrite lookup_insert_ne by done. apply Hin. set_solver.
  - intros Hb. rewrite lookup_insert_ne by set_solver. apply Hout. set_solver.
Qed.

Lemma imap_pair_snd (l : list Z) : (imap pair l).*2 = l.
Proof.
  apply list_eq. intros i. rewrite list_lookup_fmap, list_lookup_imap. by destruct (l !! i).
Qed.

(** The loop over one batch, whose output holds [per] lines for each address. *)
Lemma answers_loop step per done_ batch names :
  (∀ names i a, step names (i, a) =
     n ← f (slice (i * per) ((i + 1) * per) (concat (answer <$> batch))); Ok (<[a := n]> names)) →
  (∀ a, a ∈ batch → length (answer a) = per ∧ is_ok (f (answer a)) = true) → named done_ names →
  ∃ names', foldM step names (imap pair batch) = Ok names' ∧ named (done_ ++ batch) names'.
Proof.
  intros Hstep Hlen Hnamed.
  destruct (foldM_total step (λ pre names, named (done_ ++ pre.*2) names) (imap pair batch))
    with (a := names) as (names' & Hf & Hn).
  - intros pre [i a] suf names0 Heq Hn0. rewrite Hstep.
    assert (imap pair batch !! length pre = Some (i, a)) as Hi
      by (rewrite Heq; by apply list_lookup_middle).
    rewrite list_lookup_imap in Hi. apply fmap_Some in Hi as (a' & Ha & [= -> ->]).
    rewrite (slice_concat per (answer <$> batch) (length pre) (answer a')).
    + destruct (Hlen a') as [_ [n Hfn]%is_ok_Ok]; [by eapply list_elem_of_lookup_2|].
      rewrite Hfn. cbn. eexists. split; [done|].
      rewrite fmap_app, (assoc_L (++)). by apply named_snoc.
    + apply Forall_fmap, Forall_forall. intros b Hb. by apply Hlen.
    + by rewrite list_lookup_fmap, Ha.
  - by rewrite app_nil_r.
  - exists names'. split; [done|]. by rewrite imap_pair_snd in Hn.
Qed.

(** The loop over the batches. *)
Lemma batches_loop step n l :
  0 < n →
  (∀ pre batch names, (∀ a, a ∈ batch → a ∈ l) → named pre names →
     ∃ names', step names batch = Ok names' ∧ named (pre ++ batch) names') →
  ∃ names, foldM step ∅ (batches n l) = Ok names ∧ named l names.
Proof.
  intros Hn Hstep.
  destruct (foldM_total step (λ pre names, named (concat pre) names) (batches n l))
    with (a := ∅ : gmap Z N) as (names & Hf & Hnamed); [|by apply named_nil|].
  - intros pre batch suf names0 Heq Hn0. destruct (Hstep (concat pre) batch names0) as (names' & H1 & H2).
    + intros a Ha. rewrite <- (batches_concat n l Hn), Heq, concat_app. set_solver.
    + done.
    + exists names'. split; [done|]. rewrite concat_app. cbn. by rewrite app_nil_r.
  - exists names. split; [done|]. by rewrite batches_concat in Hnamed.
Qed.

End answers.

Section symbolizer.

(** [answer] is what the tool prints for one address; a command for a batch prints the
    answers of its addresses in order. *)
Context (which : str → bool) (run_command : list str → option completed)
  (os_error : str → str) (binary : str) (answer : Z → list str).

Definition tool_answers : Prop :=
  ∀ batch command per, symbolizer_command which binary batch = Ok (command, per) →
    (∀ a, a ∈ batch → length (answer a) = per) ∧
    ∃ run, run_command command = Some run ∧ returncode run = 0%Z ∧
      splitlines (stdout run) = concat (answer <$> batch).

Lemma function_name_total lines : lines ≠ [] → is_ok (function_name lines) = true.
Proof. by destruct lines. Qed.

Lemma symbolizer_command_ok batch :
  which (lit "atos") = true ∨ which (lit "addr2line") = true →
  ∃ tool command per, symbolizer_command which binary batch = Ok (tool :: command, per) ∧ 0 < per.
Proof.
  unfold symbolizer_command.
  destruct (which (lit "atos")); [intros _; eexists _, _, _; split; [done|lia]|].
  intros [H|H]; [done|]. rewrite H. eexists _, _, _. split; [done|lia].
Qed.

Lemma length_answers batch per :
  (∀ a, a ∈ batch → length (answer a) = per) →
  length (concat (answer <$> batch)) = length batch * per.
Proof.
  intros Hlen. induction batch as [|a batch IH]; cbn; [done|].
  rewrite length_app, IH by (intros; apply Hlen; by right). rewrite Hlen by left. done.
Qed.

Lemma symbolize_named addresses :
  which (lit "atos") = true ∨ which (lit "addr2line") = true → tool_answers →
  ∃ names, symbolize which run_command os_error binary addresses = Ok names ∧
    named function_name answer (ordered addresses) names.
Proof.
  intros Hwhich Htool. unfold symbolize.
  apply batches_loop; [by vm_compute; lia|]. intros pre batch names0 _ Hn0.
  destruct (symbolizer_command_ok batch Hwhich) as (tool & command & per & Hc & Hper).
  destruct (Htool batch _ _ Hc) as (Hlen & run & Hrun & Hcode & Hout).
  unfold symbolize_batch. rewrite Hc. cbn [mbind result_bind or_raise lookup list_lookup].
  rewrite Hrun, Hcode, Hout. cbn [Z.eqb negb].
  rewrite (length_answers batch per), Nat.eqb_refl by done. cbn [negb].
  apply (answers_loop function_name answer _ per); [done| |done].
  intros a Ha. split; [by apply Hlen|]. apply function_name_total.
  intros Hnil. specialize (Hlen a Ha). rewrite Hnil in Hlen. cbn in Hlen. lia.
Qed.

End symbolizer.

Lemma elem_of_ordered addresses a : a ∈ ordered addresses ↔ a ∈ addresses.
Proof. unfold ordered. by rewrite <- (sort_perm Z.leb), elem_of_elements. Qed.

(** * Reports are read back *)

Definition site_line (s : site) : str :=
  join (lit " ") ([dec (count s); dec (size s); dec (resizes s); dec (resized s)]
                  ++ map hex (frames s)).
Definition report_text (sites : list site) : str :=
  concat (map (λ s, site_line s ++ [newline]) sites).

Definition site_ok (s : site) : Prop :=
  Forall (λ z, 0 ≤ z)%Z [count s; size s; resizes s; resized s] ∧ Forall (λ z, 0 ≤ z)%Z (frames s).

Lemma dec_field z : (0 ≤ z)%Z → dec z ≠ [] ∧ no_space (dec z).
Proof.
  intros Hz. unfold dec. destruct (Z.ltb_spec z 0); [lia|].
  split; [apply digits_nonempty|]. apply digits_no_space, digits_all_digits. done.
Qed.

Lemma hex_field z : (0 ≤ z)%Z → hex z ≠ [] ∧ no_space (hex z).
Proof.
  intros Hz. unfold hex. destruct (Z.ltb_spec z 0); [lia|]. split; [done|].
  unfold no_space. rewrite forallb_app. apply andb_true_iff. split; [done|].
  pose proof (hex_fuel_safe (S (Z.to_nat (Z.log2 z))) z [] Hz eq_refl) as H'.
  rewrite forallb_forall in H' |- *. intros c Hc%H'. unfold hex_safe in Hc.
  by apply andb_true_iff in Hc as [_ ?].
Qed.

Lemma int_fields_texts base (f : Z → str) zs :
  (∀ z, (0 ≤ z)%Z → parse_int base (f z) = Ok z) → Forall (λ z, 0 ≤ z)%Z zs →
  int_fields base (map f zs) = inr zs.
Proof.
  intros Hf. induction 1 as [|z zs Hz Hzs IH]; [done|]. cbn. unfold int_field.
  by rewrite Hf, IH.
Qed.

Lemma read_site_line s : site_ok s → read_line (site_line s) = inr s.
Proof.
  intros [Hn Hf]. unfold read_line, site_line. rewrite split_ws_join.
  - rewrite length_app. change (length (dec (count s) :: _)) with 4.
    destruct (Nat.ltb_spec (4 + length (map hex (frames s))) 4); [lia|].
    rewrite (take_app_le _ _ 4), take_ge by done. rewrite (drop_app_ge _ _ 4) by done.
    change (drop (4 - _) (map hex (frames s))) with (map hex (frames s)).
    pose proof (int_fields_texts 10 dec _ int_dec Hn) as H10. cbn [map] in H10.
    rewrite H10, (int_fields_texts 16 hex _ parse_int_hex Hf). by destruct s.
  - decompose_Forall_hyps. repeat (apply Forall_cons_2; [by apply dec_field|]).
    apply Forall_fmap. eapply Forall_impl; [exact Hf|]. intros z Hz. by apply hex_field.
Qed.

Lemma no_newline_field w : no_space w → newline ∉ w.
Proof.
  unfold no_space. intros H Hin. rewrite forallb_forall in H.
  apply list_elem_of_In, H in Hin. by vm_compute in Hin.
Qed.

Lemma join_no_newline l : Forall no_space l → newline ∉ join (lit " ") l.
Proof.
  induction 1 as [|w l Hw Hl IH]; [by intros ?%elem_of_nil|].
  destruct l as [|w' l]; [by apply no_newline_field|].
  change (join (lit " ") (w :: w' :: l)) with (w ++ lit " " ++ join (lit " ") (w' :: l)).
  rewrite !elem_of_app. intros [H|[H|H]]; [by eapply no_newline_field| |done].
  by apply list_elem_of_singleton in H.
Qed.

Lemma site_line_no_newline s : site_ok s → newline ∉ site_line s.
Proof.
  intros [Hn Hf]. apply join_no_newline. decompose_Forall_hyps.
  repeat (apply Forall_cons_2; [by apply dec_field|]).
  apply Forall_fmap. eapply Forall_impl; [exact Hf|]. intros z Hz. by apply hex_field.
Qed.

Lemma file_lines_terminated lines :
  Forall (λ l, newline ∉ l) lines →
  file_lines (concat (map (λ l, l ++ [newline]) lines)) = lines.
Proof.
  intros Hl. unfold file_lines.
  assert (concat (map (λ l, l ++ [newline]) lines) = join [newline] (lines ++ [[]])) as ->.
  { clear Hl. induction lines as [|l lines IH]; [done|]. cbn [map concat app]. rewrite IH.
    destruct lines as [|l' lines]; cbn; by rewrite <- (assoc_L (++)). }
  rewrite split_on_join.
  - rewrite rev_app_distr. cbn. by rewrite rev_involutive.
  - by destruct lines.
  - apply Forall_app. split; [done|]. constructor; [|constructor]. by intros ?%elem_of_nil.
Qed.

Lemma read_lines_ok path number sites :
  Forall site_ok sites → read_lines path number (map site_line sites) = Ok sites.
Proof.
  intros H. revert number. induction H as [|s sites Hs Hsites IH]; intros number; cbn [map read_lines];
    [done|]. rewrite read_site_line by done. by rewrite IH.
Qed.

Lemma read_report_text os_error files path sites :
  files !! path = Some (report_text sites) → Forall site_ok sites →
  read_report os_error files path = Ok sites.
Proof.
  intros Hf Hs. unfold read_report. rewrite Hf. unfold report_text.
  replace (map (λ s, site_line s ++ [newline]) sites)
    with (map (λ l, l ++ [newline]) (map site_line sites)) by (by rewrite map_map).
  rewrite file_lines_terminated; [by apply read_lines_ok|].
  apply Forall_fmap. eapply Forall_impl; [exact Hs|]. intros s. apply site_line_no_newline.
Qed.

(** * Rankings *)

Lemma pair_leb_iff a b :
  pair_leb a b = true ↔ str_ltb a.1 b.1 = true ∨ (a.1 = b.1 ∧ str_leb a.2 b.2 = true).
Proof. unfold pair_leb. by rewrite orb_true_iff, andb_true_iff, bool_decide_eq_true. Qed.

Lemma pair_leb_total a b : pair_leb a b = true ∨ pair_leb b a = true.
Proof.
  rewrite !pair_leb_iff. destruct (str_ltb_total a.1 b.1) as [?|[H|?]]; auto.
  destruct (str_leb_total a.2 b.2); auto.
Qed.

Lemma pair_leb_trans a b c : pair_leb a b = true → pair_leb b c = true → pair_leb a c = true.
Proof.
  rewrite !pair_leb_iff. intros [H1|[E1 H1]] [H2|[E2 H2]].
  - left. by eapply str_ltb_trans.
  - left. by rewrite <- E2.
  - left. by rewrite E1.
  - right. split; [congruence|]. by eapply str_leb_trans.
Qed.

Section ranking.

Context {K : Type} (key_leb : K → K → bool)
  (key_total : ∀ a b, key_leb a b = true ∨ key_leb b a = true)
  (key_trans : ∀ a b c, key_leb a b = true → key_leb b c = true → key_leb a c = true).

Lemma rank_leb_iff (a b : K * cells) :
  rank_leb key_leb a b = true ↔
  (b.2.1.1 < a.2.1.1)%Z ∨ (b.2.1.1 = a.2.1.1 ∧ key_leb a.1 b.1 = true).
Proof. unfold rank_leb. by rewrite orb_true_iff, andb_true_iff, Z.ltb_lt, Z.eqb_eq. Qed.

Lemma ranked_sorted (t : list (K * cells)) :
  Permutation t (ranked key_leb t) ∧
  StronglySorted (λ a b, rank_leb key_leb a b = true) (ranked key_leb t).
Proof.
  split; [apply sort_perm|]. apply sort_sorted.
  - intros a b. rewrite !rank_leb_iff. destruct (Z.lt_trichotomy a.2.1.1 b.2.1.1) as [?|[?|?]]; auto.
    destruct (key_total a.1 b.1); auto.
  - intros a b c. rewrite !rank_leb_iff. intros [?|[? H1]] [?|[? H2]]; try lia.
    right. split; [lia|]. by eapply key_trans.
Qed.

End ranking.

(** * Properties *)

(** C17: When every frame of the report has a name, the aggregation succeeds and conserves
    what it counts: each table has one row per key, the rows of either table add up to the
    grand total, which is the sum over the report; the row of a function is the sum over
    the stacks attributed to it, and the rows of its helpers add up to its row. *)
Theorem collect_correct names sites :
  (∀ s f, s ∈ sites → f ∈ frames s → is_Some (names !! f)) →
  ∃ t, collect names sites = Ok t ∧ conserved names sites t.
Proof.
  intros H. destruct (collect_total names sites H) as [t Ht]. exists t.
  split; [done|]. by apply collect_conserved.
Qed.

Definition names_sample : gmap Z str :=
  {[1%Z := lit "blorp_memory_allocate"; 2%Z := lit "blorp_list_append_3"; 3%Z := lit "blorp_f_7.cold"]}.
Definition sites_sample : list site := [Site 2 32 0 0 [1; 2; 3]; Site 1 8 1 8 [1; 3]]%Z.

Lemma collect_correct_witness :
  ∃ t, collect names_sample sites_sample = Ok t ∧ conserved names_sample sites_sample t ∧
    by_helper t = [((lit "blorp_f_7", lit "blorp_list_append_3"), (2, 32, 0)%Z);
                   ((lit "blorp_f_7", lit "(direct)"), (1, 8, 1)%Z)].
Proof.
  destruct (collect_correct names_sample sites_sample) as (t & Ht & Hc).
  - intros s f Hs Hf. unfold sites_sample in Hs.
    repeat (apply elem_of_cons in Hs as [->|Hs]; [cbn in Hf;
      repeat (apply elem_of_cons in Hf as [->|Hf]; [eexists; reflexivity|]); by apply elem_of_nil in Hf|]).
    by apply elem_of_nil in Hs.
  - exists t. split; [exact Ht|]. split; [exact Hc|].
    vm_compute in Ht. injection Ht as <-. reflexivity.
Defined.

(** C18: [classify] attributes a stack of named frames to the first compiled function on it,
    with the frame it called as the helper, or "(direct)" when that frame is the allocator or
    there is none; a stack without a compiled function goes to "(no compiled caller)". *)
Theorem classify_correct names frames l :
  frame_names names frames l →
  (∀ pre name post f, l = pre ++ name :: post → Forall (λ n, compiled_function n = None) pre →
     compiled_function name = Some f → classify frames names = Ok (f, helper_of (last pre))) ∧
  (Forall (λ n, compiled_function n = None) l →
     classify frames names = Ok (NO_COMPILED_CALLER, DIRECT_ALLOCATION)).
Proof.
  intros Hl. destruct (classify_from_spec names None frames l Hl) as [H1 H2].
  split; [|done]. intros pre name post f Hp Hno Hf. unfold classify.
  rewrite (H1 pre name post f Hp Hno Hf). by destruct (last pre).
Qed.

Lemma classify_correct_witness :
  classify [1; 2; 3]%Z names_sample = Ok (lit "blorp_f_7", lit "blorp_list_append_3").
Proof.
  refine (proj1 (classify_correct names_sample [1; 2; 3]%Z
    [lit "blorp_memory_allocate"; lit "blorp_list_append_3"; lit "blorp_f_7.cold"] _)
    [lit "blorp_memory_allocate"; lit "blorp_list_append_3"] (lit "blorp_f_7.cold") []
    (lit "blorp_f_7") _ _ _).
  - unfold frame_names. repeat (apply Forall2_cons_2; [vm_compute; reflexivity|]). apply Forall2_nil_2.
  - reflexivity.
  - repeat (apply Forall_cons_2; [vm_compute; reflexivity|]). apply Forall_nil_2.
  - vm_compute. reflexivity.
Defined.

(** C19: [symbolize] with a tool that answers each address on its own (the same number of
    lines for each, in the order of the command) succeeds and names exactly the addresses it
    was given, each by its own answer: the batches do not show in the result. *)
Theorem symbolize_correct which run_command os_error binary answer addresses :
  which (lit "atos") = true ∨ which (lit "addr2line") = true →
  tool_answers which run_command binary answer →
  ∃ names, symbolize which run_command os_error binary addresses = Ok names ∧
    ∀ a, (a ∈ addresses → ∃ n, names !! a = Some n ∧ function_name (answer a) = Ok n) ∧
         (a ∉ addresses → names !! a = None).
Proof.
  intros Hw Ht.
  destruct (symbolize_named which run_command os_error binary answer addresses Hw Ht)
    as (names & Hs & Hn). exists names. split; [done|]. intros a.
  destruct (Hn a) as [H1 H2]. rewrite !elem_of_ordered in *. by split.
Qed.

(** A tool that prints "f" for every address. *)
Definition constant_tool (command : list str) : option completed :=
  Some (Completed 0 (concat (map (λ _, lit "f (in b)" ++ [newline]) (drop 5 command))) []).

Lemma symbolize_correct_witness :
  ∃ names, symbolize (λ _, true) constant_tool (λ p, p) (lit "b") {[5%Z; 9%Z]} = Ok names ∧
    ∃ n, names !! 9%Z = Some n.
Proof.
  destruct (symbolize_correct (λ _, true) constant_tool (λ p, p) (lit "b")
    (λ _, [lit "f (in b)"]) {[5%Z; 9%Z]}) as (names & H1 & H2).
  - left. reflexivity.
  - intros batch command per Hc. injection Hc as <- <-. split; [reflexivity|].
    eexists. split; [reflexivity|]. split; [reflexivity|]. cbn [stdout drop].
    induction batch as [|a batch IH]; [reflexivity|].
    change (splitlines (lit "f (in b)" ++ [newline] ++
      concat (map (λ _, lit "f (in b)" ++ [newline])
        (map (λ address : Z, hex (ATOS_LOAD_ADDRESS + address - 1)) batch))) =
      lit "f (in b)" :: concat ((λ _ : Z, [lit "f (in b)"]) <$> batch)).
    rewrite <- IH. reflexivity.
  - exists names. split; [exact H1|]. destruct (H2 9%Z) as [H _].
    destruct H as (n & Hn & _); [apply elem_of_union; right; by apply elem_of_singleton|].
    exists n. exact Hn.
Defined.

(** Round trip of the report: the lines of the runtime (four counters in decimal, frames
    as hexadecimal offsets) are read back as the sites they stand for. *)
Theorem read_report_roundtrip os_error files path sites :
  files !! path = Some (report_text sites) → Forall site_ok sites →
  read_report os_error files path = Ok sites.
Proof. apply read_report_text. Qed.

Lemma read_report_roundtrip_witness :
  read_report (λ p, p) {[lit "r" := report_text sites_sample]} (lit "r") = Ok sites_sample.
Proof.
  apply (read_report_roundtrip (λ p, p) {[lit "r" := report_text sites_sample]} (lit "r")
    sites_sample); [reflexivity|]. repeat constructor; cbn; lia.
Defined.

(** The rows of both tables come in rank order (more allocations first, then the key)
    and are the rows of the dictionary: nothing is lost before the limit cuts the list. *)
Theorem tables_ranked (t : totals) :
  Permutation (by_site t) (ranked str_leb (by_site t)) ∧
  StronglySorted (λ a b, rank_leb str_leb a b = true) (ranked str_leb (by_site t)) ∧
  Permutation (by_helper t) (ranked pair_leb (by_helper t)) ∧
  StronglySorted (λ a b, rank_leb pair_leb a b = true) (ranked pair_leb (by_helper t)).
Proof.
  destruct (ranked_sorted str_leb str_leb_total str_leb_trans (by_site t)) as [H1 H2].
  destruct (ranked_sorted pair_leb pair_leb_total pair_leb_trans (by_helper t)) as [H3 H4].
  done.
Qed.

(** The names that the generated C gives to its functions, when the run is told to read it. *)
Definition generated_comments (files : gmap str str) (arguments : options) (comments : gmap str str) : Prop :=
  match generated_c arguments with
  | Some (c :: path) => read_function_comments files (c :: path) = Ok comments
  | _ => comments = ∅
  end.

(** A run on a well-formed report with a tool that answers each address never fails: it prints
    the tables of its stacks, under the names that the tool gave. *)
Lemma main_output which run_command os_error answer files arguments sites comments :
  files !! report arguments = Some (report_text sites) → Forall site_ok sites →
  which (lit "atos") = true ∨ which (lit "addr2line") = true →
  tool_answers which run_command (binary arguments) answer →
  generated_comments files arguments comments →
  ∃ names t, main which run_command os_error files arguments =
      Ok (report_output comments t (length sites) (top arguments)) ∧
    collect names sites = Ok t ∧
    ∀ s f, s ∈ sites → f ∈ frames s → ∃ n, names !! f = Some n ∧ function_name (answer f) = Ok n.
Proof.
  intros Hf Hok Hw Ht Hg. unfold main. rewrite (read_report_text _ _ _ sites) by done.
  cbn [mbind result_bind].
  destruct (symbolize_named which run_command os_error (binary arguments) answer
    (all_frames sites) Hw Ht) as (names & -> & Hn). cbn [mbind result_bind].
  assert (∀ s f, s ∈ sites → f ∈ frames s → ∃ n, names !! f = Some n ∧ function_name (answer f) = Ok n) as Hnames.
  { intros s f Hs Hfr. destruct (Hn f) as [H _]. apply H, elem_of_ordered. unfold all_frames.
    apply elem_of_list_to_set, list_elem_of_bind. by exists s. }
  destruct (collect_total names sites) as [t Hc].
  { intros s f Hs Hfr. destruct (Hnames s f Hs Hfr) as (n & Hname & _). by exists n. }
  exists names, t. split; [|done]. unfold generated_comments in Hg.
  destruct (generated_c arguments) as [[|c path]|]; [subst| |subst];
    rewrite ?Hg; cbn [mbind result_bind]; by rewrite Hc.
Qed.

(** Without generated C its first line states the sums over the report and the number of
    stacks. *)
Theorem main_succeeds which run_command os_error answer files arguments sites :
  files !! report arguments = Some (report_text sites) → Forall site_ok sites →
  which (lit "atos") = true ∨ which (lit "addr2line") = true →
  tool_answers which run_command (binary arguments) answer →
  generated_c arguments = None →
  ∃ rest, main which run_command os_error files arguments =
    Ok (lit "total: " ++ dec (sum_sites Allocations (λ _, true) sites) ++ lit " allocations, "
        ++ dec (sum_sites Bytes (λ _, true) sites) ++ lit " bytes requested, "
        ++ dec (sum_sites Resizes (λ _, true) sites) ++ lit " resizes, "
        ++ decn (length sites) ++ lit " distinct stacks" ++ [newline; newline] ++ rest).
Proof.
  intros Hf Hok Hw Ht Hg.
  destruct (main_output which run_command os_error answer files arguments sites ∅)
    as (names & t & -> & Hc & _); [done..| |].
  { unfold generated_comments. by rewrite Hg. }
  destruct (collect_conserved _ _ _ Hc) as [_ _ Htot _ _ _ _].
  rewrite <- (Htot Allocations), <- (Htot Bytes), <- (Htot Resizes).
  unfold report_output. eexists. rewrite <- ?(assoc_L (++)). reflexivity.
Qed.

Lemma main_succeeds_witness :
  ∃ rest, main (λ _, true) constant_tool (λ p, p) {[lit "r" := report_text sites_sample]}
    (Options (lit "r") (lit "b") None 15) =
    Ok (lit "total: 3 allocations, 40 bytes requested, 1 resizes, 2 distinct stacks"
        ++ [newline; newline] ++ rest).
Proof.
  destruct (main_succeeds (λ _, true) constant_tool (λ p, p) (λ _, [lit "f (in b)"])
    {[lit "r" := report_text sites_sample]} (Options (lit "r") (lit "b") None 15) sites_sample)
    as [rest H].
  - reflexivity.
  - repeat constructor; cbn; lia.
  - left. reflexivity.
  - intros batch command per Hc. injection Hc as <- <-. split; [reflexivity|].
    eexists. split; [reflexivity|]. split; [reflexivity|]. cbn [stdout drop].
    induction batch as [|a batch IH]; [reflexivity|].
    change (splitlines (lit "f (in b)" ++ [newline] ++
      concat (map (λ _, lit "f (in b)" ++ [newline])
        (map (λ address : Z, hex (ATOS_LOAD_ADDRESS + address - 1)) batch))) =
      lit "f (in b)" :: concat ((λ _ : Z, [lit "f (in b)"]) <$> batch)).
    rewrite <- IH. reflexivity.
  - reflexivity.
  - exists rest. exact H.
Defined.
