(* ===== verification/Report.v ===== *)
(** blorp/scripts/attribution/report.py, what its stages share: failing, reading files,
    function labels, markdown tables, numbers and percentages. *)
From S2P Require Import Prelude PyStr PyFormat PyDict PyFloat Regex AllocationSites.

Definition fail {A} (message : str) : result A :=
  Raise (SystemExit (lit "error: report: " ++ message)).

(** [os.path.join] of a directory and a relative name. *)
Definition path_join (directory name : str) : str :=
  match directory with
  | [] => name
  | _ => if endswith (lit "/") directory then directory ++ name
         else directory ++ lit "/" ++ name
  end.

Definition read (os_error : str → str) (files : gmap str str) (path : str) : result str :=
  match files !! path with
  | Some text => Ok text
  | None => fail (lit "cannot read " ++ path ++ lit ": " ++ os_error path)
  end.

Definition function_labels (files : gmap str str) (directory : str) : result (gmap str str) :=
  read_function_comments files (path_join directory (lit "self.c")).

(** [blorp_f_N] *)
Definition function_key (function : Z) : str := lit "blorp_f_" ++ dec function.

Definition label_of (labels : gmap str str) (function : Z) : str :=
  if (function =? 0)%Z then lit "(runtime, no Blorp caller)"
  else default (function_key function) (labels !! function_key function).

(** ["---:"] for a right-aligned column. *)
Definition align_cell (a : ascii) : str := if Ascii.eqb a "r" then lit "---:" else lit "---".

Definition table_line (cells : list str) : str := lit "| " ++ join (lit " | ") cells ++ lit " |".

(** [table(headers, rows, align)]: without an alignment every column is left-aligned. *)
Definition table (headers : list str) (rows : list (list str)) (align : str) : str :=
  let align := match align with [] => repeat "l"%char (length headers) | _ => align end in
  join [newline] (table_line headers :: table_line (map align_cell align) :: map table_line rows)
  ++ [newline].

Definition number (value : Z) : str := with_commas value.

Definition percent (part whole : Z) : str :=
  if (whole =? 0)%Z then lit "0.0%"
  else fixed 1 (fdiv (fmul (of_int 100) (of_int part)) (of_int whole)) ++ lit "%".
