(* ===== verification/ReportRc.v ===== *)
(** blorp/scripts/attribution/report.py, the stage [rc]: the counts of the instrumented
    compiler, grouped by kind, source, pair, origin and function. *)
From S2P Require Import Prelude PyStr PyFormat PyDict PyFloat Regex AllocationSites Report.

Definition RC_KINDS : list str := [lit "record"; lit "list"; lit "union"; lit "string"].
Definition ALL_KINDS : list str := RC_KINDS ++ [lit "other"].
Definition DIRECTIONS : list str := [lit "inc"; lit "dec"].

Definition RC_GROUPS : list (str * list str) :=
  [(lit "Projection acquisition", [lit "acquire:projection"]);
   (lit "Stored-field acquisition", [lit "acquire:stored"]);
   (lit "Borrowed-return acquisition (end of a block)", [lit "acquire:block_end"]);
   (lit "Loop-entry acquisition", [lit "acquire:loop_entry"]);
   (lit "Call transfer (acquisition for an owned parameter)", [lit "acquire:call"]);
   (lit "Explicit drop at last use", [lit "drop:"]);
   (lit "Cascade from a parent's free", [lit "cascade:"]);
   (lit "List `get` (hands out a second reference)", [lit "runtime_list:get"]);
   (lit "Other list helpers (append, concat, set, ...)", [lit "runtime_list:"]);
   (lit "Other runtime helper (String literals, concat)", [lit "runtime_other"]);
   (lit "Unattributed", [lit "unmarked"; lit "untagged"])].
Definition PAIR_REASONS : list str := [lit "stored"; lit "block_end"; lit "call"; lit "loop_entry"].

#[global] Arguments RC_GROUPS : simpl never.

(** * Reading *)

(** (kind, direction, function number, category name) -> count *)
Definition tag_key : Type := str * str * Z * str.
Abbreviation tagged_counts := (list (tag_key * Z)).
Abbreviation kind_counts := (list ((str * str) * Z)).

Definition read_category (d : list (Z * str)) (line : str) : result (list (Z * str)) :=
  match split_on [tab] line with
  | [index; name] => i ← int index; Ok (dset i name d)
  | _ => Raise ValueError
  end.

Definition read_tagged (categories : list (Z * str)) (d : tagged_counts) (line : str) :
    result tagged_counts :=
  match split_on [tab] line with
  | [kind; direction; function; category; count] =>
      f ← int function;
      c ← int category;
      name ← or_raise KeyError (dget c categories);
      n ← int count;
      Ok (dadd (kind, direction, f, name) n d)
  | _ => Raise ValueError
  end.

Definition read_kind (d : kind_counts) (line : str) : result kind_counts :=
  match split_on [tab] line with
  | [kind; direction; count] => n ← int count; Ok (dset (kind, direction) n d)
  | _ => Raise ValueError
  end.

Definition rc_path (directory name : str) : str :=
  path_join (path_join directory (lit "rc")) name.

Definition read_rc (os_error : str → str) (files : gmap str str) (directory : str) :
    result (tagged_counts * kind_counts) :=
  categories_text ← read os_error files (rc_path directory (lit "categories.tsv"));
  categories ← foldM read_category [] (splitlines categories_text);
  tagged_text ← read os_error files (rc_path directory (lit "tagged.tsv"));
  tagged ← foldM (read_tagged categories) [] (splitlines tagged_text);
  kinds_text ← read os_error files (rc_path directory (lit "kinds.tsv"));
  kinds ← foldM read_kind [] (splitlines kinds_text);
  Ok (tagged, kinds).

(** * Groups *)

Fixpoint first_group (groups : list (str * list str)) (category : str) : option str :=
  match groups with
  | [] => None
  | (label, prefixes) :: groups =>
      if existsb (λ p, startswith p category) prefixes then Some label
      else first_group groups category
  end.

Definition group_of (category : str) : result str :=
  match first_group RC_GROUPS category with
  | Some label => Ok label
  | None => fail (lit "category " ++ category ++ lit " belongs to no group")
  end.

(** {(kind, direction): count} *)
Definition cell (cells : kind_counts) (kind : str) : str :=
  number (dnum (kind, lit "inc") cells) ++ lit " / " ++ number (dnum (kind, lit "dec") cells).

Definition by_kind_row (grand : Z) (group : str * kind_counts) : list str :=
  [group.1; number (dtotal group.2); percent (dtotal group.2) grand]
  ++ map (cell group.2) RC_KINDS.

Definition by_kind_rows (groups : list (str * kind_counts)) (grand : Z) : list (list str) :=
  map (by_kind_row grand) groups.

(** * The tables *)

Definition kind_count (kinds : kind_counts) (kind direction : str) : result Z :=
  or_raise KeyError (dget (kind, direction) kinds).

Definition sum_tagged (P : tag_key → bool) (tagged : tagged_counts) : Z := dsum_if P (λ v, v) tagged.

Definition in_kind (kind direction : str) (k : tag_key) : bool :=
  bool_decide (k.1.1.1 = kind) && bool_decide (k.1.1.2 = direction).

Definition kind_row (kinds : kind_counts) (st : list (list str) * Z) (kind : str) :
    result (list (list str) * Z) :=
  inc ← kind_count kinds kind (lit "inc");
  dec ← kind_count kinds kind (lit "dec");
  Ok (st.1 ++ [[kind; number inc; number dec; number (inc + dec)]], (st.2 + (inc + dec))%Z).

Definition kind_sum (kinds : kind_counts) (direction : str) : result Z :=
  foldM (λ z kind, n ← kind_count kinds kind direction; Ok (z + n)%Z) 0%Z ALL_KINDS.

(** The two nested loops over kinds and directions. *)
Definition kinds_directions : list (str * str) :=
  ALL_KINDS ≫= λ kind, map (pair kind) DIRECTIONS.

Definition mismatch_of (kinds : kind_counts) (tagged : tagged_counts) (out : list str)
    (kd : str * str) : result (list str) :=
  let summed := sum_tagged (in_kind kd.1 kd.2) tagged in
  n ← kind_count kinds kd.1 kd.2;
  if (summed =? n)%Z then Ok out
  else Ok (out ++ [kd.1 ++ lit " " ++ kd.2 ++ lit ": tagged " ++ PyStr.dec summed
                   ++ lit ", kinds-only " ++ PyStr.dec n]).

Definition verdict (mismatches : list str) : str :=
  match mismatches with
  | [] => lit "yes, every kind and direction"
  | _ => lit "NO: " ++ join (lit "; ") mismatches
  end.

(** The text up to the verdict. *)
Definition kinds_head (rows : list (list str)) (inc dec grand : Z) : str :=
  lit "### Atomic operations by kind" ++ [newline; newline]
  ++ table [lit "Kind"; lit "Increments"; lit "Decrements"; lit "Total"]
       (rows ++ [[lit "total"; number inc; number dec; number grand]]) (lit "lrrr")
  ++ [newline] ++ lit "Tagged counts sum to the kind-only counts: **".

Definition rc_kinds (kinds : kind_counts) (tagged : tagged_counts) : result (str * Z) :=
  '(rows, grand) ← foldM (kind_row kinds) ([], 0%Z) ALL_KINDS;
  inc ← kind_sum kinds (lit "inc");
  dec ← kind_sum kinds (lit "dec");
  mismatches ← foldM (mismatch_of kinds tagged) [] kinds_directions;
  Ok (kinds_head rows inc dec grand ++ verdict mismatches ++ lit "**." ++ [newline], grand).

(** label -> (kind, direction) -> count *)
Definition grouped_counts : Type := list (str * kind_counts).

Definition add_group (d : grouped_counts) (row : tag_key * Z) : result grouped_counts :=
  let '((kind, direction, _, category), count) := row in
  label ← group_of category;
  Ok (dadd2 label (kind, direction) count d).

Definition group_counts (tagged : tagged_counts) : result grouped_counts :=
  foldM add_group [] tagged.

Definition rc_sources (tagged : tagged_counts) (grand : Z) : result str :=
  grouped ← group_counts tagged;
  let rows := by_kind_rows (map (λ g, (g.1, dcells g.1 grouped)) RC_GROUPS) grand in
  Ok (lit "### Atomic operations by source (increments / decrements per data kind)"
      ++ [newline; newline]
      ++ table ([lit "Source"; lit "Operations"; lit "Share"] ++ RC_KINDS) rows (lit "lrrrrrr")).

Definition is_projection_pair (k : tag_key) : bool :=
  let '(_, direction, _, category) := k in
  (bool_decide (direction = lit "inc") && bool_decide (category = lit "acquire:projection"))
  || (bool_decide (direction = lit "dec") && startswith (lit "drop:projection") category).

(** The counts of the keys that pass a test, by kind and direction. *)
Definition cells_where (P : tag_key → bool) (tagged : tagged_counts) : kind_counts :=
  foldl (λ cells row, if P row.1 then dadd (row.1.1.1.1, row.1.1.1.2) row.2 cells else cells) [] tagged.

Definition is_pair_of (reason : str) (k : tag_key) : bool :=
  let '(_, direction, _, category) := k in
  (bool_decide (direction = lit "inc") && startswith (lit "acquire:" ++ reason ++ lit ":") category
   && endswith (lit "+pair") category)
  || (bool_decide (direction = lit "dec") && endswith (lit "+pair:" ++ reason) category).

Definition pair_group (tagged : tagged_counts) (st : list (str * kind_counts) * kind_counts)
    (reason : str) : list (str * kind_counts) * kind_counts :=
  let cells := cells_where (is_pair_of reason) tagged in
  match cells with
  | [] => st
  | _ => (st.1 ++ [(lit "Move candidate, acquisition reason `" ++ reason ++ lit "`", cells)],
          foldl (λ totals c, dadd c.1 c.2 totals) st.2 cells)
  end.

Definition is_pair_inc (kind : str) (k : tag_key) : bool :=
  bool_decide (k.1.1.1 = kind) && bool_decide (k.1.1.2 = lit "inc") && endswith (lit "+pair") k.2.

Definition pairs_text : str := lit "### Acquire-then-drop pairs" ++ [newline; newline]
  ++ lit "A move candidate is an acquisition from an owner whose drop follows in the "
  ++ lit "same operation list with at most one definition between, so a move would replace both. Each drop is "
  ++ lit "filed under the reason of its own partner acquisition, so both columns of a row are measured. The projection "
  ++ lit "row overlaps the others when a projected owner is acquired again from." ++ [newline; newline].

Definition rc_pairs (tagged : tagged_counts) (grand : Z) : str :=
  let projection := cells_where is_projection_pair tagged in
  let '(groups, totals) :=
    foldl (pair_group tagged) ([(lit "Projection acquired, owner later dropped", projection)], [])
      PAIR_REASONS in
  let groups := groups ++ [(lit "Move candidates, all reasons", totals)] in
  let mismatch := map (λ k, (k, sum_tagged (is_pair_inc k) tagged - dnum (k, lit "dec") totals)%Z)
                    RC_KINDS in
  pairs_text
  ++ table ([lit "Pairs"; lit "Operations"; lit "Share"] ++ RC_KINDS) (by_kind_rows groups grand)
       (lit "lrrrrrr")
  ++ [newline] ++ lit "Acquisitions minus drops in the move-candidate pairs, by kind: "
  ++ join (lit ", ") (map (λ kv, kv.1 ++ lit " " ++ number kv.2) mismatch) ++ lit "." ++ [newline].

(** [category[len("drop:"):].split("+")[0]] *)
Definition drop_origin (category : str) : str :=
  (partition_on (lit "+") (drop (length (lit "drop:")) category)).1.

Definition add_origin (d : list (str * list (str * Z))) (row : tag_key * Z) :
    list (str * list (str * Z)) :=
  let '((kind, _, _, category), count) := row in
  if startswith (lit "drop:") category then dadd2 (drop_origin category) kind count d else d.

Definition origin_counts (tagged : tagged_counts) : list (str * list (str * Z)) :=
  foldl add_origin [] tagged.

Definition rc_origins (tagged : tagged_counts) : str :=
  let rows := map (λ oc, [oc.1; number (dtotal oc.2)] ++ map (λ k, number (dnum k oc.2)) RC_KINDS)
                (by_total (origin_counts tagged)) in
  lit "### Explicit drops by the origin of the dropped owner" ++ [newline; newline]
  ++ table ([lit "Origin"; lit "Drops"] ++ RC_KINDS) rows (lit "lrrrrr").

Definition in_record (prefix : string) (k : tag_key) : bool :=
  bool_decide (k.1.1.1 = lit "record") && startswith (lit prefix) k.2.

Definition record_total (kinds : kind_counts) : result Z :=
  inc ← kind_count kinds (lit "record") (lit "inc");
  dec ← kind_count kinds (lit "record") (lit "dec");
  Ok (inc + dec)%Z.

Definition rc_reuse_pool (tagged : tagged_counts) (kinds : kind_counts) : result str :=
  let cascade := sum_tagged (in_record "cascade:") tagged in
  let stored := sum_tagged (in_record "acquire:stored") tagged in
  total ← record_total kinds;
  Ok (lit "### Record RC work a reused record cell could skip" ++ [newline; newline]
      ++ lit "Record decrements in cascades (" ++ number cascade
      ++ lit ", any parent kind) plus record increments for stored fields (" ++ number stored
      ++ lit "): " ++ number (cascade + stored) ++ lit " of " ++ number total ++ lit " "
      ++ lit "record operations (" ++ percent (cascade + stored) total
      ++ lit "). This is neither an upper nor a lower bound: cascades also free records held by "
      ++ lit "other parents, and the old cell's own drop is not included." ++ [newline]).

(** [max(d.items(), key=lambda item: item[1])]: the first of the largest. *)
Definition max_item {K} (d : list (K * Z)) : result (K * Z) :=
  match d with
  | [] => Raise ValueError
  | p :: d => Ok (foldl (λ best q, if (best.2 <? q.2)%Z then q else best) p d)
  end.

(** [name.split(".")[0]] *)
Definition module_of (name : str) : str := (partition_on (lit ".") name).1.

Definition concentration_step (labels : gmap str str)
    (st : list (str * Z) * list (str * Z)) (row : tag_key * Z) :
    list (str * Z) * list (str * Z) :=
  let '((_, _, function, category), count) := row in
  let name := label_of labels function in
  let modules := dadd (module_of name) count st.2 in
  if decide (category = lit "acquire:projection") then (dadd name count st.1, modules)
  else (st.1, modules).

Definition concentration_counts (tagged : tagged_counts) (labels : gmap str str) :
    list (str * Z) * list (str * Z) :=
  foldl (concentration_step labels) ([], []) tagged.

Definition rc_concentration (tagged : tagged_counts) (labels : gmap str str) (grand : Z) :
    result str :=
  let '(projection, modules) := concentration_counts tagged labels in
  let ranked := take 5 (by_count projection) in
  let held := dtotal ranked in
  '(module, module_count) ← max_item modules;
  Ok (lit "### Concentration" ++ [newline; newline]
      ++ lit "The five functions with the most projection acquisitions hold " ++ number held
      ++ lit " of " ++ number (dtotal projection) ++ lit " (" ++ percent held (dtotal projection)
      ++ lit "): " ++ join (lit "; ") (map (λ nc, nc.1 ++ lit " " ++ number nc.2) ranked)
      ++ lit ". " ++ lit "Module `" ++ module ++ lit "` holds " ++ number module_count
      ++ lit " of all " ++ number grand ++ lit " operations (" ++ percent module_count grand
      ++ lit ")." ++ [newline]).

Definition short_groups : list (str * str) :=
  [(lit "Projection acquisition", lit "proj acq"); (lit "Explicit drop at last use", lit "drops");
   (lit "Cascade from a parent's free", lit "cascade"); (lit "Stored-field acquisition", lit "stored");
   (lit "Borrowed-return acquisition (end of a block)", lit "block end");
   (lit "List `get` (hands out a second reference)", lit "list get")].

Definition add_function (labels : gmap str str) (d : list (str * list (str * Z)))
    (row : tag_key * Z) : result (list (str * list (str * Z))) :=
  let '((kind, _, function, category), count) := row in
  if decide (kind = lit "record") then
    label ← group_of category;
    Ok (dadd2 (label_of labels function) label count d)
  else Ok d.

Definition rc_top_record_functions (tagged : tagged_counts) (labels : gmap str str)
    (kinds : kind_counts) (top : Z) : result str :=
  per_function ← foldM (add_function labels) [] tagged;
  record_total ← record_total kinds;
  let rows := map (λ nc, [nc.1; number (dtotal nc.2); percent (dtotal nc.2) record_total]
                         ++ map (λ g, number (dnum g.1 nc.2)) short_groups)
                (take_limit top (by_total per_function)) in
  Ok (lit "### Top " ++ PyStr.dec top ++ lit " Blorp functions by record operations" ++ [newline; newline]
      ++ table ([lit "Function"; lit "Record ops"; lit "Share"] ++ map snd short_groups) rows
           (lit "lrr" ++ repeat "r"%char (length short_groups))).

Definition rc (os_error : str → str) (files : gmap str str) (directory : str) (top : Z) : result str :=
  labels ← function_labels files directory;
  '(tagged, kinds) ← read_rc os_error files directory;
  '(kinds_text, grand) ← rc_kinds kinds tagged;
  sources ← rc_sources tagged grand;
  let pairs := rc_pairs tagged grand in
  let origins := rc_origins tagged in
  reuse ← rc_reuse_pool tagged kinds;
  concentration ← rc_concentration tagged labels grand;
  top_functions ← rc_top_record_functions tagged labels kinds top;
  Ok (join [newline] [kinds_text; sources; pairs; origins; reuse; concentration; top_functions]).

(** * What the tables add up to *)

Lemma sum_tagged_snoc P tagged row :
  sum_tagged P (tagged ++ [row]) = (sum_tagged P tagged + if P row.1 then row.2 else 0)%Z.
Proof. unfold sum_tagged. rewrite dsum_if_app. cbn. lia. Qed.

(** A fold over rows that changes a number by the count of the rows that pass a test. *)
Lemma foldl_sum {A} (f : A → tag_key * Z → A) (m : A → Z) (P : tag_key → bool) a tagged :
  (∀ a (row : tag_key * Z), m (f a row) = (m a + if P row.1 then row.2 else 0)%Z) →
  m (foldl f a tagged) = (m a + sum_tagged P tagged)%Z.
Proof.
  intros Hf. induction tagged as [|row tagged IH] using rev_ind; [cbn; lia|].
  rewrite foldl_snoc, Hf, IH, sum_tagged_snoc. lia.
Qed.

Lemma foldM_sum {A} (f : A → tag_key * Z → result A) (m : A → Z) (P : tag_key → bool) a tagged a' :
  (∀ a (row : tag_key * Z) a', f a row = Ok a' →
     m a' = (m a + if P row.1 then row.2 else 0)%Z) →
  foldM f a tagged = Ok a' → m a' = (m a + sum_tagged P tagged)%Z.
Proof.
  intros Hf H.
  refine (foldM_prefix f (λ pre a', m a' = m a + sum_tagged P pre)%Z tagged _ a a' _ H).
  - intros pre row suf a1 a2 _ IH Hs. rewrite (Hf _ _ _ Hs), IH, sum_tagged_snoc. lia.
  - cbn. lia.
Qed.

Definition group_labels : list str := RC_GROUPS.*1.

Lemma group_labels_nodup : NoDup group_labels.
Proof. refine (bool_decide_eq_true_1 (NoDup group_labels) _). vm_compute. reflexivity. Qed.

Lemma first_group_in groups category label :
  first_group groups category = Some label → label ∈ groups.*1.
Proof.
  induction groups as [|[l ps] groups IH]; cbn; [done|].
  destruct (existsb _ _); [intros [= ->]; left|]. intros H. right. by apply IH.
Qed.

(** The test that a row is in a group. *)
Definition in_group (label : str) (k : tag_key) : bool :=
  bool_decide (first_group RC_GROUPS k.2 = Some label).

Definition in_cell (kd : str * str) (k : tag_key) : bool := bool_decide (k.1.1 = kd).

Lemma add_group_Ok d row d' :
  add_group d row = Ok d' →
  ∃ label, first_group RC_GROUPS row.1.2 = Some label ∧ d' = dadd2 label row.1.1.1 row.2 d.
Proof.
  destruct row as [[[[kind direction] f] category] n]. unfold add_group, group_of.
  destruct (first_group RC_GROUPS category) as [label|] eqn:E; [|done].
  cbn. intros [= <-]. by exists label.
Qed.

Lemma bool_decide_Some_eq (a b : str) :
  bool_decide (Some a = Some b) = bool_decide (a = b).
Proof. apply bool_decide_ext. split; [by intros [= ->]|by intros ->]. Qed.

Lemma group_cells tagged grouped label kd :
  group_counts tagged = Ok grouped →
  dnum kd (dcells label grouped) = sum_tagged (λ k, in_group label k && in_cell kd k) tagged.
Proof.
  intros H. change (dnum kd (dcells label grouped)) with
    ((λ g, dnum kd (dcells label g)) grouped).
  rewrite (foldM_sum add_group _ (λ k, in_group label k && in_cell kd k) [] tagged grouped);
    [done| |done].
  intros a row a' (l & Hl & ->)%add_group_Ok. rewrite dcells_dadd2.
  unfold in_group, in_cell. rewrite Hl, bool_decide_Some_eq.
  case_bool_decide; cbn [andb]; [|lia]. by rewrite dnum_dadd.
Qed.

Lemma group_totals tagged grouped label :
  group_counts tagged = Ok grouped →
  dtotal (dcells label grouped) = sum_tagged (in_group label) tagged.
Proof.
  intros H. change (dtotal (dcells label grouped)) with ((λ g, dtotal (dcells label g)) grouped).
  rewrite (foldM_sum add_group _ (in_group label) [] tagged grouped); [done| |done].
  intros a row a' (l & Hl & ->)%add_group_Ok. rewrite dcells_dadd2.
  unfold in_group. rewrite Hl, bool_decide_Some_eq.
  case_bool_decide; [|lia]. by rewrite dtotal_dadd.
Qed.

Lemma group_grand_total tagged grouped :
  group_counts tagged = Ok grouped →
  foldr (λ label z, dtotal (dcells label grouped) + z)%Z 0%Z group_labels = dtotal tagged.
Proof.
  intros H. set (m := λ g : grouped_counts, foldr (λ label z, dtotal (dcells label g) + z)%Z 0%Z group_labels).
  change (m grouped = dtotal tagged).
  rewrite (foldM_sum add_group m (λ _, true) [] tagged grouped); [done| |done].
  intros a row a' (l & Hl & ->)%add_group_Ok. unfold m.
  apply (sum_one (λ label, dtotal (dcells label a)) _ group_labels l row.2).
  - apply group_labels_nodup.
  - by eapply first_group_in.
  - rewrite dcells_dadd2, bool_decide_eq_true_2 by done. apply dtotal_dadd.
  - intros k' Hne. by rewrite dcells_dadd2, bool_decide_eq_false_2.
Qed.

Lemma group_counts_total tagged :
  (∀ row, row ∈ tagged → is_Some (first_group RC_GROUPS row.1.2)) →
  ∃ grouped, group_counts tagged = Ok grouped.
Proof.
  intros Hall. unfold group_counts.
  destruct (foldM_total add_group (λ _ _, True) tagged) with (a := [] : grouped_counts)
    as (g & Hg & _); [|done|by exists g].
  intros pre row suf a -> _. destruct (Hall row) as [l Hl]; [set_solver|].
  destruct row as [[[[kind direction] f] category] n]. cbn [fst snd] in Hl. unfold add_group, group_of.
  rewrite Hl. cbn. eauto.
Qed.

Lemma group_counts_Raise tagged e :
  group_counts tagged = Raise e →
  ∃ row, row ∈ tagged ∧ first_group RC_GROUPS row.1.2 = None ∧
    e = SystemExit (lit "error: report: category " ++ row.1.2 ++ lit " belongs to no group").
Proof.
  intros (d & row & Hin & H)%foldM_Raise. exists row. split; [done|].
  destruct row as [[[[kind direction] f] category] n]. unfold add_group, group_of in H. cbn.
  destruct (first_group RC_GROUPS category); [done|]. by injection H as <-.
Qed.

(** * The other tables *)

Lemma origin_total tagged :
  dsum dtotal (origin_counts tagged) = sum_tagged (λ k, startswith (lit "drop:") k.2) tagged.
Proof.
  unfold origin_counts. rewrite (foldl_sum add_origin (dsum dtotal) (λ k, startswith (lit "drop:") k.2));
    [done|].
  intros d [[[[kind direction] f] category] n]. cbn [add_origin fst snd].
  destruct (startswith (lit "drop:") category); [apply dtotal_dadd2|lia].
Qed.

Lemma concentration_projection labels tagged :
  dtotal (concentration_counts tagged labels).1 =
  sum_tagged (λ k, bool_decide (k.2 = lit "acquire:projection")) tagged.
Proof.
  unfold concentration_counts.
  rewrite (foldl_sum (concentration_step labels) (λ st, dtotal st.1)
    (λ k, bool_decide (k.2 = lit "acquire:projection"))); [done|].
  intros d [[[[kind direction] f] category] n]. cbn [concentration_step fst snd].
  destruct (decide (category = lit "acquire:projection")) as [H|H].
  - rewrite bool_decide_eq_true_2 by done. cbn [fst]. apply dtotal_dadd.
  - rewrite bool_decide_eq_false_2 by done. cbn [fst]. lia.
Qed.

Lemma concentration_modules labels tagged :
  dtotal (concentration_counts tagged labels).2 = dtotal tagged.
Proof.
  unfold concentration_counts.
  rewrite (foldl_sum (concentration_step labels) (λ st, dtotal st.2) (λ _, true)); [done|].
  intros d [[[[kind direction] f] category] n]. cbn [concentration_step fst snd].
  destruct (decide (category = lit "acquire:projection")); cbn [snd]; apply dtotal_dadd.
Qed.

Lemma function_total labels tagged per_function :
  foldM (add_function labels) [] tagged = Ok per_function →
  dsum dtotal per_function = sum_tagged (λ k, bool_decide (k.1.1.1 = lit "record")) tagged.
Proof.
  intros H. rewrite (foldM_sum (add_function labels) (dsum dtotal)
    (λ k, bool_decide (k.1.1.1 = lit "record")) [] tagged per_function); [done| |done].
  intros d [[[[kind direction] f] category] n] d' Hd. unfold add_function in Hd. cbn [fst snd].
  destruct (decide (kind = lit "record")) as [Hk|Hk].
  - inv_ok. rewrite bool_decide_eq_true_2 by done. apply dtotal_dadd2.
  - injection Hd as <-. rewrite bool_decide_eq_false_2 by done. lia.
Qed.

(** Taking the first rows of a ranking takes the largest. *)
(** * The verdict *)

Lemma mismatch_fold kinds tagged kds out out' :
  foldM (mismatch_of kinds tagged) out kds = Ok out' →
  ∃ more, out' = out ++ more ∧
    (more = [] ↔ ∀ kd, kd ∈ kds → dget kd kinds = Some (sum_tagged (in_kind kd.1 kd.2) tagged)).
Proof.
  revert out. induction kds as [|[kind direction] kds IH]; intros out H; cbn [foldM] in H.
  { injection H as <-. exists []. rewrite app_nil_r. split; [done|]. split; [|done].
    by intros _ kd ?%elem_of_nil. }
  apply bind_Ok in H as (out1 & Hm & H). unfold mismatch_of, kind_count in Hm. cbn [fst snd] in Hm.
  destruct (dget (kind, direction) kinds) as [n|] eqn:Hn; [|done]. cbn [or_raise mbind result_bind] in Hm.
  destruct (Z.eqb_spec (sum_tagged (in_kind kind direction) tagged) n) as [Heq|Hne];
    injection Hm as <-; apply IH in H as (more & -> & Hmore).
  - exists more. split; [done|]. rewrite Hmore. split.
    + intros Hall kd [->|Hkd]%elem_of_cons; [|by apply Hall]. cbn. by rewrite Heq.
    + intros Hall kd Hkd. apply Hall. by right.
  - eexists. rewrite <- (assoc_L (++)). split; [done|]. split; [done|].
    intros Hall. specialize (Hall (kind, direction) ltac:(left)). cbn in Hall.
    rewrite Hn in Hall. injection Hall as Hall. congruence.
Qed.

Lemma grand_fold kinds l rows grand rows' grand' :
  foldM (kind_row kinds) (rows, grand) l = Ok (rows', grand') →
  grand' = (grand + foldr (λ kind z, dnum (kind, lit "inc") kinds + dnum (kind, lit "dec") kinds + z)
                      0 l)%Z.
Proof.
  revert rows grand. induction l as [|kind l IH]; intros rows grand H; cbn [foldM] in H.
  { injection H as _ <-. cbn. lia. }
  apply bind_Ok in H as ([rows1 grand1] & Hk & H). apply IH in H as ->. cbn.
  unfold kind_row in Hk. apply bind_Ok in Hk as (i & Hi & Hk). apply bind_Ok in Hk as (d & Hd & Hk).
  unfold kind_count in Hi, Hd. apply or_raise_Ok in Hi, Hd. injection Hk as _ <-. cbn.
  unfold dnum. rewrite Hi, Hd. cbn. lia.
Qed.

(** * The whole stage *)

(** The program prints a count for every kind and direction. *)
Definition complete (kinds : kind_counts) : Prop :=
  Forall (λ kd, is_Some (dget kd kinds)) kinds_directions.

Definition grouped_rows (tagged : tagged_counts) : Prop :=
  Forall (λ row, is_Some (first_group RC_GROUPS row.1.2)) tagged.

(** A computation that fails with KeyError only. *)
Definition key_error_only {A} (r : result A) : Prop := is_ok r = true ∨ r = Raise KeyError.

Lemma key_error_bind {A B} (m : result A) (f : A → result B) :
  key_error_only m → (∀ a, key_error_only (f a)) → key_error_only (m ≫= f).
Proof. intros [Hm| ->] Hf; [|by right]. destruct m as [a|]; [apply Hf|done]. Qed.

Lemma key_error_foldM {A B} (f : A → B → result A) a l :
  (∀ a b, key_error_only (f a b)) → key_error_only (foldM f a l).
Proof.
  intros Hf. revert a. induction l as [|b l IH]; intros a; [by left|].
  cbn [foldM]. apply key_error_bind; [apply Hf|apply IH].
Qed.

Lemma key_error_count kinds kind direction : key_error_only (kind_count kinds kind direction).
Proof. unfold kind_count. destruct (dget _ kinds); [by left|by right]. Qed.

#[local] Hint Resolve key_error_count key_error_bind key_error_foldM : key_errors.

Lemma key_error_kinds kinds tagged : key_error_only (rc_kinds kinds tagged).
Proof.
  unfold rc_kinds. apply key_error_bind.
  { apply key_error_foldM. intros st kind. unfold kind_row.
    apply key_error_bind; [auto with key_errors|]. intros i.
    apply key_error_bind; [auto with key_errors|]. intros d. by left. }
  assert (∀ direction, key_error_only (kind_sum kinds direction)) as Hsum.
  { intros direction. apply key_error_foldM. intros z kind.
    apply key_error_bind; [auto with key_errors|]. intros n. by left. }
  intros [rows grand]. apply key_error_bind; [done|]. intros inc. apply key_error_bind; [done|]. intros dec.
  apply key_error_bind; [|by left]. apply key_error_foldM. intros out kd. unfold mismatch_of.
  apply key_error_bind; [auto with key_errors|]. intros n. by destruct (_ =? _)%Z; left.
Qed.

Lemma mismatch_complete kinds tagged kds out out' :
  foldM (mismatch_of kinds tagged) out kds = Ok out' → Forall (λ kd, is_Some (dget kd kinds)) kds.
Proof.
  revert out. induction kds as [|[kind direction] kds IH]; intros out H; cbn [foldM] in H; [constructor|].
  apply bind_Ok in H as (out1 & Hm & H). unfold mismatch_of, kind_count in Hm. cbn [fst snd] in Hm.
  constructor; [|by eapply IH]. by destruct (dget (kind, direction) kinds).
Qed.

Lemma complete_count kinds kind direction :
  complete kinds → kind ∈ ALL_KINDS → direction ∈ DIRECTIONS →
  ∃ n, kind_count kinds kind direction = Ok n.
Proof.
  intros H Hk Hd. unfold complete in H. rewrite Forall_forall in H. destruct (H (kind, direction)) as [n Hn].
  - unfold kinds_directions. apply list_elem_of_bind. exists kind. split; [|done].
    apply list_elem_of_In, in_map, list_elem_of_In, Hd.
  - exists n. unfold kind_count. by rewrite Hn.
Qed.

(** The first table fails exactly when a count is missing. *)
Lemma rc_kinds_complete kinds tagged : complete kinds ↔ is_ok (rc_kinds kinds tagged) = true.
Proof.
  split.
  - intros Hc. unfold rc_kinds.
    destruct (foldM_total (kind_row kinds) (λ _ _, True) ALL_KINDS) with (a := ([] : list (list str), 0%Z))
      as ([rows grand] & -> & _); [|done|].
    { intros pre kind suf st Hl _. unfold kind_row.
      destruct (complete_count kinds kind (lit "inc") Hc) as [i ->]; [rewrite Hl; set_solver|by left|].
      destruct (complete_count kinds kind (lit "dec") Hc) as [d ->]; [rewrite Hl; set_solver|by right; left|].
      cbn. eauto. }
    cbn [mbind result_bind].
    assert (∀ direction, direction ∈ DIRECTIONS → ∃ z, kind_sum kinds direction = Ok z) as Hsum.
    { intros direction Hd. unfold kind_sum.
      destruct (foldM_total (λ z kind, n ← kind_count kinds kind direction; Ok (z + n)%Z) (λ _ _, True)
        ALL_KINDS) with (a := 0%Z) as (z & -> & _); [|done|by exists z].
      intros pre kind suf z Hl _.
      destruct (complete_count kinds kind direction Hc) as [n ->]; [rewrite Hl; set_solver|done|].
      cbn. eauto. }
    destruct (Hsum (lit "inc")) as [i ->]; [by left|]. destruct (Hsum (lit "dec")) as [d ->]; [by right; left|].
    cbn [mbind result_bind].
    destruct (foldM_total (mismatch_of kinds tagged) (λ _ _, True) kinds_directions) with (a := [] : list str)
      as (out & -> & _); [|done|done].
    intros pre kd suf out Hl _. unfold complete in Hc. rewrite Forall_forall in Hc.
    destruct (Hc kd) as [n Hn]; [rewrite Hl; set_solver|]. destruct kd as [kind direction].
    unfold mismatch_of, kind_count. cbn [fst snd]. rewrite Hn. cbn. destruct (_ =? _)%Z; eauto.
  - intros H. destruct (is_ok_Ok _ H) as [[text grand] Hk]. unfold rc_kinds in Hk.
    apply bind_Ok in Hk as ([rows grand'] & _ & Hk). apply bind_Ok in Hk as (i & _ & Hk).
    apply bind_Ok in Hk as (d & _ & Hk). apply bind_Ok in Hk as (out & Hm & _).
    by eapply mismatch_complete.
Qed.

Lemma group_counts_grouped tagged grouped : group_counts tagged = Ok grouped → grouped_rows tagged.
Proof.
  unfold group_counts. apply (foldM_prefix add_group (λ pre _, grouped_rows pre)); [|constructor].
  intros pre [[[[kind direction] f] category] n] suf d d' _ Hpre H. apply Forall_app. split; [done|].
  repeat constructor. cbn. unfold add_group, group_of in H. by destruct (first_group RC_GROUPS category).
Qed.

Lemma grouped_functions labels tagged :
  grouped_rows tagged → ∃ per_function, foldM (add_function labels) [] tagged = Ok per_function.
Proof.
  intros Hg. destruct (foldM_total (add_function labels) (λ _ _, True) tagged)
    with (a := [] : list (str * list (str * Z))) as (d & Hd & _); [|done|by exists d].
  intros pre row suf d Hl _. unfold grouped_rows in Hg. rewrite Forall_forall in Hg.
  destruct (Hg row) as [l Hlabel]; [rewrite Hl; set_solver|].
  destruct row as [[[[kind direction] f] category] n]. cbn [fst snd] in Hlabel. unfold add_function, group_of.
  rewrite Hlabel. destruct (decide (kind = lit "record")); cbn; eauto.
Qed.

Lemma modules_nil tagged labels : (concentration_counts tagged labels).2 = [] ↔ tagged = [].
Proof.
  split; [|by intros ->]. destruct tagged as [|row tagged _] using rev_ind; [done|].
  unfold concentration_counts. rewrite foldl_app. cbn [foldl]. unfold concentration_step at 1.
  destruct row as [[[[kind direction] f] category] n]. destruct (foldl _ _ _) as [projection modules].
  cbn [snd]. assert (∀ key (d : list (str * Z)), dadd key n d ≠ []) as Hne.
  { intros key [|[k v] d]; cbn; [done|]. unfold dadd. cbn. by destruct (decide _). }
  destruct (decide _); cbn [snd]; intros H; by apply Hne in H.
Qed.

Lemma max_item_nil {K} (d : list (K * Z)) :
  (d = [] ∧ max_item d = Raise ValueError) ∨ (d ≠ [] ∧ ∃ p, max_item d = Ok p).
Proof. destruct d; [by left|right; split; [done|by eexists]]. Qed.

(** * Properties *)

(** The table of sources is conservative: when every category belongs to a group, each
    cell is the sum of the tagged counts of its group, kind and direction, each row is the
    sum of its group, and the rows add up to all tagged counts; otherwise the stage exits
    with the name of a category that belongs to no group. *)
Lemma group_counts_correct tagged :
  (∃ grouped, group_counts tagged = Ok grouped ∧
     (∀ label kd, dnum kd (dcells label grouped) =
        sum_tagged (λ k, in_group label k && in_cell kd k) tagged) ∧
     (∀ label, dtotal (dcells label grouped) = sum_tagged (in_group label) tagged) ∧
     foldr (λ label z, dtotal (dcells label grouped) + z)%Z 0%Z group_labels = dtotal tagged) ∨
  (∃ row, row ∈ tagged ∧ first_group RC_GROUPS row.1.2 = None ∧
     group_counts tagged = Raise (SystemExit
       (lit "error: report: category " ++ row.1.2 ++ lit " belongs to no group"))).
Proof.
  destruct (group_counts tagged) as [grouped|e] eqn:E; [left|right].
  - exists grouped. split_and!; [done| | |].
    + intros label kd. by apply group_cells.
    + intros label. by apply group_totals.
    + by apply group_grand_total.
  - destruct (group_counts_Raise _ _ E) as (row & H1 & H2 & ->). by exists row.
Qed.

(** The verdict of the first table is right: it says yes exactly when, for each of the
    five kinds and both directions, the tagged counts add up to the kind-only count; and the
    grand total that the shares use is the sum of the kind-only counts. *)
Theorem rc_kinds_verdict kinds tagged text grand :
  rc_kinds kinds tagged = Ok (text, grand) →
  grand = foldr (λ kind z, dnum (kind, lit "inc") kinds + dnum (kind, lit "dec") kinds + z)%Z
            0%Z ALL_KINDS ∧
  ∃ head mismatches, text = head ++ verdict mismatches ++ lit "**." ++ [newline] ∧
    (mismatches = [] ↔ ∀ kind direction, kind ∈ ALL_KINDS → direction ∈ DIRECTIONS →
       dget (kind, direction) kinds = Some (sum_tagged (in_kind kind direction) tagged)).
Proof.
  unfold rc_kinds. intros H. apply bind_Ok in H as ([rows grand'] & Hg & H).
  apply bind_Ok in H as (inc & _ & H). apply bind_Ok in H as (dec & _ & H).
  apply bind_Ok in H as (mismatches & Hm & H). injection H as <- <-.
  apply grand_fold in Hg as ->. split; [lia|].
  apply mismatch_fold in Hm as (more & -> & Hmore). eexists (kinds_head _ _ _ _), more. split.
  - reflexivity.
  - rewrite Hmore. split.
    + intros Hall kind direction Hk Hd. apply (Hall (kind, direction)).
      unfold kinds_directions. apply list_elem_of_bind. exists kind. split; [|done].
      apply list_elem_of_In, in_map, list_elem_of_In, Hd.
    + intros Hall kd Hkd. unfold kinds_directions in Hkd.
      apply list_elem_of_bind in Hkd as (kind & Hkd & Hk).
      apply list_elem_of_In, in_map_iff in Hkd as (d & <- & Hd). cbn.
      apply Hall; [done|by apply list_elem_of_In].
Qed.

Definition kinds_sample : kind_counts :=
  ALL_KINDS ≫= λ k, [((k, lit "inc"), 2%Z); ((k, lit "dec"), 1%Z)].
Definition tagged_rows_sample : tagged_counts :=
  [((lit "record", lit "inc", 7%Z, lit "acquire:projection+pair"), 2%Z);
   ((lit "record", lit "dec", 7%Z, lit "drop:projection+pair:projection"), 1%Z)].

(** C20: Every outcome of the stage, once its files are read.  A kind or direction that the
    kind-only program did not count ends it with KeyError; a category that belongs to no group
    ends it with the message that names it; no tagged row at all ends it with ValueError (the
    module with the most operations is the maximum of an empty table).  In every other case it
    prints its section, and the verdict there is right: it says yes exactly when, for each of
    the five kinds and both directions, the tagged counts add up to the kind-only count. *)
Theorem rc_stage os_error files directory top labels tagged kinds :
  function_labels files directory = Ok labels → read_rc os_error files directory = Ok (tagged, kinds) →
  (¬ complete kinds ∧ rc os_error files directory top = Raise KeyError) ∨
  (complete kinds ∧ ∃ row, row ∈ tagged ∧ first_group RC_GROUPS row.1.2 = None ∧
     rc os_error files directory top = Raise (SystemExit
       (lit "error: report: category " ++ row.1.2 ++ lit " belongs to no group"))) ∨
  (complete kinds ∧ tagged = [] ∧ rc os_error files directory top = Raise ValueError) ∨
  (complete kinds ∧ grouped_rows tagged ∧ tagged ≠ [] ∧
     ∃ head mismatches rest, rc os_error files directory top =
       Ok (head ++ verdict mismatches ++ lit "**." ++ [newline] ++ rest) ∧
     (mismatches = [] ↔ ∀ kind direction, kind ∈ ALL_KINDS → direction ∈ DIRECTIONS →
        dget (kind, direction) kinds = Some (sum_tagged (in_kind kind direction) tagged))).
Proof.
  intros Hlabels Hread. unfold rc. rewrite Hlabels, Hread. cbn [mbind result_bind].
  destruct (key_error_kinds kinds tagged) as [Hok|Herr].
  2: { left. rewrite Herr. split; [|done]. intros Hc%(rc_kinds_complete kinds tagged).
       by rewrite Herr in Hc. }
  right. pose proof Hok as Hc%rc_kinds_complete. destruct (is_ok_Ok _ Hok) as [[text grand] Hk].
  rewrite Hk. cbn [mbind result_bind]. unfold rc_sources.
  destruct (group_counts tagged) as [grouped|e] eqn:Eg; cbn [mbind result_bind].
  2: { left. split; [done|]. destruct (group_counts_Raise _ _ Eg) as (row & H1 & H2 & ->). by exists row. }
  right. pose proof (group_counts_grouped _ _ Eg) as Hg.
  destruct (complete_count kinds (lit "record") (lit "inc") Hc) as [i Hi]; [by left|by left|].
  destruct (complete_count kinds (lit "record") (lit "dec") Hc) as [d Hd]; [by left|by right; left|].
  unfold rc_reuse_pool, rc_concentration, rc_top_record_functions, record_total.
  rewrite Hi, Hd. cbn [mbind result_bind].
  destruct (concentration_counts tagged labels) as [projection modules] eqn:Ec.
  pose proof (modules_nil tagged labels) as Hnil. rewrite Ec in Hnil. cbn [snd] in Hnil.
  destruct (max_item_nil modules) as [[Hm ->]|[Hm ([module n] & ->)]]; cbn [mbind result_bind].
  { left. split; [done|]. split; [by apply Hnil|done]. }
  right. split; [done|]. split; [done|]. split; [by rewrite <- Hnil|].
  destruct (grouped_functions labels tagged Hg) as [per_function ->]. cbn [mbind result_bind].
  destruct (rc_kinds_verdict kinds tagged text grand Hk) as (_ & head & mismatches & -> & Hv).
  exists head, mismatches. eexists. split; [|exact Hv]. cbn [join]. rewrite <- !(assoc_L (++)). reflexivity.
Qed.

Definition rc_files_sample : gmap str str :=
  <[path_join (lit "d") (lit "self.c") := []]>
  (<[rc_path (lit "d") (lit "categories.tsv") := lit "0" ++ [tab] ++ lit "acquire:call" ++ [newline]]>
  (<[rc_path (lit "d") (lit "tagged.tsv") :=
       join [tab] [lit "record"; lit "inc"; lit "7"; lit "0"; lit "3"] ++ [newline]]>
  {[rc_path (lit "d") (lit "kinds.tsv") :=
      kinds_directions ≫= λ k, join [tab] [k.1; k.2; lit "2"] ++ [newline]]})).

Lemma rc_stage_witness :
  ∃ head mismatch mismatches rest, rc id rc_files_sample (lit "d") 5 =
    Ok (head ++ verdict (mismatch :: mismatches) ++ lit "**." ++ [newline] ++ rest).
Proof.
  destruct (function_labels rc_files_sample (lit "d")) as [labels|] eqn:Hl.
  2: { exfalso. vm_compute in Hl. discriminate Hl. }
  destruct (read_rc id rc_files_sample (lit "d")) as [[tagged kinds]|] eqn:Hr.
  2: { exfalso. vm_compute in Hr. discriminate Hr. }
  assert (is_ok (rc id rc_files_sample (lit "d") 5) = true) as Hok by (vm_compute; reflexivity).
  destruct (rc_stage id rc_files_sample (lit "d") 5 labels tagged kinds Hl Hr)
    as [[_ H]|[(_ & row & _ & _ & H)|[(_ & _ & H)|(_ & _ & _ & head & mismatches & rest & H & Hv)]]];
    [rewrite H in Hok; discriminate Hok..|].
  destruct mismatches as [|mismatch mismatches]; [|by exists head, mismatch, mismatches, rest].
  exfalso. destruct Hv as [Hv _]. specialize (Hv eq_refl (lit "list") (lit "inc")).
  vm_compute in Hr. injection Hr as <- <-.
  assert (lit "list" ∈ ALL_KINDS) as H1 by (right; left).
  assert (lit "inc" ∈ DIRECTIONS) as H2 by left.
  specialize (Hv H1 H2). vm_compute in Hv. discriminate Hv.
Defined.

(** C21: The tables conserve their counts.  Sources: when every category belongs to a group, each
    cell is the sum of the tagged counts of its group, kind and direction, each row is the sum of
    its group, and the rows add up to all tagged counts; otherwise the stage exits with the name
    of a category that belongs to no group.  The drops by origin add up to all counts of
    drop categories, the modules to all tagged counts, the functions to all record counts,
    and the projections by function to the counts of the category "acquire:projection"; the
    five functions named are the ones with the most of them. *)
Theorem tables_conserved labels tagged :
  ((∃ grouped, group_counts tagged = Ok grouped ∧
      (∀ label kd, dnum kd (dcells label grouped) =
         sum_tagged (λ k, in_group label k && in_cell kd k) tagged) ∧
      (∀ label, dtotal (dcells label grouped) = sum_tagged (in_group label) tagged) ∧
      foldr (λ label z, dtotal (dcells label grouped) + z)%Z 0%Z group_labels = dtotal tagged) ∨
   (∃ row, row ∈ tagged ∧ first_group RC_GROUPS row.1.2 = None ∧
      group_counts tagged = Raise (SystemExit
        (lit "error: report: category " ++ row.1.2 ++ lit " belongs to no group")))) ∧
  dsum dtotal (origin_counts tagged) = sum_tagged (λ k, startswith (lit "drop:") k.2) tagged ∧
  dtotal (concentration_counts tagged labels).2 = dtotal tagged ∧
  (∀ per_function, foldM (add_function labels) [] tagged = Ok per_function →
     dsum dtotal per_function = sum_tagged (λ k, bool_decide (k.1.1.1 = lit "record")) tagged) ∧
  dtotal (concentration_counts tagged labels).1 =
    sum_tagged (λ k, bool_decide (k.2 = lit "acquire:projection")) tagged ∧
  StronglySorted (λ a b, (b.2 <= a.2)%Z) (by_count (concentration_counts tagged labels).1).
Proof.
  split_and!.
  - apply group_counts_correct.
  - apply origin_total.
  - apply concentration_modules.
  - intros per_function. by apply function_total.
  - apply concentration_projection.
  - apply by_count_ranked.
Qed.

Lemma tables_conserved_witness :
  ∃ per_function, foldM (add_function ∅) [] tagged_rows_sample = Ok per_function ∧
    dsum dtotal per_function = 3%Z.
Proof.
  assert (is_ok (foldM (add_function ∅) [] tagged_rows_sample) = true) as Hok
    by (vm_compute; reflexivity).
  destruct (is_ok_Ok _ Hok) as [per_function H]. exists per_function. split; [exact H|].
  destruct (tables_conserved ∅ tagged_rows_sample) as (_ & _ & _ & Hf & _).
  rewrite (Hf per_function H). vm_compute. reflexivity.
Defined.

(** The table of sources counts the projection acquisitions that are marked as pairs,
    the concentration paragraph and the projection row of the pair table do not: their
    total falls short of the "Projection acquisition" row by exactly the counts of the
    longer categories, such as "acquire:projection+pair". *)
Theorem projection_pairs_left_out labels tagged grouped :
  group_counts tagged = Ok grouped →
  dtotal (dcells (lit "Projection acquisition") grouped) =
  (dtotal (concentration_counts tagged labels).1
   + sum_tagged (λ k, startswith (lit "acquire:projection") k.2
                      && negb (bool_decide (k.2 = lit "acquire:projection"))) tagged)%Z.
Proof.
  intros H. rewrite (group_totals _ _ _ H), concentration_projection.
  clear H grouped. induction tagged as [|[[[[kind direction] f] category] n] tagged IH]; [done|].
  change (sum_tagged ?P ((?k, n) :: tagged)) with ((if P k then n else 0) + sum_tagged P tagged)%Z.
  rewrite IH. cbn [snd]. unfold in_group. cbn [snd].
  assert (bool_decide (first_group RC_GROUPS category = Some (lit "Projection acquisition")) =
    startswith (lit "acquire:projection") category) as ->.
  { unfold RC_GROUPS. cbn [first_group existsb].
    destruct (startswith (lit "acquire:projection") category) eqn:E; cbn [orb].
    - by apply bool_decide_eq_true_2.
    - apply bool_decide_eq_false_2. repeat case_match; discriminate. }
  case_bool_decide as Hc; [|destruct (startswith _ _); cbn; lia].
  subst category. change (startswith (lit "acquire:projection") (lit "acquire:projection")) with true.
  cbn. lia.
Qed.

Lemma projection_pairs_left_out_witness :
  ∃ grouped, group_counts tagged_rows_sample = Ok grouped ∧
    dtotal (dcells (lit "Projection acquisition") grouped) = 2%Z ∧
    dtotal (concentration_counts tagged_rows_sample ∅).1 = 0%Z.
Proof.
  assert (is_ok (group_counts tagged_rows_sample) = true) as Hok by (vm_compute; reflexivity).
  destruct (is_ok_Ok _ Hok) as [grouped H]. exists grouped. split; [exact H|].
  split; [|vm_compute; reflexivity].
  rewrite (projection_pairs_left_out ∅ tagged_rows_sample grouped H). vm_compute. reflexivity.
Defined.
