(* ===== verification/ReportCopies.v ===== *)
(** blorp/scripts/attribution/report.py, the stage [copies]: the rows of the instrumented
    helpers located by the symbolizer, and the tables by path, function and statement. *)
From S2P Require Import Prelude PyStr Rows PyFormat PyDict PyFloat Regex AllocationSites Report.

Definition COPY_TARGETS : list str :=
  map lit ["emit.append_input_owners"; "emit.append_join"; "emit.append_selection";
           "emit.append_selection_body"; "emit.append_loop"; "emit.append_loop_exit"; "emit.emit";
           "text.concat"]%string.
Definition NAMED_ROWS_PER_FUNCTION : nat := 6.

(** [s.replace(old, new)] *)
Definition replace_all (old new s : str) : str := join new (split_on old s).

(** * The symbolizer *)

(** [:(\d+)\)?\s*$] *)
Definition line_location : regex :=
  rseq [rlit ":"; RGroup 1 (RPlus Rd); ROpt (rlit ")"); RStar true Rs; RAssert TextEnd].

(** The function and the line of one answer. *)
Definition locate (answer : list str) : result (str * Z) :=
  last_line ← or_raise IndexError (last answer);
  match search line_location last_line with
  | None => fail (lit "no line number in symbolizer output: " ++ last_line)
  | Some located =>
      name ← function_name answer;
      line ← int (group located 1);
      Ok (name, line)
  end.

Definition locate_batch (lines : list str) (per_address : nat) (places : gmap Z (str * Z))
    (indexed : nat * Z) : result (gmap Z (str * Z)) :=
  let '(index, offset) := indexed in
  place ← locate (slice (index * per_address) ((index + 1) * per_address) lines);
  Ok (<[offset := place]> places).

(** One row of prof.tsv. *)
Record copy_row := CopyRow { kind : str; address : Z; hits : Z; units : Z }.

(** The key of a site: label, kind and line; its cells: calls and units. *)
Abbreviation site_key := (str * str * Z)%type.
Abbreviation copy_cells := (Z * Z)%type.

(** [cells[key][0] += hits; cells[key][1] += units] on a [defaultdict(lambda: [0, 0])]. *)
Definition add_copies {K} `{EqDecision K} (key : K) (c : copy_cells) :
    list (K * copy_cells) → list (K * copy_cells) :=
  dupd key (λ v, let v := default (0, 0)%Z v in (v.1 + c.1, v.2 + c.2)%Z).

(** One line of prof.tsv: the rows and the load address so far. *)
Definition read_row (st : list copy_row * option Z) (line : str) :
    result (list copy_row * option Z) :=
  if startswith (lit "#load") line then
    field ← or_raise IndexError (split_ws line !! 1);
    load ← parse_int 16 field;
    Ok (st.1, Some load)
  else if negb (bool_decide (line = [])) && negb (startswith (lit "#") line) then
    match split_ws line with
    | [kind; address; hits; units] =>
        address ← parse_int 16 address;
        hits ← int hits;
        units ← int units;
        Ok (st.1 ++ [CopyRow kind address hits units], st.2)
    | _ => Raise ValueError
    end
  else Ok st.

(** A borrowed helper that a take_left helper calls is counted there. *)
Definition is_fallback_copy (row : copy_row) (function : str) : bool :=
  endswith (lit "borrowed") (kind row) && contains (lit "take_left") function.

Definition add_row (labels : gmap str str) (places : gmap Z (str * Z)) (load : Z)
    (sites : list (site_key * copy_cells)) (row : copy_row) :
    result (list (site_key * copy_cells)) :=
  '(function, line) ← or_raise KeyError (places !! (address row - load)%Z);
  if is_fallback_copy row function then Ok sites
  else Ok (add_copies (default function (labels !! function), kind row, line) (hits row, units row)
             sites).

Section environment.

Context (which : str → bool) (run_command : list str → option completed) (os_error : str → str).

Definition locate_offsets_batch (binary : str) (places : gmap Z (str * Z)) (batch : list Z) :
    result (gmap Z (str * Z)) :=
  '(command, per_address) ← symbolizer_command which binary batch;
  run ← or_raise OSError (run_command command);
  let lines := splitlines (stdout run) in
  tool ← or_raise IndexError (command !! 0);
  if negb (returncode run =? 0)%Z || negb (length lines =? length batch * per_address) then
    fail (tool ++ lit " failed (" ++ dec (returncode run) ++ lit "): " ++ strip (stderr run))
  else foldM (locate_batch lines per_address) places (imap pair batch).

(** [symbolize]: (function, line) per offset. *)
Definition symbolize (binary : str) (offsets : gset Z) : result (gmap Z (str * Z)) :=
  foldM (locate_offsets_batch binary) ∅ (batches SYMBOLIZER_BATCH (ordered offsets)).

Definition read_copy_rows (files : gmap str str) (directory : str) :
    result (list (site_key * copy_cells)) :=
  labels ← function_labels files directory;
  text ← read os_error files (path_join directory (lit "copies/prof.tsv"));
  '(rows, load) ← foldM read_row ([], None) (splitlines text);
  match load with
  | None => fail (lit "prof.tsv has no #load line")
  | Some load =>
      places ← symbolize (path_join directory (lit "copies/binary"))
                 (list_to_set (map (λ row, address row - load)%Z rows));
      foldM (add_row labels places load) [] rows
  end.

(** * Tables *)

(** [sorted(items, key=lambda i: -i[1][1])]: more units first. *)
Definition by_units {K} (d : list (K * copy_cells)) : list (K * copy_cells) :=
  sort (λ a b, (b.2.2 <=? a.2.2)%Z) d.

Definition copies_of (k : str) (by_path : list (str * copy_cells)) : copy_cells :=
  default (0, 0)%Z (dget k by_path).

Definition add_by_path (d : list (str * copy_cells)) (site : site_key * copy_cells) :
    list (str * copy_cells) :=
  add_copies site.1.1.2 site.2 d.
Definition add_by_function (d : list ((str * str) * copy_cells)) (site : site_key * copy_cells) :
    list ((str * str) * copy_cells) :=
  add_copies (site.1.1.2, site.1.1.1) site.2 d.

(** The statement of a row, cut at 100 characters. *)
Definition statement_text (statements : list str) (line : Z) : str :=
  let statement :=
    if (0 <? line)%Z && (line <=? Z.of_nat (length statements))%Z
    then strip (default [] (statements !! Z.to_nat (line - 1))) else [] in
  if length statement <=? 100 then statement else take 97 statement ++ lit "...".

Definition statement_rows (sites : list (site_key * copy_cells)) (statements : list str) :
    list (list str) :=
  map (λ site,
    let '((label, kind, line), (hits, units)) := site in
    [kind; label; dec line; number hits; number units;
     lit "`" ++ replace_all (lit "|") (lit "\|") (statement_text statements line) ++ lit "`"]) sites.

Definition copying (kind : str) : bool := negb (endswith (lit "unique") kind).

Definition named_rows (by_function : list ((str * str) * copy_cells)) (name : str) :
    list (list str) :=
  map (λ row, [name; row.1.1; number row.2.1; number row.2.2])
    (List.filter (λ row, bool_decide (row.1.2 = name) && copying row.1.1)
       (sort (λ a b, pair_leb a.1 b.1) by_function)).

Definition chosen_sites (sites : list (site_key * copy_cells)) (name : str) :
    list (site_key * copy_cells) :=
  take NAMED_ROWS_PER_FUNCTION
    (by_units (List.filter (λ site, bool_decide (site.1.1.1 = name)) sites)).

Definition named_sites (sites : list (site_key * copy_cells))
    (by_function : list ((str * str) * copy_cells)) (statements : list str) : str :=
  join [newline]
    [lit "### Named functions: copying paths" ++ [newline];
     table (map lit ["Function"; "Path"; "Calls"; "Copied"]%string)
       (COPY_TARGETS ≫= named_rows by_function) (lit "llrr");
     lit "### Named functions: every path at their busiest statements (up to "
     ++ decn NAMED_ROWS_PER_FUNCTION ++ lit " per function)" ++ [newline];
     table (map lit ["Path"; "Function"; "statements.c line"; "Calls"; "Units"; "Statement"]%string)
       (statement_rows (COPY_TARGETS ≫= chosen_sites sites) statements) (lit "llrrrl")].

Definition borrowed_names : list (str * str * str) :=
  [(lit "list_borrowed", lit "List borrowed update", lit "slots");
   (lit "list_fallback", lit "List shared fallback", lit "slots");
   (lit "string_borrowed", lit "String borrowed update", lit "bytes");
   (lit "string_fallback", lit "String shared fallback", lit "bytes")].
Definition unique_names : list (str * str) :=
  [(lit "list_unique", lit "List in place"); (lit "string_unique", lit "String in place")].

Definition borrowed_rows (by_path : list (str * copy_cells)) : list (list str) :=
  map (λ n, let '(k, label, unit_) := n in
            [label; number (copies_of k by_path).1;
             number (copies_of k by_path).2 ++ lit " " ++ unit_]) borrowed_names.
Definition unique_rows (by_path : list (str * copy_cells)) : list (list str) :=
  map (λ n, [n.2; number (copies_of n.1 by_path).1; number (copies_of n.1 by_path).2])
    unique_names.

Definition copies (files : gmap str str) (directory : str) (top : Z) : result str :=
  sites ← read_copy_rows files directory;
  text ← read os_error files (path_join directory (lit "copies/statements.c"));
  let statements := split_on [newline] text in
  let by_path := foldl add_by_path [] sites in
  let by_function := foldl add_by_function [] sites in
  Ok (join [newline]
    [lit "### Copies by path" ++ [newline];
     table (map lit ["Path"; "Calls"; "Copied"]%string) (borrowed_rows by_path) (lit "lrr");
     table (map lit ["Path"; "Calls"; "Length the copy would have cost"]%string)
       (unique_rows by_path) (lit "lrr");
     lit "### Copies by function (borrowed update and shared fallback; top " ++ dec top
     ++ lit " by units)" ++ [newline];
     table (map lit ["Path"; "Function"; "Calls"; "Copied"]%string)
       (map (λ row, [row.1.1; row.1.2; number row.2.1; number row.2.2])
          (take_limit top (by_units (List.filter (λ row, copying row.1.1) by_function))))
       (lit "llrr");
     named_sites sites by_function statements;
     lit "### Copy sites (borrowed update and shared fallback; top " ++ dec top
     ++ lit " statements by units)" ++ [newline];
     table (map lit ["Path"; "Function"; "statements.c line"; "Calls"; "Copied"; "Statement"]%string)
       (statement_rows
          (take_limit top (by_units (List.filter (λ site, copying site.1.1.2) sites))) statements)
       (lit "llrrrl")]).

End environment.

(** * What the instrumented program writes *)

(** The kinds of the counters, as the C prelude of instrument_copies.py names them. *)
Definition prof_kind_names : list str :=
  map lit ["list_fallback"; "list_unique"; "string_fallback"; "string_unique"; "list_borrowed";
           "string_borrowed"]%string.

(** The lines of prof.tsv: the load address of the binary, then one row per call site. *)
Inductive prof_item := Load (load : Z) | Row (row : copy_row).

Definition item_words (i : prof_item) : list str :=
  match i with
  | Load load => [lit "#load"; hex load]
  | Row row => [kind row; hex (address row); dec (hits row); dec (units row)]
  end.
Definition item_line (i : prof_item) : str := join [tab] (item_words i).
Definition prof_text (load : Z) (rows : list copy_row) : str :=
  lines_of item_line (Load load :: map Row rows).

Definition row_ok (row : copy_row) : Prop :=
  kind row ∈ prof_kind_names ∧ (0 ≤ address row)%Z ∧ (0 ≤ hits row)%Z ∧ (0 ≤ units row)%Z.

Lemma prof_kind_word k : k ∈ prof_kind_names → k ≠ [] ∧ no_space k ∧ startswith (lit "#") k = false.
Proof.
  unfold prof_kind_names. cbn [map]. intros H.
  repeat (apply elem_of_cons in H as [->|H]; [done|]). by apply elem_of_nil in H.
Qed.

Definition item_ok (i : prof_item) : Prop :=
  match i with Load load => (0 ≤ load)%Z | Row row => row_ok row end.

Lemma item_words_ok i : item_ok i → Forall word_ok (item_words i).
Proof.
  destruct i as [load|row]; cbn.
  - intros Hl. apply Forall_cons_2; [done|]. apply Forall_cons_2; [by apply hex_field|apply Forall_nil_2].
  - intros (Hk & Ha & Hh & Hu). destruct (prof_kind_word _ Hk) as (? & ? & _).
    repeat (apply Forall_cons_2; [first [done|by apply hex_field|by apply dec_field]|]).
    apply Forall_nil_2.
Qed.

(** What a line makes of the rows and the load address read so far. *)
Definition add_item (st : list copy_row * option Z) (i : prof_item) : list copy_row * option Z :=
  match i with Load load => (st.1, Some load) | Row row => (st.1 ++ [row], st.2) end.

(** A line of a row is not taken for a comment. *)
Lemma row_line_not_hash row p : row_ok row → startswith (lit "#" ++ p) (item_line (Row row)) = false.
Proof.
  intros (Hk & _). destruct (prof_kind_word _ Hk) as (Hne & _ & Hhash). unfold item_line. cbn [item_words].
  destruct (kind row) as [|c k]; [done|].
  change (lit "#" ++ p) with ("#"%char :: p). revert Hhash. change (lit "#") with ["#"%char].
  change (join [tab] ((c :: k) :: ?l)) with (c :: k ++ [tab] ++ join [tab] l).
  cbn [startswith]. by destruct (Ascii.eqb "#" c).
Qed.

#[export] Program Instance prof_reader : LineReader read_row item_line := {|
  line_ok := item_ok;
  line_update := add_item;
|}.
Next Obligation. intros i Hi. by apply words_one_line, item_words_ok. Qed.
Next Obligation.
  intros st [load|row] Hi; pose proof (item_words_ok _ Hi) as Hw; unfold read_row.
  - change (startswith (lit "#load") (item_line (Load load))) with true. cbv iota.
    unfold item_line. rewrite split_ws_join_by by done. cbn [item_words].
    cbn [lookup list_lookup or_raise mbind result_bind]. by rewrite parse_int_hex.
  - change (lit "#load") with (lit "#" ++ lit "load").
    rewrite (row_line_not_hash row (lit "load")) by done.
    change (lit "#") with (lit "#" ++ []) at 1. rewrite (row_line_not_hash row []) by done.
    unfold item_line. rewrite split_ws_join_by by done. cbn [item_words].
    destruct Hi as (Hk & Ha & Hh & Hu). cbn [negb andb].
    rewrite bool_decide_false by (by destruct (kind row)). cbn [negb andb].
    rewrite parse_int_hex by done. cbn [mbind result_bind]. rewrite !int_dec by done.
    cbn [mbind result_bind]. by destruct row.
Qed.

Lemma add_items rows st : foldl add_item st (map Row rows) = (st.1 ++ rows, st.2).
Proof.
  revert st. induction rows as [|row rows IH]; intros st; cbn.
  { by rewrite app_nil_r; destruct st. }
  rewrite IH. cbn. by rewrite <- (assoc_L (++)).
Qed.

Lemma read_prof_text load rows :
  (0 ≤ load)%Z → Forall row_ok rows →
  foldM read_row ([], None) (splitlines (prof_text load rows)) = Ok (rows, Some load).
Proof.
  intros Hl Hrows. unfold prof_text. rewrite (read_lines_of read_row item_line).
  - cbn [foldl line_update prof_reader]. by rewrite add_items.
  - apply Forall_cons_2; [done|]. by apply Forall_fmap.
Qed.

(** * Sums *)

Inductive copy_measure := Calls | Units.
Definition measured (m : copy_measure) (c : copy_cells) : Z :=
  match m with Calls => c.1 | Units => c.2 end.
Definition row_cells (row : copy_row) : copy_cells := (hits row, units row).

(** What the rows that pass a test add up to. *)
Definition sum_rows (m : copy_measure) (P : copy_row → bool) (rows : list copy_row) : Z :=
  foldr (λ row z, (if P row then measured m (row_cells row) else 0) + z)%Z 0%Z rows.

Lemma sum_rows_snoc m P rows row :
  sum_rows m P (rows ++ [row]) =
  (sum_rows m P rows + if P row then measured m (row_cells row) else 0)%Z.
Proof. unfold sum_rows. induction rows as [|x rows IH]; cbn; [|rewrite IH]; lia. Qed.

Lemma add_copies_sum {K} `{EqDecision K} P m (key : K) c d :
  dsum_if P (measured m) (add_copies key c d) =
  (dsum_if P (measured m) d + if P key then measured m c else 0)%Z.
Proof.
  unfold add_copies. apply dsum_if_dupd; [|by destruct m].
  intros v. by destruct m.
Qed.

(** Adding up the cells [c x] of the elements [x] of a list under the keys [g x]. *)
Lemma copies_sum {X L} `{EqDecision L} (g : X → L) (c : X → copy_cells) P m (l : list X) d :
  dsum_if P (measured m) (foldl (λ d x, add_copies (g x) (c x) d) d l) =
  (dsum_if P (measured m) d + foldr (λ x z, (if P (g x) then measured m (c x) else 0) + z) 0 l)%Z.
Proof.
  revert d. induction l as [|x l IH]; intros d; cbn [foldl foldr]; [lia|].
  rewrite IH, add_copies_sum. lia.
Qed.

Lemma copies_nodup {X L} `{EqDecision L} (g : X → L) (c : X → copy_cells) (l : list X) d :
  NoDup d.*1 → NoDup (foldl (λ d x, add_copies (g x) (c x) d) d l).*1.
Proof. revert d. induction l; intros d Hd; [done|]. apply IHl. by apply dupd_nodup. Qed.

(** Grouping the sites by a part [g] of their key: the cell of one group. *)
Lemma regroup_cell {K L} `{EqDecision L} (g : K → L) m (sites : list (K * copy_cells)) l :
  default 0%Z (measured m <$> dget l (foldl (λ d site, add_copies (g site.1) site.2 d) [] sites)) =
  dsum_if (λ k, bool_decide (g k = l)) (measured m) sites.
Proof.
  rewrite <- dsum_if_key by (apply (copies_nodup (λ site : K * _, g site.1) snd), NoDup_nil_2).
  rewrite (copies_sum (λ site : K * _, g site.1) snd). cbn [dsum_if foldr].
  induction sites as [|[k c] sites IH]; [done|]. rewrite dsum_if_cons, <- IH. cbn [foldr fst snd]. lia.
Qed.

Section located.

(** Where the answers of the tool put each row. *)
Context (labels : gmap str str) (answer : Z → list str) (load : Z).

Definition place_of (row : copy_row) : str * Z :=
  match locate (answer (address row - load)) with Ok place => place | Raise _ => ([], 0%Z) end.
Definition counted (row : copy_row) : bool := negb (is_fallback_copy row (place_of row).1).
Definition key_of (row : copy_row) : site_key :=
  (default (place_of row).1 (labels !! (place_of row).1), kind row, (place_of row).2).

(** The sites hold each counted row once. *)
Record sites_of (rows : list copy_row) (sites : list (site_key * copy_cells)) : Prop := {
  so_keys : NoDup sites.*1;
  so_sum : ∀ P m, dsum_if P (measured m) sites = sum_rows m (λ row, counted row && P (key_of row)) rows;
}.

Lemma add_row_sites places pre sites row :
  locate (answer (address row - load)) = Ok (place_of row) →
  places !! (address row - load)%Z = Some (place_of row) → sites_of pre sites →
  ∃ sites', add_row labels places load sites row = Ok sites' ∧ sites_of (pre ++ [row]) sites'.
Proof.
  intros Hl Hp [Hk Hs]. unfold add_row. rewrite Hp. cbn [or_raise mbind result_bind].
  destruct (place_of row) as [function line] eqn:E.
  assert (counted row = negb (is_fallback_copy row function)) as Hc by (unfold counted; by rewrite E).
  destruct (is_fallback_copy row function) eqn:Ef; (eexists; split; [reflexivity|]); constructor.
  - done.
  - intros P m. rewrite sum_rows_snoc, Hc, Hs. cbn. lia.
  - by apply dupd_nodup.
  - intros P m. rewrite sum_rows_snoc, Hc, add_copies_sum, Hs. unfold key_of. by rewrite E.
Qed.

Lemma add_rows_sites places rows :
  (∀ row, row ∈ rows → locate (answer (address row - load)) = Ok (place_of row)) →
  (∀ row, row ∈ rows → places !! (address row - load)%Z = Some (place_of row)) →
  ∃ sites, foldM (add_row labels places load) [] rows = Ok sites ∧ sites_of rows sites.
Proof.
  intros Hl Hp. apply (foldM_total _ (λ pre sites, sites_of pre sites)).
  - intros pre row suf sites Heq Hs. apply add_row_sites; [apply Hl|apply Hp|done]; set_solver.
  - constructor; [constructor|done].
Qed.

End located.

(** The tables by path and by function, as the source builds them. *)
Lemma by_path_sum m k (sites : list (site_key * copy_cells)) :
  measured m (copies_of k (foldl add_by_path [] sites)) =
  dsum_if (λ key, bool_decide (key.1.2 = k)) (measured m) sites.
Proof.
  rewrite <- (regroup_cell (λ key : site_key, key.1.2) m sites k).
  change (foldl add_by_path) with
    (foldl (λ d (site : site_key * copy_cells), add_copies site.1.1.2 site.2 d)).
  unfold copies_of. cbn beta. destruct (dget k _); by destruct m.
Qed.

Lemma by_function_sum m kind label (sites : list (site_key * copy_cells)) :
  default 0%Z (measured m <$> dget (kind, label) (foldl add_by_function [] sites)) =
  dsum_if (λ key, bool_decide ((key.1.2, key.1.1) = (kind, label))) (measured m) sites.
Proof. apply (regroup_cell (λ key : site_key, (key.1.2, key.1.1))). Qed.

(** * The rows are located *)

Section environment.

Context (which : str → bool) (run_command : list str → option completed) (os_error : str → str).

Lemma symbolize_located binary answer offsets :
  which (lit "atos") = true ∨ which (lit "addr2line") = true →
  tool_answers which run_command binary answer →
  (∀ a, a ∈ offsets → is_ok (locate (answer a)) = true) →
  ∃ places, symbolize which run_command binary offsets = Ok places ∧
    named locate answer (ordered offsets) places.
Proof.
  intros Hwhich Htool Hok. unfold symbolize.
  apply batches_loop; [by vm_compute; lia|]. intros pre batch names0 Hsub Hn0.
  destruct (symbolizer_command_ok which binary batch Hwhich) as (tool & command & per & Hc & Hper).
  destruct (Htool batch _ _ Hc) as (Hlen & run & Hrun & Hcode & Hout).
  unfold locate_offsets_batch. rewrite Hc. cbn [mbind result_bind].
  rewrite Hrun. cbn [or_raise mbind result_bind lookup list_lookup].
  rewrite Hcode, Hout, (length_answers answer batch per), Nat.eqb_refl by done. cbn [Z.eqb negb orb].
  apply (answers_loop locate answer _ per); [done| |done].
  intros a Ha. split; [by apply Hlen|]. by apply Hok, elem_of_ordered, Hsub.
Qed.

Lemma read_copy_rows_sites files directory answer load rows labels :
  function_labels files directory = Ok labels →
  files !! path_join directory (lit "copies/prof.tsv") = Some (prof_text load rows) →
  (0 ≤ load)%Z → Forall row_ok rows →
  which (lit "atos") = true ∨ which (lit "addr2line") = true →
  tool_answers which run_command (path_join directory (lit "copies/binary")) answer →
  (∀ row, row ∈ rows → is_ok (locate (answer (address row - load)%Z)) = true) →
  ∃ sites, read_copy_rows which run_command os_error files directory = Ok sites ∧
    sites_of labels answer load rows sites.
Proof.
  intros Hlabels Hf Hload Hrows Hw Ht Hok. unfold read_copy_rows, read.
  rewrite Hlabels. cbn [mbind result_bind]. rewrite Hf. cbn [mbind result_bind].
  rewrite read_prof_text by done. cbn [mbind result_bind].
  set (offsets := list_to_set _ : gset Z).
  destruct (symbolize_located (path_join directory (lit "copies/binary")) answer offsets)
    as (places & -> & Hn); [done..| |].
  { intros a Ha. subst offsets. apply elem_of_list_to_set, list_elem_of_fmap in Ha as (row & -> & Hr).
    by apply Hok. }
  cbn [mbind result_bind]. apply add_rows_sites.
  - intros row Hr. unfold place_of. by destruct (is_ok_Ok _ (Hok row Hr)) as [place ->].
  - intros row Hr. destruct (Hn (address row - load)%Z) as [H _].
    destruct H as (place & Hp & Hloc).
    + apply elem_of_ordered, elem_of_list_to_set, list_elem_of_fmap. by exists row.
    + rewrite Hp. unfold place_of. by rewrite Hloc.
Qed.

End environment.

(** * Properties *)

(** C23: On a profile that the instrumented program wrote, with a tool that locates every
    address, [read_copy_rows] succeeds and the tables count each row exactly once, at its
    function's label, kind and line, except the borrowed rows inside a take_left helper,
    which are counted nowhere: the calls and the units of each site, of each path and of each
    function are the sums over the rows they stand for. *)
Theorem copies_counted_once which run_command os_error files directory (answer : Z → list str)
    load rows labels :
  function_labels files directory = Ok labels →
  files !! path_join directory (lit "copies/prof.tsv") = Some (prof_text load rows) →
  (0 ≤ load)%Z → Forall row_ok rows →
  which (lit "atos") = true ∨ which (lit "addr2line") = true →
  tool_answers which run_command (path_join directory (lit "copies/binary")) answer →
  (∀ row, row ∈ rows → is_ok (locate (answer (address row - load)%Z)) = true) →
  let sum m P := sum_rows m (λ row, counted answer load row && P (key_of labels answer load row)) rows in
  ∃ sites, read_copy_rows which run_command os_error files directory = Ok sites ∧
    NoDup sites.*1 ∧
    (∀ m key, default 0%Z (measured m <$> dget key sites) = sum m (λ k, bool_decide (k = key))) ∧
    (∀ m path, measured m (copies_of path (foldl add_by_path [] sites)) =
               sum m (λ k, bool_decide (k.1.2 = path))) ∧
    (∀ m path label, default 0%Z (measured m <$> dget (path, label) (foldl add_by_function [] sites)) =
                     sum m (λ k, bool_decide ((k.1.2, k.1.1) = (path, label)))).
Proof.
  intros Hlabels Hf Hload Hrows Hw Ht Hok sum.
  destruct (read_copy_rows_sites which run_command os_error files directory answer load rows labels)
    as (sites & Hs & [Hk Hsum]); [done..|].
  exists sites. split_and!; [done|done|..].
  - intros m key. by rewrite <- dsum_if_key, Hsum.
  - intros m path. by rewrite by_path_sum, Hsum.
  - intros m path label. by rewrite by_function_sum, Hsum.
Qed.

(** A tool that puts every address on line 12 of a take_left helper. *)
Definition take_left_answer : str := lit "list_take_left_3 (in self) (self.c:12)".
Definition take_left_tool (command : list str) : option completed :=
  Some (Completed 0 (concat (map (λ _, take_left_answer ++ [newline]) (drop 5 command))) []).

Definition copy_rows_sample : list copy_row :=
  [CopyRow (lit "list_fallback") 300 2 50; CopyRow (lit "list_borrowed") 301 1 7;
   CopyRow (lit "list_fallback") 302 1 4].
Definition copy_files_sample : gmap str str :=
  {[lit "d/self.c" := []; lit "d/copies/prof.tsv" := prof_text 256 copy_rows_sample]}.

Lemma copies_counted_once_witness :
  ∃ sites, read_copy_rows (λ _, true) take_left_tool (λ p, p) copy_files_sample (lit "d") = Ok sites ∧
    copies_of (lit "list_fallback") (foldl add_by_path [] sites) = (3, 54)%Z ∧
    copies_of (lit "list_borrowed") (foldl add_by_path [] sites) = (0, 0)%Z.
Proof.
  destruct (copies_counted_once (λ _, true) take_left_tool (λ p, p) copy_files_sample (lit "d")
    (λ _, [take_left_answer]) 256 copy_rows_sample ∅) as (sites & H1 & _ & _ & H2 & _).
  - vm_compute. reflexivity.
  - vm_compute. reflexivity.
  - lia.
  - repeat (apply Forall_cons_2; [split_and!; [vm_compute; set_solver|cbn; lia..]|]). apply Forall_nil_2.
  - left. reflexivity.
  - intros batch command per Hc. injection Hc as <- <-. split; [reflexivity|].
    eexists. split; [reflexivity|]. split; [reflexivity|]. cbn [stdout drop].
    induction batch as [|a batch IH]; [reflexivity|].
    change (splitlines (take_left_answer ++ [newline] ++
      concat (map (λ _, take_left_answer ++ [newline])
        (map (λ address : Z, hex (ATOS_LOAD_ADDRESS + address - 1)) batch))) =
      take_left_answer :: concat ((λ _ : Z, [take_left_answer]) <$> batch)).
    rewrite <- IH. reflexivity.
  - intros row _. vm_compute. reflexivity.
  - exists sites. split; [exact H1|].
    pose proof (H2 Calls (lit "list_fallback")) as Hc. pose proof (H2 Units (lit "list_fallback")) as Hu.
    pose proof (H2 Calls (lit "list_borrowed")) as Hc'. pose proof (H2 Units (lit "list_borrowed")) as Hu'.
    destruct (copies_of (lit "list_fallback") _) as [a b], (copies_of (lit "list_borrowed") _) as [c d].
    vm_compute in Hc, Hu, Hc', Hu'. subst. split; reflexivity.
Defined.
