(* ===== verification/ReportAllocations.v ===== *)
(** blorp/scripts/attribution/report.py, the stage [allocations]: the table that
    allocation-sites printed, read back and grouped by data kind and by helper. *)
From S2P Require Import Prelude PyStr Rows PyFormat PyDict PyFloat Regex AllocationSites Report.
From S2P Require Import ReportCopies.

Definition ALLOCATION_KINDS : list (str * regex) :=
  [(lit "record", rlit "blorp_record_make_");
   (lit "boxed union", rlit "blorp_union_make_");
   (lit "List", rlit "blorp_list_");
   (lit "String",
    rlits ["blorp_string_"; "blorp_int_to_string"; "blorp_float_"; "blorp_fs_read_text"]%string)].

Definition is_digit_or_point (c : ascii) : bool := is_digit c || Ascii.eqb c ".".

(** One row of a table: count, share, bytes, resizes and the label up to the end. *)
Definition SITE_LINE : regex :=
  rseq [RStar true Rs; RGroup 1 (RPlus Rd); RPlus Rs; RGroup 2 (RPlus (RClass is_digit_or_point));
        rlit "%"; RPlus Rs; RGroup 3 (RPlus Rd); RPlus Rs; RGroup 4 (RPlus Rd); RPlus Rs;
        RGroup 5 (RStar true (RClass not_newline)); RAssert TextEnd].

(** [total: (\d+) allocations, (\d+) bytes requested, (\d+) resizes] *)
Definition total_line : regex :=
  rseq [rlit "total: "; RGroup 1 (RPlus Rd); rlit " allocations, "; RGroup 2 (RPlus Rd);
        rlit " bytes requested, "; RGroup 3 (RPlus Rd); rlit " resizes"].

(** [ \(blorp_f_\d+\)$] *)
Definition function_suffix : regex := rseq [rlit " (blorp_f_"; RPlus Rd; rlit ")"; RAssert TextEnd].

Definition HELPER_TABLE : str := lit "By site and immediate helper".

#[global] Arguments SITE_LINE : simpl never.
#[global] Arguments total_line : simpl never.
#[global] Arguments HELPER_TABLE : simpl never.

Fixpoint first_kind (kinds : list (str * regex)) (helper : str) : option str :=
  match kinds with
  | [] => None
  | (kind, pattern) :: kinds =>
      match match_start pattern helper with
      | Some _ => Some kind
      | None => first_kind kinds helper
      end
  end.

Definition allocation_kind (helper : str) : str :=
  if decide (helper = lit "(direct)") then lit "List (literal built inline)"
  else match first_kind ALLOCATION_KINDS helper with
       | Some kind => kind
       | None => lit "other runtime (" ++ sub (RPlus Rd) (λ _, lit "N") helper ++ lit ")"
       end.

(** Function, helper and kind. *)
Abbreviation pair_key := (str * str * str)%type.
Abbreviation allocation_counts := (list (str * copy_cells) * list (pair_key * copy_cells))%type.

Definition add_allocation (d : allocation_counts) (line : str) : result allocation_counts :=
  match match_start SITE_LINE line with
  | None => Ok d
  | Some found =>
      count ← int (group found 1);
      size ← int (group found 3);
      let '(function, helper) := partition_on (lit " <- ") (group found 5) in
      let function := sub function_suffix (λ _, []) function in
      let kind := allocation_kind helper in
      Ok (add_copies kind (count, size) d.1,
          add_copies (function, helper, kind) (count, size) d.2)
  end.

(** The totals of the first line and the counts of the second table. *)
Definition read_allocations (text : str) : result (Z * Z * allocation_counts) :=
  match search total_line text with
  | None => fail (lit "sites.txt has no total line")
  | Some header =>
      total ← int (group header 1);
      total_bytes ← int (group header 2);
      match split_first HELPER_TABLE text with
      | None => fail (lit "sites.txt has no 'By site and immediate helper' table")
      | Some (_, section) =>
          counts ← foldM add_allocation ([], []) (splitlines section);
          Ok (total, total_bytes, counts)
      end
  end.

(** [sorted(items, key=lambda item: -item[1][0])] *)
Definition by_calls {K} (d : list (K * copy_cells)) : list (K * copy_cells) :=
  sort (λ a b, (b.2.1 <=? a.2.1)%Z) d.

Definition kind_share_row (total : Z) (row : str * copy_cells) : list str :=
  [row.1; number row.2.1; percent row.2.1 total; number row.2.2].

Definition pair_share_row (total : Z) (row : pair_key * copy_cells) : list str :=
  let '((f, h, k), v) := row in [f; h; k; number v.1; percent v.1 total; number v.2].

(** The text of the section. *)
Definition allocation_section (top total total_bytes : Z) (counts : allocation_counts) : str :=
  let '(by_kind, pairs) := counts in
  join [newline]
    [lit "### Allocations by data kind" ++ [newline];
     lit "Total " ++ number total ++ lit " allocations, " ++ number total_bytes
     ++ lit " bytes requested." ++ [newline];
     table (map lit ["Kind"; "Allocations"; "Share"; "Bytes requested"]%string)
       (map (kind_share_row total) (by_calls by_kind)) (lit "lrrr");
     lit "### Top " ++ dec top ++ lit " allocation sites (function, immediate helper)" ++ [newline];
     table (map lit ["Function"; "Helper"; "Kind"; "Allocations"; "Share"; "Bytes requested"]%string)
       (map (pair_share_row total) (take_limit top (by_calls pairs))) (lit "lllrrr")].

Definition allocations (os_error : str → str) (files : gmap str str) (directory : str) (top : Z) :
    result str :=
  text ← read os_error files (path_join directory (lit "allocations/sites.txt"));
  '(total, total_bytes, counts) ← read_allocations text;
  Ok (allocation_section top total total_bytes counts).

(** * A printed row is read back *)

Definition spaces (n : nat) : str := repeat_text (lit " ") n.

Lemma spaces_space n : forallb is_space (spaces n) = true.
Proof. by induction n. Qed.

Lemma spaces_ne n : spaces (S n) ≠ [].
Proof. done. Qed.

Definition numeral (w : str) : Prop := w ≠ [] ∧ forallb is_digit w = true.

Lemma dec_numeral z : (0 ≤ z)%Z → numeral (dec z).
Proof.
  intros Hz. unfold dec. destruct (Z.ltb_spec z 0); [lia|].
  split; [apply digits_nonempty|by apply digits_all_digits].
Qed.

Lemma numeral_app_head f w rest c r :
  w ≠ [] → (∀ c, f c = true → is_space c = false) → forallb f w = true →
  w ++ rest = c :: r → is_space c = false.
Proof.
  intros Hne Hf Hw. destruct w as [|c' w]; [done|]. cbn in *. intros [= <- _].
  apply Hf. by apply andb_true_iff in Hw as [? _].
Qed.

Lemma digit_or_point_not_space c : is_digit_or_point c = true → is_space c = false.
Proof. by destruct c as [[] [] [] [] [] [] [] []]; vm_compute. Qed.

Lemma spaces_app_head (f : ascii → bool) n rest c r :
  f " "%char = false → spaces (S n) ++ rest = c :: r → f c = false.
Proof. intros Hf. cbn. by intros [= <- _]. Qed.

(** A text that a row can end with: one line that does not start with a space. *)
Definition label_ok (label : str) : Prop :=
  one_line label ∧ ∀ c r, label = c :: r → is_space c = false.

Lemma one_line_not_newline l : one_line l → forallb not_newline l = true.
Proof.
  unfold one_line. rewrite !forallb_forall. intros H c Hc%H. unfold not_newline.
  rewrite negb_true_iff in *. destruct (Ascii.eqb_spec c newline); [by subst|done].
Qed.

Lemma site_line_match_app a b c d e n1 pct n2 n3 label :
  numeral n1 → pct ≠ [] → forallb is_digit_or_point pct = true → numeral n2 → numeral n3 →
  label_ok label →
  ∃ m, match_start SITE_LINE
         (spaces a ++ n1 ++ spaces (S b) ++ pct ++ lit "%" ++ spaces (S c) ++ n2 ++ spaces (S d)
          ++ n3 ++ spaces (S e) ++ label ++ []) = Some m ∧
       group m 1 = n1 ∧ group m 3 = n2 ∧ group m 5 = label.
Proof.
  intros [Hn1 Hd1] Hp Hdp [Hn2 Hd2] [Hn3 Hd3] [Hl Hhd].
  eexists. split; [apply match_start_run; unfold SITE_LINE|].
  - rewrite run_rseq_cons. apply run_star_class_longest; [apply spaces_space| |].
    { intros ? ? H. by eapply numeral_app_head in H; [|done|apply digit_not_space|]. }
    rewrite run_rseq_cons. apply run_group_plus_longest; [done..| |].
    { intros ? ? H. by eapply spaces_app_head in H. }
    rewrite run_rseq_cons. apply run_plus_class_longest; [done|apply spaces_space| |].
    { intros ? ? H. by eapply numeral_app_head in H; [|done|apply digit_or_point_not_space|]. }
    rewrite run_rseq_cons. apply run_group_plus_longest; [done..| |].
    { by intros ? ? [= <- _]. }
    rewrite run_rseq_cons, run_rlit.
    rewrite run_rseq_cons. apply run_plus_class_longest; [done|apply spaces_space| |].
    { intros ? ? H. by eapply numeral_app_head in H; [|done|apply digit_not_space|]. }
    rewrite run_rseq_cons. apply run_group_plus_longest; [done..| |].
    { intros ? ? H. by eapply spaces_app_head in H. }
    rewrite run_rseq_cons. apply run_plus_class_longest; [done|apply spaces_space| |].
    { intros ? ? H. by eapply numeral_app_head in H; [|done|apply digit_not_space|]. }
    rewrite run_rseq_cons. apply run_group_plus_longest; [done..| |].
    { intros ? ? H. by eapply spaces_app_head in H. }
    rewrite run_rseq_cons. apply run_plus_class_longest; [done|apply spaces_space|rewrite app_nil_r; done|].
    rewrite run_rseq_cons. apply run_group_star_longest; [by apply one_line_not_newline|done|].
    reflexivity.
  - done.
Qed.

Lemma site_line_match a b c d e n1 pct n2 n3 label :
  numeral n1 → pct ≠ [] → forallb is_digit_or_point pct = true → numeral n2 → numeral n3 →
  label_ok label →
  ∃ m, match_start SITE_LINE
         (spaces a ++ n1 ++ spaces (S b) ++ pct ++ lit "%" ++ spaces (S c) ++ n2 ++ spaces (S d)
          ++ n3 ++ spaces (S e) ++ label) = Some m ∧
       group m 1 = n1 ∧ group m 3 = n2 ∧ group m 5 = label.
Proof.
  intros H1 H2 H3 H4 H5 H6.
  destruct (site_line_match_app a b c d e n1 pct n2 n3 label H1 H2 H3 H4 H5 H6) as (m & Hm & H).
  rewrite app_nil_r in Hm. by exists m.
Qed.

(** * The lines of a table *)

(** The share of a row is a finite number that is not negative, as for all counts a run can have. *)
Definition share_ok (count total : Z) : Prop :=
  match share count total with S754_zero false | S754_finite false _ _ => True | _ => False end.

Definition row_text (label : str) (total_count : Z) (c : cells) : str :=
  spaces (12 - length (dec c.1.1)) ++ dec c.1.1
  ++ spaces (S (5 - length (fixed 1 (share c.1.1 total_count)))) ++ fixed 1 (share c.1.1 total_count)
  ++ lit "%" ++ spaces (S (14 - length (dec c.1.2))) ++ dec c.1.2
  ++ spaces (S (10 - length (dec c.2))) ++ dec c.2 ++ spaces 2 ++ label.

Lemma table_row_text label total_count c :
  table_row label total_count c = row_text label total_count c ++ [newline].
Proof. unfold table_row, row_text, rjust, spaces. cbn [repeat_text]. by rewrite <- !(assoc_L (++)). Qed.

Lemma with_point_text k z :
  with_point k z ≠ [] ∧ ((0 ≤ z)%Z → forallb is_digit_or_point (with_point k z) = true).
Proof.
  assert (∀ w, forallb is_digit w = true → forallb is_digit_or_point w = true) as Hw.
  { intros w. rewrite !forallb_forall. intros H c Hc. unfold is_digit_or_point. by rewrite H. }
  unfold with_point. set (p := (10 ^ Z.of_nat k)%Z). assert (0 < p)%Z as Hp by (subst p; lia). split.
  - pose proof (digits_nonempty (z / p)) as H. by destruct (digits (z / p)).
  - intros Hz. rewrite forallb_app, Hw by (apply digits_all_digits, Z.div_pos; lia).
    destruct k; [done|]. cbn [forallb andb]. change (is_digit_or_point ".") with true.
    rewrite forallb_app, (Hw (digits (z mod p))) by (apply digits_all_digits, Z.mod_pos_bound; lia).
    rewrite andb_true_r, andb_true_l. clear. generalize (S k - length (digits (z mod p))).
    intros n. induction n; [done|]. done.
Qed.

Lemma scaled_nonneg k m e : (0 ≤ scaled k m e)%Z.
Proof.
  unfold scaled. destruct (Z.leb_spec 0 e); [nia|].
  assert (0 ≤ Z.pos m * 10 ^ Z.of_nat k)%Z as Hn by nia.
  assert (0 < 2 ^ (- e))%Z as Hd by lia. unfold round_half_even.
  pose proof (Z.div_pos _ _ Hn Hd). destruct (_ ?= _)%Z; [destruct (Z.even _)|..]; lia.
Qed.

(** The counts of a run that has fewer than 2^53 allocations have such shares. *)
Lemma share_ok_small count total_count :
  (0 <= count < 2 ^ 53)%Z → (total_count < 2 ^ 53)%Z → share_ok count total_count.
Proof.
  intros Hc Ht. unfold share_ok, share.
  pose proof (ratio_nonneg 100 count (Z.max total_count 1) ltac:(lia) Hc ltac:(lia)) as H.
  by destruct (fdiv _ _) as [[]|[]| |[] ? ?].
Qed.

Lemma share_text count total_count :
  share_ok count total_count →
  fixed 1 (share count total_count) ≠ [] ∧
  forallb is_digit_or_point (fixed 1 (share count total_count)) = true.
Proof.
  unfold share_ok. destruct (share count total_count) as [[]|[]| |[] m e]; try done; intros _.
  cbn [fixed app]. destruct (with_point_text 1 (scaled 1 m e)) as [? H]. split; [done|].
  apply H, scaled_nonneg.
Qed.

Definition cells_ok (c : cells) : Prop := (0 ≤ c.1.1)%Z ∧ (0 ≤ c.1.2)%Z ∧ (0 ≤ c.2)%Z.

Lemma row_text_match label total_count c :
  cells_ok c → share_ok c.1.1 total_count → label_ok label →
  ∃ m, match_start SITE_LINE (row_text label total_count c) = Some m ∧
       group m 1 = dec c.1.1 ∧ group m 3 = dec c.1.2 ∧ group m 5 = label.
Proof.
  intros (H1 & H2 & H3) [? ?]%share_text Hl.
  apply site_line_match; [by apply dec_numeral|done|done|by apply dec_numeral..|done].
Qed.

(** The label of a row of the second table. *)
Definition arrow_label (label helper : str) : str := label ++ lit " <- " ++ helper.

Lemma partition_arrow label helper :
  "<"%char ∉ label → partition_on (lit " <- ") (arrow_label label helper) = (label, helper).
Proof.
  intros Hl. unfold partition_on, arrow_label.
  assert (split_first (lit " <- ") (label ++ lit " <- " ++ helper) = Some (label, helper)) as ->; [|done].
  induction label as [|c label IH]; [done|]. cbn [app split_first].
  assert (startswith (lit " <- ") (c :: label ++ lit " <- " ++ helper) = false) as ->.
  { change (lit " <- ") with (" "%char :: "<"%char :: lit "- "). cbn [startswith app].
    destruct (Ascii.eqb " " c); [|done]. destruct label as [|d label]; cbn [app]; [done|].
    destruct (Ascii.eqb_spec "<" d); [set_solver|done]. }
  rewrite IH by set_solver. done.
Qed.

Definition site_label_ok (label : str) : Prop := label ≠ [] ∧ label_ok label ∧ "<"%char ∉ label.

Lemma arrow_label_ok label helper :
  site_label_ok label → one_line helper → label_ok (arrow_label label helper).
Proof.
  intros (Hne & [Hl Hhd] & _) Hh. split.
  - apply one_line_app; [done|]. by apply one_line_app.
  - intros c r. destruct label as [|d label]; [done|]. cbn. intros [= <- _]. by eapply Hhd.
Qed.

(** One row of the second table: its label, its helper and its cells. *)
Abbreviation helper_row := (str * str * cells)%type.

Definition helper_row_ok (total_count : Z) (row : helper_row) : Prop :=
  site_label_ok row.1.1 ∧ one_line row.1.2 ∧ cells_ok row.2 ∧ share_ok row.2.1.1 total_count.

Definition helper_row_text (total_count : Z) (row : helper_row) : str :=
  row_text (arrow_label row.1.1 row.1.2) total_count row.2.

Definition row_kind (row : helper_row) : str := allocation_kind row.1.2.
Definition row_pair (row : helper_row) : pair_key :=
  (sub function_suffix (λ _, []) row.1.1, row.1.2, row_kind row).
Definition row_copies (row : helper_row) : copy_cells := (row.2.1.1, row.2.1.2).

Lemma add_allocation_row total_count d row :
  helper_row_ok total_count row →
  add_allocation d (helper_row_text total_count row) =
  Ok (add_copies (row_kind row) (row_copies row) d.1, add_copies (row_pair row) (row_copies row) d.2).
Proof.
  intros (Hl & Hh & Hc & Hs). unfold add_allocation, helper_row_text.
  destruct (row_text_match (arrow_label row.1.1 row.1.2) total_count row.2) as (m & -> & -> & -> & ->);
    [done..|by apply arrow_label_ok|].
  destruct Hl as (_ & _ & Hl). destruct Hc as (H1 & H2 & _).
  rewrite !int_dec by done. cbn [mbind result_bind]. by rewrite partition_arrow.
Qed.

Lemma numeral_one_line w : forallb is_digit_or_point w = true → one_line w.
Proof.
  unfold one_line. rewrite !forallb_forall. intros H c Hc%H.
  destruct c as [[] [] [] [] [] [] [] []]; done || by vm_compute in Hc.
Qed.

Lemma digits_or_points w : forallb is_digit w = true → forallb is_digit_or_point w = true.
Proof.
  rewrite !forallb_forall. intros H c Hc. unfold is_digit_or_point. by rewrite H.
Qed.

Lemma row_text_one_line label total_count c :
  cells_ok c → share_ok c.1.1 total_count → one_line label → one_line (row_text label total_count c).
Proof.
  intros (H1 & H2 & H3) [_ Hs]%share_text Hl. unfold row_text.
  assert (∀ n, one_line (spaces n)) as Hsp by (intros n; by induction n).
  assert (∀ z, (0 ≤ z)%Z → one_line (dec z)) as Hd.
  { intros z Hz. by apply numeral_one_line, digits_or_points, dec_numeral. }
  repeat (apply one_line_app; [by auto using numeral_one_line|]). done.
Qed.

(** The lines of the second table: its rows, and what stands around them. *)
Inductive section_item := HelperRow (row : helper_row) | OtherLine (line : str).

Definition section_line (total_count : Z) (i : section_item) : str :=
  match i with HelperRow row => helper_row_text total_count row | OtherLine line => line end.

#[export] Program Instance section_reader total_count :
    LineReader add_allocation (section_line total_count) := {|
  line_ok i :=
    match i with
    | HelperRow row => helper_row_ok total_count row
    | OtherLine line => one_line line ∧ match_start SITE_LINE line = None
    end;
  line_update d i :=
    match i with
    | HelperRow row => (add_copies (row_kind row) (row_copies row) d.1,
                        add_copies (row_pair row) (row_copies row) d.2)
    | OtherLine _ => d
    end;
|}.
Next Obligation.
  intros tc [row|line] H; [|by destruct H]. destruct H as (Hl & Hh & Hc & Hs).
  apply row_text_one_line; [done..|]. by apply (arrow_label_ok row.1.1 row.1.2).
Qed.
Next Obligation.
  intros tc d [row|line] H; [by apply add_allocation_row|]. cbn. unfold add_allocation.
  by destruct H as [_ ->].
Qed.

Lemma section_updates total_count rows d :
  foldl (line_update (LineReader := section_reader total_count)) d (map HelperRow rows) =
  (foldl (λ d row, add_copies (row_kind row) (row_copies row) d) d.1 rows,
   foldl (λ d row, add_copies (row_pair row) (row_copies row) d) d.2 rows).
Proof.
  revert d. induction rows as [|row rows IH]; intros d; cbn [map foldl]; [by destruct d|].
  by rewrite IH.
Qed.

(** * The printed text *)

Lemma total_line_search a b c stacks rest :
  (0 ≤ a)%Z → (0 ≤ b)%Z → (0 ≤ c)%Z →
  ∃ m, search total_line
         (lit "total: " ++ dec a ++ lit " allocations, " ++ dec b ++ lit " bytes requested, "
          ++ dec c ++ lit " resizes, " ++ decn stacks ++ rest) = Some m ∧
       group m 1 = dec a ∧ group m 2 = dec b.
Proof.
  intros [Ha1 Ha2]%dec_numeral [Hb1 Hb2]%dec_numeral [Hc1 Hc2]%dec_numeral.
  eexists. split; [apply search_run; unfold total_line|].
  - rewrite run_rseq_cons, run_rlit.
    rewrite run_rseq_cons. apply run_group_plus_longest; [done..|by intros ? ? [= <- _]|].
    rewrite run_rseq_cons, run_rlit.
    rewrite run_rseq_cons. apply run_group_plus_longest; [done..|by intros ? ? [= <- _]|].
    rewrite run_rseq_cons, run_rlit.
    rewrite run_rseq_cons. apply run_group_plus_longest; [done..|by intros ? ? [= <- _]|].
    change (lit " resizes, ") with (lit " resizes" ++ lit ", "). rewrite <- (assoc_L (++)).
    rewrite run_rseq_cons, run_rlit. reflexivity.
  - done.
Qed.

Lemma numeral_no_B w : forallb is_digit_or_point w = true → "B"%char ∉ w.
Proof.
  rewrite forallb_forall. intros H Hin. apply list_elem_of_In, H in Hin. by vm_compute in Hin.
Qed.

Lemma dec_no_B z : (0 ≤ z)%Z → "B"%char ∉ dec z.
Proof. intros Hz. by apply numeral_no_B, digits_or_points, dec_numeral. Qed.

Lemma spaces_no_B n : "B"%char ∉ spaces n.
Proof. induction n as [|n IH]; [by intros ?%elem_of_nil|]. cbn. set_solver. Qed.

Lemma helper_table_skips w : "B"%char ∉ w → skips HELPER_TABLE w.
Proof. apply (skips_no_head "B" (lit "y site and immediate helper")). Qed.

Lemma helper_table_skips_line l : split_first HELPER_TABLE l = None → skips HELPER_TABLE (l ++ [newline]).
Proof. by apply skips_line; vm_compute; set_solver. Qed.

(** A row of the first table whose label does not hold the title of the second. *)
Lemma row_text_skips label total_count c :
  cells_ok c → share_ok c.1.1 total_count → split_first HELPER_TABLE label = None →
  skips HELPER_TABLE (row_text label total_count c ++ [newline]).
Proof.
  intros (H1 & H2 & H3) [_ Hs]%share_text Hl. unfold row_text. rewrite <- !(assoc_L (++)).
  repeat (apply skips_app; [apply helper_table_skips; first [apply spaces_no_B|by apply dec_no_B|
    by apply numeral_no_B|by vm_compute; set_solver]|]).
  by apply helper_table_skips_line.
Qed.

Section printed.

Context (comments : gmap str str) (t : totals) (stacks : nat) (limit : Z).
Context (Htotal : cells_ok (total t)).
Context (Hsites : Forall (λ row : str * cells, cells_ok row.2 ∧ share_ok row.2.1.1 (total t).1.1 ∧
                     split_first HELPER_TABLE (site_label comments row.1) = None) (by_site t)).
Context (Hhelpers : Forall (λ row : (str * str) * cells, site_label_ok (site_label comments row.1.1) ∧
                       one_line row.1.2 ∧ cells_ok row.2 ∧ share_ok row.2.1.1 (total t).1.1) (by_helper t)).
Context (Hlimit : (Z.of_nat (length (by_helper t)) ≤ limit)%Z).

(** The rows of the second table in their order. *)
Definition printed_rows : list helper_row :=
  map (λ row : (str * str) * cells, (site_label comments row.1.1, row.1.2, row.2))
    (ranked pair_leb (by_helper t)).

Lemma ranked_all : take_limit limit (ranked pair_leb (by_helper t)) = ranked pair_leb (by_helper t).
Proof.
  unfold take_limit. destruct (Z.ltb_spec limit 0); [lia|]. apply take_ge.
  unfold ranked. rewrite <- sort_perm. lia.
Qed.

Lemma printed_rows_ok : Forall (helper_row_ok (total t).1.1) printed_rows.
Proof. apply Forall_fmap. unfold ranked. rewrite <- sort_perm. exact Hhelpers. Qed.

Definition section_items : list section_item :=
  OtherLine [] :: OtherLine (removelast table_head) :: map HelperRow printed_rows ++ [OtherLine []].
Definition helper_section : str := lines_of (section_line (total t).1.1) section_items.

Lemma print_helper_table :
  print_table pair_leb (lit "By site and immediate helper") (by_helper t)
    (λ key, site_label comments key.1 ++ lit " <- " ++ key.2) limit (total t).1.1 =
  HELPER_TABLE ++ helper_section.
Proof.
  unfold print_table, helper_section, lines_of, section_items. rewrite ranked_all. f_equal. cbn [map concat]. f_equal.
  change (removelast table_head ++ [newline]) with table_head. f_equal.
  rewrite map_app, concat_app. f_equal. unfold printed_rows. rewrite !map_map. f_equal.
  apply map_ext. intros row. by rewrite table_row_text.
Qed.

Lemma read_helper_section :
  foldM add_allocation ([], []) (splitlines helper_section) =
  Ok (foldl (λ d row, add_copies (row_kind row) (row_copies row) d) [] printed_rows,
      foldl (λ d row, add_copies (row_pair row) (row_copies row) d) [] printed_rows).
Proof.
  unfold helper_section. rewrite (read_lines_of add_allocation (section_line (total t).1.1)).
  - unfold section_items. cbn [foldl]. rewrite foldl_app. cbn [foldl]. by rewrite section_updates.
  - unfold section_items. repeat (apply Forall_cons_2; [split; reflexivity|]).
    apply Forall_app. split; [|by repeat constructor]. apply Forall_fmap, printed_rows_ok.
Qed.

Lemma site_table_skips :
  skips HELPER_TABLE
    (print_table str_leb (lit "By site") (by_site t) (site_label comments) limit (total t).1.1).
Proof.
  unfold print_table. rewrite (assoc_L (++)). apply skips_app.
  { by apply helper_table_skips_line. }
  apply skips_app; [by apply helper_table_skips; vm_compute; set_solver|].
  apply skips_app; [|by apply helper_table_skips; vm_compute; set_solver].
  apply skips_concat, Forall_fmap.
  assert (Forall (λ row : str * cells, cells_ok row.2 ∧ share_ok row.2.1.1 (total t).1.1 ∧
    split_first HELPER_TABLE (site_label comments row.1) = None) (ranked str_leb (by_site t))) as H.
  { unfold ranked. by rewrite <- sort_perm. }
  assert (∀ n, Forall (λ row : str * cells, cells_ok row.2 ∧ share_ok row.2.1.1 (total t).1.1 ∧
    split_first HELPER_TABLE (site_label comments row.1) = None) (take n (ranked str_leb (by_site t)))) as Hn.
  { intros n. by apply Forall_take. }
  assert (∃ n, take_limit limit (ranked str_leb (by_site t)) = take n (ranked str_leb (by_site t))) as [n ->].
  { unfold take_limit. case_match; eauto. }
  eapply Forall_impl; [exact (Hn n)|]. intros row (? & ? & ?). unfold compose.
  rewrite table_row_text. by apply row_text_skips.
Qed.

Lemma read_report_output :
  read_allocations (report_output comments t stacks limit) =
  Ok ((total t).1.1, (total t).1.2,
      (foldl (λ d row, add_copies (row_kind row) (row_copies row) d) [] printed_rows,
       foldl (λ d row, add_copies (row_pair row) (row_copies row) d) [] printed_rows)).
Proof.
  destruct Htotal as (H1 & H2 & H3). unfold report_output, read_allocations.
  rewrite print_helper_table.
  destruct (total_line_search (total t).1.1 (total t).1.2 (total t).2 stacks
    (lit " distinct stacks" ++ [newline; newline] ++
     print_table str_leb (lit "By site") (by_site t) (site_label comments) limit (total t).1.1 ++
     HELPER_TABLE ++ helper_section)) as (m & -> & -> & ->); [done..|].
  rewrite !int_dec by done. cbn [mbind result_bind].
  rewrite !(assoc_L (++)). rewrite <- (assoc_L (++) _ HELPER_TABLE).
  rewrite split_first_skips.
  - rewrite read_helper_section. done.
  - rewrite <- !(assoc_L (++)).
    repeat (apply skips_app; [apply helper_table_skips; first [apply dec_no_B; lia|
      by vm_compute; set_solver]|]).
    apply site_table_skips.
Qed.

End printed.

(** * Sums *)

(** Calls are allocations and units are bytes. *)
Definition cell_of (m : copy_measure) : measure := match m with Calls => Allocations | Units => Bytes end.

Lemma printed_sum comments t (P : str * str → bool) m :
  foldr (λ (row : helper_row) z, (if P row.1 then measured m (row_copies row) else 0) + z)%Z 0%Z
    (printed_rows comments t) =
  dsum_if (λ k, P (site_label comments k.1, k.2)) (cell_measure (cell_of m)) (by_helper t).
Proof.
  rewrite (dsum_if_perm _ _ (by_helper t) (ranked pair_leb (by_helper t))) by apply sort_perm.
  unfold printed_rows. induction (ranked pair_leb (by_helper t)) as [|[k c] rows IH]; [done|].
  cbn [map foldr]. rewrite IH, dsum_if_cons. by destruct m.
Qed.

(** The cell of one key of a table that groups the printed rows. *)
Lemma printed_cell {L} `{EqDecision L} (g : str * str → L) comments t m l :
  default 0%Z (measured m <$> dget l
    (foldl (λ d (row : helper_row), add_copies (g row.1) (row_copies row) d) [] (printed_rows comments t))) =
  dsum_if (λ k, bool_decide (g (site_label comments k.1, k.2) = l)) (cell_measure (cell_of m)) (by_helper t).
Proof.
  rewrite <- dsum_if_key by (apply copies_nodup; constructor). rewrite copies_sum.
  exact (printed_sum comments t (λ k, bool_decide (g k = l)) m).
Qed.

Lemma collect_cells_ok names sites t :
  collect names sites = Ok t → Forall site_ok sites →
  cells_ok (total t) ∧ Forall (λ row, cells_ok row.2) (by_site t) ∧
  Forall (λ row, cells_ok row.2) (by_helper t).
Proof.
  intros Hc Hs. revert Hc. unfold collect.
  apply (foldM_inv (add_totals names) (λ t, cells_ok (total t) ∧
    Forall (λ row, cells_ok row.2) (by_site t) ∧ Forall (λ row, cells_ok row.2) (by_helper t))).
  - intros t0 s t1 Hin (H1 & H2 & H3) H. unfold add_totals in H.
    apply bind_Ok in H as ([name helper] & _ & H). injection H as <-.
    rewrite Forall_forall in Hs. destruct (Hs s Hin) as [Hn _]. decompose_Forall_hyps.
    assert (∀ c, cells_ok c → cells_ok (add_cells c s)) as Hadd.
    { intros [[a b] c] (Ha & Hb & Hc). unfold cells_ok, add_cells in *. cbn in *. lia. }
    cbn [total by_site by_helper]. split_and!; [by apply Hadd|..];
      (apply dupd_forall; [by apply Hadd|intros v; apply Hadd|done]).
  - split_and!; [done|constructor..].
Qed.

(** * Properties *)

(** C24: The report reads back the table that allocation-sites printed: on the output of a run
    whose limit keeps every row (attribution/run asks for a million), [read_allocations]
    succeeds with the totals of the run, each data kind has the sum of the allocations and
    bytes of the helpers of that kind, and the kinds, like the pairs of function and helper,
    add up to the totals. *)
Theorem allocations_read_back names sites t comments limit :
  collect names sites = Ok t → Forall site_ok sites →
  (Z.of_nat (length (by_helper t)) ≤ limit)%Z →
  (∀ key c, (key, c) ∈ by_site t → share_ok c.1.1 (total t).1.1 ∧
     split_first HELPER_TABLE (site_label comments key) = None) →
  (∀ key c, (key, c) ∈ by_helper t → share_ok c.1.1 (total t).1.1 ∧
     site_label_ok (site_label comments key.1) ∧ one_line key.2) →
  ∃ by_kind pairs,
    read_allocations (report_output comments t (length sites) limit) =
      Ok ((total t).1.1, (total t).1.2, (by_kind, pairs)) ∧
    (∀ m kind, default 0%Z (measured m <$> dget kind by_kind) =
       dsum_if (λ key, bool_decide (allocation_kind key.2 = kind)) (cell_measure (cell_of m)) (by_helper t)) ∧
    (∀ m, dsum (measured m) by_kind = cell_measure (cell_of m) (total t)) ∧
    (∀ m, dsum (measured m) pairs = cell_measure (cell_of m) (total t)).
Proof.
  intros Hc Hs Hlimit Hsite Hhelper.
  destruct (collect_cells_ok _ _ _ Hc Hs) as (Htot & Hcs & Hch).
  rewrite Forall_forall in Hcs. rewrite Forall_forall in Hch.
  eexists _, _. split; [apply read_report_output; try done|].
  - apply Forall_forall. intros [k c] Hin. destruct (Hsite k c Hin). by split_and!; [apply (Hcs _ Hin)|..].
  - apply Forall_forall. intros [k c] Hin. destruct (Hhelper k c Hin) as (? & ? & ?).
    by split_and!; [..|apply (Hch _ Hin)|].
  - destruct (collect_conserved _ _ _ Hc) as [_ _ _ _ Hsum _ _]. split_and!; intros m.
    + intros kind. apply (printed_cell (λ k, allocation_kind k.2)).
    + rewrite <- dsum_if_true, copies_sum, <- Hsum. apply (printed_sum comments t (λ _, true)).
    + rewrite <- dsum_if_true, copies_sum, <- Hsum. apply (printed_sum comments t (λ _, true)).
Qed.

Definition comments_sample : gmap str str := {[lit "blorp_f_7" := lit "m.f"]}.

Lemma allocations_read_back_witness :
  ∃ t by_kind pairs, collect names_sample sites_sample = Ok t ∧
    read_allocations (report_output comments_sample t 2 1000000) = Ok (3, 40, (by_kind, pairs))%Z ∧
    default 0%Z (measured Units <$> dget (lit "List") by_kind) = 32%Z.
Proof.
  destruct (collect_correct names_sample sites_sample) as (t & Ht & _).
  { intros s f Hs Hf. unfold sites_sample in Hs.
    repeat (apply elem_of_cons in Hs as [->|Hs]; [cbn in Hf;
      repeat (apply elem_of_cons in Hf as [->|Hf]; [eexists; reflexivity|]); by apply elem_of_nil in Hf|]).
    by apply elem_of_nil in Hs. }
  exists t.
  destruct (allocations_read_back names_sample sites_sample t comments_sample 1000000)
    as (by_kind & pairs & H1 & H2 & _); [exact Ht|..]; vm_compute in Ht; injection Ht as <-.
  - repeat constructor; cbn; lia.
  - cbn. lia.
  - intros key c Hin. cbn in Hin. apply list_elem_of_singleton in Hin. injection Hin as -> ->.
    split; vm_compute; done.
  - intros key c Hin. cbn in Hin.
    repeat (apply elem_of_cons in Hin as [[= -> ->]|Hin];
      [split; [vm_compute; done|]; split; [split; [done|]; split; [|vm_compute; set_solver]|done];
       split; [done|]; intros c0 r Hc0; vm_compute in Hc0; injection Hc0 as <- _; reflexivity|]).
    by apply elem_of_nil in Hin.
  - exists by_kind, pairs. split; [vm_compute; reflexivity|]. split; [exact H1|].
    rewrite H2. vm_compute. reflexivity.
Defined.
