(* ===== verification/ReportProfile.v ===== *)
(** blorp/scripts/attribution/report.py, the stage [profile]: the classes of the frames at the
    top of the stack, and the samples of each function over the call graph. *)
From S2P Require Import Prelude PyStr PyFormat PyDict PyFloat Regex AllocationSites Report.
From S2P Require Import ReportAllocations.

Definition at_start (r : regex) : regex := RSeq (RAssert TextStart) r.
Definition underscored (s : string) : regex := RSeq (ROpt (rlit "_")) (rlit s).

Definition allocator_frame : regex :=
  RAlt (at_start (ralt [rlit "blorp_memory_"; underscored "malloc";
                        RSeq (underscored "free") (RAssert TextEnd); underscored "calloc";
                        underscored "realloc"; underscored "nano"; underscored "szone"; rlit "_xzm";
                        underscored "small_"; underscored "tiny_"; underscored "large_";
                        underscored "mvm_"]))
       (rlit "(in libsystem_malloc").

Definition reference_count_frame : regex :=
  RAlt (at_start (rseq [rlit "blorp_"; rlits ["record"; "list"; "union"; "callable"]%string; rlit "_";
                        rlits ["dup"; "drop"]%string; rlit "_"]))
       (at_start (rseq [rlit "blorp_string_"; rlits ["retain"; "release"]%string])).

Definition memory_frame : regex :=
  ralt [rlit "_platform_mem"; rlit "_platform_bzero";
        at_start (RSeq (underscored "mem") (rlits ["move"; "cpy"; "set"]%string));
        at_start (underscored "bzero")].

Definition lookup_frame : regex :=
  rlits ["find_instance"; "slot_has_union_key"; "find_union_instance"; "slot_has_record_key";
         "same_type"; "find_union_slot"; "find_record_instance"; "instance_lookup"]%string.

Definition PROFILE_CLASSES : list (str * regex) :=
  [(lit "allocator", allocator_frame);
   (lit "reference-count helpers", reference_count_frame);
   (lit "memmove, memset, bzero", memory_frame);
   (lit "specialization lookup (O0's function list)", lookup_frame)].

Fixpoint first_class (classes : list (str * regex)) (frame : str) : str :=
  match classes with
  | [] => lit "other"
  | (label, pattern) :: classes =>
      match search pattern frame with
      | Some _ => label
      | None => first_class classes frame
      end
  end.

Definition classify_frame (frame : str) : str := first_class PROFILE_CLASSES frame.

(** * The call graph *)

Definition is_indent (c : ascii) : bool := one_of (lit "+!:| ") c.
Definition not_space (c : ascii) : bool := negb (is_space c).

(** One node: the indentation, the samples and the symbol. *)
Definition graph_node : regex :=
  rseq [RAssert TextStart; RGroup 1 (rseq [RStar true Rs; RStar true (RClass is_indent)]);
        RGroup 2 (RPlus Rd); rlit " "; RGroup 3 (RPlus (RClass not_space))].
#[global] Arguments graph_node : simpl never.

(** The stack of (indentation, symbol), the top first. *)
Record graph_state := GraphState {
  inclusive : list (str * Z);
  stack : list (nat * str);
  in_graph : bool;
}.

(** [while stack and stack[-1][0] >= indent: stack.pop()] *)
Fixpoint pop_to (indent : nat) (stack : list (nat * str)) : list (nat * str) :=
  match stack with
  | [] => []
  | (i, s) :: rest => if indent <=? i then pop_to indent rest else stack
  end.

Definition enter_node (indent : nat) (count : Z) (symbol : str) (st : graph_state) : graph_state :=
  let stack := pop_to indent (stack st) in
  GraphState
    (if bool_decide (symbol ∈ stack.*2) then inclusive st else dadd symbol count (inclusive st))
    ((indent, symbol) :: stack) (in_graph st).

Definition graph_line (line : str) (st : graph_state) : result graph_state :=
  match match_start graph_node line with
  | None => Ok st
  | Some node =>
      count ← int (group node 2);
      Ok (enter_node (length (group node 1)) count (group node 3) st)
  end.

Fixpoint samples_loop (lines : list str) (st : graph_state) : result (list (str * Z)) :=
  match lines with
  | [] => Ok (inclusive st)
  | line :: lines =>
      if startswith (lit "Call graph:") line then
        samples_loop lines (GraphState (inclusive st) (stack st) true)
      else if startswith (lit "Total number in stack") line then Ok (inclusive st)
      else if in_graph st then st' ← graph_line line st; samples_loop lines st'
      else samples_loop lines st
  end.

Definition inclusive_samples (text : str) : result (list (str * Z)) :=
  samples_loop (splitlines text) (GraphState [] [] false).

(** * The stage *)

Definition thread_line : regex :=
  rseq [RAssert LineStart; RPlus Rs; RGroup 1 (RPlus Rd); rlit " Thread_"].

(** A frame at the top of the stack: symbol, library and samples. *)
Definition top_frame : regex :=
  rseq [RPlus Rs; RGroup 1 (RPlusLazy (RClass not_newline)); Rs; RPlus Rs; rlit "(in ";
        RGroup 2 (RStar true (RClass (none_of (lit ")")))); rlit ")"; RPlus Rs; RGroup 3 (RPlus Rd);
        RStar true Rs; RAssert TextEnd].

Definition add_top_frame (labels : gmap str str) (d : list (str * Z) * Z) (line : str) :
    result (list (str * Z) * Z) :=
  match match_start top_frame line with
  | None => Ok d
  | Some found =>
      let symbol := group found 1 in
      count ← int (group found 3);
      let frame := default symbol (labels !! symbol) ++ lit " (in " ++ group found 2 ++ lit ")" in
      Ok (dadd (classify_frame frame) count d.1, (d.2 + count)%Z)
  end.

Definition add_blorp_function (labels : gmap str str) (d : list (str * Z)) (item : str * Z) :
    list (str * Z) :=
  if startswith (lit "blorp_f_") item.1
  then dadd (default item.1 (labels !! item.1)) item.2 d else d.

Definition count_row (whole : Z) (item : str * Z) : list str :=
  [item.1; number item.2; percent item.2 whole].

Definition profile (os_error : str → str) (files : gmap str str) (directory : str) (top : Z) :
    result str :=
  labels ← function_labels files directory;
  text ← read os_error files (path_join directory (lit "profile/sample.txt"));
  match split_first (lit "Sort by top of stack, same collapsed") text with
  | None => fail (lit "sample.txt has no 'Sort by top of stack' section")
  | Some (_, tail) =>
      match search thread_line text with
      | None => fail (lit "sample.txt has no main-thread line")
      | Some thread =>
          samples ← int (group thread 1);
          section ← or_raise IndexError (split_on (lit "Binary Images:") tail !! 0);
          '(classes, listed) ← foldM (add_top_frame labels) ([], 0%Z) (splitlines section);
          counts ← inclusive_samples text;
          let blorp := foldl (add_blorp_function labels) [] counts in
          Ok (join [newline]
            [lit "### Top-of-stack shares (" ++ number samples ++ lit " samples)" ++ [newline];
             lit "`sample` lists only frames with at least 5 samples (" ++ number listed ++ lit " of "
             ++ number samples ++ lit " samples here), so every class is a lower bound; "
             ++ [dquote] ++ lit "other" ++ [dquote] ++ lit " holds the unlisted remainder." ++ [newline];
             table (map lit ["Class"; "Samples"; "Share of all samples"]%string)
               (map (count_row samples) (by_count classes)) (lit "lrr");
             lit "### Top " ++ dec top ++ lit " Blorp functions, inclusive" ++ [newline];
             table (map lit ["Function"; "Samples"; "Share"]%string)
               (map (count_row samples) (take_limit top (by_count blorp))) (lit "lrr")])
      end
  end.

(** * The call graph as a tree *)

(** A node as `sample` prints it: indentation, samples, symbol, the rest of the line, callees. *)
Inductive tree := Node (lead : str) (count : Z) (symbol rest : str) (children : list tree).

Section tree_ind.
Context (P : tree → Prop).
Context (HP : ∀ lead count symbol rest children, Forall P children → P (Node lead count symbol rest children)).

Fixpoint tree_ind' (t : tree) : P t :=
  match t with
  | Node lead count symbol rest children =>
      HP lead count symbol rest children
        ((fix forest (l : list tree) : Forall P l :=
            match l with [] => Forall_nil_2 _ | t :: l => Forall_cons_2 _ _ _ (tree_ind' t) (forest l) end)
           children)
  end.
End tree_ind.

Definition node_line (lead : str) (count : Z) (symbol rest : str) : str :=
  lead ++ dec count ++ lit " " ++ symbol ++ rest.

Fixpoint tree_lines (t : tree) : list str :=
  match t with
  | Node lead count symbol rest children =>
      node_line lead count symbol rest :: concat (map tree_lines children)
  end.

(** The samples of a function: those of its nodes that have no caller of the same name. *)
Fixpoint inclusive_of (s : str) (t : tree) : Z :=
  match t with
  | Node _ count symbol _ children =>
      if bool_decide (symbol = s) then count
      else foldr Z.add 0%Z (map (inclusive_of s) children)
  end.

Definition inclusive_of_all (s : str) (ts : list tree) : Z := foldr Z.add 0%Z (map (inclusive_of s) ts).

Section graph.

(** The column in which the nodes of each depth start. *)
Context (column : nat → nat) (column_lt : ∀ d, column d < column (S d)).

Definition node_ok (d : nat) (lead : str) (count : Z) (symbol rest : str) : Prop :=
  length lead = column d ∧ forallb is_indent lead = true ∧ (0 ≤ count)%Z ∧
  symbol ≠ [] ∧ no_space symbol ∧ one_line rest ∧ (∀ c r, rest = c :: r → is_space c = true).

Fixpoint tree_ok (d : nat) (t : tree) : Prop :=
  match t with
  | Node lead count symbol rest children =>
      node_ok d lead count symbol rest ∧ foldr and True (map (tree_ok (S d)) children)
  end.

Lemma foldr_and (P : tree → Prop) ts : foldr and True (map P ts) ↔ Forall P ts.
Proof.
  induction ts as [|t ts IH]; cbn; [by split; [constructor|]|].
  rewrite IH. split; [intros [? ?]; by constructor|]. inversion 1; by split.
Qed.

Lemma indent_not_space c : is_indent c = true → " "%char ≠ c → is_space c = false.
Proof. intros Hc Hne. destruct c as [[] [] [] [] [] [] [] []]; try done; by vm_compute in Hc. Qed.

Lemma digit_not_indent c : is_digit c = true → is_indent c = false.
Proof. intros Hc. destruct c as [[] [] [] [] [] [] [] []]; try done; by vm_compute in Hc. Qed.

Lemma indent_split w :
  forallb is_indent w = true →
  ∃ n v, w = spaces n ++ v ∧ forallb is_indent v = true ∧ (∀ c r, v = c :: r → is_space c = false).
Proof.
  induction w as [|c w IH]; cbn [forallb]; [intros _; by exists 0, []|].
  intros [Hc Hw]%andb_true_iff. destruct (Ascii.eqb_spec " " c) as [<-|Hne].
  - destruct (IH Hw) as (n & v & -> & ? & ?). by exists (S n), v.
  - exists 0, (c :: w). split; [done|]. cbn [forallb]. rewrite Hc, Hw. split; [done|].
    intros c' r [= <- _]. by apply indent_not_space.
Qed.

Lemma graph_node_match d lead count symbol rest :
  node_ok d lead count symbol rest →
  ∃ m, match_start graph_node (node_line lead count symbol rest) = Some m ∧
       group m 1 = lead ∧ group m 2 = dec count ∧ group m 3 = symbol.
Proof.
  intros (_ & Hlead & Hcount & Hne & Hs & _ & Hrest).
  destruct (indent_split lead Hlead) as (n & v & -> & Hv & Hhd).
  destruct (dec_numeral count Hcount) as [Hn1 Hn2].
  eexists. split; [apply match_start_run; unfold graph_node, node_line; rewrite <- (assoc_L (++))|].
  - rewrite run_rseq_cons. cbn [run holds before]. rewrite run_rseq_cons, run_RGroup, run_rseq_cons.
    apply run_star_class_longest; [apply spaces_space| |].
    { intros c r Hc. destruct v as [|c' v]; [cbn [app] in Hc; by eapply numeral_app_head in Hc; [|done|apply digit_not_space|]|].
      injection Hc as <- _. by eapply Hhd. }
    rewrite run_rseq_cons. apply run_star_class_longest; [done| |].
    { intros c r Hc. apply digit_not_indent. destruct (dec count) as [|c' w]; [done|].
      injection Hc as <- _. by apply andb_true_iff in Hn2 as [? _]. }
    change (run (rseq []) ?st ?k) with (k st). unfold capture.
    rewrite (assoc_L (++) (spaces n) v), consumed_app.
    rewrite run_rseq_cons. apply run_group_plus_longest; [done..|by intros ? ? [= <- _]|].
    rewrite run_rseq_cons, run_rlit.
    rewrite run_rseq_cons. apply run_group_plus_longest; [done|exact Hs| |reflexivity].
    intros c r Hc. unfold not_space. by rewrite (Hrest c r Hc).
  - done.
Qed.

Lemma graph_node_line d lead count symbol rest st :
  node_ok d lead count symbol rest →
  graph_line (node_line lead count symbol rest) st = Ok (enter_node (column d) count symbol st).
Proof.
  intros Hok. destruct (graph_node_match d lead count symbol rest Hok) as (m & Hm & H1 & H2 & H3).
  unfold graph_line. rewrite Hm, H1, H2, H3. destruct Hok as (<- & _ & Hcount & _).
  by rewrite int_dec.
Qed.

(** A node line is none of the lines that start and end the graph. *)
Lemma node_line_head d lead count symbol rest c p :
  node_ok d lead count symbol rest → is_indent c = false → is_digit c = false →
  startswith (c :: p) (node_line lead count symbol rest) = false.
Proof.
  intros (_ & Hlead & Hcount & _) Hi Hd. destruct (dec_numeral count Hcount) as [Hn1 Hn2].
  unfold node_line. destruct lead as [|c' lead]; [destruct (dec count) as [|c' w]; [done|]|].
  - cbn in Hn2 |- *. apply andb_true_iff in Hn2 as [Hc _].
    destruct (Ascii.eqb_spec c c'); [congruence|done].
  - cbn in Hlead |- *. apply andb_true_iff in Hlead as [Hc _].
    destruct (Ascii.eqb_spec c c'); [congruence|done].
Qed.

Lemma samples_loop_node d lead count symbol rest more st :
  node_ok d lead count symbol rest → in_graph st = true →
  samples_loop (node_line lead count symbol rest :: more) st =
  samples_loop more (enter_node (column d) count symbol st).
Proof.
  intros Hok Hg. cbn [samples_loop].
  change (lit "Call graph:") with ("C"%char :: lit "all graph:").
  change (lit "Total number in stack") with ("T"%char :: lit "otal number in stack").
  rewrite (node_line_head d lead count symbol rest "C" (lit "all graph:") Hok eq_refl eq_refl).
  rewrite (node_line_head d lead count symbol rest "T" (lit "otal number in stack") Hok eq_refl eq_refl).
  by rewrite Hg, (graph_node_line d).
Qed.

Lemma pop_to_pop_to a b st : a ≤ b → pop_to a (pop_to b st) = pop_to a st.
Proof.
  intros Hab. induction st as [|[i s] st IH]; [done|]. cbn [pop_to].
  destruct (Nat.leb_spec b i); [|done]. rewrite IH. destruct (Nat.leb_spec a i); [done|lia].
Qed.

Lemma pop_to_idem a st : pop_to a (pop_to a st) = pop_to a st.
Proof. by apply pop_to_pop_to. Qed.

(** What processing a tree or a forest at depth [d], below the callers [anc], does. *)
Definition processed (d : nat) (anc : list (nat * str)) (samples : str → Z) (st st' : graph_state) :
    Prop :=
  in_graph st' = true ∧ pop_to (column d) (stack st') = anc ∧
  ∀ s, dnum s (inclusive st') =
       (dnum s (inclusive st) + if bool_decide (s ∈ anc.*2) then 0 else samples s)%Z.

Definition tree_processes (t : tree) : Prop :=
  ∀ d anc st more, tree_ok d t → in_graph st = true → pop_to (column d) (stack st) = anc →
  ∃ st', samples_loop (tree_lines t ++ more) st = samples_loop more st' ∧
         processed d anc (λ s, inclusive_of s t) st st'.

Lemma forest_processes ts d anc st more :
  Forall tree_processes ts → Forall (tree_ok d) ts → in_graph st = true →
  pop_to (column d) (stack st) = anc →
  ∃ st', samples_loop (concat (map tree_lines ts) ++ more) st = samples_loop more st' ∧
         processed d anc (λ s, inclusive_of_all s ts) st st'.
Proof.
  intros H. revert st. induction H as [|t ts Ht Hts IH]; intros st Hok Hg Hpop.
  { exists st. unfold processed. split_and!; [done..|]. intros s. unfold inclusive_of_all. cbn. case_bool_decide; lia. }
  apply Forall_cons in Hok as [Hokt Hok]. cbn [map concat]. rewrite <- (assoc_L (++)).
  destruct (Ht d anc st (concat (map tree_lines ts) ++ more) Hokt Hg Hpop) as (st1 & -> & Hg1 & Hpop1 & H1).
  destruct (IH st1 Hok Hg1 Hpop1) as (st2 & -> & Hg2 & Hpop2 & H2).
  exists st2. unfold processed. split_and!; [done..|]. intros s. rewrite H2, H1. unfold inclusive_of_all. cbn.
  case_bool_decide; lia.
Qed.

Lemma all_trees_process t : tree_processes t.
Proof.
  induction t as [lead count symbol rest children IH] using tree_ind'.
  intros d anc st more [Hok Hch] Hg Hpop. rewrite foldr_and in Hch.
  cbn [tree_lines app]. rewrite (samples_loop_node d) by done.
  set (st1 := enter_node (column d) count symbol st).
  pose proof (column_lt d) as Hlt.
  destruct (forest_processes children (S d) ((column d, symbol) :: anc) st1 more IH Hch Hg)
    as (st2 & -> & Hg2 & Hpop2 & H2).
  { subst st1. unfold enter_node. cbn [stack]. rewrite Hpop. cbn [pop_to].
    destruct (Nat.leb_spec (column (S d)) (column d)); [lia|done]. }
  exists st2. unfold processed. split_and!; [done|done| |].
  - rewrite <- (pop_to_pop_to (column d) (column (S d))), Hpop2 by lia. cbn [pop_to].
    rewrite Nat.leb_refl, <- Hpop. apply pop_to_idem.
  - intros s. rewrite H2. subst st1. unfold enter_node. cbn [inclusive]. rewrite Hpop.
    cbn [fmap list_fmap fst snd]. unfold inclusive_of_all. cbn [inclusive_of].
    destruct (decide (symbol = s)) as [->|Hne].
    + rewrite (bool_decide_true (s = s)), (bool_decide_true (s ∈ s :: _)) by (done || left).
      case_bool_decide; [lia|]. rewrite dnum_dadd, bool_decide_true by done. lia.
    + rewrite (bool_decide_false (symbol = s)) by done.
      rewrite (bool_decide_ext (s ∈ symbol :: anc.*2) (s ∈ anc.*2)) by set_solver.
      assert (dnum s (if bool_decide (symbol ∈ anc.*2) then inclusive st
        else dadd symbol count (inclusive st)) = dnum s (inclusive st)) as ->; [|done].
      case_bool_decide; [done|]. rewrite dnum_dadd, bool_decide_false by done. lia.
Qed.

(** The text of a call graph between other sections of the file. *)
Definition graph_text (before_graph : list str) (ts : list tree) (after_graph : list str) : str :=
  concat (map (λ l, l ++ [newline])
    (before_graph ++ [lit "Call graph:"] ++ concat (map tree_lines ts)
     ++ [[]; lit "Total number in stack (recursive counted multiple, when >=5):"] ++ after_graph)).

Lemma tree_lines_one_line d t : tree_ok d t → Forall one_line (tree_lines t).
Proof.
  revert d. induction t as [lead count symbol rest children IH] using tree_ind'.
  intros d [(_ & Hlead & Hcount & _ & Hs & Hrest & _) Hch]. rewrite foldr_and in Hch.
  cbn [tree_lines]. apply Forall_cons_2.
  - unfold node_line. apply one_line_app.
    { unfold one_line. rewrite forallb_forall in Hlead |- *. intros c Hc%Hlead.
      destruct c as [[] [] [] [] [] [] [] []]; try done; by vm_compute in Hc. }
    apply one_line_app; [by apply numeral_one_line, digits_or_points, dec_numeral|].
    apply one_line_app; [done|]. apply one_line_app; [by apply no_space_one_line|done].
  - apply Forall_concat, Forall_fmap. rewrite Forall_forall in IH, Hch |- *.
    intros t Ht. by apply (IH t Ht (S d)), Hch.
Qed.

Lemma samples_loop_before ls more :
  Forall (λ l, startswith (lit "Call graph:") l = false ∧
               startswith (lit "Total number in stack") l = false) ls →
  samples_loop (ls ++ more) (GraphState [] [] false) = samples_loop more (GraphState [] [] false).
Proof. induction 1 as [|l ls [Hl1 Hl2] Hls IH]; [done|]. cbn [app samples_loop]. by rewrite Hl1, Hl2. Qed.

End graph.

(** * The classes *)

(** The classes hold the listed samples and nothing else: what `sample` did not list is in
    none of them, whatever the frames are. *)
Lemma classes_hold_listed labels lines d :
  foldM (add_top_frame labels) ([], 0%Z) lines = Ok d → dtotal d.1 = d.2.
Proof.
  apply (foldM_inv (add_top_frame labels) (λ d, dtotal d.1 = d.2)); [|done].
  intros d0 line d1 _ H0 H1. unfold add_top_frame in H1.
  destruct (match_start top_frame line) as [found|]; [|by injection H1 as <-].
  apply bind_Ok in H1 as (count & _ & H1). injection H1 as <-. cbn [fst snd].
  by rewrite dtotal_dadd, H0.
Qed.

(** * Properties *)

(** C25: On the call graph that `sample` prints for a forest of call trees (the column of a node
    gives its depth), [inclusive_samples] charges each function the samples of its outermost
    nodes: recursive calls below a node of the same function are not counted again, and what
    stands before the graph or after its end does not count. *)
Theorem inclusive_samples_correct column before_graph ts after_graph :
  (∀ d, column d < column (S d)) → Forall (tree_ok column 0) ts →
  Forall one_line before_graph → Forall one_line after_graph →
  Forall (λ l, startswith (lit "Call graph:") l = false ∧
               startswith (lit "Total number in stack") l = false) before_graph →
  ∃ counts, inclusive_samples (graph_text before_graph ts after_graph) = Ok counts ∧
    ∀ s, dnum s counts = inclusive_of_all s ts.
Proof.
  intros Hcol Hts Hb Ha Hno. unfold inclusive_samples, graph_text.
  rewrite splitlines_terminated.
  - rewrite samples_loop_before by done.
    change (samples_loop ([lit "Call graph:"] ++ ?l) (GraphState [] [] false))
      with (samples_loop l (GraphState [] [] true)).
    destruct (forest_processes column ts 0 [] (GraphState [] [] true)
      ([[]; lit "Total number in stack (recursive counted multiple, when >=5):"] ++ after_graph))
      as (st & -> & Hg & _ & H); [|done..|].
    { apply Forall_forall. intros t _. by apply all_trees_process. }
    exists (inclusive st). split; [by destruct st as [? ? []]|]. intros s. rewrite H.
    cbn [inclusive]. rewrite bool_decide_false by (by intros ?%elem_of_nil). done.
  - rewrite !Forall_app. split_and!; [done|by repeat constructor| |by repeat constructor|done].
    apply Forall_concat, Forall_fmap. eapply Forall_impl; [exact Hts|]. intros t. apply tree_lines_one_line.
Qed.

Definition tree_sample : tree :=
  Node (lit "    ") 10 (lit "Thread_7") []
    [Node (lit "    + ") 9 (lit "blorp_f_1") (lit "  (in self)")
       [Node (lit "    + ! ") 4 (lit "blorp_f_2") [] [Node (lit "    + ! : ") 3 (lit "blorp_f_1") [] []];
        Node (lit "    +   ") 2 (lit "blorp_f_2") [] []]].

Lemma inclusive_samples_correct_witness :
  ∃ counts,
    inclusive_samples (graph_text [lit "Analysis"] [tree_sample] [lit "   5 blorp_f_1"]) = Ok counts ∧
    dnum (lit "blorp_f_1") counts = 9%Z ∧ dnum (lit "blorp_f_2") counts = 6%Z.
Proof.
  destruct (inclusive_samples_correct (λ d, 4 + 2 * d) [lit "Analysis"] [tree_sample]
    [lit "   5 blorp_f_1"]) as (counts & H1 & H2).
  - intros d. lia.
  - apply Forall_cons_2; [|apply Forall_nil_2]. cbn.
    assert (∀ w, match w with c :: _ => is_space c | [] => true end = true →
      ∀ c r, w = c :: r → is_space c = true) as Hw by (intros w H c r ->; exact H).
    repeat split; try reflexivity; try lia; try discriminate; apply Hw; reflexivity.
  - repeat constructor.
  - repeat constructor.
  - repeat constructor.
  - exists counts. split; [exact H1|]. rewrite !H2. split; reflexivity.
Defined.
