(* ===== verification/ReportTiming.v ===== *)
(** blorp/scripts/attribution/report.py, the stage [timing] and the command line: the runs of
    the two builds, the best of each, the differences in cycles per pair of runs, and the
    choice of the stage. *)
From S2P Require Import Prelude PyStr Rows PyFormat PyDict PyFloat Regex AllocationSites Report.
From S2P Require Import ReportRc ReportCopies ReportAllocations ReportProfile.

(** One line of runs.tsv. *)
Record timing_row := TimingRow {
  build : str;
  sample : Z;
  load_average : str;
  seconds : float;
  cycles : Z;
  instructions : Z;
}.

Definition read_timing_row (line : str) : result timing_row :=
  match split_on [tab] line with
  | [build; sample; load; seconds; cycles; instructions] =>
      sample ← int sample;
      seconds ← parse_float seconds;
      cycles ← int cycles;
      instructions ← int instructions;
      Ok (TimingRow build sample load seconds cycles instructions)
  | _ => Raise ValueError
  end.

(** [sorted({r[0] for r in rows})] *)
Definition builds (rows : list timing_row) : list str :=
  sort str_leb (elements (list_to_set (map build rows) : gset str)).

(** Seconds, cycles and instructions. *)
Record best_of := Best { best_seconds : float; best_cycles : Z; best_instructions : Z }.

Definition best_row (rows : list timing_row) (name : str) : result (str * best_of) :=
  let mine := List.filter (λ r, bool_decide (build r = name)) rows in
  s ← min_float (map seconds mine);
  c ← min_int (map cycles mine);
  i ← min_int (map instructions mine);
  Ok (name, Best s c i).

(** The builds in their order, each with its best values. *)
Definition best (rows : list timing_row) : result (list (str * best_of)) :=
  mapR (best_row rows) (builds rows).

(** {sample: {build: row}} *)
Definition add_sample (d : list (Z * list (str * timing_row))) (r : timing_row) :
    list (Z * list (str * timing_row)) :=
  dupd (sample r) (λ cells, dset (build r) r (default [] cells)) d.
Definition by_sample (rows : list timing_row) : list (Z * list (str * timing_row)) :=
  foldl add_sample [] rows.

(** [100.0 * (1 - x)] *)
Definition fewer_percent (x : float) : float := fmul (of_int 100) (fsub (of_int 1) x).

(** What one pair of runs shows: how many cycles the plain build saves. *)
Definition pair_saving (pair : list (str * timing_row)) : result float :=
  plain ← or_raise KeyError (dget (lit "plain") pair);
  atomic ← or_raise KeyError (dget (lit "atomic") pair);
  x ← int_ratio (cycles plain) (cycles atomic);
  Ok (fewer_percent x).

Definition pairs (rows : list timing_row) : list (list (str * timing_row)) :=
  List.filter (λ pair, length pair =? 2) (map snd (by_sample rows)).

(** The savings of all pairs in increasing order. *)
Definition fewer (rows : list timing_row) : result (list float) :=
  savings ← mapR pair_saving (pairs rows); Ok (sort (λ x y, negb (fltb y x)) savings).

Definition run_row (r : timing_row) : list str :=
  [build r; dec (sample r); load_average r; fixed 3 (seconds r); number (cycles r);
   number (instructions r)].

Definition best_cells (row : str * best_of) : list str :=
  [row.1; fixed 3 (best_seconds row.2); number (best_cycles row.2); number (best_instructions row.2)].

(** "Plain over atomic", from the best values of the two builds. *)
Definition plain_over_atomic (a p : best_of) : result str :=
  i ← int_ratio (best_instructions p) (best_instructions a);
  let instructions := fmul (of_int 100) (fsub i (of_int 1)) in
  t ← float_ratio (best_seconds p) (best_seconds a);
  c ← int_ratio (best_cycles p) (best_cycles a);
  Ok (lit "Plain over atomic, best of each: " ++ fixed 1 (fewer_percent t) ++ lit "% less time, "
      ++ fixed 1 (fewer_percent c) ++ lit "% fewer cycles, " ++ fixed 1 (SFabs instructions) ++ lit "% "
      ++ (if fltb (of_int 0) instructions then lit "more" else lit "fewer") ++ lit " instructions."
      ++ [newline]).

Definition per_pair (fewer : list float) : result str :=
  first ← or_raise IndexError (head fewer);
  final ← or_raise IndexError (last fewer);
  median ← or_raise IndexError (fewer !! Nat.div2 (length fewer));
  Ok (lit "Per pair (same sample number), the plain build used " ++ fixed 1 first ++ lit "% to "
      ++ fixed 1 final ++ lit "% fewer cycles, median " ++ fixed 1 median ++ lit "%." ++ [newline]).

Definition timing (os_error : str → str) (files : gmap str str) (directory : str) : result str :=
  text ← read os_error files (path_join directory (lit "timing/runs.tsv"));
  rows ← mapR read_timing_row (splitlines text);
  best ← best rows;
  samples ← max_int (map sample rows);
  a ← or_raise KeyError (dget (lit "atomic") best);
  p ← or_raise KeyError (dget (lit "plain") best);
  over ← plain_over_atomic a p;
  fewer ← fewer rows;
  pair_text ← per_pair fewer;
  Ok (join [newline]
    [lit "### Runs (in execution order)" ++ [newline];
     table (map lit ["Build"; "Sample"; "Load average (1, 5, 15 min) before"; "User+system seconds";
                     "Cycles"; "Instructions retired"]%string)
       (map run_row rows) (lit "lrlrrr");
     lit "### Best of " ++ dec samples ++ [newline];
     table (map lit ["Build"; "Seconds"; "Cycles"; "Instructions retired"]%string)
       (map best_cells best) (lit "lrrr");
     over; pair_text]).

(** * The command line *)

Inductive stage := Copies | Rc | Allocations | Profile | Timing.

(** [STAGES], by the names that argparse lets through. *)
Definition STAGES : list (str * stage) :=
  [(lit "copies", Copies); (lit "rc", Rc); (lit "allocations", Allocations);
   (lit "profile", Profile); (lit "timing", Timing)].

(** The arguments as argparse returns them; the result is what is printed. *)
Definition main (which : str → bool) (run_command : list str → option completed)
    (os_error : str → str) (files : gmap str str) (stage_name directory : str) (top : Z) : result str :=
  chosen ← or_raise KeyError (dget stage_name STAGES);
  text ← match chosen with
         | Copies => copies which run_command os_error files directory top
         | Rc => rc os_error files directory top
         | Allocations => allocations os_error files directory top
         | Profile => profile os_error files directory top
         | Timing => timing os_error files directory
         end;
  Ok (text ++ [newline]).

(** * The best of each build *)

Lemma elem_of_builds rows name : name ∈ builds rows ↔ ∃ r, r ∈ rows ∧ build r = name.
Proof.
  unfold builds. rewrite <- sort_perm, elem_of_elements, elem_of_list_to_set.
  rewrite list_elem_of_fmap. naive_solver.
Qed.

Lemma elem_of_mine rows name r :
  r ∈ List.filter (λ r, bool_decide (build r = name)) rows ↔ r ∈ rows ∧ build r = name.
Proof. by rewrite !list_elem_of_In, filter_In, bool_decide_eq_true. Qed.

(** A value that is the least of one column over the rows of a build. *)
Definition least_of {A} (lower : A → A → Prop) (column : timing_row → A) (rows : list timing_row)
    (name : str) (v : A) : Prop :=
  (∃ r, r ∈ rows ∧ build r = name ∧ column r = v) ∧
  ∀ r, r ∈ rows → build r = name → lower v (column r).

Definition not_above (x y : float) : Prop := fltb y x = false.

Lemma column_least {A} (lower : A → A → Prop) column rows name v :
  v ∈ map column (List.filter (λ r, bool_decide (build r = name)) rows) →
  (∀ x, x ∈ map column (List.filter (λ r, bool_decide (build r = name)) rows) → lower v x) →
  least_of lower column rows name v.
Proof.
  intros (r & -> & [Hr Hb]%elem_of_mine)%list_elem_of_fmap Hmin. split; [by exists r|].
  intros r' Hr' Hb'. apply Hmin, list_elem_of_fmap. exists r'. split; [done|]. by apply elem_of_mine.
Qed.

Lemma best_row_spec rows name :
  name ∈ builds rows →
  ∃ v, best_row rows name = Ok (name, v) ∧
    least_of not_above seconds rows name (best_seconds v) ∧
    least_of Z.le cycles rows name (best_cycles v) ∧
    least_of Z.le instructions rows name (best_instructions v).
Proof.
  intros (r & Hr & Hb)%elem_of_builds. unfold best_row.
  assert (∀ A (f : timing_row → A),
    map f (List.filter (λ r, bool_decide (build r = name)) rows) ≠ []) as Hne.
  { intros A f Hnil. apply map_eq_nil in Hnil.
    assert (r ∈ List.filter (λ r, bool_decide (build r = name)) rows) as Hin by (by apply elem_of_mine).
    rewrite Hnil in Hin. by apply elem_of_nil in Hin. }
  destruct (min_float_spec _ (Hne _ seconds)) as (x & -> & Hx1 & Hx2).
  destruct (min_int_spec _ (Hne _ cycles)) as (c & -> & Hc1 & Hc2).
  destruct (min_int_spec _ (Hne _ instructions)) as (i & -> & Hi1 & Hi2).
  exists (Best x c i). split; [done|]. by split_and!; apply column_least.
Qed.

Lemma by_sample_snoc rows r : by_sample (rows ++ [r]) = add_sample (by_sample rows) r.
Proof. unfold by_sample. by rewrite foldl_app. Qed.

Lemma last_filter_snoc {A} (P : A → bool) l a :
  last (List.filter P (l ++ [a])) = if P a then Some a else last (List.filter P l).
Proof.
  rewrite List.filter_app. cbn. destruct (P a); [apply last_snoc|by rewrite app_nil_r].
Qed.

Lemma by_sample_last rows n name :
  (cells ← dget n (by_sample rows); dget name cells) =
  last (List.filter (λ r, bool_decide (sample r = n) && bool_decide (build r = name)) rows).
Proof.
  induction rows as [|r rows IH] using rev_ind; [done|].
  rewrite last_filter_snoc, by_sample_snoc. unfold add_sample.
  destruct (decide (sample r = n)) as [<-|Hn].
  - rewrite dget_dupd, (bool_decide_true (sample r = sample r)) by done.
    cbn [mbind option_bind andb] in *. unfold dset. destruct (decide (build r = name)) as [<-|Hb].
    + by rewrite dget_dupd, bool_decide_true.
    + rewrite dget_dupd_ne, bool_decide_false by done. cbv iota. rewrite <- IH.
      by destruct (dget (sample r) (by_sample rows)).
  - rewrite dget_dupd_ne, (bool_decide_false (sample r = n)) by done. exact IH.
Qed.

(** * The pairs of runs *)

Lemma by_sample_keys rows :
  NoDup (by_sample rows).*1 ∧ Forall (λ x, NoDup x.2.*1) (by_sample rows).
Proof.
  induction rows as [|r rows [IH1 IH2]] using rev_ind; [by repeat constructor|].
  rewrite by_sample_snoc. unfold add_sample. split; [by apply dupd_nodup|].
  apply (dupd_forall (λ c : list (str * timing_row), NoDup c.*1)); [|intros v Hv; cbn; by apply dupd_nodup|done].
  cbn. apply NoDup_singleton.
Qed.

Lemma dget_None {K V} `{EqDecision K} (k : K) (d : list (K * V)) : dget k d = None ↔ k ∉ d.*1.
Proof.
  induction d as [|[k' v] d IH]; cbn; [by split; [intros _ ?%elem_of_nil|]|].
  destruct (decide (k' = k)) as [->|Hne].
  - split; [done|]. intros H. destruct H. left.
  - rewrite IH. set_solver.
Qed.

(** The runs with a sample number. *)
Definition runs_of (rows : list timing_row) (n : Z) : list timing_row :=
  List.filter (λ r, bool_decide (sample r = n)) rows.

Lemma elem_of_runs_of rows n r : r ∈ runs_of rows n ↔ r ∈ rows ∧ sample r = n.
Proof. unfold runs_of. by rewrite !list_elem_of_In, filter_In, bool_decide_eq_true. Qed.

(** The last run of a build with a sample number. *)
Definition last_run (rows : list timing_row) (n : Z) (name : str) : option timing_row :=
  last (List.filter (λ r, bool_decide (sample r = n) && bool_decide (build r = name)) rows).

Lemma last_run_None rows n name :
  last_run rows n name = None ↔ ∀ r, r ∈ rows → sample r = n → build r ≠ name.
Proof.
  unfold last_run. rewrite last_None. split.
  - intros Hnil r Hr Hn Hb. assert (r ∈ @nil timing_row) as Hin; [|by apply elem_of_nil in Hin].
    rewrite <- Hnil. apply list_elem_of_In, filter_In. split; [by apply list_elem_of_In|].
    by rewrite !bool_decide_true.
  - intros Hno. destruct (List.filter _ rows) as [|r l] eqn:E; [done|].
    assert (r ∈ List.filter (λ r, bool_decide (sample r = n) && bool_decide (build r = name)) rows) as Hin
      by (rewrite E; left).
    apply list_elem_of_In, filter_In in Hin as [Hin%list_elem_of_In [H1 H2]%andb_prop].
    apply bool_decide_eq_true in H1, H2. by destruct (Hno r Hin H1).
Qed.

(** The runs with the number are of exactly two builds. *)
Definition compared (rows : list timing_row) (n : Z) : Prop := length (builds (runs_of rows n)) = 2.

Lemma cells_builds rows n cells :
  (n, cells) ∈ by_sample rows →
  (∀ name, dget name cells = last_run rows n name) ∧ length cells = length (builds (runs_of rows n)).
Proof.
  intros Hin. destruct (by_sample_keys rows) as [Hnd Hcells].
  apply dget_elem in Hin as Hget; [|done].
  assert (∀ name, dget name cells = last_run rows n name) as Hlast.
  { intros name. pose proof (by_sample_last rows n name) as H. by rewrite Hget in H. }
  split; [done|]. rewrite Forall_forall in Hcells. specialize (Hcells _ Hin). cbn in Hcells.
  rewrite <- (length_fmap fst cells). apply Permutation_length, NoDup_Permutation; [done| |].
  - unfold builds. rewrite <- sort_perm. apply NoDup_elements.
  - intros name. transitivity (dget name cells ≠ None).
    { rewrite dget_None. destruct (decide (name ∈ cells.*1)); naive_solver. }
    rewrite Hlast, last_run_None, elem_of_builds. split.
    + intros H. destruct (decide (name ∈ map build (runs_of rows n))) as [Hn|Hn].
      * apply list_elem_of_fmap in Hn as (r & -> & Hr). by exists r.
      * destruct H. intros r Hr Hs <-. apply Hn, list_elem_of_fmap. exists r.
        split; [done|]. by apply elem_of_runs_of.
    + intros (r & [Hr Hs]%elem_of_runs_of & Hb) Hno. by eapply Hno.
Qed.

(** What a compared pair of runs shows: how many cycles, in percent, the plain run saves. *)
Definition saving_of (rows : list timing_row) (n : Z) (x : float) : Prop :=
  ∃ p a q, last_run rows n (lit "plain") = Some p ∧ last_run rows n (lit "atomic") = Some a ∧
    int_ratio (cycles p) (cycles a) = Ok q ∧ x = fmul (of_int 100) (fsub (of_int 1) q).

Lemma percent_is_number q : is_nan q = false → is_nan (fmul (of_int 100) (fsub (of_int 1) q)) = false.
Proof.
  intros Hq. change (of_int 100) with (S754_finite false 7036874417766400 (-46)).
  change (of_int 1) with (S754_finite false 4503599627370496 (-52)).
  by apply mul_is_number, sub_is_number.
Qed.

Lemma saving_is_number rows n x : saving_of rows n x → is_nan x = false.
Proof. intros (p & a & q & _ & _ & Hq & ->). by eapply percent_is_number, int_ratio_is_number. Qed.

Lemma pair_saving_of rows n cells x :
  (n, cells) ∈ by_sample rows → pair_saving cells = Ok x → saving_of rows n x.
Proof.
  intros [Hlast _]%cells_builds H. unfold pair_saving in H. rewrite !Hlast in H.
  apply bind_Ok in H as (p & Hp%or_raise_Ok & H). apply bind_Ok in H as (a & Ha%or_raise_Ok & H).
  apply bind_Ok in H as (q & Hq & [= <-]). by exists p, a, q.
Qed.

(** The sample numbers whose runs are compared. *)
Definition compared_samples (rows : list timing_row) : list Z :=
  (List.filter (λ x : Z * list (str * timing_row), length x.2 =? 2) (by_sample rows)).*1.

Lemma compared_samples_spec rows :
  NoDup (compared_samples rows) ∧ ∀ n, n ∈ compared_samples rows ↔ compared rows n.
Proof.
  destruct (by_sample_keys rows) as [Hnd _]. split.
  - unfold compared_samples. revert Hnd. generalize (by_sample rows) as d.
    induction d as [|[n cells] d IH]; [done|]. cbn [fmap list_fmap List.filter]. intros [Hn Hd]%NoDup_cons.
    destruct (_ =? 2); [|by apply IH]. cbn. apply NoDup_cons. split; [|by apply IH].
    intros ([n' c] & -> & Hin)%list_elem_of_fmap. apply Hn, list_elem_of_fmap. exists (n', c).
    split; [done|]. apply list_elem_of_In, filter_In in Hin as [Hin _]. by apply list_elem_of_In.
  - intros n. unfold compared_samples, compared. rewrite list_elem_of_fmap. split.
    + intros ([n' cells] & -> & Hin). apply list_elem_of_In, filter_In in Hin as [Hin Hl].
      apply list_elem_of_In in Hin. destruct (cells_builds _ _ _ Hin) as [_ Hc]. cbn. rewrite <- Hc. by apply Nat.eqb_eq in Hl.
    + intros Hl. destruct (dget n (by_sample rows)) as [cells|] eqn:E.
      * apply dget_elem in E; [|done]. destruct (cells_builds _ _ _ E) as [_ Hc].
        exists (n, cells). split; [done|]. apply list_elem_of_In, filter_In.
        split; [by apply list_elem_of_In|]. cbn. by rewrite Hc, Hl.
      * exfalso. assert (runs_of rows n = []) as Hnil; [|by rewrite Hnil in Hl].
        destruct (runs_of rows n) as [|r l] eqn:Er; [done|].
        assert (r ∈ runs_of rows n) as [Hr Hs]%elem_of_runs_of by (rewrite Er; left).
        pose proof (by_sample_last rows n (build r)) as Hb. rewrite E in Hb. cbn in Hb.
        symmetry in Hb. change (last_run rows n (build r) = None) in Hb. rewrite last_run_None in Hb.
        by destruct (Hb r Hr Hs).
Qed.

Lemma pairs_compared rows :
  pairs rows = (List.filter (λ x : Z * list (str * timing_row), length x.2 =? 2) (by_sample rows)).*2.
Proof.
  unfold pairs. induction (by_sample rows) as [|[n cells] d IH]; [done|]. cbn [map List.filter snd].
  rewrite IH. by destruct (_ =? 2).
Qed.

Lemma strongly_sorted_impl {A} (R S : A → A → Prop) l :
  (∀ x y, R x y → S x y) → StronglySorted R l → StronglySorted S l.
Proof.
  intros HRS. induction 1 as [|a l Hl IH Ha]; constructor; [done|].
  eapply Forall_impl; [exact Ha|]. by apply HRS.
Qed.

(** The savings are those of the compared samples in increasing order. *)
Lemma fewer_savings rows savings :
  fewer rows = Ok savings →
  ∃ xs, Forall2 (saving_of rows) (compared_samples rows) xs ∧ Permutation xs savings ∧
    StronglySorted (λ x y, fltb y x = false) savings.
Proof.
  intros H. unfold fewer in H. apply bind_Ok in H as (xs & Hxs & [= <-]). exists xs.
  rewrite pairs_compared in Hxs. apply mapR_Forall2 in Hxs. apply Forall2_fmap_l in Hxs.
  assert (Forall2 (saving_of rows) (compared_samples rows) xs) as Hs.
  { unfold compared_samples. apply Forall2_fmap_l. cbn in Hxs.
    assert (∀ x, x ∈ List.filter (λ x : Z * list (str * timing_row), length x.2 =? 2) (by_sample rows) →
      x ∈ by_sample rows) as Hsub.
    { intros x [Hx _]%list_elem_of_In%filter_In. by apply list_elem_of_In. }
    revert Hsub. induction Hxs as [|[n cells] x l xs Hx Hxs IH]; intros Hsub; constructor.
    - eapply pair_saving_of; [apply Hsub; left|exact Hx].
    - apply IH. intros y Hy. apply Hsub. by right. }
  split_and!; [done|apply sort_perm|].
  assert (StronglySorted (λ a b, negb (fltb b a) = true) (sort (λ x y, negb (fltb y x)) xs)) as Hsort.
  { apply (sort_sorted_where _) with (P := λ x, is_nan x = false).
    - intros x y. destruct (not_below_total x y) as [->| ->]; [by left|by right].
    - intros x y z Hx Hy Hz Hxy%negb_true_iff Hyz%negb_true_iff. apply negb_true_iff.
      by eapply (not_below_trans x y z).
    - apply Forall_forall. intros x Hx. apply list_elem_of_lookup in Hx as [i Hi].
      destruct (Forall2_lookup_r _ _ _ _ _ Hs Hi) as (n & _ & Hn). by eapply saving_is_number. }
  eapply strongly_sorted_impl; [|exact Hsort]. intros x y. apply negb_true_iff.
Qed.

(** * The file of runs *)

(** A line of runs.tsv as attribution/run prints it; the second component is the text of the
    seconds. *)
Definition run_line (x : timing_row * str) : str :=
  tsv_row [build x.1; dec (sample x.1); load_average x.1; x.2; dec (cycles x.1); dec (instructions x.1)].

Definition run_ok (x : timing_row * str) : Prop :=
  field_ok (build x.1) ∧ field_ok (load_average x.1) ∧ field_ok x.2 ∧ parse_float x.2 = Ok (seconds x.1) ∧
  (0 ≤ sample x.1)%Z ∧ (0 ≤ cycles x.1)%Z ∧ (0 ≤ instructions x.1)%Z.

Lemma run_fields x : run_ok x → Forall field_ok
  [build x.1; dec (sample x.1); load_average x.1; x.2; dec (cycles x.1); dec (instructions x.1)].
Proof.
  intros (H1 & H2 & H3 & _ & H4 & H5 & H6). repeat (apply Forall_cons_2; [auto with fields|]). apply Forall_nil_2.
Qed.

Lemma read_runs xs :
  Forall run_ok xs → mapR read_timing_row (splitlines (lines_of run_line xs)) = Ok (map fst xs).
Proof.
  intros Hxs. unfold lines_of.
  replace (map (λ b, run_line b ++ [newline]) xs) with (map (λ x, x ++ [newline]) (map run_line xs))
    by (by rewrite map_map).
  rewrite splitlines_terminated.
  2: { apply Forall_fmap. eapply Forall_impl; [exact Hxs|]. intros x Hx. by apply tsv_one_line, run_fields. }
  induction Hxs as [|x xs Hx Hxs IH]; [done|]. cbn [map mapR]. rewrite IH.
  unfold read_timing_row, run_line. rewrite tsv_fields by (done || by apply run_fields).
  destruct Hx as (_ & _ & _ & Hsec & Hs & Hc & Hi). rewrite !int_dec, Hsec by done. cbn.
  by destruct x as [[] t].
Qed.

(** The best values of one build: the least seconds, cycles and instructions of its runs. *)
Definition best_of_build (rows : list timing_row) (name : str) (v : best_of) : Prop :=
  least_of not_above seconds rows name (best_seconds v) ∧
  least_of Z.le cycles rows name (best_cycles v) ∧
  least_of Z.le instructions rows name (best_instructions v).

(** [best] never fails: it lists the builds in their order with their best values. *)
Lemma best_builds rows :
  ∃ b, best rows = Ok b ∧ b.*1 = builds rows ∧ ∀ name v, (name, v) ∈ b →
    best_of_build rows name v.
Proof.
  assert (∀ l, (∀ name, name ∈ l → name ∈ builds rows) →
    ∃ b, mapR (best_row rows) l = Ok b ∧ b.*1 = l ∧
      ∀ name v, (name, v) ∈ b → best_of_build rows name v) as Hall; [|by apply Hall].
  induction l as [|name l IH]; intros Hl; [exists []; split_and!; [done..|by intros name v ?%elem_of_nil]|].
  destruct (best_row_spec rows name (Hl _ ltac:(left))) as (v & Hv & Hleast).
  destruct IH as (b & Hb & Hkeys & Hmin); [intros x Hx; apply Hl; by right|].
  exists ((name, v) :: b). cbn [mapR fmap list_fmap fst]. rewrite Hv. cbn [mbind result_bind]. rewrite Hb, Hkeys.
  split_and!; [done..|]. intros name' v' [[= -> ->]|Hin]%elem_of_cons; [done|by apply Hmin].
Qed.

Lemma builds_order rows :
  StronglySorted (λ x y, str_leb x y = true) (builds rows) ∧ NoDup (builds rows).
Proof.
  split; [apply sort_sorted; [apply str_leb_total|apply str_leb_trans]|].
  unfold builds. rewrite <- sort_perm. apply NoDup_elements.
Qed.

Lemma plain_over_atomic_text a p text :
  plain_over_atomic a p = Ok text →
  ∃ i t c, int_ratio (best_instructions p) (best_instructions a) = Ok i ∧
    float_ratio (best_seconds p) (best_seconds a) = Ok t ∧
    int_ratio (best_cycles p) (best_cycles a) = Ok c ∧
    text = (let change := fmul (of_int 100) (fsub i (of_int 1)) in
      lit "Plain over atomic, best of each: "
      ++ fixed 1 (fmul (of_int 100) (fsub (of_int 1) t)) ++ lit "% less time, "
      ++ fixed 1 (fmul (of_int 100) (fsub (of_int 1) c)) ++ lit "% fewer cycles, "
      ++ fixed 1 (SFabs change) ++ lit "% "
      ++ (if fltb (of_int 0) change then lit "more" else lit "fewer") ++ lit " instructions." ++ [newline]).
Proof.
  intros H. unfold plain_over_atomic in H. apply bind_Ok in H as (i & Hi & H).
  apply bind_Ok in H as (t & Ht & H). apply bind_Ok in H as (c & Hc & [= <-]).
  exists i, t, c. split; [exact Hi|]. split; [exact Ht|]. split; [exact Hc|]. reflexivity.
Qed.

Lemma per_pair_text savings text :
  per_pair savings = Ok text →
  ∃ lo hi median, head savings = Some lo ∧ last savings = Some hi ∧
    savings !! (length savings / 2) = Some median ∧
    text = lit "Per pair (same sample number), the plain build used " ++ fixed 1 lo ++ lit "% to "
      ++ fixed 1 hi ++ lit "% fewer cycles, median " ++ fixed 1 median ++ lit "%." ++ [newline].
Proof.
  intros H. unfold per_pair in H. apply bind_Ok in H as (lo & Hlo%or_raise_Ok & H).
  apply bind_Ok in H as (hi & Hhi%or_raise_Ok & H). apply bind_Ok in H as (m & Hm%or_raise_Ok & [= <-]).
  exists lo, hi, m. rewrite <- Nat.div2_div. split; [exact Hlo|]. split; [exact Hhi|]. split; [exact Hm|]. reflexivity.
Qed.

Lemma max_int_Ok l n : max_int l = Ok n → n ∈ l ∧ ∀ x, x ∈ l → (x ≤ n)%Z.
Proof.
  intros H. destruct (decide (l = [])) as [->|Hne]; [done|].
  destruct (max_int_spec l Hne) as (m & Hm & H1 & H2). rewrite Hm in H. by injection H as <-.
Qed.

Lemma max_sample rows samples :
  max_int (map sample rows) = Ok samples →
  (∃ r, r ∈ rows ∧ sample r = samples) ∧ ∀ r, r ∈ rows → (sample r ≤ samples)%Z.
Proof.
  intros [(r & -> & Hr)%list_elem_of_fmap Hmax]%max_int_Ok. split; [by exists r|].
  intros r' Hr'. apply Hmax, list_elem_of_fmap. by exists r'.
Qed.

(** * When the stage succeeds *)

Section measured.

Context (rows : list timing_row).
Context (Hrows : ∀ r, r ∈ rows → (build r = lit "atomic" ∨ build r = lit "plain") ∧
  zero_float (seconds r) = false ∧ (0 < cycles r < 2 ^ 53)%Z ∧ (0 < instructions r < 2 ^ 53)%Z).

Lemma last_run_elem n name r : last_run rows n name = Some r → r ∈ rows ∧ sample r = n ∧ build r = name.
Proof.
  intros H%last_Some_elem_of. apply list_elem_of_In, filter_In in H as [Hin [H1 H2]%andb_prop].
  apply bool_decide_eq_true in H1, H2. split; [by apply list_elem_of_In|done].
Qed.

(** A compared sample number has a run of either build. *)
Lemma compared_both n name :
  compared rows n → name = lit "atomic" ∨ name = lit "plain" → is_Some (last_run rows n name).
Proof.
  intros Hc Hname. apply not_eq_None_Some. rewrite last_run_None. intros Hno.
  assert (builds (runs_of rows n) ⊆+ [if decide (name = lit "atomic") then lit "plain" else lit "atomic"]) as Hsub.
  { apply NoDup_submseteq; [apply builds_order|]. intros x (r & [Hr Hs]%elem_of_runs_of & <-)%elem_of_builds.
    apply list_elem_of_singleton. pose proof (Hno r Hr Hs) as Hne. destruct (Hrows r Hr) as [Hb _].
    destruct (decide _) as [->|Hna]; [by destruct Hb as [Hb|Hb]; rewrite Hb in *|].
    destruct Hname as [->| ->]; [done|]. by destruct Hb as [Hb|Hb]; rewrite Hb in *. }
  apply submseteq_length in Hsub. unfold compared in Hc. rewrite Hc in Hsub. cbn in Hsub. lia.
Qed.

Lemma pair_saving_ok n cells :
  (n, cells) ∈ by_sample rows → compared rows n → is_ok (pair_saving cells) = true.
Proof.
  intros [Hlast _]%cells_builds Hc. unfold pair_saving. rewrite !Hlast.
  destruct (compared_both n (lit "plain") Hc (or_intror eq_refl)) as [p Hp].
  destruct (compared_both n (lit "atomic") Hc (or_introl eq_refl)) as [a Ha]. rewrite Hp, Ha.
  cbn [or_raise mbind result_bind]. apply last_run_elem in Hp as (Hp & _), Ha as (Ha & _).
  pose proof (int_ratio_small (cycles p) (cycles a)) as H.
  destruct (int_ratio _ _); [done|]. apply H; by apply Hrows.
Qed.

Lemma build_listed b n name :
  b.*1 = builds rows → NoDup b.*1 → compared rows n → name = lit "atomic" ∨ name = lit "plain" →
  ∃ v : best_of, dget name b = Some v ∧ rows ≠ [].
Proof.
  intros Hkeys Hnd Hn Hname. destruct (compared_both n name Hn Hname) as [r Hr].
  apply last_run_elem in Hr as (Hr & _ & Hb).
  assert (name ∈ b.*1) as Hin by (rewrite Hkeys; apply elem_of_builds; by exists r).
  destruct (dget name b) as [v|] eqn:E; [|by apply dget_None in E].
  exists v. split; [done|]. intros Hnil. rewrite Hnil in Hr. by apply elem_of_nil in Hr.
Qed.

Lemma plain_over_atomic_ok a p name name' :
  best_of_build rows name a → best_of_build rows name' p → ∃ text, plain_over_atomic a p = Ok text.
Proof.
  intros ([(r1 & H1 & _ & E1) _] & [(r2 & H2 & _ & E2) _] & [(r3 & H3 & _ & E3) _]).
  intros ([(s1 & K1 & _ & F1) _] & [(s2 & K2 & _ & F2) _] & [(s3 & K3 & _ & F3) _]).
  unfold plain_over_atomic.
  destruct (is_ok_Ok _ (int_ratio_small (best_instructions p) (best_instructions a)
    ltac:(rewrite <- F3; by apply Hrows) ltac:(rewrite <- E3; by apply Hrows))) as [i ->].
  assert (∃ t, float_ratio (best_seconds p) (best_seconds a) = Ok t) as [t ->].
  { rewrite <- E1. unfold float_ratio. destruct (Hrows r1 H1) as (_ & Hz & _).
    destruct (seconds r1); [done|by eexists..]. }
  destruct (is_ok_Ok _ (int_ratio_small (best_cycles p) (best_cycles a)
    ltac:(rewrite <- F2; by apply Hrows) ltac:(rewrite <- E2; by apply Hrows))) as [c ->].
  cbn [mbind result_bind]. eexists. reflexivity.
Qed.

Lemma fewer_ok n : compared rows n → ∃ savings, fewer rows = Ok savings ∧ savings ≠ [].
Proof.
  intros Hn. assert (∃ xs, mapR pair_saving (pairs rows) = Ok xs) as [xs Hxs].
  { assert (∀ cells, cells ∈ pairs rows → ∃ x, pair_saving cells = Ok x) as Hall.
    { intros cells Hin. rewrite pairs_compared in Hin. apply list_elem_of_fmap in Hin as ([k c] & -> & Hin).
      apply list_elem_of_In, filter_In in Hin as [Hin Hl]. apply list_elem_of_In in Hin.
      apply is_ok_Ok, (pair_saving_ok k); [done|]. destruct (cells_builds _ _ _ Hin) as [_ Hc].
      unfold compared. rewrite <- Hc. by apply Nat.eqb_eq in Hl. }
    induction (pairs rows) as [|cells l IH]; [by exists []|].
    destruct (Hall cells ltac:(left)) as [x Hx]. destruct IH as [xs Hxs]; [intros; apply Hall; by right|].
    exists (x :: xs). cbn. by rewrite Hx; cbn; rewrite Hxs. }
  unfold fewer. rewrite Hxs. cbn [mbind result_bind]. eexists. split; [reflexivity|].
  intros Hnil. assert (xs = []) as ->.
  { apply Permutation_nil. rewrite <- Hnil. symmetry. apply sort_perm. }
  apply mapR_Forall2 in Hxs. rewrite pairs_compared in Hxs. apply Forall2_nil_inv_r in Hxs.
  destruct (compared_samples_spec rows) as [_ Hns]. apply Hns in Hn. unfold compared_samples in Hn.
  apply fmap_nil_inv in Hxs. rewrite Hxs in Hn. by apply elem_of_nil in Hn.
Qed.

Lemma per_pair_ok savings : savings ≠ [] → ∃ text, per_pair savings = Ok text.
Proof.
  intros Hne. unfold per_pair. destruct savings as [|x l]; [done|]. cbn [head or_raise mbind result_bind].
  destruct (last (x :: l)) as [y|] eqn:E; [|by apply last_None in E]. cbn [or_raise mbind result_bind].
  destruct (lookup_lt_is_Some_2 (x :: l) (Nat.div2 (length (x :: l)))) as [m ->].
  { apply Nat.lt_div2. cbn. lia. }
  cbn [or_raise mbind result_bind]. eexists. reflexivity.
Qed.

End measured.

(** * Properties *)

(** What [timing] prints, written out: the runs in their order, the best values of the builds
    [b], the three ratios of plain over atomic, and the savings of the pairs. *)
Definition timing_text (rows : list timing_row) (samples : Z) (b : list (str * best_of))
    (time cycle instruction lo hi median : float) : str :=
  let change := fmul (of_int 100) (fsub instruction (of_int 1)) in
  join [newline]
    [lit "### Runs (in execution order)" ++ [newline];
     table [lit "Build"; lit "Sample"; lit "Load average (1, 5, 15 min) before";
            lit "User+system seconds"; lit "Cycles"; lit "Instructions retired"]
       (map (λ r, [build r; dec (sample r); load_average r; fixed 3 (seconds r); number (cycles r);
                   number (instructions r)]) rows) (lit "lrlrrr");
     lit "### Best of " ++ dec samples ++ [newline];
     table [lit "Build"; lit "Seconds"; lit "Cycles"; lit "Instructions retired"]
       (map (λ x : str * best_of, [x.1; fixed 3 (best_seconds x.2); number (best_cycles x.2);
                                   number (best_instructions x.2)]) b) (lit "lrrr");
     lit "Plain over atomic, best of each: "
       ++ fixed 1 (fmul (of_int 100) (fsub (of_int 1) time)) ++ lit "% less time, "
       ++ fixed 1 (fmul (of_int 100) (fsub (of_int 1) cycle)) ++ lit "% fewer cycles, "
       ++ fixed 1 (SFabs change) ++ lit "% "
       ++ (if fltb (of_int 0) change then lit "more" else lit "fewer") ++ lit " instructions." ++ [newline];
     lit "Per pair (same sample number), the plain build used " ++ fixed 1 lo ++ lit "% to "
       ++ fixed 1 hi ++ lit "% fewer cycles, median " ++ fixed 1 median ++ lit "%." ++ [newline]].

(** C26: On a file of runs as attribution/run prints it, whatever the stage [timing] returns is
    this text: the runs in their order; the greatest sample number; for each build of the file,
    once and in the order of the names, the least seconds, cycles and instructions over the runs
    of that build; the ratios of the best values of plain over those of atomic; and the least,
    the greatest and the median of the savings in cycles (100 times one minus plain over
    atomic, in increasing order), one for each sample number whose runs are of exactly two
    builds, from the last run of either build with that number.  And it returns when all runs
    are of the builds plain and atomic, some sample number has both, and all counts are positive
    and below 2^53 and all seconds not zero. *)
Theorem timing_best os_error files directory xs :
  let rows := map fst xs in
  files !! path_join directory (lit "timing/runs.tsv") = Some (lines_of run_line xs) →
  Forall run_ok xs →
  (∀ out, timing os_error files directory = Ok out →
   ∃ b samples a p time cycle instruction ns unsorted savings lo hi median,
     out = timing_text rows samples b time cycle instruction lo hi median ∧
     (∃ r, r ∈ rows ∧ sample r = samples) ∧ (∀ r, r ∈ rows → (sample r ≤ samples)%Z) ∧
     StronglySorted (λ x y, str_leb x y = true) b.*1 ∧ NoDup b.*1 ∧
     (∀ name, name ∈ b.*1 ↔ ∃ r, r ∈ rows ∧ build r = name) ∧
     (∀ name v, (name, v) ∈ b → best_of_build rows name v) ∧
     (lit "atomic", a) ∈ b ∧ (lit "plain", p) ∈ b ∧
     float_ratio (best_seconds p) (best_seconds a) = Ok time ∧
     int_ratio (best_cycles p) (best_cycles a) = Ok cycle ∧
     int_ratio (best_instructions p) (best_instructions a) = Ok instruction ∧
     NoDup ns ∧ (∀ n, n ∈ ns ↔ compared rows n) ∧
     Forall2 (saving_of rows) ns unsorted ∧ Permutation unsorted savings ∧
     StronglySorted (λ x y, fltb y x = false) savings ∧
     head savings = Some lo ∧ last savings = Some hi ∧ savings !! (length savings / 2) = Some median) ∧
  ((∀ r, r ∈ rows → (build r = lit "atomic" ∨ build r = lit "plain") ∧ zero_float (seconds r) = false ∧
      (0 < cycles r < 2 ^ 53)%Z ∧ (0 < instructions r < 2 ^ 53)%Z) →
   (∃ n, compared rows n) → is_ok (timing os_error files directory) = true).
Proof.
  intros rows Hfile Hok. unfold timing, read. rewrite Hfile. cbn [or_raise mbind result_bind].
  rewrite (read_runs xs Hok). fold rows. cbn [mbind result_bind].
  destruct (best_builds rows) as (b & -> & Hkeys & Hb). cbn [mbind result_bind].
  split.
  - intros out H. apply bind_Ok in H as (samples & Hsamples & H).
    apply bind_Ok in H as (a & Ha%or_raise_Ok & H). apply bind_Ok in H as (p & Hp%or_raise_Ok & H).
    apply bind_Ok in H as (over & Hover & H). apply bind_Ok in H as (savings & Hsav & H).
    apply bind_Ok in H as (pair_text & Hpair & [= <-]).
    destruct (fewer_savings _ _ Hsav) as (unsorted & Hs & Hperm & Hsort).
    apply plain_over_atomic_text in Hover as (ri & rt & rc & Hri & Hrt & Hrc & ->).
    apply per_pair_text in Hpair as (lo & hi & median & H1 & H2 & H3 & ->).
    destruct (compared_samples_spec rows) as [Hnd Hns]. destruct (builds_order rows) as [Hbs Hbn].
    apply dget_elem in Ha, Hp; [|by rewrite Hkeys..].
    exists b, samples, a, p, rt, rc, ri, (compared_samples rows), unsorted, savings, lo, hi, median.
    rewrite Hkeys. split; [reflexivity|].
    apply max_sample in Hsamples as [Hmax Hle].
    split_and!; [exact Hmax|exact Hle|exact Hbs|exact Hbn|apply elem_of_builds|exact Hb|exact Ha|exact Hp|
      exact Hrt|exact Hrc|exact Hri|exact Hnd|exact Hns|exact Hs|exact Hperm|exact Hsort|exact H1|exact H2|exact H3].
  - intros Hrows [n Hn]. destruct (builds_order rows) as [_ Hbn]. rewrite <- Hkeys in Hbn.
    destruct (build_listed rows Hrows b n (lit "atomic") Hkeys Hbn Hn) as (a & Ha & Hra); [by left|].
    destruct (build_listed rows Hrows b n (lit "plain") Hkeys Hbn Hn) as (p & Hp & _); [by right|].
    destruct (max_int_spec (map sample rows)) as (samples & -> & _).
    { intros Hnil. by apply map_eq_nil in Hnil. }
    rewrite Ha, Hp. cbn [or_raise mbind result_bind]. apply dget_elem in Ha, Hp; [|done..].
    destruct (plain_over_atomic_ok rows Hrows _ _ _ _ (Hb _ _ Ha) (Hb _ _ Hp)) as [over ->].
    destruct (fewer_ok rows Hrows n Hn) as (savings & -> & Hne). cbn [mbind result_bind].
    by destruct (per_pair_ok savings Hne) as [pair_text ->].
Qed.

(** Two samples of either build, and a run of one build only. *)
Definition sample_run (name : str) (n : Z) (t : str) (c i : Z) : timing_row * str :=
  (TimingRow name n (lit "1.0,1.1,1.2") (match parse_float t with Ok x => x | Raise _ => S754_nan end) c i, t).
Definition runs_sample : list (timing_row * str) :=
  [sample_run (lit "atomic") 1 (lit "2.000") 1000 4000; sample_run (lit "plain") 1 (lit "1.000") 800 4400;
   sample_run (lit "plain") 2 (lit "1.500") 750 4300; sample_run (lit "atomic") 2 (lit "2.500") 1500 4100;
   sample_run (lit "atomic") 3 (lit "2.100") 1200 4050].

(** A literal field, checked by evaluation. *)
Lemma literal_field w :
  forallb (λ c, negb (is_line_boundary c)) w && forallb (λ c, negb (Ascii.eqb c tab)) w = true → field_ok w.
Proof.
  intros [H1 H2]%andb_prop. split; [exact H1|]. intros Hin%list_elem_of_In.
  rewrite forallb_forall in H2. apply H2 in Hin. by rewrite Ascii.eqb_refl in Hin.
Qed.

Lemma runs_sample_measured r :
  r ∈ map fst runs_sample → (build r = lit "atomic" ∨ build r = lit "plain") ∧
    zero_float (seconds r) = false ∧ (0 < cycles r < 2 ^ 53)%Z ∧ (0 < instructions r < 2 ^ 53)%Z.
Proof.
  intros Hr. assert (Forall (λ r, (build r = lit "atomic" ∨ build r = lit "plain") ∧
    zero_float (seconds r) = false ∧ (0 < cycles r < 2 ^ 53)%Z ∧ (0 < instructions r < 2 ^ 53)%Z)
    (map fst runs_sample)) as H; [|rewrite Forall_forall in H; by apply H].
  repeat (apply Forall_cons_2; [split; [by (left + right)|split; [vm_compute; reflexivity|cbn; lia]]|]).
  apply Forall_nil_2.
Qed.

Lemma timing_best_witness :
  ∃ out (b : list (str * best_of)) p,
    timing (λ x, x) {[lit "d/timing/runs.tsv" := lines_of run_line runs_sample]} (lit "d") = Ok out ∧
    (lit "plain", p) ∈ b ∧ best_of_build (map fst runs_sample) (lit "plain") p ∧
    contains (lit "used 20.0% to 50.0% fewer cycles, median 50.0%.") out = true.
Proof.
  destruct (timing_best (λ x, x) {[lit "d/timing/runs.tsv" := lines_of run_line runs_sample]} (lit "d")
    runs_sample) as [Hout Hok].
  - vm_compute. reflexivity.
  - repeat (apply Forall_cons_2; [split_and!; [apply literal_field; reflexivity|apply literal_field; reflexivity|
      apply literal_field; reflexivity|vm_compute; reflexivity|discriminate|discriminate|discriminate]|]).
    apply Forall_nil_2.
  - destruct (timing _ _ _) as [out|e] eqn:E.
    + exists out. destruct (Hout out eq_refl) as (b & samples & a & p & time & cycle & instruction & ns &
        unsorted & savings & lo & hi & median & _ & _ & _ & _ & _ & _ & Hb & _ & Hp & _).
      exists b, p. split; [reflexivity|]. split; [exact Hp|]. split; [exact (Hb _ _ Hp)|].
      vm_compute in E. injection E as <-. vm_compute. reflexivity.
    + exfalso. assert (is_ok (Raise e : result str) = true) as H; [|discriminate H].
      apply Hok; [exact runs_sample_measured|]. exists 1%Z. vm_compute. reflexivity.
Defined.
