(* ===== verification/Schedules.v ===== *)
(** Programs of several threads: a step function per thread, the schedules that interleave
    the threads, and the interface [Terminating] of a program all of whose schedules end.
    The clients are the benchmarks of Threads and Fanout. *)
From S2P Require Import Prelude.

(** * Schedules *)

Section schedules.

(** [step t s]: the state after the next step of thread [t]; [None] when it waits, has not
    started or has returned. *)
Context {T S : Type} (step : T → S → option S).

(** A schedule is the order in which the threads take their steps. *)
Inductive steps : list T → S → S → Prop :=
  | steps_nil s : steps [] s s
  | steps_cons t ts s1 s2 s3 : step t s1 = Some s2 → steps ts s2 s3 → steps (t :: ts) s1 s3.

Fixpoint run (ts : list T) (s : S) : option S :=
  match ts with [] => Some s | t :: ts => s' ← step t s; run ts s' end.

Definition reachable (start s : S) : Prop := ∃ ts, steps ts start s.

(** Some thread can take a step. *)
Definition moves (s : S) : Prop := ∃ t s', step t s = Some s'.

Lemma run_steps ts s s' : run ts s = Some s' ↔ steps ts s s'.
Proof.
  split.
  - revert s. induction ts as [|t ts IH]; intros s; cbn [run]; [intros [= ->]; constructor|].
    intros (s1 & H1 & H)%bind_Some. econstructor; eauto.
  - induction 1 as [|t ts s1 s2 s3 H1 _ IH]; [done|]. cbn [run]. by rewrite H1.
Qed.

Lemma steps_app ts us s1 s2 s3 : steps ts s1 s2 → steps us s2 s3 → steps (ts ++ us) s1 s3.
Proof. induction 1; [done|]. intros. econstructor; eauto. Qed.

(** A schedule that takes the threads of [turns] in turn, again and again, and skips the ones
    that wait; for concrete runs. *)
Fixpoint fair_schedule (turns : list T) (fuel : nat) (turn : list T) (s : S) : list T :=
  match fuel with
  | O => []
  | Datatypes.S fuel =>
      match turn with
      | [] => fair_schedule turns fuel turns s
      | t :: turn =>
          match step t s with
          | Some s' => t :: fair_schedule turns fuel turn s'
          | None => fair_schedule turns fuel turn s
          end
      end
  end.

(** The rule of invariants. *)
Lemma steps_invariant (I : S → Prop) :
  (∀ t s s', I s → step t s = Some s' → I s') → ∀ ts s s', steps ts s s' → I s → I s'.
Proof. intros HI ts s s'. induction 1; eauto. Qed.

(** The rule of measures that every step lowers by one. *)
Lemma steps_measure (left : S → Z) :
  (∀ t s s', step t s = Some s' → left s = (left s' + 1)%Z) →
  ∀ ts s s', steps ts s s' → left s = (left s' + Z.of_nat (length ts))%Z.
Proof.
  intros Hl ts s s'. induction 1 as [|t ts s1 s2 s3 H1 _ IH]; cbn [length]; [lia|].
  rewrite (Hl _ _ _ H1). lia.
Qed.

(** * Programs that end on every schedule *)

(** What a program shows: an invariant of its states, the number of steps it has left, and
    that a state which is not final can go on. *)
Class Terminating (start : S) (final : S → Prop) (ok : S → Prop) (left : S → Z) : Prop := {
  ok_start : ok start;
  ok_step : ∀ t s s', ok s → step t s = Some s' → ok s';
  left_step : ∀ t s s', step t s = Some s' → left s = (left s' + 1)%Z;
  left_nonneg : ∀ s, (0 ≤ left s)%Z;
  left_final : ∀ s, ok s → final s → left s = 0%Z;
  goes_on : ∀ s, ok s → ¬ final s → moves s;
}.

Context {start : S} {final ok : S → Prop} {left : S → Z} `{!Terminating start final ok left}.

Lemma steps_ok ts s : steps ts start s → ok s.
Proof. intros H. apply (steps_invariant ok ok_step _ _ _ H), ok_start. Qed.

(** No schedule is longer than the steps left at the start, and a schedule has ended exactly
    when it is that long. *)
Lemma steps_bound ts s : steps ts start s → (Z.of_nat (length ts) ≤ left start)%Z.
Proof. intros H. rewrite (steps_measure left left_step _ _ _ H). pose proof (left_nonneg s). lia. Qed.

Lemma final_length ts s `{!Decision (final s)} :
  steps ts start s → final s ↔ Z.of_nat (length ts) = left start.
Proof.
  intros H. pose proof (steps_ok ts s H) as Hok.
  pose proof (steps_measure left left_step _ _ _ H) as Hlen. split.
  - intros Hf%left_final; [lia|done].
  - intros Hl. destruct (decide (final s)) as [|Hf]; [done|].
    destruct (goes_on s Hok Hf) as (t & s' & Hs%left_step). pose proof (left_nonneg s'). lia.
Qed.

(** A schedule that has not ended can be continued to one that has. *)
Lemma completed {final_dec : ∀ s, Decision (final s)} ts s :
  steps ts start s → ∃ us s', steps (ts ++ us) start s' ∧ final s'.
Proof.
  intros H. remember (Z.to_nat (left s)) as n eqn:En. revert ts s H En.
  induction n as [n IH] using lt_wf_ind. intros ts s H ->.
  destruct (decide (final s)) as [Hf|Hf]; [exists [], s; by rewrite app_nil_r|].
  destruct (goes_on s (steps_ok ts s H) Hf) as (t & s1 & H1).
  pose proof (left_step _ _ _ H1). pose proof (left_nonneg s1).
  destruct (IH (Z.to_nat (left s1)) ltac:(lia) (ts ++ [t]) s1) as (us & s' & Hs & Hf'); [|done|].
  - eapply steps_app; [done|]. repeat econstructor. exact H1.
  - exists (t :: us), s'. by rewrite <- (assoc_L (++)) in Hs.
Qed.

End schedules.

(** * Sums over the threads *)

(** A weight of the threads' states, and what changing one of them does to it. *)
Definition weight {A} (f : A → Z) (l : list A) : Z := zsum (map f l).

Lemma weight_insert {A} (f : A → Z) l i a b :
  l !! i = Some a → weight f (<[i := b]> l) = (weight f l - f a + f b)%Z.
Proof.
  unfold weight, zsum. revert i. induction l as [|w l IH]; intros [|i]; [done..| |]; cbn.
  - intros [= ->]. lia.
  - intros Hi. rewrite IH by done. lia.
Qed.

Lemma weight_nonneg {A} (f : A → Z) l : (∀ a, 0 ≤ f a)%Z → (0 ≤ weight f l)%Z.
Proof.
  intros Hf. unfold weight, zsum. induction l as [|w l IH]; cbn; [lia|]. pose proof (Hf w). lia.
Qed.

Lemma weight_replicate {A} (f : A → Z) a n : weight f (replicate n a) = (Z.of_nat n * f a)%Z.
Proof. unfold weight, zsum. induction n as [|n IH]; cbn -[Z.of_nat Z.mul]; lia. Qed.

Lemma weight_none {A} (f : A → Z) l : (∀ i a, l !! i = Some a → f a = 0%Z) → weight f l = 0%Z.
Proof.
  intros H. induction l as [|w l IH]; [done|]. unfold weight in *. cbn [map]. rewrite zsum_cons, IH.
  - by rewrite (H 0 w eq_refl).
  - intros i a Hi. by apply (H (Datatypes.S i)).
Qed.

#[global] Arguments weight : simpl never.
