(* ===== verification/Threads.v ===== *)
(** benchmarks/python/channel_pipeline.py and threaded_cpu_map.py: threads that share
    bounded queues, as a step relation over all schedules, and a static split of the same
    work over a thread pool.  Both check the interpreter and read their sizes from the
    environment. *)
From S2P Require Import Prelude PyStr Schedules.

(** * What the concurrent benchmarks share *)

(** [sys.version_info >= (3, 14)], the build variable, and what [sys._is_gil_enabled]
    answers when there is such a function. *)
Record interpreter := Interpreter {
  version : Z * Z;
  gil_disabled : str;
  gil_enabled : option bool;
}.

Definition version_ltb (a b : Z * Z) : bool := (a.1 <? b.1)%Z || ((a.1 =? b.1)%Z && (a.2 <? b.2)%Z).

Definition require_free_threaded (python : interpreter) : result unit :=
  if version_ltb (version python) (3, 14)%Z then
    Raise (SystemExit (lit "Python concurrency benchmarks require Python 3.14+"))
  else if negb (bool_decide (gil_disabled python = lit "1")) then
    Raise (SystemExit (lit "Python concurrency benchmarks require a free-threaded build"))
  else if default false (gil_enabled python) then
    Raise (SystemExit (lit "Python concurrency benchmarks require the GIL disabled"))
  else Ok tt.

Definition env_int (environ : gmap str str) (name : str) (fallback : nat) : nat :=
  match int (default [] (environ !! name)) with
  | Raise _ => fallback
  | Ok value => if (0 <? value)%Z then Z.to_nat value else fallback
  end.

(** One round of the generator, and the number a seed stands for. *)
Definition work_round (seed acc : Z) (i : nat) : Z :=
  ((acc * 1103515245 + 12345 + Z.of_nat i + seed) mod 2147483647)%Z.

Definition heavy_work (seed : Z) (rounds : nat) : Z :=
  (foldl (work_round seed) (seed + 1) (seq 0 rounds) mod 1000003)%Z.

Lemma env_int_pos environ name fallback : 0 < fallback → 0 < env_int environ name fallback.
Proof.
  intros Hf. unfold env_int. destruct (int _) as [v|]; [|done]. destruct (Z.ltb_spec 0 v); lia.
Qed.

(** * The pipeline *)

Module Channel.

Record config := Config { workers : nat; items : nat; rounds : nat }.

Definition capacity (c : config) : nat := workers c * 4.

(** What goes through the input queue. *)
Inductive message := Item (value : nat) | Sentinel.

(** [queue.Queue(maxsize)]: [put] waits while the queue is full, [get] while it is empty. *)
Definition put {A} (maxsize : nat) (queue : list A) (a : A) : option (list A) :=
  if (maxsize =? 0) || (length queue <? maxsize) then Some (queue ++ [a]) else None.
Definition get {A} (queue : list A) : option (A * list A) :=
  match queue with [] => None | a :: queue => Some (a, queue) end.

(** The next action of a worker: to take a message, or to put the result for a value. *)
Inductive worker_state := Taking | Holding (value : nat) | Returned.

(** The main thread: [Starting n] started [n] threads (the producer first), [Receiving n]
    got [n] results, [Joining n] joined [n] threads. *)
Inductive main_state := Starting (n : nat) | Receiving (n : nat) | Joining (n : nat) | Finished.

#[export] Instance main_state_eq_dec : EqDecision main_state.
Proof. solve_decision. Defined.

Record state := State {
  main_thread : main_state;
  to_put : list message;          (* what the producer has still to put *)
  input_queue : list message;
  worker_threads : list worker_state;
  output_queue : list Z;
  checksum : Z;
}.

(** What [producer] puts, in this order. *)
Definition producer (c : config) : list message :=
  map Item (seq 0 (items c)) ++ repeat Sentinel (workers c).

Definition start (c : config) : state :=
  State (Starting 0) (producer c) [] (replicate (workers c) Taking) [] 0.

Inductive thread := Main | Producer | Worker (i : nat).

Definition started (s : state) (n : nat) : bool :=
  match main_thread s with Starting k => n <? k | _ => true end.

(** The [n]-th thread in the order of their start has returned. *)
Definition returned (s : state) (n : nat) : bool :=
  match n with
  | O => match to_put s with [] => true | _ => false end
  | S i => match worker_threads s !! i with Some Returned => true | _ => false end
  end.

Definition step_main (c : config) (s : state) : option state :=
  let goto m := State m (to_put s) (input_queue s) (worker_threads s) (output_queue s) (checksum s) in
  match main_thread s with
  | Starting n => Some (goto (if n <? S (workers c) then Starting (S n) else Receiving 0))
  | Receiving n =>
      if n <? items c then
        '(value, queue) ← get (output_queue s);
        Some (State (Receiving (S n)) (to_put s) (input_queue s) (worker_threads s) queue
                (checksum s + value)%Z)
      else Some (goto (Joining 0))
  | Joining n =>
      if n <? S (workers c) then
        if returned s n then Some (goto (Joining (S n))) else None
      else Some (goto Finished)
  | Finished => None
  end.

Definition step_producer (c : config) (s : state) : option state :=
  match to_put s with
  | [] => None
  | message :: rest =>
      queue ← put (capacity c) (input_queue s) message;
      Some (State (main_thread s) rest queue (worker_threads s) (output_queue s) (checksum s))
  end.

Definition step_worker (c : config) (i : nat) (s : state) : option state :=
  match worker_threads s !! i with
  | Some Taking =>
      '(message, queue) ← get (input_queue s);
      let next := match message with Item value => Holding value | Sentinel => Returned end in
      Some (State (main_thread s) (to_put s) queue (<[i := next]> (worker_threads s))
              (output_queue s) (checksum s))
  | Some (Holding value) =>
      queue ← put (capacity c) (output_queue s) (heavy_work (Z.of_nat value) (rounds c));
      Some (State (main_thread s) (to_put s) (input_queue s) (<[i := Taking]> (worker_threads s))
              queue (checksum s))
  | _ => None
  end.

(** The next step of a thread; [None] when it waits, has not started or has returned. *)
Definition step (c : config) (t : thread) (s : state) : option state :=
  match t with
  | Main => step_main c s
  | Producer => if started s 0 then step_producer c s else None
  | Worker i => if started s (S i) then step_worker c i s else None
  end.

Definition printed (c : config) (s : state) : str :=
  lit "checksum: " ++ dec (checksum s) ++ [newline]
  ++ lit "processed: " ++ decn (items c) ++ [newline].

(** [main]: the sizes, and after the interpreter check the threads in some schedule. *)
Definition main_config (environ : gmap str str) : config :=
  Config (env_int environ (lit "BENCH_THREADS") 4) (env_int environ (lit "BENCH_ITEMS") 20000)
    (env_int environ (lit "BENCH_ROUNDS") 64).

Definition main (python : interpreter) (environ : gmap str str) (schedule : list thread) :
    result (option str) :=
  _ ← require_free_threaded python;
  let c := main_config environ in
  Ok (match run (step c) schedule (start c) with
      | Some s => match main_thread s with Finished => Some (printed c s) | _ => None end
      | None => None
      end).

End Channel.

(** * The pool *)

Module Pool.

(** [range(worker_id, items, workers)] *)
Fixpoint stride (fuel first items workers : nat) : list nat :=
  match fuel with
  | O => []
  | S fuel => if first <? items then first :: stride fuel (first + workers) items workers else []
  end.

Definition worker_sum (worker_id workers items rounds : nat) : Z :=
  foldl (λ checksum i, checksum + heavy_work (Z.of_nat i) rounds)%Z 0%Z
    (stride items worker_id items workers).

(** The futures are summed in the order of submission, whatever order they finish in. *)
Definition main (python : interpreter) (environ : gmap str str) : result str :=
  _ ← require_free_threaded python;
  let workers := env_int environ (lit "BENCH_THREADS") 4 in
  let items := env_int environ (lit "BENCH_ITEMS") 10000 in
  let rounds := env_int environ (lit "BENCH_ROUNDS") 1000 in
  let checksum := foldl Z.add 0%Z
    (map (λ worker_id, worker_sum worker_id workers items rounds) (seq 0 workers)) in
  Ok (lit "checksum: " ++ dec checksum ++ [newline]).

End Pool.

(** * The invariant of the pipeline *)

Module ChannelFacts.
Import Channel.

Definition holds_one (w : worker_state) : Z := match w with Holding _ => 1 | _ => 0 end.
Definition returned_one (w : worker_state) : Z := match w with Returned => 1 | _ => 0 end.
Definition work (c : config) (v : nat) : Z := heavy_work (Z.of_nat v) (rounds c).
Definition held_work (c : config) (w : worker_state) : Z :=
  match w with Holding v => work c v | _ => 0 end.

(** The results the main thread has received. *)
Definition received (c : config) (m : main_state) : nat :=
  match m with Starting _ => 0 | Receiving n => n | _ => items c end.

(** The checksum of a sequential run. *)
Definition expected (c : config) : Z := zsum (map (work c) (seq 0 (items c))).

Definition main_ok (c : config) (s : state) : Prop :=
  match main_thread s with
  | Starting n => n ≤ S (workers c)
  | Receiving n => n ≤ items c
  | Joining n => n ≤ S (workers c) ∧ ∀ i, i < n → returned s i = true
  | Finished => ∀ i, i < S (workers c) → returned s i = true
  end.

(** [l] and [k]: the items and the number of sentinels that no worker has taken yet. *)
Record inv (c : config) (s : state) (l : list nat) (k : nat) : Prop := {
  inv_workers : length (worker_threads s) = workers c;
  inv_input : length (input_queue s) ≤ capacity c;
  inv_output : length (output_queue s) ≤ capacity c;
  inv_order : input_queue s ++ to_put s = map Item l ++ repeat Sentinel k;
  inv_sum : (checksum s + zsum (output_queue s) + weight (held_work c) (worker_threads s)
             + zsum (map (work c) l) = expected c)%Z;
  inv_count : (Z.of_nat (received c (main_thread s)) + Z.of_nat (length (output_queue s))
               + weight holds_one (worker_threads s) + Z.of_nat (length l) = Z.of_nat (items c))%Z;
  inv_sentinels : (weight returned_one (worker_threads s) + Z.of_nat k = Z.of_nat (workers c))%Z;
  inv_last : (0 < weight returned_one (worker_threads s))%Z → l = [];
  inv_main : main_ok c s;
}.

Definition well_formed (c : config) (s : state) : Prop := ∃ l k, inv c s l k.

Lemma inv_start c : inv c (start c) (seq 0 (items c)) (workers c).
Proof.
  constructor; cbn [start worker_threads input_queue output_queue to_put checksum main_thread].
  - apply length_replicate.
  - cbn. lia.
  - cbn. lia.
  - done.
  - rewrite weight_replicate. change (zsum []) with 0%Z. unfold expected. cbn. lia.
  - rewrite weight_replicate, length_seq. cbn. lia.
  - rewrite weight_replicate. cbn. lia.
  - rewrite weight_replicate. cbn. lia.
  - cbn. lia.
Qed.

Lemma put_Some {A} n (q q' : list A) a :
  0 < n → put n q a = Some q' → q' = q ++ [a] ∧ length q' ≤ n.
Proof.
  intros Hn. unfold put. destruct (Nat.eqb_spec n 0); [lia|]. cbn.
  destruct (Nat.ltb_spec (length q) n); [|done]. intros [= <-]. rewrite length_app. cbn. split; [done|lia].
Qed.

Lemma put_room {A} n (q : list A) a : length q < n → put n q a = Some (q ++ [a]).
Proof.
  intros H. unfold put. destruct (Nat.ltb_spec (length q) n); [|lia]. by rewrite orb_true_r.
Qed.

(** A thread that has returned stays returned. *)
Lemma returned_worker_step s s' i w w' n :
  worker_threads s !! i = Some w → w ≠ Returned →
  to_put s' = to_put s → worker_threads s' = <[i := w']> (worker_threads s) →
  returned s n = true → returned s' n = true.
Proof.
  intros Hi Hw Hput Hws. destruct n as [|j]; unfold returned; [by rewrite Hput|].
  rewrite Hws. destruct (decide (i = j)) as [->|Hne].
  - rewrite Hi. by destruct w.
  - by rewrite list_lookup_insert_ne.
Qed.

Lemma main_ok_mono c s s' :
  main_thread s' = main_thread s → (∀ n, returned s n = true → returned s' n = true) →
  main_ok c s → main_ok c s'.
Proof. unfold main_ok. intros -> H. destruct (main_thread s); naive_solver. Qed.

Section preservation.

Context (c : config) (workers_pos : 0 < workers c).

Lemma capacity_pos : 0 < capacity c.
Proof. unfold capacity. lia. Qed.

Lemma inv_step_producer s s' l k : inv c s l k → step_producer c s = Some s' → inv c s' l k.
Proof.
  intros [H1 H2 H3 H4 H5 H6 H7 H8 H9] H. unfold step_producer in H.
  destruct (to_put s) as [|m rest] eqn:Eput; [done|].
  apply bind_Some in H as (queue & [-> Hlen]%put_Some & [= <-]); [|apply capacity_pos].
  constructor; cbn; try done.
  - by rewrite <- (assoc_L (++)).
  - eapply main_ok_mono; [|..|exact H9]; [done|].
    intros [|n]; unfold returned; cbn; [by rewrite Eput|done].
Qed.

Lemma inv_step_worker i s s' l k :
  inv c s l k → step_worker c i s = Some s' → ∃ l' k', inv c s' l' k'.
Proof.
  intros [H1 H2 H3 H4 H5 H6 H7 H8 H9] H. unfold step_worker in H.
  destruct (worker_threads s !! i) as [[|v|]|] eqn:Ei; [| |done..].
  - apply bind_Some in H as ([m queue] & Hget & [= <-]).
    destruct (input_queue s) as [|m' q] eqn:Eq; [done|]. injection Hget as -> ->.
    cbn [length] in H2. cbn [app] in H4.
    destruct l as [|v l]; [destruct k as [|k]; [done|]|]; cbn [map repeat app] in H4;
      injection H4 as -> H4.
    + exists [], k. constructor; cbn; rewrite ?(weight_insert _ _ _ _ _ Ei), ?length_insert; cbn; try done;
        try (cbn in *; lia). eapply main_ok_mono; [|..|exact H9]; [done|].
      intros n. by eapply returned_worker_step.
    + exists l, k. cbn [map] in H5. rewrite zsum_cons in H5.
      constructor; cbn; rewrite ?(weight_insert _ _ _ _ _ Ei), ?length_insert; cbn in *; try done;
        try lia.
      * intros Hr. exfalso. assert (v :: l = []) by (apply H8; lia). done.
      * eapply main_ok_mono; [|..|exact H9]; [done|]. intros n. by eapply returned_worker_step.
  - apply bind_Some in H as (queue & [-> Hlen]%put_Some & [= <-]); [|apply capacity_pos].
    exists l, k. constructor; cbn; rewrite ?(weight_insert _ _ _ _ _ Ei), ?length_insert; cbn; try done.
    + rewrite zsum_app, zsum_cons. change (zsum []) with 0%Z. unfold work in *. lia.
    + rewrite length_app. cbn. lia.
    + lia.
    + intros Hr. apply H8. lia.
    + eapply main_ok_mono; [|..|exact H9]; [done|]. intros n. by eapply returned_worker_step.
Qed.

Lemma inv_step_main s s' l k : inv c s l k → step_main c s = Some s' → inv c s' l k.
Proof.
  intros [H1 H2 H3 H4 H5 H6 H7 H8 H9] H. unfold step_main in H. unfold main_ok in H9.
  pose proof (weight_nonneg holds_one (worker_threads s) ltac:(by intros [])) as Hheld.
  destruct (main_thread s) as [n|n|n|] eqn:Em; cbn [received] in H6.
  - injection H as <-. destruct (Nat.ltb_spec n (S (workers c)));
      constructor; cbn; try done; unfold main_ok; cbn; lia.
  - destruct (Nat.ltb_spec n (items c)).
    + apply bind_Some in H as ([v q] & Hget & [= <-]).
      destruct (output_queue s) as [|v' q'] eqn:Eo; [done|]. injection Hget as -> ->. cbn in *.
      rewrite zsum_cons in H5. constructor; cbn; try done; unfold main_ok; cbn; lia.
    + injection H as <-. constructor; cbn; try done; try lia.
      unfold main_ok. cbn. split; [lia|]. intros i Hi. lia.
  - destruct H9 as [Hn Hret]. destruct (Nat.ltb_spec n (S (workers c))).
    + destruct (returned s n) eqn:Er; [|done]. injection H as <-. constructor; cbn; try done.
      unfold main_ok. cbn. split; [lia|]. intros i Hi.
      assert (i = n ∨ i < n) as [->|Hlt] by lia; [exact Er|exact (Hret i Hlt)].
    + injection H as <-. constructor; cbn; try done. unfold main_ok. cbn.
      intros i Hi. apply (Hret i). lia.
  - done.
Qed.

Lemma well_formed_step t s s' : well_formed c s → step c t s = Some s' → well_formed c s'.
Proof.
  intros (l & k & Hinv) H. destruct t as [| |i]; cbn [step] in H.
  - exists l, k. by eapply inv_step_main.
  - destruct (started s 0); [|done]. exists l, k. by eapply inv_step_producer.
  - destruct (started s (S i)); [|done]. by eapply inv_step_worker.
Qed.

End preservation.

(** * Every step comes nearer to the end *)

Definition message_cost (m : message) : Z := match m with Item _ => 2 | Sentinel => 1 end.

Definition main_left (c : config) (m : main_state) : nat :=
  match m with
  | Starting n => (S (workers c) - n) + items c + workers c + 4
  | Receiving n => (items c - n) + workers c + 3
  | Joining n => (S (workers c) - n) + 1
  | Finished => 0
  end.

(** The number of steps left: a put and a get for each message, a put for each result, and
    the steps of the main thread. *)
Definition remaining (c : config) (s : state) : Z :=
  (Z.of_nat (main_left c (main_thread s)) + Z.of_nat (length (to_put s))
   + zsum (map message_cost (input_queue s ++ to_put s)) + weight holds_one (worker_threads s))%Z.

Lemma cost_app a b :
  zsum (map message_cost (a ++ b)) = (zsum (map message_cost a) + zsum (map message_cost b))%Z.
Proof. by rewrite map_app, zsum_app. Qed.

Lemma cost_nonneg q : (0 ≤ zsum (map message_cost q))%Z.
Proof. induction q as [|[v|] q IH]; cbn [map]; rewrite ?zsum_cons; cbn [message_cost]; [done|lia..]. Qed.

Lemma remaining_nonneg c s : (0 ≤ remaining c s)%Z.
Proof.
  unfold remaining. pose proof (cost_nonneg (input_queue s ++ to_put s)).
  pose proof (weight_nonneg holds_one (worker_threads s) ltac:(by intros [])). lia.
Qed.

Lemma put_app {A} n (q q' : list A) a : put n q a = Some q' → q' = q ++ [a].
Proof. unfold put. destruct ((n =? 0) || (length q <? n)); [|done]. by intros [= <-]. Qed.

Lemma remaining_step c t s s' : step c t s = Some s' → remaining c s = (remaining c s' + 1)%Z.
Proof.
  unfold remaining. destruct t as [| |i]; cbn [step].
  - unfold step_main. destruct (main_thread s) as [n|n|n|] eqn:Em.
    + intros [= <-]. destruct (Nat.ltb_spec n (S (workers c))); cbn; lia.
    + destruct (Nat.ltb_spec n (items c)).
      * intros ([v q] & _ & [= <-])%bind_Some. cbn [main_thread to_put input_queue worker_threads main_left]. lia.
      * intros [= <-]. cbn [main_thread to_put input_queue worker_threads main_left]. lia.
    + destruct (Nat.ltb_spec n (S (workers c))).
      * destruct (returned s n); [|done]. intros [= <-].
        cbn [main_thread to_put input_queue worker_threads main_left]. lia.
      * intros [= <-]. cbn [main_thread to_put input_queue worker_threads main_left]. lia.
    + done.
  - destruct (started s 0); [|done]. unfold step_producer. destruct (to_put s) as [|m rest]; [done|].
    intros (q & ->%put_app & [= <-])%bind_Some.
    cbn [main_thread to_put input_queue worker_threads length].
    rewrite <- (assoc_L (++)). cbn [app]. lia.
  - destruct (started s (S i)); [|done]. unfold step_worker.
    destruct (worker_threads s !! i) as [[|v|]|] eqn:Ei; [| |done..].
    + intros ([m q] & Hget & [= <-])%bind_Some.
      destruct (input_queue s) as [|m' q'] eqn:Eq; [done|]. injection Hget as -> ->.
      cbn [main_thread to_put input_queue worker_threads app map].
      rewrite zsum_cons, (weight_insert _ _ _ _ _ Ei). destruct m; cbn [message_cost holds_one]; lia.
    + intros (q & _ & [= <-])%bind_Some.
      cbn [main_thread to_put input_queue worker_threads].
      rewrite (weight_insert _ _ _ _ _ Ei). cbn [holds_one]. lia.
Qed.

Lemma cost_producer c :
  zsum (map message_cost (producer c)) = (2 * Z.of_nat (items c) + Z.of_nat (workers c))%Z.
Proof.
  unfold producer. rewrite cost_app. assert (∀ l, zsum (map message_cost (map Item l)) = (2 * Z.of_nat (length l))%Z) as ->.
  { induction l as [|v l IH]; cbn [map length]; [done|]. rewrite zsum_cons, IH. cbn [message_cost]. lia. }
  assert (∀ n, zsum (map message_cost (repeat Sentinel n)) = Z.of_nat n) as ->.
  { induction n as [|n IH]; cbn [map repeat]; [done|]. rewrite zsum_cons, IH. cbn [message_cost]. lia. }
  by rewrite length_seq.
Qed.

(** * The end *)

Section progress.

Context (c : config) (workers_pos : 0 < workers c).

Lemma waiting_worker s :
  weight holds_one (worker_threads s) = 0%Z → length (worker_threads s) = workers c →
  (weight returned_one (worker_threads s) < Z.of_nat (workers c))%Z →
  ∃ i, worker_threads s !! i = Some Taking.
Proof.
  intros Hh Hlen Hr. rewrite <- Hlen in Hr. clear Hlen workers_pos.
  induction (worker_threads s) as [|w ws IH]; [cbn in Hr; change (weight returned_one []) with 0%Z in Hr; lia|].
  unfold weight in *. cbn [map] in *. rewrite zsum_cons in *.
  pose proof (weight_nonneg holds_one ws ltac:(by intros [])) as Hn. unfold weight in Hn.
  destruct w as [|v|]; cbn [holds_one returned_one] in *; [by exists 0|lia|].
  destruct IH as [i Hi]; [lia|cbn [length] in Hr; lia|]. by exists (S i).
Qed.

Lemma holding_worker s :
  (0 < weight holds_one (worker_threads s))%Z → ∃ i v, worker_threads s !! i = Some (Holding v).
Proof.
  induction (worker_threads s) as [|w ws IH]; [done|]. unfold weight in *. cbn [map]. rewrite zsum_cons.
  destruct w as [|v|]; cbn [holds_one]; [|by exists 0, v|]; intros H;
    (destruct IH as (i & v & Hi); [lia|]); by exists (S i), v.
Qed.

(** A waiting worker moves when the input queue is not empty. *)
Lemma taking_moves s i :
  worker_threads s !! i = Some Taking → input_queue s ≠ [] → started s (S i) = true →
  ∃ t s', step c t s = Some s'.
Proof.
  intros Hi Hq Hs. destruct (input_queue s) as [|m q] eqn:Eq; [done|].
  exists (Worker i). eexists. cbn [step]. rewrite Hs. unfold step_worker. rewrite Hi, Eq. reflexivity.
Qed.

Lemma producer_moves s :
  to_put s ≠ [] → length (input_queue s) < capacity c → started s 0 = true →
  ∃ t s', step c t s = Some s'.
Proof.
  intros Hp Hq Hs. destruct (to_put s) as [|m rest] eqn:Ep; [done|].
  exists Producer. eexists. cbn [step]. rewrite Hs. unfold step_producer.
  rewrite Ep, put_room by done. reflexivity.
Qed.

Lemma main_moves s s' : step_main c s = Some s' → ∃ t s', step c t s = Some s'.
Proof. intros H. by exists Main, s'. Qed.

(** While messages are left and no worker holds a value, some thread moves. *)
Lemma messages_move s l k :
  inv c s l k → (∀ n, started s n = true) → weight holds_one (worker_threads s) = 0%Z →
  (0 < k ∨ l ≠ []) → ∃ t s', step c t s = Some s'.
Proof.
  intros [H1 H2 H3 H4 H5 H6 H7 H8 H9] Hstart Hh Hleft.
  destruct (waiting_worker s Hh H1) as [i Hi].
  { destruct Hleft as [Hk|Hl]; [lia|]. destruct (decide (0 < weight returned_one (worker_threads s))%Z) as [Hr|Hr].
    - by apply H8 in Hr.
    - lia. }
  destruct (decide (input_queue s = [])) as [Hq|Hq].
  - apply producer_moves; [|rewrite Hq; cbn; unfold capacity; lia|done].
    intros Hp. rewrite Hq, Hp in H4. symmetry in H4. apply app_eq_nil in H4 as [Hl Hk].
    apply map_eq_nil in Hl. destruct Hleft as [?|?]; [|done]. by destruct k; [lia|].
  - by eapply taking_moves.
Qed.

Lemma progress s : well_formed c s → main_thread s ≠ Finished → ∃ t s', step c t s = Some s'.
Proof.
  intros (l & k & Hinv) Hne. pose proof Hinv as [H1 H2 H3 H4 H5 H6 H7 H8 H9].
  pose proof (weight_nonneg holds_one (worker_threads s) ltac:(by intros [])) as Hh.
  pose proof (weight_nonneg returned_one (worker_threads s) ltac:(by intros [])) as Hr.
  unfold main_ok in H9. destruct (main_thread s) as [n|n|n|] eqn:Em; [| | |done].
  - eapply main_moves. unfold step_main. by rewrite Em.
  - assert (∀ n, started s n = true) as Hstart by (intros m; unfold started; by rewrite Em).
    cbn [received] in H6.
    destruct (Nat.ltb_spec n (items c)) as [Hlt|Hge].
    2:{ eapply main_moves. unfold step_main. rewrite Em. destruct (Nat.ltb_spec n (items c)); [lia|done]. }
    destruct (output_queue s) as [|v q] eqn:Eo.
    2:{ eapply main_moves. unfold step_main. rewrite Em, Eo. destruct (Nat.ltb_spec n (items c)); [done|lia]. }
    destruct (decide (0 < weight holds_one (worker_threads s))%Z) as [Hpos|Hzero].
    + destruct (holding_worker s Hpos) as (i & v & Hi). exists (Worker i). eexists. cbn [step].
      rewrite Hstart. unfold step_worker. rewrite Hi, Eo.
      rewrite put_room by (cbn; unfold capacity; lia). reflexivity.
    + eapply messages_move; [exact Hinv|done|lia|]. right. cbn in H6. destruct l; [cbn in H6; lia|done].
  - assert (∀ n, started s n = true) as Hstart by (intros m; unfold started; by rewrite Em).
    cbn [received] in H6. destruct (returned s n) eqn:Er.
    { exists Main. cbn [step]. unfold step_main. rewrite Em, Er.
      destruct (n <? S (workers c)); eexists; reflexivity. }
    destruct (Nat.ltb_spec n (S (workers c))) as [Hn|Hn].
    2:{ eapply main_moves. unfold step_main. rewrite Em. destruct (Nat.ltb_spec n (S (workers c))); [lia|done]. }
    eapply messages_move; [exact Hinv|done|lia|]. left. destruct k as [|k]; [|lia]. exfalso.
    assert (l = []) as -> by (destruct l; [done|cbn in H6; lia]). cbn in H4.
    apply app_eq_nil in H4 as [_ Hput]. destruct n as [|i]; unfold returned in Er; [by rewrite Hput in Er|].
    destruct (lookup_lt_is_Some_2 (worker_threads s) i) as [w Hi]; [lia|]. rewrite Hi in Er.
    pose proof (weight_insert returned_one _ _ _ Returned Hi) as Hins.
    pose proof (weight_insert holds_one _ _ _ Taking Hi) as Hins'.
    assert (∀ ws, weight returned_one ws ≤ Z.of_nat (length ws))%Z as Hmax.
    { clear. intros ws. unfold weight. induction ws as [|[] ws IH]; cbn [map length];
        rewrite ?zsum_cons; cbn [returned_one]; change (zsum []) with 0%Z; lia. }
    pose proof (Hmax (<[i:=Returned]> (worker_threads s))) as Hm. rewrite length_insert in Hm.
    destruct w; cbn [returned_one holds_one] in *; [lia|lia|done].
Qed.

(** At the end nothing is left. *)
Lemma finished_left s l k :
  inv c s l k → main_thread s = Finished →
  l = [] ∧ k = 0 ∧ input_queue s = [] ∧ to_put s = [] ∧ output_queue s = [] ∧
  weight holds_one (worker_threads s) = 0%Z.
Proof.
  intros [H1 H2 H3 H4 H5 H6 H7 H8 H9] Hm. rewrite Hm in H6. unfold main_ok in H9. rewrite Hm in H9.
  pose proof (weight_nonneg holds_one (worker_threads s) ltac:(by intros [])) as Hh. cbn [received] in H6.
  assert (l = []) as -> by (destruct l; [done|cbn in H6; lia]).
  assert (output_queue s = []) as Ho by (destruct (output_queue s); [done|cbn in H6; lia]).
  assert (weight returned_one (worker_threads s) = Z.of_nat (workers c)) as Hr.
  { rewrite <- H1. assert (∀ i, i < length (worker_threads s) → worker_threads s !! i = Some Returned) as Hall.
    { intros i Hi. specialize (H9 (S i) ltac:(lia)). unfold returned in H9.
      by destruct (worker_threads s !! i) as [[]|]. }
    clear -Hall. induction (worker_threads s) as [|w ws IH]; [done|].
    unfold weight in *. cbn [map length]. rewrite zsum_cons, IH.
    - specialize (Hall 0 ltac:(cbn; lia)). injection Hall as ->. cbn [returned_one]. lia.
    - intros i Hi. apply (Hall (S i)). cbn. lia. }
  assert (k = 0) as -> by lia. cbn in H4. apply app_eq_nil in H4 as [-> ->]. split_and!; try done.
  cbn in H6. lia.
Qed.

Definition finished (s : state) : Prop := main_thread s = Finished.

#[export] Instance finished_dec s : Decision (finished s).
Proof. unfold finished. apply _. Defined.

Definition total_steps : nat := 4 * items c + 4 * workers c + 5.

Lemma remaining_start : remaining c (start c) = Z.of_nat total_steps.
Proof.
  unfold remaining, total_steps. cbn [start main_thread to_put input_queue worker_threads app main_left].
  rewrite cost_producer, weight_replicate. unfold producer.
  rewrite length_app, length_map, length_seq, repeat_length. cbn [holds_one]. lia.
Qed.

#[export] Instance channel_terminating :
  Terminating (step c) (start c) finished (well_formed c) (remaining c).
Proof.
  split.
  - eexists _, _. apply inv_start.
  - intros t s s'. by apply well_formed_step.
  - apply remaining_step.
  - apply remaining_nonneg.
  - intros s (l & k & Hinv) Hm. destruct (finished_left s l k Hinv Hm) as (_ & _ & Hin & Hput & _ & Hh).
    unfold remaining. by rewrite Hm, Hin, Hput, Hh.
  - apply progress.
Qed.

End progress.

End ChannelFacts.

(** * The split of the pool *)

Module PoolFacts.
Import Pool ChannelFacts.

Lemma filter_none {A} (P : A → Prop) `{∀ x, Decision (P x)} (l : list A) :
  (∀ x, x ∈ l → ¬ P x) → filter P l = [].
Proof.
  induction l as [|a l IH]; intros H1; [done|].
  rewrite filter_cons, decide_False by (apply H1; left). apply IH. intros x Hx. apply H1. by right.
Qed.

Lemma filter_mod_gap workers w first n :
  first mod workers = w → n < workers →
  filter (λ i, i mod workers = w) (seq (S first) n) = [].
Proof.
  intros Hf Hn. apply filter_none. intros i Hi%list_elem_of_In%in_seq Hw.
  pose proof (Nat.div_mod_eq i workers). pose proof (Nat.div_mod_eq first workers).
  assert (i / workers = first / workers ∨ i / workers < first / workers ∨ first / workers < i / workers)
    as [?|[?|?]] by lia; nia.
Qed.

Lemma filter_mod_step workers w first n :
  0 < workers → first mod workers = w →
  filter (λ i, i mod workers = w) (seq first (S n)) =
  first :: filter (λ i, i mod workers = w) (seq (first + workers) (S n - workers)).
Proof.
  intros Hw Hf. cbn [seq]. rewrite filter_cons, decide_True by done. f_equal.
  destruct (decide (n < workers)) as [Hlt|Hge].
  - rewrite filter_mod_gap by done. replace (S n - workers) with 0 by lia. done.
  - replace n with ((workers - 1) + (S n - workers)) at 1 by lia.
    rewrite seq_app, filter_app, filter_mod_gap by (done || lia). cbn [app].
    replace (S first + (workers - 1)) with (first + workers) by lia. done.
Qed.

(** A worker takes exactly the items whose number leaves its own number as remainder. *)
Lemma stride_filter fuel first items workers :
  0 < workers → items - first ≤ fuel →
  stride fuel first items workers =
  filter (λ i, i mod workers = first mod workers) (seq first (items - first)).
Proof.
  intros Hw. revert first. induction fuel as [|fuel IH]; intros first Hfuel; cbn [stride].
  { replace (items - first) with 0 by lia. done. }
  destruct (Nat.ltb_spec first items) as [Hlt|Hge].
  - destruct (items - first) as [|n] eqn:En; [lia|]. rewrite filter_mod_step by done.
    f_equal. rewrite IH by lia. replace (items - (first + workers)) with (S n - workers) by lia.
    replace ((first + workers) mod workers) with (first mod workers); [done|].
    replace (first + workers) with (first + 1 * workers) by lia. symmetry. apply Nat.Div0.mod_add.
  - by replace (items - first) with 0 by lia.
Qed.

Lemma stride_worker worker_id items workers :
  worker_id < workers →
  stride items worker_id items workers = filter (λ i, i mod workers = worker_id) (seq 0 items).
Proof.
  intros Hw. rewrite stride_filter by lia. rewrite Nat.mod_small by done.
  destruct (decide (items ≤ worker_id)) as [Hle|Hlt].
  - replace (items - worker_id) with 0 by lia. symmetry. apply filter_none.
    intros i Hi%list_elem_of_In%in_seq Hm. rewrite Nat.mod_small in Hm; lia.
  - replace items with (worker_id + (items - worker_id)) at 2 by lia.
    rewrite seq_app, filter_app. assert (filter (λ i, i mod workers = worker_id) (seq 0 worker_id) = []) as ->.
    + apply filter_none. intros i Hi%list_elem_of_In%in_seq Hm. rewrite Nat.mod_small in Hm; lia.
    + done.
Qed.

(** Each item is counted by the one class it belongs to. *)
Lemma zsum_one_class (n w : nat) (x : Z) :
  zsum (map (λ j, if bool_decide (w = j) then x else 0%Z) (seq 0 n)) = if bool_decide (w < n) then x else 0%Z.
Proof.
  induction n as [|n IH]; [done|]. rewrite seq_S, map_app, zsum_app, IH. cbn [map plus].
  rewrite zsum_cons. change (zsum []) with 0%Z. repeat case_bool_decide; lia.
Qed.

Lemma zsum_classes (g : nat → nat) (f : nat → Z) n l :
  Forall (λ i, g i < n) l →
  zsum (map (λ w, zsum (map f (filter (λ i, g i = w) l))) (seq 0 n)) = zsum (map f l).
Proof.
  induction 1 as [|i l Hi Hl IH]; cbn [map].
  - generalize (seq 0 n). intros ws. induction ws as [|w ws IHw]; [done|]. cbn [map]. by rewrite zsum_cons.
  - rewrite zsum_cons, <- IH.
    assert (∀ ws, zsum (map (λ w, zsum (map f (filter (λ i, g i = w) (i :: l)))) ws) =
      (zsum (map (λ w, if bool_decide (g i = w) then f i else 0%Z) ws)
       + zsum (map (λ w, zsum (map f (filter (λ i, g i = w) l))) ws))%Z) as ->.
    { induction ws as [|w ws IHw]; [done|]. cbn [map]. rewrite !zsum_cons, IHw, filter_cons.
      case_bool_decide; case_decide; try done; cbn [map]; rewrite ?zsum_cons; lia. }
    by rewrite zsum_one_class, bool_decide_true.
Qed.

Lemma worker_sums workers items rounds :
  0 < workers →
  zsum (map (λ w, worker_sum w workers items rounds) (seq 0 workers)) =
  expected (Channel.Config workers items rounds).
Proof.
  intros Hw. unfold expected. cbn [Channel.items].
  rewrite <- (zsum_classes (λ i, i mod workers) _ workers (seq 0 items)).
  - f_equal. apply map_ext_in. intros w Hin%in_seq. unfold worker_sum.
    rewrite stride_worker by lia. rewrite foldl_zsum. done.
  - apply Forall_forall. intros i _. apply Nat.mod_upper_bound. lia.
Qed.

End PoolFacts.

(** * Properties *)

Import ChannelFacts.

(** C27: Whatever the order in which the threads of channel_pipeline.py run, the queues never
    hold more than their capacity, the main thread ends only after every other thread has
    returned with both queues empty, and the program prints the checksum of the sequential
    run: the sum of [heavy_work] over all items. *)
Theorem channel_result python environ schedule s :
  let c := Channel.main_config environ in
  run (Channel.step c) schedule (Channel.start c) = Some s →
  length (Channel.input_queue s) ≤ Channel.capacity c ∧
  length (Channel.output_queue s) ≤ Channel.capacity c ∧
  (Channel.main_thread s = Channel.Finished →
     (∀ i, i < S (Channel.workers c) → Channel.returned s i = true) ∧
     Channel.input_queue s = [] ∧ Channel.output_queue s = [] ∧
     (require_free_threaded python = Ok tt →
      Channel.main python environ schedule =
        Ok (Some (lit "checksum: " ++ dec (expected c) ++ [newline]
                  ++ lit "processed: " ++ decn (Channel.items c) ++ [newline])))).
Proof.
  intros c Hrun. assert (0 < Channel.workers c) as Hw by (apply env_int_pos; lia).
  pose proof (channel_terminating c Hw).
  destruct (steps_ok (Channel.step c) schedule s ltac:(by apply run_steps)) as (l & k & Hinv).
  pose proof Hinv as [H1 H2 H3 H4 H5 H6 H7 H8 H9]. split_and!; [done..|]. intros Hm.
  destruct (finished_left c Hw s l k Hinv Hm) as (-> & -> & Hin & _ & Hout & Hh).
  unfold main_ok in H9. rewrite Hm in H9. split_and!; [done..|]. intros Hpy.
  unfold Channel.main. rewrite Hpy. cbn [mbind result_bind]. fold c. rewrite Hrun, Hm.
  unfold Channel.printed. rewrite <- H5, Hout. cbn [map].
  assert (weight (held_work c) (Channel.worker_threads s) = 0%Z) as ->; [|by change (zsum []) with 0%Z; rewrite !Z.add_0_r].
  apply weight_none. intros i w Hi. specialize (H9 (S i)).
  unfold Channel.returned in H9. rewrite Hi in H9.
  destruct w; [done| |done]. apply lookup_lt_Some in Hi. discriminate H9. lia.
Qed.

Definition python_sample : interpreter := Interpreter (3, 14)%Z (lit "1") (Some false).
Definition environ_sample : gmap str str :=
  {[lit "BENCH_THREADS" := lit "2"; lit "BENCH_ITEMS" := lit "3"; lit "BENCH_ROUNDS" := lit "2"]}.
Definition schedule_sample : list Channel.thread :=
  let c := Channel.main_config environ_sample in
  fair_schedule (Channel.step c)
    ([Channel.Main; Channel.Producer] ++ map Channel.Worker (seq 0 (Channel.workers c)))
    60 [] (Channel.start c).

Lemma channel_result_witness :
  Channel.main python_sample environ_sample schedule_sample =
  Ok (Some (lit "checksum: " ++ dec (expected (Channel.main_config environ_sample)) ++ [newline]
            ++ lit "processed: 3" ++ [newline])).
Proof.
  pose (c := Channel.main_config environ_sample).
  destruct (run (Channel.step c) schedule_sample (Channel.start c)) as [s|] eqn:Es; [|vm_compute in Es; discriminate Es].
  destruct (channel_result python_sample environ_sample schedule_sample s Es) as (_ & _ & H).
  destruct H as (_ & _ & _ & H).
  - vm_compute in Es. injection Es as <-. reflexivity.
  - apply H. vm_compute. reflexivity.
Defined.

(** C28: The threads of channel_pipeline.py never block each other for ever: as long as the
    main thread has not ended some thread can take a step, every schedule takes at most
    4 * items + 4 * workers + 5 steps, it has ended exactly when it took that many, and one that
    has not ended can be continued to one that has. *)
Theorem channel_terminates c ts s :
  0 < Channel.workers c → steps (Channel.step c) ts (Channel.start c) s →
  length ts ≤ 4 * Channel.items c + 4 * Channel.workers c + 5 ∧
  (Channel.main_thread s = Channel.Finished ↔
     length ts = 4 * Channel.items c + 4 * Channel.workers c + 5) ∧
  (Channel.main_thread s ≠ Channel.Finished → ∃ t s', Channel.step c t s = Some s') ∧
  (∃ us s', steps (Channel.step c) (ts ++ us) (Channel.start c) s' ∧
     Channel.main_thread s' = Channel.Finished).
Proof.
  intros Hw Hsteps. pose proof (channel_terminating c Hw).
  pose proof (steps_bound (Channel.step c) ts s Hsteps) as Hle.
  pose proof (final_length (Channel.step c) ts s Hsteps) as Hiff.
  rewrite (remaining_start c Hw) in Hle, Hiff. unfold total_steps in *.
  split; [lia|]. split; [|split].
  - change (finished s ↔ length ts = 4 * Channel.items c + 4 * Channel.workers c + 5).
    rewrite Hiff. lia.
  - exact (goes_on (Channel.step c) s (steps_ok (Channel.step c) ts s Hsteps)).
  - exact (completed (Channel.step c) ts s Hsteps).
Qed.

Lemma channel_terminates_witness :
  length schedule_sample = 25 ∧ length schedule_sample ≤ 4 * 3 + 4 * 2 + 5.
Proof.
  pose (c := Channel.main_config environ_sample).
  destruct (run (Channel.step c) schedule_sample (Channel.start c)) as [s|] eqn:Es;
    [|vm_compute in Es; discriminate Es].
  destruct (channel_terminates c schedule_sample s) as (H & _); [vm_compute; lia|by apply run_steps|].
  split; [vm_compute; reflexivity|exact H].
Defined.

(** threaded_cpu_map.py prints the checksum of the sequential run too: the strides of the
    workers hold every item exactly once, so the split over the pool does not show. *)
Theorem pool_result python environ :
  require_free_threaded python = Ok tt →
  Pool.main python environ =
  Ok (lit "checksum: " ++
      dec (expected (Channel.Config (env_int environ (lit "BENCH_THREADS") 4)
             (env_int environ (lit "BENCH_ITEMS") 10000) (env_int environ (lit "BENCH_ROUNDS") 1000)))
      ++ [newline]).
Proof.
  intros Hpy. unfold Pool.main. rewrite Hpy. cbn [mbind result_bind].
  rewrite foldl_add_zsum, PoolFacts.worker_sums by (apply env_int_pos; lia). done.
Qed.

Lemma pool_result_witness :
  Pool.main python_sample environ_sample =
  Ok (lit "checksum: " ++ dec (expected (Channel.main_config environ_sample)) ++ [newline]).
Proof. refine (pool_result python_sample environ_sample _). vm_compute. reflexivity. Defined.
