(* ===== verification/BenchRun.v ===== *)
(** benchmarks/bench_run.py: running a benchmark several times, checking its output against
    the expected one, reading the time it reports and the resources it used. *)
From S2P Require Import Prelude PyStr PyFormat PyFloat Regex.

(** * The table of expected outputs *)

Definition text_lines (l : list string) : str := concat (map (λ s, lit s ++ [newline]) l).

Definition EXPECTED_OUTPUTS : list (str * str) :=
  [(lit "fib", text_lines ["Fib(40) = 102334155"]%string);
   (lit "numeric_loop", text_lines ["Total Collatz steps: 131434272"]%string);
   (lit "array_sum", text_lines ["Completed 10000 iterations, total: 4995000000"]%string);
   (lit "array_ops", text_lines ["Completed 10000 iterations, final sum: 44955000000"]%string);
   (lit "dict_ops",
    text_lines ["build: done"; "lookup_hit checksum: 34996500000"; "lookup_miss count: 1000000";
                "remove count: 1000000"; "iterate sum: 349965000000"]%string);
   (lit "list_ops",
    text_lines ["append checksum: 5000000"; "sort checksum: 4999000"; "filter checksum: 2500000";
                "fold checksum: 99990000000"; "reverse checksum: 10000000";
                "concat checksum: 10000000"]%string);
   (lit "set_ops",
    text_lines ["build: done"; "contains_hit: 2000000"; "contains_miss: 2000000"; "union: 5000000";
                "intersect: 2500000"; "difference: 2500000"]%string);
   (lit "compiler_ast", text_lines ["compiler_ast checksum: 2390849568879"]%string);
   (lit "compiler_emit",
    text_lines ["compiler_emit checksum: -4239430305840994758"; "compiler_emit bytes: 263793"]%string);
   (lit "binary_trees",
    text_lines ["stretch tree of depth 16 check: 6442483711"; "32768 trees of depth 4 check: 12812288";
                "8192 trees of depth 6 check: 50585600"; "2048 trees of depth 8 check: 201586688";
                "512 trees of depth 10 check: 805568000"; "128 trees of depth 12 check: 3221487488";
                "32 trees of depth 14 check: 12885164000";
                "long lived tree of depth 15 check: 1610629119"]%string)].

(** [EXPECTED_OUTPUTS.get(name)] *)
Definition expected_output (name : str) : option str :=
  snd <$> List.find (λ row, bool_decide (row.1 = name)) EXPECTED_OUTPUTS.

(** * Patterns *)

Definition seconds_field : regex :=
  RSeq (rlit "seconds=") (RGroup 1 (RSeq (RPlus Rd) (ROpt (RSeq (rlit ".") (RPlus Rd))))).
Definition microseconds_field : regex := RSeq (rlit "microseconds=") (RGroup 2 (RPlus Rd)).
Definition micros_field : regex := RSeq (rlit "micros=") (RGroup 3 (RPlus Rd)).

Definition BENCH_RE : regex :=
  rseq [RAssert LineStart; rlit "BENCH"; RPlus Rs; RStar true Rdot;
        RAlt seconds_field (RAlt microseconds_field micros_field)].

Definition RESOURCE_TIMER : list str := [lit "/usr/bin/time"; lit "-l"].

Definition INSTRUCTIONS_RE : regex :=
  rseq [RAssert LineStart; RStar true Rs; RGroup 1 (RPlus Rd); RPlus Rs; rlit "instructions retired"].
Definition PEAK_RSS_RE : regex :=
  rseq [RAssert LineStart; RStar true Rs; RGroup 1 (RPlus Rd); RPlus Rs;
        rlit "maximum resident set size"].

#[global] Arguments BENCH_RE : simpl never.
#[global] Arguments INSTRUCTIONS_RE : simpl never.
#[global] Arguments PEAK_RSS_RE : simpl never.

(** [m.group(n) is not None] for a group that may take no part. *)
Definition last_match (pattern : regex) (text : str) : option mtch := last (finditer pattern text).

(** [float(s)] for digits with at most one point, which is all that BENCH_RE captures. *)
Definition float_of (s : str) : result float :=
  let '(whole, frac) := partition_on (lit ".") s in
  m ← int (whole ++ frac); Ok (of_numeral m (length frac)).

(** * What a run does to its surroundings *)

(** The commands started so far, the text written to stderr, and the file written. *)
Record world := World {
  started : list (list str);
  errors : str;
  written : option (str * str);
}.

(** A finished process: its status and what it wrote to the two pipes. *)
Record completed := Completed { returncode : Z; stdout : str; stderr : str }.

Record resource_usage := ResourceUsage { instructions : Z; peak_rss_bytes : Z }.
Abbreviation sample := (float * option resource_usage)%type.

(** An action changes the surroundings and returns a value or raises. *)
Definition action (A : Type) : Type := world → world * result A.

#[export] Instance action_ret : MRet action := λ A a w, (w, Ok a).
#[export] Instance action_bind : MBind action :=
  λ A B f m w, match m w with (w', Ok a) => f a w' | (w', Raise e) => (w', Raise e) end.

Definition raise {A} (e : exn) : action A := λ w, (w, Raise e).
Definition lift {A} (r : result A) : action A := λ w, (w, r).
Definition write_error (text : str) : action unit :=
  λ w, (World (started w) (errors w ++ text) (written w), Ok tt).
Definition write_file (path text : str) : action unit :=
  λ w, (World (started w) (errors w) (Some (path, text)), Ok tt).

Section environment.

(** What the [n]-th process that is started does; [None] when it cannot be started. *)
Context (process : nat → list str → option completed).

Definition run_process (command : list str) : action completed :=
  λ w, (World (started w ++ [command]) (errors w) (written w),
        or_raise OSError (process (length (started w)) command)).

Definition is_blank (c : ascii) : bool := one_of [" "%char; tab] c.

(** The output that is compared; binary_trees may use tabs or spaces between its fields. *)
Definition compared_output (name output : str) : str :=
  if decide (name = lit "binary_trees") then sub (RPlus (RClass is_blank)) (λ _, lit " ") output
  else output.

(** The captured output of a process: [None] when it went to /dev/null. *)
Definition check_output (name : str) (proc : completed) : action unit :=
  match expected_output name with
  | None => mret tt
  | Some expected =>
      if decide (compared_output name (stdout proc) = expected) then mret tt
      else
        _ ← write_error (name ++ lit " output mismatch: expected " ++ repr expected ++ lit ", got "
                         ++ repr (take 120 (stdout proc)) ++ [newline]);
        raise (ExitStatus 125)
  end.

Definition elapsed_of (m : mtch) : result float :=
  match group_opt m 1, group_opt m 2 with
  | Some seconds, _ => float_of seconds
  | None, Some microseconds => x ← float_of microseconds; Ok (fdiv x (of_int 1000000))
  | None, None =>
      micros ← or_raise TypeError (group_opt m 3);
      x ← float_of micros; Ok (fdiv x (of_int 1000000))
  end.

(** The sample a process reports on stderr. *)
Definition read_sample (proc : completed) (resource_stats : bool) : action sample :=
  match last_match BENCH_RE (stderr proc) with
  | None =>
      _ ← write_error (lit "benchmark did not report a BENCH timing line" ++ [newline]);
      _ ← write_error (stderr proc);
      raise (ExitStatus 125)
  | Some m =>
      elapsed ← lift (elapsed_of m);
      if negb resource_stats then mret (elapsed, None)
      else
        match last_match INSTRUCTIONS_RE (stderr proc), last_match PEAK_RSS_RE (stderr proc) with
        | Some i, Some p =>
            n ← lift (int (group i 1));
            rss ← lift (int (group p 1));
            mret (elapsed, Some (ResourceUsage n rss))
        | _, _ =>
            _ ← write_error (lit "resource stats need macOS /usr/bin/time -l to report "
                             ++ lit "instructions retired and maximum resident set size" ++ [newline]);
            raise (ExitStatus 125)
        end
  end.

Definition run_once (name : str) (command : list str) (resource_stats : bool) : action sample :=
  let command := if resource_stats then RESOURCE_TIMER ++ command else command in
  proc ← run_process command;
  if negb (returncode proc =? 0)%Z then
    _ ← write_error (stderr proc);
    raise (ExitStatus (returncode proc))
  else
    _ ← check_output name proc;
    read_sample proc resource_stats.

(** [[f(...) for _ in range(n)]] *)
Fixpoint repeat_action {A} (n : nat) (a : action A) : action (list A) :=
  match n with
  | O => mret []
  | S n => x ← a; xs ← repeat_action n a; mret (x :: xs)
  end.

Definition stats_text (samples : list sample) : result str :=
  usages ← mapR (λ s : sample, or_raise TypeError s.2) samples;
  n ← min_int (map instructions usages);
  rss ← max_int (map peak_rss_bytes usages);
  Ok (lit "instructions=" ++ dec n ++ lit " peak_rss_bytes=" ++ dec rss ++ [newline]).

(** The arguments in their order: the path of the statistics, warmups, runs, name, command. *)
Record parsed := Parsed {
  stats_path : option str;
  warmups : Z;
  runs : Z;
  bench_name : str;
  bench_command : list str;
}.

Definition parse_arguments (arguments : list str) : result parsed :=
  '(path, arguments) ←
    (if decide (take 1 arguments = [lit "--resource-stats"]) then
       path ← or_raise IndexError (arguments !! 1); Ok (Some path, drop 2 arguments)
     else Ok (None, arguments));
  first ← or_raise IndexError (arguments !! 0);
  warmups ← int first;
  second ← or_raise IndexError (arguments !! 1);
  runs ← int second;
  name ← or_raise IndexError (arguments !! 2);
  Ok (Parsed path warmups runs name (drop 3 arguments)).

(** What it prints: the least time. *)
Definition main (arguments : list str) : action str :=
  p ← lift (parse_arguments arguments);
  let stats := bool_decide (is_Some (stats_path p)) in
  _ ← repeat_action (Z.to_nat (warmups p)) (run_once (bench_name p) (bench_command p) false);
  samples ← repeat_action (Z.to_nat (runs p)) (run_once (bench_name p) (bench_command p) stats);
  _ ← match stats_path p with
      | None => mret tt
      | Some path => text ← lift (stats_text samples); write_file path text
      end;
  least ← lift (min_float (map fst samples));
  mret (fixed 4 least ++ [newline]).

End environment.

(** * What one process leads to *)

(** The complaint about an output that is not the expected one. *)
Definition mismatch (name : str) (proc : completed) : option str :=
  expected ← expected_output name;
  if decide (compared_output name (stdout proc) = expected) then None
  else Some (name ++ lit " output mismatch: expected " ++ repr expected ++ lit ", got "
             ++ repr (take 120 (stdout proc)) ++ [newline]).

(** The resources of a sample, or the complaint that they are missing. *)
Definition usage_of (text : str) : str * result resource_usage :=
  match last_match INSTRUCTIONS_RE text, last_match PEAK_RSS_RE text with
  | Some i, Some p => ([], n ← int (group i 1); rss ← int (group p 1); Ok (ResourceUsage n rss))
  | _, _ => (lit "resource stats need macOS /usr/bin/time -l to report "
             ++ lit "instructions retired and maximum resident set size" ++ [newline],
             Raise (ExitStatus 125))
  end.

(** What reading the sample of a process that went well leads to. *)
Definition reading (resource_stats : bool) (proc : completed) : str * result sample :=
  match last_match BENCH_RE (stderr proc) with
  | None => (lit "benchmark did not report a BENCH timing line" ++ [newline] ++ stderr proc,
             Raise (ExitStatus 125))
  | Some m =>
      match elapsed_of m with
      | Raise e => ([], Raise e)
      | Ok elapsed =>
          if resource_stats then
            ((usage_of (stderr proc)).1, u ← (usage_of (stderr proc)).2; Ok (elapsed, Some u))
          else ([], Ok (elapsed, None))
      end
  end.

(** The verdict on a finished process: the text that goes to stderr and the sample. *)
Definition verdict (name : str) (resource_stats : bool) (proc : completed) : str * result sample :=
  if negb (returncode proc =? 0)%Z then (stderr proc, Raise (ExitStatus (returncode proc)))
  else match mismatch name proc with
       | Some text => (text, Raise (ExitStatus 125))
       | None => reading resource_stats proc
       end.

Lemma read_sample_reading stats proc w :
  read_sample proc stats w =
  (World (started w) (errors w ++ (reading stats proc).1) (written w), (reading stats proc).2).
Proof.
  unfold read_sample, reading. destruct w as [st er wr]. cbn [started errors written].
  destruct (last_match BENCH_RE (stderr proc)) as [m|].
  2: { unfold mbind, action_bind, write_error, raise. cbn [started errors written fst snd].
       by rewrite <- !(assoc_L (++)). }
  unfold mbind at 1, action_bind at 1, lift at 1.
  destruct (elapsed_of m) as [x|e]; cbn [fst snd]; [|by rewrite app_nil_r].
  destruct stats; cbn [negb fst snd]; [|by cbn; rewrite app_nil_r].
  unfold usage_of. destruct (last_match INSTRUCTIONS_RE (stderr proc)) as [i|], (last_match PEAK_RSS_RE (stderr proc)) as [p|];
    cbn [fst snd]; try done.
  unfold mbind, action_bind, lift, result_bind. rewrite app_nil_r.
  destruct (int (group i 1)); [|done]. by destruct (int (group p 1)).
Qed.

Section runs.

Context (process : nat → list str → option completed) (name : str) (command : list str).

Definition full_command (resource_stats : bool) : list str :=
  if resource_stats then RESOURCE_TIMER ++ command else command.

(** What the [n]-th process leads to. *)
Definition outcome (resource_stats : bool) (n : nat) : str * result sample :=
  match process n (full_command resource_stats) with
  | None => ([], Raise OSError)
  | Some proc => verdict name resource_stats proc
  end.

Lemma run_once_outcome stats w :
  run_once process name command stats w =
  (World (started w ++ [full_command stats])
     (errors w ++ (outcome stats (length (started w))).1) (written w),
   (outcome stats (length (started w))).2).
Proof.
  unfold run_once, outcome, full_command, run_process. unfold mbind at 1, action_bind at 1.
  destruct (process _ _) as [proc|]; cbn [or_raise fst snd]; [|by rewrite app_nil_r].
  unfold verdict. destruct (returncode proc =? 0)%Z; cbn [negb]; [|done].
  unfold check_output, mismatch, mbind, action_bind, option_bind, mret, action_ret.
  destruct (expected_output name) as [expected|]; [|by rewrite read_sample_reading].
  destruct (decide _); [by rewrite read_sample_reading|done].
Qed.

(** A run of processes that all give a sample. *)
Lemma repeat_samples stats n samples w :
  Forall2 (λ i s, outcome stats i = ([], Ok s)) (seq (length (started w)) n) samples →
  repeat_action n (run_once process name command stats) w =
  (World (started w ++ repeat (full_command stats) n) (errors w) (written w), Ok samples).
Proof.
  revert samples w. induction n as [|n IH]; intros samples w H; cbn [seq repeat_action] in *.
  { inversion H. subst. cbn. rewrite app_nil_r. by destruct w. }
  inversion H as [|i s il ss Hs Hss]; subst. unfold mbind, action_bind.
  rewrite run_once_outcome, Hs. cbn [fst snd]. rewrite app_nil_r. cbn [repeat].
  rewrite (IH ss); [by cbn [started errors written mret action_ret]; rewrite <- (assoc_L (++))|].
  cbn [started]. rewrite length_app. cbn. by rewrite Nat.add_1_r.
Qed.

(** The first process that does not give one ends the run. *)
Lemma repeat_failure stats n j samples text e w :
  j < n → Forall2 (λ i s, outcome stats i = ([], Ok s)) (seq (length (started w)) j) samples →
  outcome stats (length (started w) + j) = (text, Raise e) →
  repeat_action n (run_once process name command stats) w =
  (World (started w ++ repeat (full_command stats) (S j)) (errors w ++ text) (written w), Raise e).
Proof.
  revert n samples w. induction j as [|j IH]; intros [|n] samples w Hn Hs Hj; try lia; cbn [repeat_action];
    unfold mbind, action_bind; rewrite run_once_outcome.
  - rewrite Nat.add_0_r in Hj. by rewrite Hj.
  - cbn [seq] in Hs. inversion Hs as [|i s il ss H1 H2]; subst. rewrite H1.
    cbn [fst snd]. rewrite app_nil_r, (IH n ss); cbn [started errors written].
    + cbn [repeat]. by rewrite <- (assoc_L (++)).
    + lia.
    + rewrite length_app. cbn. by rewrite Nat.add_1_r.
    + rewrite length_app. cbn. by rewrite <- (Nat.add_assoc _ 1).
Qed.

End runs.

(** * A whole run *)

Lemma outcome_usage process name command i s :
  outcome process name command true i = ([], Ok s) → is_Some s.2.
Proof.
  unfold outcome, verdict, reading.
  destruct (process i _) as [proc|]; [|done]. destruct (negb _); [done|].
  destruct (mismatch name proc); [done|]. destruct (last_match BENCH_RE (stderr proc)) as [m|]; [|done].
  destruct (elapsed_of m); [|done]. intros [= _ H]. inv_ok. done.
Qed.

Lemma Forall2_seq_impl {B} (P Q : nat → B → Prop) a n k :
  (∀ i b, a ≤ i < a + n → P i b → Q i b) → Forall2 P (seq a n) k → Forall2 Q (seq a n) k.
Proof.
  revert a k. induction n as [|n IH]; intros a k H HP; inversion HP as [|i b il k' H1 H2]; subst;
    [constructor|].
  constructor; [apply H; [lia|done]|]. apply IH; [|done]. intros i b' Hi. apply H. lia.
Qed.

Lemma repeat_map_seq {A} (f : nat → A) x a n :
  (∀ i, a ≤ i < a + n → f i = x) → repeat x n = map f (seq a n).
Proof.
  revert a. induction n as [|n IH]; intros a H; cbn; [done|].
  rewrite (H a) by lia. rewrite (IH (S a)); [done|]. intros i Hi. apply H. lia.
Qed.

Section whole_run.

Context (process : nat → list str → option completed) (p : parsed).

Abbreviation warm := (Z.to_nat (warmups p)).
Abbreviation wants_stats := (bool_decide (is_Some (stats_path p))).

(** The [i]-th process of the run: only the timed ones run under the resource timer. *)
Definition timed (i : nat) : bool := wants_stats && (warm <=? i).
Definition command_at (i : nat) : list str := full_command (bench_command p) (timed i).
Definition outcome_at (i : nat) : str * result sample :=
  outcome process (bench_name p) (bench_command p) (timed i) i.
Definition gives (i : nat) (s : sample) : Prop := outcome_at i = ([], Ok s).

Lemma timed_warm i : i < warm → timed i = false.
Proof. intros Hi. unfold timed. destruct (Nat.leb_spec warm i); [lia|]. by rewrite andb_false_r. Qed.
Lemma timed_run i : warm ≤ i → timed i = wants_stats.
Proof. intros Hi. unfold timed. destruct (Nat.leb_spec warm i); [|lia]. by rewrite andb_true_r. Qed.

Lemma warm_samples n samples er wr :
  n ≤ warm → Forall2 gives (seq 0 n) samples →
  repeat_action n (run_once process (bench_name p) (bench_command p) false) (World [] er wr) =
  (World (map command_at (seq 0 n)) er wr, Ok samples).
Proof.
  intros Hn H. rewrite (repeat_samples _ _ _ _ _ samples); cbn [started length].
  - cbn. f_equal. f_equal. apply repeat_map_seq. intros i Hi. unfold command_at. by rewrite timed_warm by lia.
  - eapply Forall2_seq_impl; [|exact H]. intros i s Hi. unfold gives, outcome_at. by rewrite timed_warm by lia.
Qed.

Lemma run_samples n samples er wr :
  Forall2 gives (seq warm n) samples →
  repeat_action n (run_once process (bench_name p) (bench_command p) wants_stats)
    (World (map command_at (seq 0 warm)) er wr) =
  (World (map command_at (seq 0 (warm + n))) er wr, Ok samples).
Proof.
  intros H. rewrite (repeat_samples _ _ _ _ _ samples); cbn [started errors written].
  - f_equal. f_equal. rewrite seq_app, map_app. f_equal. apply repeat_map_seq. intros i Hi.
    unfold command_at. by rewrite timed_run by lia.
  - rewrite length_map, length_seq. eapply Forall2_seq_impl; [|exact H]. intros i s Hi.
    unfold gives, outcome_at. by rewrite timed_run by lia.
Qed.

(** [n] is the least instruction count of the samples and [rss] the greatest memory size: each
    is that of a sample, and no sample is beyond it. *)
Definition extremes (samples : list sample) (n rss : Z) : Prop :=
  (∃ s u, s ∈ samples ∧ s.2 = Some u ∧ instructions u = n) ∧
  (∃ s u, s ∈ samples ∧ s.2 = Some u ∧ peak_rss_bytes u = rss) ∧
  ∀ s u, s ∈ samples → s.2 = Some u → (n ≤ instructions u ∧ peak_rss_bytes u ≤ rss)%Z.

(** The statistics of the timed samples. *)
Lemma stats_text_spec k samples :
  wants_stats = true → samples ≠ [] → Forall2 gives (seq warm k) samples →
  ∃ n rss, stats_text samples = Ok (lit "instructions=" ++ dec n ++ lit " peak_rss_bytes=" ++ dec rss
                                    ++ [newline]) ∧ extremes samples n rss.
Proof.
  intros Hw Hne H. assert (∀ s, s ∈ samples → is_Some s.2) as Hsome.
  { intros s [i Hi]%list_elem_of_lookup. destruct (Forall2_lookup_r _ _ _ _ _ H Hi) as (j & Hj & Hs).
    apply lookup_seq in Hj as [-> _]. unfold gives, outcome_at in Hs. rewrite timed_run, Hw in Hs by lia.
    by eapply outcome_usage. }
  assert (∃ us, mapR (λ s : sample, or_raise TypeError s.2) samples = Ok us ∧
    Forall2 (λ (s : sample) u, s.2 = Some u) samples us) as (us & Hus & Hall).
  { clear -Hsome. induction samples as [|s samples IH]; [exists []; by split|].
    destruct (Hsome s ltac:(left)) as [u Hu]. destruct IH as (us & H1 & H2); [intros s' ?; apply Hsome; by right|].
    exists (u :: us). cbn. rewrite Hu. cbn. rewrite H1. cbn. by split; [|constructor]. }
  assert (us ≠ []) as Hus0 by (intros ->; by inversion Hall; subst).
  assert (∀ (f : resource_usage → Z) z, z ∈ map f us → ∃ s u, s ∈ samples ∧ s.2 = Some u ∧ f u = z) as Hfrom.
  { intros f z (u & -> & [i Hi]%list_elem_of_lookup)%list_elem_of_fmap.
    destruct (Forall2_lookup_r _ _ _ _ _ Hall Hi) as (s & Hs & Hu). exists s, u.
    split; [by eapply list_elem_of_lookup_2|done]. }
  destruct (min_int_spec (map instructions us)) as (n & Hn & Hnin & Hmin); [by destruct us|].
  destruct (max_int_spec (map peak_rss_bytes us)) as (rss & Hrss & Hrin & Hmax); [by destruct us|].
  exists n, rss. unfold stats_text. rewrite Hus. cbn [mbind result_bind]. rewrite Hn. cbn [mbind result_bind].
  rewrite Hrss. cbn [mbind result_bind]. split; [done|]. split; [by apply Hfrom|]. split; [by apply Hfrom|].
  intros s u [i Hi]%list_elem_of_lookup Hu.
  destruct (Forall2_lookup_l _ _ _ _ _ Hall Hi) as (u' & Hu' & Heq). rewrite Hu in Heq. injection Heq as <-.
  apply list_elem_of_lookup_2 in Hu'. split; [apply Hmin|apply Hmax]; by apply list_elem_of_In, in_map, list_elem_of_In.
Qed.

End whole_run.

(** * Properties *)

(** C30: A run of bench_run.py starts its warmups and then its timed processes, the timed ones
    under the resource timer when statistics are asked for.  When every process gives a
    sample it prints the least of the timed ones with four decimals and writes the least
    instruction count and the greatest memory size, each that of one of the timed samples; the
    first process that fails, prints the
    wrong output or reports no time ends it, with nothing printed, no file written and no
    later process started. *)
Theorem bench_main process arguments p :
  parse_arguments arguments = Ok p →
  let total := Z.to_nat (warmups p) + Z.to_nat (runs p) in
  (∀ samples, Forall2 (gives process p) (seq 0 total) samples → (0 < runs p)%Z →
     let timed_samples := drop (Z.to_nat (warmups p)) samples in
     ∃ least w, main process arguments (World [] [] None) = (w, Ok (fixed 4 least ++ [newline])) ∧
       started w = map (command_at p) (seq 0 total) ∧ errors w = [] ∧
       least ∈ map fst timed_samples ∧ (∀ x, x ∈ map fst timed_samples → fltb x least = false) ∧
       match stats_path p with
       | None => written w = None
       | Some path => ∃ n rss,
           written w = Some (path, lit "instructions=" ++ dec n ++ lit " peak_rss_bytes=" ++ dec rss
                                   ++ [newline]) ∧ extremes timed_samples n rss
       end) ∧
  (∀ j samples text e, j < total → Forall2 (gives process p) (seq 0 j) samples →
     outcome_at process p j = (text, Raise e) →
     main process arguments (World [] [] None) =
     (World (map (command_at p) (seq 0 (S j))) text None, Raise e)).
Proof.
  intros Hp total. split.
  - intros samples H Hruns timed_samples. subst total. rewrite seq_app in H.
    apply Forall2_app_inv_l in H as (warms & rs & Hwarm & Hrs & ->). rewrite Nat.add_0_l in Hrs.
    assert (length warms = Z.to_nat (warmups p)) as Hlen
      by (apply Forall2_length in Hwarm; by rewrite length_seq in Hwarm).
    assert (timed_samples = rs) as -> by (subst timed_samples; by rewrite <- Hlen, drop_app_length).
    assert (rs ≠ []) as Hne by (intros ->; apply Forall2_length in Hrs; rewrite length_seq in Hrs; cbn in Hrs; lia).
    destruct (min_float_spec (map fst rs)) as (least & Hl1 & Hl2 & Hl3); [by destruct rs|].
    exists least. unfold main, lift. rewrite Hp. unfold mbind, action_bind.
    rewrite (warm_samples _ _ _ warms) by done.
    rewrite (run_samples _ _ _ rs) by done.
    destruct (stats_path p) as [path|] eqn:Epath.
    + destruct (stats_text_spec process p (Z.to_nat (runs p)) rs) as (n & rss & Ht & Hstats);
        [by rewrite Epath|done|done|].
      rewrite Ht, Hl1. unfold write_file, mret, action_ret. eexists. split; [reflexivity|].
      cbn [started errors written]. split_and!; [done..|]. eauto.
    + rewrite Hl1. unfold mret, action_ret. eexists. split; [reflexivity|]. by split_and!.
  - intros j samples text e Hj H Ho. unfold main, lift. rewrite Hp. unfold mbind, action_bind.
    destruct (decide (j < Z.to_nat (warmups p))) as [Hlt|Hge].
    + rewrite (repeat_failure _ _ _ false _ j samples text e); cbn [started errors written length]; [|done|..].
      * do 2 f_equal. cbn [app]. apply (repeat_map_seq _ _ 0). intros i Hi. unfold command_at.
        by rewrite timed_warm by lia.
      * eapply Forall2_seq_impl; [|exact H]. intros i s Hi. unfold gives, outcome_at.
        by rewrite timed_warm by lia.
      * unfold outcome_at in Ho. by rewrite timed_warm in Ho.
    + subst total. replace j with (Z.to_nat (warmups p) + (j - Z.to_nat (warmups p))) in H by lia.
      rewrite seq_app in H. apply Forall2_app_inv_l in H as (warms & rs & Hwarm & Hrs & ->).
      rewrite (warm_samples _ _ _ warms) by done.
      rewrite (repeat_failure _ _ _ _ _ (j - Z.to_nat (warmups p)) rs text e); cbn [started errors written].
      * do 2 f_equal. replace (S j) with (Z.to_nat (warmups p) + S (j - Z.to_nat (warmups p))) by lia.
        rewrite seq_app, map_app. f_equal. apply repeat_map_seq. intros i Hi. unfold command_at.
        by rewrite timed_run by lia.
      * lia.
      * rewrite length_map, length_seq. eapply Forall2_seq_impl; [|exact Hrs]. intros i s Hi.
        unfold gives, outcome_at. by rewrite timed_run by lia.
      * rewrite length_map, length_seq. unfold outcome_at in Ho. rewrite timed_run in Ho by lia.
        replace (Z.to_nat (warmups p) + (j - Z.to_nat (warmups p))) with j by lia. done.
Qed.

(** A process that prints what "fib" should and reports half a second. *)
Definition fib_process (n : nat) (command : list str) : option completed :=
  Some (Completed 0 (text_lines ["Fib(40) = 102334155"]%string)
          (text_lines ["BENCH name=fib lang=python seconds=0.5"; " 90  instructions retired";
                       " 7  maximum resident set size"]%string)).
Definition fib_arguments : list str := map lit ["--resource-stats"; "stats"; "1"; "2"; "fib"; "run"]%string.
Definition fib_parsed : parsed := Parsed (Some (lit "stats")) 1 2 (lit "fib") [lit "run"].

Lemma bench_main_witness :
  ∃ least w, main fib_process fib_arguments (World [] [] None) = (w, Ok (fixed 4 least ++ [newline])) ∧
    length (started w) = 3 ∧
    ∃ n rss, written w = Some (lit "stats", lit "instructions=" ++ dec n ++ lit " peak_rss_bytes="
                                            ++ dec rss ++ [newline]) ∧ n = 90%Z ∧ rss = 7%Z.
Proof.
  destruct (bench_main fib_process fib_arguments fib_parsed) as [H _]; [vm_compute; reflexivity|].
  destruct (H [(of_numeral 5 1, None); (of_numeral 5 1, Some (ResourceUsage 90 7));
               (of_numeral 5 1, Some (ResourceUsage 90 7))])
    as (least & w & H1 & H2 & _ & _ & _ & n & rss & H3 & H4).
  - cbn [seq Z.to_nat Pos.to_nat warmups runs fib_parsed].
    repeat (apply Forall2_cons_2; [vm_compute; reflexivity|]). apply Forall2_nil_2.
  - cbn. lia.
  - exists least, w. split; [exact H1|]. rewrite H2. split; [reflexivity|].
    exists n, rss. split; [exact H3|]. destruct H4 as ((s & u & Hs & Hu & <-) & (s' & u' & Hs' & Hu' & <-) & _).
    cbn [drop Z.to_nat Pos.to_nat warmups fib_parsed] in Hs, Hs'.
    assert (∀ s u, s ∈ [(of_numeral 5 1, Some (ResourceUsage 90 7)); (of_numeral 5 1, Some (ResourceUsage 90 7))] →
      s.2 = Some u → u = ResourceUsage 90 7) as Hall.
    { intros x v Hx Hv. repeat (apply elem_of_cons in Hx as [->|Hx]; [injection Hv as <-; reflexivity|]).
      apply elem_of_nil in Hx. destruct Hx. }
    rewrite (Hall _ _ Hs Hu), (Hall _ _ Hs' Hu'). split; reflexivity.
Defined.

(** * The units of the reported time *)

Lemma group_opt_other n cs (m : mtch) :
  m_caps m = cs → n ≠ 0 → Forall (λ c : nat * str, c.1 ≠ n) cs → group_opt m n = None.
Proof.
  intros Hm Hn H. unfold group_opt. rewrite Hm. destruct n as [|n]; [done|].
  assert (filter (λ p : nat * str, p.1 = S n) cs = []) as ->; [|done].
  clear Hm. induction H as [|c cs Hc Hcs IH]; [done|]. by rewrite filter_cons, decide_False.
Qed.

(** Behind "seconds=" and a digit the first alternative always leads to a match. *)
Lemma seconds_field_run bef ds rest cs k :
  ds ≠ [] → forallb is_digit ds = true →
  (∀ st, length (after st) < length (lit "seconds=" ++ ds ++ rest) → k st ≠ None) →
  run seconds_field (Cursor bef (lit "seconds=" ++ ds ++ rest) cs) k ≠ None.
Proof.
  intros Hne Hd Hk H. rewrite run_None in H.
  set (st1 := Cursor (rev (lit "seconds=") ++ bef) (ds ++ rest) cs).
  set (st2 := Cursor (rev ds ++ rev (lit "seconds=") ++ bef) rest cs).
  apply (Hk (capture 1 st1 st2)).
  - cbn. rewrite !length_app. change (length (lit "seconds=")) with 8. lia.
  - apply H. exists st1. split; [by apply den_rlit; exists (ds ++ rest)|].
    exists st2. split; [|done]. exists st2. split; [|by right].
    apply den_plus_class. by exists ds, rest.
Qed.

Lemma seconds_caps st st' : den seconds_field st st' → ∃ s, caps st' = (1, s) :: caps st.
Proof.
  intros (m1 & Hm1 & Hg). apply den_rlit in Hm1 as (r & _ & ->).
  apply den_RGroup in Hg as (s & m2 & Hd & _ & _ & ->). exists s. cbn. f_equal.
  destruct Hd as (m3 & Hm3 & Ho). apply den_plus_class in Hm3 as (t & r' & _ & _ & _ & ->).
  destruct Ho as [(m4 & Hm4 & Hd)|Hd]; [|by cbn in Hd; subst].
  apply den_rlit in Hm4 as (r4 & _ & ->). by apply den_plus_class in Hd as (? & ? & _ & _ & _ & ->).
Qed.

(** A match: the text in front of the field, and the field that was found there. *)
Lemma bench_match must p0 q st' :
  run BENCH_RE (at_pos p0 q) (accept must (at_pos p0 q)) = Some st' →
  ∃ bef aft, length aft < length q ∧
    run (RStar true Rdot) (Cursor bef aft [])
      (λ m, run (RAlt seconds_field (RAlt microseconds_field micros_field)) m (accept must (at_pos p0 q)))
    = Some st'.
Proof.
  unfold BENCH_RE. rewrite !run_rseq_cons. intros H.
  apply run_Some in H as (m1 & [_ ->] & H). rewrite run_rseq_cons in H.
  apply run_Some in H as (m2 & Hm2 & H). apply den_rlit in Hm2 as (r2 & Hr2 & ->).
  rewrite run_rseq_cons in H.
  apply run_Some in H as (m3 & Hm3 & H). apply den_plus_class in Hm3 as (t & r3 & Hr3 & _ & _ & ->).
  cbn [after before caps at_pos] in *. rewrite run_rseq_cons in H. eexists _, r3. split; [|exact H].
  rewrite Hr2, Hr3, !length_app. change (length (lit "BENCH")) with 5. lia.
Qed.

(** The alternative "microseconds=" of BENCH_RE never takes part in a match: the greedy
    text in front of it reaches the end of the line first, so "seconds=" is found inside the
    word and the number is read as a number of seconds.  Such a line is taken for a time a
    million times too long. *)
Theorem microseconds_never_read text m :
  m ∈ finditer BENCH_RE text → group_opt m 2 = None.
Proof.
  intros (must & p0 & q & st' & _ & Hrun & ->)%finditer_run.
  destruct (bench_match _ _ _ _ Hrun) as (bef & aft & Hlen & Hstar).
  apply run_star_class_first in Hstar as (t & rest & -> & Hk & Hno).
  set (k := accept must (at_pos (rev p0) q)) in *.
  assert (∀ st, length (after st) < length q → k st ≠ None) as Haccept.
  { intros st Hst. unfold k, accept, progress. cbn [at_pos after].
    destruct (Nat.ltb_spec (length (after st)) (length q)); [|lia]. by destruct must. }
  change (run (RAlt ?a ?b) ?st ?k) with
    (match run a st k with Some x => Some x | None => run b st k end) in Hk.
  destruct (run seconds_field _ k) as [x|] eqn:E1.
  { injection Hk as ->. apply run_Some in E1 as (m1 & Hd & [-> _]%accept_Some).
    apply seconds_caps in Hd as [s Hs]. cbn in Hs. apply (group_opt_other 2 [(1, s)]); [done..|].
    by repeat constructor. }
  apply run_Some in Hk as (m1 & [Hd|Hd] & [-> _]%accept_Some).
  - exfalso. clear E1. destruct Hd as (m2 & Hm2 & Hg). apply den_rlit in Hm2 as (r & Hr & ->).
    apply den_RGroup in Hg as (ds & m3 & Hd & _). apply den_plus_class in Hd as (ds' & r' & Hds & Hne & Hdig & _).
    cbn [after before caps] in *. subst r.
    specialize (Hno (lit "micro") (lit "seconds=" ++ ds' ++ r')).
    rewrite Hr in Hno. specialize (Hno eq_refl ltac:(done) eq_refl).
    revert Hno. change (run (RAlt ?a ?b) ?st ?k) with
      (match run a st k with Some x => Some x | None => run b st k end).
    destruct (run seconds_field _ k) eqn:E; [done|]. intros _. revert E.
    apply seconds_field_run; [done|done|]. intros st Hst. apply Haccept.
    rewrite Hr in Hlen. rewrite !length_app in Hlen. rewrite !length_app in Hst.
    change (length (lit "seconds=")) with 8 in Hst. change (length (lit "microseconds=")) with 13 in Hlen. lia.
  - destruct Hd as (m2 & Hm2 & Hg). apply den_rlit in Hm2 as (r & Hr & ->).
    apply den_RGroup in Hg as (s & m3 & Hd & _ & _ & ->). apply den_plus_class in Hd as (ds' & r' & _ & _ & _ & ->).
    apply (group_opt_other 2 [(3, s)]); [done..|]. by repeat constructor.
Qed.

Lemma microseconds_never_read_witness :
  let line := lit "BENCH name=fib microseconds=1500" in
  ∃ m, last_match BENCH_RE line = Some m ∧ group_opt m 2 = None ∧
    elapsed_of m = Ok (of_numeral 1500 0).
Proof.
  intros line. destruct (last_match BENCH_RE line) as [m|] eqn:Em; [|vm_compute in Em; discriminate Em].
  exists m. split; [reflexivity|]. split.
  - apply (microseconds_never_read line). vm_compute in Em. injection Em as <-. vm_compute. left.
  - vm_compute in Em. injection Em as <-. vm_compute. reflexivity.
Defined.
