(* ===== verification/Loops.v ===== *)
(** Loops that need not end: [while] loops with a counter of rounds, their composition with
    exceptions, and reading and writing a list by index. *)
From S2P Require Import Prelude.

(** [None] means that a loop used up its rounds before it ended. *)
Definition partial (A : Type) : Type := option (result A).

#[export] Instance partial_ret : MRet partial := λ A a, Some (Ok a).
#[export] Instance partial_bind : MBind partial :=
  λ A B f m, match m with Some (Ok a) => f a | Some (Raise e) => Some (Raise e) | None => None end.

Definition total {A} (r : result A) : partial A := Some r.

(** [while True]: a round goes on with a new state ([inl]) or leaves the loop ([inr]). *)
Fixpoint loop {S R} (fuel : nat) (round : S → partial (S + R)) (s : S) : partial R :=
  match fuel with
  | O => None
  | S fuel =>
      next ← round s;
      match next with inl s' => loop fuel round s' | inr r => mret r end
  end.

Lemma loop_S {S R} fuel (round : S → partial (S + R)) s :
  loop (Datatypes.S fuel) round s =
  (round s ≫= λ next, match next with inl s' => loop fuel round s' | inr r => mret r end).
Proof. done. Qed.

(** A [for] loop whose body may raise or use up its rounds. *)
Fixpoint foldP {A B} (f : A → B → partial A) (a : A) (l : list B) : partial A :=
  match l with
  | [] => mret a
  | b :: l => a' ← f a b; foldP f a' l
  end.

(** Go past a computation whose outcome is known. *)
Ltac run_partial := unfold total; cbn [mbind partial_bind mret partial_ret].

(** The rule of a loop that always leaves: the invariant holds, a measure goes down, and the
    measure bounds the rounds. *)
Lemma loop_measure {S R} (I : S → Prop) (Q : R → Prop) (m : S → nat) (round : S → partial (S + R)) :
  (∀ s, I s → (∃ s', round s = Some (Ok (inl s')) ∧ I s' ∧ m s' < m s) ∨
              (∃ r, round s = Some (Ok (inr r)) ∧ Q r)) →
  ∀ s fuel, I s → m s < fuel → ∃ r, loop fuel round s = Some (Ok r) ∧ Q r.
Proof.
  intros Hround s fuel. revert s. induction fuel as [|fuel IH]; intros s Hs Hm; [lia|].
  rewrite loop_S. destruct (Hround s Hs) as [(s' & -> & Hs' & Hlt)|(r & -> & Hr)]; run_partial.
  - apply IH; [done|lia].
  - by exists r.
Qed.

Lemma foldP_Ok {A B} (f : A → B → partial A) (g : A → B → A) a l :
  (∀ a b, b ∈ l → f a b = Some (Ok (g a b))) → foldP f a l = Some (Ok (foldl g a l)).
Proof.
  revert a. induction l as [|b l IH]; intros a H; [done|]. cbn [foldP foldl].
  rewrite H by (by left). run_partial. apply IH. intros a' b' Hb. apply H. by right.
Qed.

(** * Lists by index *)

(** [l[i]] and [l[i] = a] for an index that is not negative. *)
Definition get_item {A} (l : list A) (i : nat) : result A := or_raise IndexError (l !! i).
Definition set_item {A} (l : list A) (i : nat) (a : A) : result (list A) :=
  if i <? length l then Ok (<[i := a]> l) else Raise IndexError.

Lemma get_item_Ok {A} (l : list A) i a : l !! i = Some a → get_item l i = Ok a.
Proof. unfold get_item. by intros ->. Qed.

Lemma get_item_None {A} (l : list A) i : l !! i = None → get_item l i = Raise IndexError.
Proof. unfold get_item. by intros ->. Qed.

Lemma set_item_Ok {A} (l : list A) i a : i < length l → set_item l i a = Ok (<[i := a]> l).
Proof. unfold set_item. intros H. by destruct (Nat.ltb_spec i (length l)); [|lia]. Qed.

(** A [for] loop over [range(n)]: the prefix rule with the number of rounds done. *)
Lemma for_range {A} (f : A → nat → result A) (I : nat → A → Prop) n a :
  I 0 a → (∀ j a, j < n → I j a → ∃ a', f a j = Ok a' ∧ I (S j) a') →
  ∃ a', foldM f a (seq 0 n) = Ok a' ∧ I n a'.
Proof.
  intros H0 Hstep.
  destruct (foldM_total f (λ pre a, I (length pre) a) (seq 0 n)) with (a := a) as (a' & Hf & Ha').
  - intros pre b suf a1 Hl Ha.
    assert (b = length pre ∧ length pre < n) as [-> Hlt].
    { assert (seq 0 n !! length pre = Some b) as Hb by (rewrite Hl; by apply list_lookup_middle).
      apply lookup_seq in Hb as [-> ?]. split; [lia|done]. }
    rewrite length_app. cbn. rewrite Nat.add_1_r. by apply Hstep.
  - done.
  - exists a'. rewrite length_seq in Ha'. done.
Qed.

(** * Rounds that add a number *)

(** A loop in which each element adds a number to the sum. *)
Lemma foldl_adds {A} (f : Z → A → Z) (g : A → Z) l z :
  (∀ acc a, a ∈ l → f acc a = (acc + g a)%Z) → foldl f z l = (z + zsum (map g l))%Z.
Proof.
  revert z. induction l as [|a l IH]; intros z H; cbn [foldl map]; [by unfold zsum; cbn; lia|].
  rewrite (H z a) by (by left). rewrite IH, zsum_cons by (intros; apply H; by right). lia.
Qed.

(** [for _ in range(iters)]: each round adds the same number. *)
Lemma rounds (g : Z → Z) c iters z :
  (0 <= iters)%Z → (∀ z, g z = (z + c)%Z) →
  foldl (λ acc _, g acc) z (seqZ 0 iters) = (z + iters * c)%Z.
Proof.
  intros Hi H. rewrite (foldl_adds _ (λ _, c)) by (intros; apply H).
  by rewrite zsum_const, length_seqZ, Z2Nat.id.
Qed.

(** The same for rounds that may raise and do not. *)
Lemma roundsM (g : Z → result Z) c iters z :
  (0 <= iters)%Z → (∀ z, g z = Ok (z + c)%Z) →
  foldM (λ acc _, g acc) z (seqZ 0 iters) = Ok (z + iters * c)%Z.
Proof.
  intros Hi H. rewrite <- (Z2Nat.id iters) at 2 by done. rewrite <- (length_seqZ 0 iters).
  generalize (seqZ 0 iters). intros l. revert z.
  induction l as [|a l IH]; intros z; cbn [foldM length]; [by f_equal; lia|].
  rewrite H. cbn [mbind result_bind]. rewrite IH. f_equal. lia.
Qed.
