(* ===== verification/Fanout.v ===== *)
(** benchmarks/python/sleep_fanout.py: a thread per task, each of which sleeps and then writes
    its own element of a shared list, as a step relation over all schedules. *)
From S2P Require Import Prelude PyStr Loops Schedules Threads.

(** * The program *)

Record config := Config { tasks : nat; sleep_ms : nat }.

(** The next action of a task: to sleep, or to write its result.  It has returned when it has
    written, or when [time.sleep] raised: the exception ends the thread and no other. *)
Inductive task_state := Sleeping | Writing | Returned.

(** [Starting n] started [n] threads, [Joining n] joined [n] threads. *)
Inductive main_state := Starting (n : nat) | Joining (n : nat) | Finished.

#[export] Instance task_state_eq_dec : EqDecision task_state.
Proof. solve_decision. Defined.
#[export] Instance main_state_eq_dec : EqDecision main_state.
Proof. solve_decision. Defined.

Record state := State {
  main_thread : main_state;
  threads : list task_state;
  results : list nat;
}.

Inductive thread := Main | Task (i : nat).

Definition start (c : config) : state :=
  State (Starting 0) (replicate (tasks c) Sleeping) (replicate (tasks c) 0).

Definition step_main (c : config) (s : state) : option state :=
  let goto m := Some (State m (threads s) (results s)) in
  match main_thread s with
  | Starting n => goto (if n <? tasks c then Starting (S n) else Joining 0)
  | Joining n =>
      if n <? tasks c then
        match threads s !! n with Some Returned => goto (Joining (S n)) | _ => None end
      else goto Finished
  | Finished => None
  end.

(** The thread [i] has been started. *)
Definition started (s : state) (i : nat) : bool :=
  match main_thread s with Starting n => i <? n | _ => true end.

Section program.

(** Whether [time.sleep] of so many milliseconds returns; it raises for a delay that the clock
    of the platform cannot express. *)
Context (sleeps : nat → bool).

Definition sleep_task (c : config) (i : nat) (s : state) : option state :=
  match threads s !! i with
  | Some Sleeping =>
      let next := if sleeps (sleep_ms c) then Writing else Returned in
      Some (State (main_thread s) (<[i := next]> (threads s)) (results s))
  | Some Writing =>
      match set_item (results s) i i with
      | Ok results => Some (State (main_thread s) (<[i := Returned]> (threads s)) results)
      | Raise _ => Some (State (main_thread s) (<[i := Returned]> (threads s)) (results s))
      end
  | _ => None
  end.

Definition step (c : config) (t : thread) (s : state) : option state :=
  match t with
  | Main => step_main c s
  | Task i => if started s i then sleep_task c i s else None
  end.

Definition printed (s : state) : str := lit "checksum: " ++ decn (foldl Nat.add 0 (results s)) ++ [newline].

Definition main_config (environ : gmap str str) : config :=
  Config (env_int environ (lit "BENCH_SLEEP_TASKS") 512) (env_int environ (lit "BENCH_SLEEP_MS") 5).

(** [main], with the threads in some schedule; [None] while the schedule has not ended. *)
Definition main (python : interpreter) (environ : gmap str str) (schedule : list thread) :
    result (option str) :=
  _ ← require_free_threaded python;
  let c := main_config environ in
  Ok (match run (step c) schedule (start c) with
      | Some s => match main_thread s with Finished => Some (printed s) | _ => None end
      | None => None
      end).

(** * The invariant *)

(** What the element of a task holds, and the steps it has left. *)
Definition value_of (i : nat) (t : task_state) (c : config) : nat :=
  match t with Returned => if sleeps (sleep_ms c) then i else 0 | _ => 0 end.

Definition cost (c : config) (t : task_state) : Z :=
  match t with Sleeping => if sleeps (sleep_ms c) then 2 else 1 | Writing => 1 | Returned => 0 end.

Definition task_ok (c : config) (s : state) (i : nat) (t : task_state) : Prop :=
  (t = Writing → sleeps (sleep_ms c) = true) ∧ results s !! i = Some (value_of i t c).

Definition main_ok (c : config) (s : state) : Prop :=
  let joined n := ∀ i, i < n → threads s !! i = Some Returned in
  match main_thread s with
  | Starting n => n ≤ tasks c
  | Joining n => n ≤ tasks c ∧ joined n
  | Finished => joined (tasks c)
  end.

Record inv (c : config) (s : state) : Prop := {
  inv_threads : length (threads s) = tasks c;
  inv_results : length (results s) = tasks c;
  inv_tasks : ∀ i t, threads s !! i = Some t → task_ok c s i t;
  inv_main : main_ok c s;
}.

Definition main_left (c : config) (m : main_state) : nat :=
  match m with
  | Starting n => (tasks c - n) + 1 + tasks c + 1
  | Joining n => (tasks c - n) + 1
  | Finished => 0
  end.

Definition remaining (c : config) (s : state) : Z :=
  (Z.of_nat (main_left c (main_thread s)) + weight (cost c) (threads s))%Z.

Lemma fanout_inv_start c : inv c (start c).
Proof.
  constructor; cbn; [apply length_replicate..| |].
  - intros i t [-> Hi]%lookup_replicate_1. split; [done|]. cbn. by apply lookup_replicate_2.
  - unfold main_ok. cbn. lia.
Qed.

Lemma fanout_inv_step_main c s s' : inv c s → step_main c s = Some s' → inv c s'.
Proof.
  intros [H1 H2 H3 H4] H. unfold step_main in H. unfold main_ok in H4.
  destruct (main_thread s) as [n|n|]; [| |done].
  - injection H as <-. constructor; cbn; try done. unfold main_ok.
    destruct (Nat.ltb_spec n (tasks c)); cbn; [lia|]. split; [lia|]. intros i Hi. lia.
  - destruct H4 as [Hn Hjoined]. destruct (Nat.ltb_spec n (tasks c)).
    + destruct (threads s !! n) as [[]|] eqn:En; [done..| |done]. injection H as <-.
      constructor; cbn; try done. unfold main_ok. cbn. split; [lia|]. intros i Hi.
      assert (i = n ∨ i < n) as [->|Hlt] by lia; [done|]. by apply Hjoined.
    + injection H as <-. constructor; cbn; try done. unfold main_ok. cbn.
      intros i Hi. apply Hjoined. lia.
Qed.

(** Changing a task that has not returned does not touch what the main thread knows. *)
Lemma main_ok_task c s i t t' results' :
  threads s !! i = Some t → t ≠ Returned → main_ok c s →
  main_ok c (State (main_thread s) (<[i := t']> (threads s)) results').
Proof.
  intros Hi Ht H. unfold main_ok in *. cbn. destruct (main_thread s) as [n|n|]; [done|..].
  - split; [apply H|]. intros j Hj. rewrite list_lookup_insert_ne; [by apply H|].
    intros ->. apply H in Hj. by simplify_eq.
  - intros j Hj. rewrite list_lookup_insert_ne; [by apply H|]. intros ->. apply H in Hj. by simplify_eq.
Qed.

Lemma inv_sleep_task c i s s' : inv c s → sleep_task c i s = Some s' → inv c s'.
Proof.
  intros [H1 H2 H3 H4] H. unfold sleep_task in H.
  destruct (threads s !! i) as [[]|] eqn:Ei; [| |done..].
  - injection H as <-. pose proof (H3 i _ Ei) as [_ Hv]. cbn in Hv.
    constructor; cbn; [by rewrite length_insert|done| |by eapply main_ok_task].
    intros j t Hj. destruct (decide (i = j)) as [<-|Hne].
    + rewrite list_lookup_insert_eq in Hj by (by eapply lookup_lt_Some). injection Hj as <-.
      unfold task_ok, value_of. cbn. destruct (sleeps (sleep_ms c)) eqn:E; rewrite ?E; done.
    + rewrite list_lookup_insert_ne in Hj by done. by apply H3.
  - pose proof (H3 i _ Ei) as [Hs _]. specialize (Hs eq_refl).
    rewrite set_item_Ok in H by (rewrite H2, <- H1; by eapply lookup_lt_Some). injection H as <-.
    constructor; cbn; [by rewrite length_insert..| |by eapply main_ok_task].
    assert (i < length (results s)) by (rewrite H2, <- H1; by eapply lookup_lt_Some).
    intros j t Hj. destruct (decide (i = j)) as [<-|Hne].
    + rewrite list_lookup_insert_eq in Hj by (by eapply lookup_lt_Some). injection Hj as <-.
      unfold task_ok, value_of. cbn. rewrite Hs, list_lookup_insert_eq by done. done.
    + rewrite list_lookup_insert_ne in Hj by done. unfold task_ok. cbn.
      rewrite list_lookup_insert_ne by done. by apply H3.
Qed.

Lemma inv_step c t s s' : inv c s → step c t s = Some s' → inv c s'.
Proof.
  intros Hinv H. destruct t as [|i]; cbn [step] in H; [by eapply fanout_inv_step_main|].
  destruct (started s i); [|done]. by eapply inv_sleep_task.
Qed.

(** * Every schedule ends *)

Lemma fanout_cost_nonneg c t : (0 ≤ cost c t)%Z.
Proof. unfold cost. destruct t, (sleeps (sleep_ms c)); lia. Qed.

Lemma fanout_remaining_step c t s s' : step c t s = Some s' → remaining c s = (remaining c s' + 1)%Z.
Proof.
  unfold remaining. destruct t as [|i]; cbn [step].
  - unfold step_main. destruct (main_thread s) as [n|n|]; [| |done].
    + intros [= <-]. destruct (Nat.ltb_spec n (tasks c)); cbn; lia.
    + destruct (Nat.ltb_spec n (tasks c)).
      * destruct (threads s !! n) as [[]|]; [done..| |done]. intros [= <-]. cbn. lia.
      * intros [= <-]. cbn. lia.
  - destruct (started s i); [|done]. unfold sleep_task.
    destruct (threads s !! i) as [[]|] eqn:Ei; [| |done..].
    + intros [= <-]. cbn [main_thread threads]. rewrite (weight_insert _ _ _ _ _ Ei).
      destruct (sleeps (sleep_ms c)) eqn:E; cbn [cost]; rewrite ?E; lia.
    + destruct (set_item (results s) i i); intros [= <-]; cbn [main_thread threads];
        rewrite (weight_insert _ _ _ _ _ Ei); cbn [cost]; lia.
Qed.

(** A task that has started and not returned can move. *)
Lemma task_moves c s i t :
  threads s !! i = Some t → t ≠ Returned → started s i = true → moves (step c) s.
Proof.
  intros Hi Ht Hs. exists (Task i). cbn [step]. rewrite Hs. unfold sleep_task. rewrite Hi.
  destruct t; [eauto| |done]. destruct (set_item (results s) i i); eauto.
Qed.

Definition finished (s : state) : Prop := main_thread s = Finished.

#[export] Instance finished_dec s : Decision (finished s).
Proof. unfold finished. apply _. Defined.

Lemma fanout_progress c s : inv c s → ¬ finished s → moves (step c) s.
Proof.
  intros [H1 H2 H3 H4] Hf. unfold finished in Hf. unfold main_ok in H4.
  destruct (main_thread s) as [n|n|] eqn:Em; [| |done].
  - exists Main. cbn [step]. unfold step_main. rewrite Em. eauto.
  - destruct (Nat.ltb_spec n (tasks c)) as [Hn|Hn].
    + destruct (lookup_lt_is_Some_2 (threads s) n) as [t Ht]; [lia|].
      destruct (decide (t = Returned)) as [->|Hne].
      * exists Main. cbn [step]. unfold step_main. rewrite Em, Ht.
        destruct (Nat.ltb_spec n (tasks c)); [eauto|lia].
      * apply (task_moves c s n t); [done..|]. unfold started. by rewrite Em.
    + exists Main. cbn [step]. unfold step_main. rewrite Em.
      destruct (Nat.ltb_spec n (tasks c)); [lia|eauto].
Qed.

#[export] Instance fanout_terminating c :
  Terminating (step c) (start c) finished (inv c) (remaining c).
Proof.
  split.
  - apply fanout_inv_start.
  - apply inv_step.
  - apply fanout_remaining_step.
  - intros s. unfold remaining. pose proof (weight_nonneg (cost c) (threads s) (fanout_cost_nonneg c)). lia.
  - intros s Hinv Hf. pose proof (inv_main c s Hinv) as Hm. unfold remaining, main_ok in *.
    rewrite Hf in *. cbn [main_left]. rewrite weight_none; [done|].
    intros i t Hi. pose proof (inv_threads c s Hinv). apply lookup_lt_Some in Hi as Hlt.
    rewrite Hm in Hi by lia. by injection Hi as <-.
  - apply fanout_progress.
Qed.

(** At the end the list holds the number of each task, or zeros when nothing could sleep. *)
Lemma final_results c s :
  inv c s → finished s → results s = if sleeps (sleep_ms c) then seq 0 (tasks c) else replicate (tasks c) 0.
Proof.
  intros [H1 H2 H3 H4] Hf. unfold finished in Hf. unfold main_ok in H4. rewrite Hf in H4.
  apply list_eq. intros i. destruct (decide (i < tasks c)) as [Hi|Hi].
  - destruct (H3 i Returned (H4 i Hi)) as [_ ->]. cbn.
    destruct (sleeps (sleep_ms c)); symmetry; [by apply lookup_seq|by apply lookup_replicate_2].
  - rewrite lookup_ge_None_2 by lia. symmetry. apply lookup_ge_None_2.
    destruct (sleeps (sleep_ms c)); rewrite ?length_seq, ?length_replicate; lia.
Qed.

End program.

(** * The sum *)

Lemma foldl_add l n : foldl Nat.add n l = n + foldl Nat.add 0 l.
Proof. revert n. induction l as [|a l IH]; intros n; cbn; [lia|]. rewrite (IH (n + a)), (IH a). lia. Qed.

Lemma sum_seq n : 2 * foldl Nat.add 0 (seq 0 n) = n * (n - 1).
Proof.
  induction n as [|n IH]; [done|]. rewrite seq_S, foldl_app. cbn [foldl plus]. nia.
Qed.

Lemma sum_zeros n : foldl Nat.add 0 (replicate n 0) = 0.
Proof. induction n as [|n IH]; [done|exact IH]. Qed.

(** * The property *)

(** C29: Whatever the order in which the threads of sleep_fanout.py run, no schedule is longer
    than the steps of all threads, one that has not ended can go on and be completed, it has
    ended exactly when it has taken all those steps, and then the list holds every task's
    number at its index and the program prints their sum tasks * (tasks - 1) / 2.  When the
    delay is one that [time.sleep] refuses, every thread ends with the exception, and the
    program still ends and prints the sum 0. *)
Theorem fanout_correct (sleeps : nat → bool) python environ schedule s :
  let c := main_config environ in
  let steps_of_task := if sleeps (sleep_ms c) then 2 else 1 in
  let all_steps := (2 + steps_of_task) * tasks c + 2 in
  run (step sleeps c) schedule (start c) = Some s →
  length schedule ≤ all_steps ∧
  (main_thread s = Finished ↔ length schedule = all_steps) ∧
  (∃ rest s', run (step sleeps c) (schedule ++ rest) (start c) = Some s' ∧ main_thread s' = Finished) ∧
  (main_thread s = Finished →
     results s = (if sleeps (sleep_ms c) then seq 0 (tasks c) else replicate (tasks c) 0) ∧
     (require_free_threaded python = Ok tt →
      main sleeps python environ schedule =
        Ok (Some (lit "checksum: "
                  ++ decn (if sleeps (sleep_ms c) then tasks c * (tasks c - 1) / 2 else 0) ++ [newline])))).
Proof.
  intros c per all Hrun. pose proof Hrun as Hsteps%run_steps.
  pose proof (steps_bound (step sleeps c) schedule s Hsteps) as Hle.
  pose proof (final_length (step sleeps c) schedule s Hsteps) as Hiff.
  assert (remaining sleeps c (start c) = Z.of_nat all) as Hall.
  { unfold remaining, all, per. cbn [start main_thread threads main_left]. rewrite weight_replicate.
    unfold cost. destruct (sleeps (sleep_ms c)); lia. }
  rewrite Hall in Hle, Hiff. split; [lia|]. split; [|split].
  - change (finished s ↔ length schedule = all). rewrite Hiff. lia.
  - destruct (completed (step sleeps c) schedule s Hsteps) as (rest & s' & Hs' & Hf).
    exists rest, s'. by rewrite run_steps.
  - intros Hf. pose proof (steps_ok (step sleeps c) schedule s Hsteps) as Hinv.
    pose proof (final_results sleeps c s Hinv Hf) as Hres. split; [done|]. intros Hpy.
    unfold main. rewrite Hpy. cbn [mbind result_bind]. fold c. rewrite Hrun, Hf. unfold printed.
    rewrite Hres. destruct (sleeps (sleep_ms c)); [|by rewrite sum_zeros].
    rewrite <- sum_seq, Nat.mul_comm, Nat.div_mul by done. done.
Qed.

Definition fanout_environ : gmap str str := {[lit "BENCH_SLEEP_TASKS" := lit "3"]}.
Definition fanout_schedule : list thread :=
  let c := main_config fanout_environ in
  fair_schedule (step (λ _, true) c) (map Task [2; 0; 1] ++ [Main]) 60 [] (start c).

Lemma fanout_correct_witness :
  main (λ _, true) python_sample fanout_environ fanout_schedule =
  Ok (Some (lit "checksum: 3" ++ [newline])).
Proof.
  destruct (run (step (λ _, true) (main_config fanout_environ)) fanout_schedule
              (start (main_config fanout_environ))) as [s|] eqn:Es; [|vm_compute in Es; discriminate Es].
  destruct (fanout_correct (λ _, true) python_sample fanout_environ fanout_schedule s Es)
    as (_ & _ & _ & H).
  apply H; [|vm_compute; reflexivity]. vm_compute in Es. injection Es as <-. reflexivity.
Defined.
