(* ===== verification/Fannkuch.v ===== *)
(** benchmarks/python/fannkuch.py: the permutations of 0..n-1 in the order of a counter of
    prefix rotations, the pancake flips of each, the checksum and the greatest number of flips. *)
From S2P Require Import Prelude PyStr Loops.

(** * The program *)

(** [perm[lo], perm[hi] = perm[hi], perm[lo]] *)
Definition swap (perm : list nat) (lo hi : nat) : result (list nat) :=
  a ← get_item perm hi;
  b ← get_item perm lo;
  perm ← set_item perm lo a;
  set_item perm hi b.

(** One round of [while lo < hi]. *)
Definition reverse_round (s : nat * nat * list nat) : partial (nat * nat * list nat + list nat) :=
  let '(lo, hi, perm) := s in
  if lo <? hi then
    perm ← total (swap perm lo hi);
    mret (inl (S lo, hi - 1, perm))
  else mret (inr perm).

Definition reverse_prefix (fuel : nat) (perm : list nat) (first : nat) : partial (list nat) :=
  loop fuel reverse_round (0, first, perm).

(** One round of [while first]. *)
Definition flip_round (fuel : nat) (s : list nat * nat * nat) :
    partial (list nat * nat * nat + list nat * nat) :=
  let '(perm, first, flips) := s in
  match first with
  | O => mret (inr (perm, flips))
  | _ =>
      new_first ← total (get_item perm first);
      perm ← reverse_prefix fuel perm first;
      perm ← total (set_item perm first first);
      mret (inl (perm, new_first, S flips))
  end.

Definition count_flips (fuel : nat) (perm : list nat) : partial (list nat * nat) :=
  first ← total (get_item perm 0);
  loop fuel (flip_round fuel) (perm, first, 0).

Record counters := Counters {
  perm : list nat;
  perm1 : list nat;
  count : list Z;
  maxflips : nat;
  checksum : Z;
  nperm : nat;
}.

(** The flips of the current permutation. *)
Definition count_current (fuel : nat) (s : counters) : partial counters :=
  first ← total (get_item (perm1 s) 0);
  if first =? 0 then mret s
  else
    '(perm, flips) ← count_flips fuel (perm1 s);
    mret (Counters perm (perm1 s) (count s)
            (if maxflips s <? flips then flips else maxflips s)
            (if Nat.even (nperm s) then checksum s + Z.of_nat flips else checksum s - Z.of_nat flips)
            (nperm s)).

(** [for j in range(i): perm1[j] = perm1[j + 1]] between saving and writing the first. *)
Definition rotate_left (perm1 : list nat) (i : nat) : result (list nat) :=
  new_first ← get_item perm1 0;
  perm1 ← foldM (λ perm1 j, a ← get_item perm1 (S j); set_item perm1 j a) perm1 (seq 0 i);
  set_item perm1 i new_first.

(** [count[i] -= 1] *)
Definition count_down (count : list Z) (i : nat) : result (list Z) :=
  c ← get_item count i; set_item count i (c - 1)%Z.

(** One round of [while count[i] <= 0]; the loop is left with [None] when the whole
    function returns. *)
Definition carry_round (n : nat) (s : nat * list nat * list Z) :
    partial (nat * list nat * list Z + option (list nat * list Z)) :=
  let '(i, perm1, count) := s in
  c ← total (get_item count i);
  if (c <=? 0)%Z then
    count ← total (set_item count i (Z.of_nat i + 1)%Z);
    let i := S i in
    if n <=? i then mret (inr None)
    else
      perm1 ← total (rotate_left perm1 i);
      count ← total (count_down count i);
      mret (inl (i, perm1, count))
  else mret (inr (Some (perm1, count))).

(** The next permutation; [None] when there is none. *)
Definition next_permutation (fuel n : nat) (perm1 : list nat) (count : list Z) :
    partial (option (list nat * list Z)) :=
  first ← total (get_item perm1 1);
  zeroth ← total (get_item perm1 0);
  perm1 ← total (set_item perm1 1 zeroth);
  perm1 ← total (set_item perm1 0 first);
  count ← total (count_down count 1);
  loop fuel (carry_round n) (1, perm1, count).

(** One round of the outer loop. *)
Definition round (fuel n : nat) (s : counters) : partial (counters + counters) :=
  s ← count_current fuel s;
  let nperm := S (nperm s) in
  next ← next_permutation fuel n (perm1 s) (count s);
  match next with
  | None => mret (inr s)
  | Some (perm1, count) => mret (inl (Counters (perm s) perm1 count (maxflips s) (checksum s) nperm))
  end.

(** What is printed. *)
Definition report_text (checksum : Z) (n maxflips : nat) : str :=
  dec checksum ++ [newline] ++ lit "Pfannkuchen(" ++ decn n ++ lit ") = " ++ decn maxflips ++ [newline].

Definition fannkuch (fuel : nat) (n : Z) : partial str :=
  let n := Z.to_nat n in
  let start := Counters (seq 0 n) (seq 0 n) (map (λ i, Z.of_nat i) (seq 1 n)) 0 0 0 in
  s ← loop fuel (round fuel n) start;
  mret (report_text (checksum s) n (maxflips s)).

(** The argument, ten without one. *)
Definition main (fuel : nat) (arguments : list str) : partial str :=
  match arguments with
  | [] => fannkuch fuel 10
  | argument :: _ => n ← total (int argument); fannkuch fuel n
  end.

Example fannkuch_5 : fannkuch 130 5 = Some (Ok (report_text 11 5 7)).
Proof. vm_compute. reflexivity. Qed.
Example fannkuch_1 : fannkuch 10 1 = Some (Raise IndexError).
Proof. reflexivity. Qed.

(** * Reversing a prefix *)

(** What [while lo < hi] leaves at each position. *)
Definition mirrored (lo hi : nat) (l r : list nat) : Prop :=
  ∀ i, r !! i = if decide (lo ≤ i ≤ hi) then l !! (lo + hi - i) else l !! i.

Lemma swap_Ok l lo hi a b :
  lo < hi → l !! lo = Some a → l !! hi = Some b → swap l lo hi = Ok (<[hi := a]> (<[lo := b]> l)).
Proof.
  intros Hlt Ha Hb. pose proof (lookup_lt_Some _ _ _ Ha). pose proof (lookup_lt_Some _ _ _ Hb).
  unfold swap. rewrite (get_item_Ok _ _ _ Hb). cbn [mbind result_bind].
  rewrite (get_item_Ok _ _ _ Ha). cbn [mbind result_bind].
  rewrite set_item_Ok by done. cbn [mbind result_bind].
  apply set_item_Ok. by rewrite length_insert.
Qed.

Lemma reverse_loop fuel lo hi l :
  hi < length l → hi - lo < fuel →
  ∃ r, loop fuel reverse_round (lo, hi, l) = Some (Ok r) ∧ mirrored lo hi l r.
Proof.
  revert lo hi l. induction fuel as [|fuel IH]; intros lo hi l Hhi Hf; [lia|].
  rewrite loop_S. cbn [reverse_round]. destruct (Nat.ltb_spec lo hi) as [Hlt|Hge].
  - destruct (lookup_lt_is_Some_2 l lo) as [a Ha]; [lia|].
    destruct (lookup_lt_is_Some_2 l hi) as [b Hb]; [lia|].
    rewrite (swap_Ok l lo hi a b) by done. run_partial.
    destruct (IH (S lo) (hi - 1) (<[hi := a]> (<[lo := b]> l))) as (r & -> & Hr);
      [rewrite !length_insert; lia|lia|].
    exists r. split; [done|]. intros i. rewrite Hr.
    destruct (decide (i = lo)) as [->|Hlo]; [|destruct (decide (i = hi)) as [->|Hi]].
    + rewrite decide_False, decide_True by lia. rewrite list_lookup_insert_ne by lia.
      rewrite list_lookup_insert_eq by lia. replace (lo + hi - lo) with hi by lia. done.
    + rewrite decide_False, decide_True by lia. rewrite list_lookup_insert_eq by (rewrite length_insert; lia).
      replace (lo + hi - hi) with lo by lia. done.
    + destruct (decide (S lo ≤ i ≤ hi - 1)) as [Hin|Hout].
      * rewrite decide_True by lia. replace (S lo + (hi - 1) - i) with (lo + hi - i) by lia.
        by rewrite !list_lookup_insert_ne by lia.
      * rewrite decide_False by lia. by rewrite !list_lookup_insert_ne by lia.
  - exists l. split; [done|]. intros i. destruct (decide (lo ≤ i ≤ hi)) as [H|H]; [|done].
    f_equal. lia.
Qed.

(** The flip of the first [f + 1] elements. *)
Definition flip (l : list nat) (f : nat) : list nat := reverse (take (S f) l) ++ drop (S f) l.

Lemma lookup_flip l f i :
  f < length l → flip l f !! i = if decide (i ≤ f) then l !! (f - i) else l !! i.
Proof.
  intros Hf. unfold flip. destruct (decide (i ≤ f)) as [Hi|Hi].
  - rewrite lookup_app_l by (rewrite length_reverse, length_take; lia).
    rewrite reverse_lookup by (rewrite length_take; lia).
    rewrite length_take, lookup_take_lt by lia. f_equal. lia.
  - rewrite lookup_app_r by (rewrite length_reverse, length_take; lia).
    rewrite length_reverse, length_take, lookup_drop. f_equal. lia.
Qed.

Lemma flip_perm l f : Permutation (flip l f) l.
Proof. unfold flip. rewrite reverse_Permutation. by rewrite take_drop. Qed.

(** One round of the flips: the first element [f] moves to position [f]. *)
Lemma flip_round_step fuel l f g k :
  f ≠ 0 → f < fuel → f < length l → l !! 0 = Some f → l !! f = Some g →
  flip_round fuel (l, f, k) = Some (Ok (inl (flip l f, g, S k))).
Proof.
  intros Hf0 Hfuel Hf H0 Hg. destruct f as [|f']; [done|]. set (f := S f') in *.
  cbn [flip_round]. fold f. rewrite (get_item_Ok _ _ _ Hg). run_partial.
  destruct (reverse_loop fuel 0 f l) as (r & Hr & Hm); [done|lia|]. unfold reverse_prefix. rewrite Hr.
  run_partial.
  assert (r = flip l f) as ->.
  { apply list_eq. intros i. rewrite Hm, lookup_flip by done. rewrite Nat.add_0_l.
    destruct (decide (i ≤ f)); [by rewrite decide_True by lia|by rewrite decide_False by lia]. }
  rewrite set_item_Ok by (by rewrite (Permutation_length (flip_perm l f))).
  run_partial. rewrite list_insert_id; [done|].
  rewrite lookup_flip, decide_True by lia. by rewrite Nat.sub_diag.
Qed.

(** * The flips of a permutation *)

(** How many flips bring 0 to the front. *)
Inductive flips_to : list nat → nat → Prop :=
  | flips_done l : l !! 0 = Some 0 → flips_to l 0
  | flips_more l f k : l !! 0 = Some f → f ≠ 0 → flips_to (flip l f) k → flips_to l (S k).

(** The elements below [m] that are in their place, as the bits of a number: a flip puts its
    element in place and disturbs only the places below it. *)
Fixpoint in_place (l : list nat) (m : nat) : nat :=
  match m with
  | O => 0
  | S m => in_place l m + if decide (l !! m = Some m) then 2 ^ m else 0
  end.

Lemma in_place_bound l m : in_place l m < 2 ^ m.
Proof. induction m as [|m IH]; cbn; [lia|]. destruct (decide _); lia. Qed.

Lemma in_place_flip l f m :
  NoDup l → l !! 0 = Some f → f ≠ 0 → f < length l → f < m →
  in_place l m < in_place (flip l f) m.
Proof.
  intros Hnd H0 Hf0 Hf Hm. induction m as [|m IH]; [lia|]. cbn [in_place].
  rewrite lookup_flip by done. destruct (decide (m = f)) as [->|Hne].
  - rewrite decide_False; [|intros H; apply Hf0; exact (NoDup_lookup l f 0 f Hnd H H0)].
    destruct (decide (f ≤ f)) as [_|?]; [|lia]. rewrite Nat.sub_diag, decide_True by done.
    pose proof (in_place_bound l f). lia.
  - destruct (decide (m ≤ f)); [lia|]. specialize (IH ltac:(lia)).
    destruct (decide (l !! m = Some m)); lia.
Qed.

Lemma perm_lookup n l i f : Permutation l (seq 0 n) → l !! i = Some f → f < length l.
Proof.
  intros Hp Hi. apply list_elem_of_lookup_2 in Hi. rewrite Hp in Hi |- *.
  apply elem_of_seq in Hi. rewrite length_seq. lia.
Qed.

Lemma flips_loop n fuel rounds l f k :
  Permutation l (seq 0 n) → l !! 0 = Some f → n ≤ fuel → 2 ^ n - in_place l n ≤ rounds →
  ∃ l' c, loop rounds (flip_round fuel) (l, f, k) = Some (Ok (l', k + c)) ∧
    flips_to l c ∧ c < 2 ^ n - in_place l n.
Proof.
  revert l f k. induction rounds as [|rounds IH]; intros l f k Hp H0 Hn Hr.
  { pose proof (in_place_bound l n). lia. }
  pose proof (in_place_bound l n) as Hb. rewrite loop_S.
  assert (length l = n) as Hlen by (by rewrite Hp, length_seq).
  destruct (decide (f = 0)) as [->|Hf0].
  { exists l, 0. cbn [flip_round]. run_partial. rewrite Nat.add_0_r.
    split_and!; [done|by constructor|lia]. }
  pose proof (perm_lookup n l 0 f Hp H0) as Hf.
  destruct (lookup_lt_is_Some_2 l f Hf) as [g Hg].
  rewrite (flip_round_step fuel l f g k) by (done || lia). run_partial.
  assert (in_place l n < in_place (flip l f) n) as Hlt.
  { apply in_place_flip; [|done..|lia]. rewrite Hp. apply NoDup_seq. }
  destruct (IH (flip l f) g (S k)) as (l' & c & -> & Hc & Hcb); [by rewrite flip_perm| |done|lia|].
  { rewrite lookup_flip, decide_True by lia. by rewrite Nat.sub_0_r. }
  exists l', (S c). split_and!; [by rewrite Nat.add_succ_r|by eapply flips_more|lia].
Qed.

Lemma count_flips_ok n fuel l :
  Permutation l (seq 0 n) → 0 < n → 2 ^ n ≤ fuel →
  ∃ l' c, count_flips fuel l = Some (Ok (l', c)) ∧ flips_to l c ∧ c < 2 ^ n.
Proof.
  intros Hp Hn Hf. destruct (lookup_lt_is_Some_2 l 0) as [f H0]; [by rewrite Hp, length_seq|].
  unfold count_flips. rewrite (get_item_Ok _ _ _ H0). run_partial.
  destruct (flips_loop n fuel fuel l f 0) as (l' & c & -> & Hc & Hb); [done|done| |lia|].
  { pose proof (Nat.pow_gt_lin_r 2 n). lia. }
  exists l', c. split_and!; [done|done|lia].
Qed.

Lemma flips_to_unique l c c' : flips_to l c → flips_to l c' → c = c'.
Proof.
  intros H. revert c'. induction H as [l H|l f k H Hf0 Hk IH]; intros c' H'; inversion H'; simplify_eq; [done|].
  f_equal. by apply IH.
Qed.

(** * The next permutation *)

(** The first [i + 1] elements moved by one to the left, the first behind them. *)
Definition rotate1 (i : nat) (l : list nat) : list nat :=
  match l with [] => [] | a :: t => take i t ++ a :: drop i t end.

Lemma rotate1_perm i l : Permutation (rotate1 i l) l.
Proof. destruct l as [|a t]; [done|]. cbn. rewrite <- Permutation_middle. by rewrite take_drop. Qed.

Lemma length_rotate1 i l : length (rotate1 i l) = length l.
Proof. apply Permutation_length, rotate1_perm. Qed.

Lemma lookup_rotate1 i l j a :
  i < length l → l !! 0 = Some a →
  rotate1 i l !! j = if decide (j < i) then l !! S j else if decide (j = i) then Some a else l !! j.
Proof.
  destruct l as [|b t]; [done|]. intros Hi [= ->]. cbn in Hi. cbn [rotate1].
  destruct (decide (j < i)) as [Hj|Hj].
  { rewrite lookup_app_l by (rewrite length_take; lia). by rewrite lookup_take_lt. }
  rewrite lookup_app_r by (rewrite length_take; lia). rewrite length_take.
  replace (i `min` length t) with i by lia. destruct (decide (j = i)) as [->|Hne].
  { by rewrite Nat.sub_diag. }
  destruct j as [|j]; [lia|]. replace (S j - i) with (S (j - i)) by lia.
  change ((a :: drop i t) !! S (j - i)) with (drop i t !! (j - i)). rewrite lookup_drop.
  change ((a :: t) !! S j) with (t !! j). f_equal. lia.
Qed.

Lemma rotate_left_ok i l : i < length l → rotate_left l i = Ok (rotate1 i l).
Proof.
  intros Hi. destruct (lookup_lt_is_Some_2 l 0) as [a H0]; [lia|].
  unfold rotate_left. rewrite (get_item_Ok _ _ _ H0). cbn [mbind result_bind].
  destruct (for_range (λ l j, a ← get_item l (S j); set_item l j a)
    (λ j r, length r = length l ∧ ∀ x, r !! x = if decide (x < j) then l !! S x else l !! x) i l)
    as (r & -> & Hlen & Hr).
  - split; [done|]. intros x. by rewrite decide_False by lia.
  - intros j r Hj [Hlen Hr]. destruct (lookup_lt_is_Some_2 l (S j)) as [b Hb]; [lia|].
    assert (r !! S j = Some b) as Hrb by (by rewrite Hr, decide_False by lia).
    rewrite (get_item_Ok _ _ _ Hrb). cbn [mbind result_bind].
    rewrite set_item_Ok by lia. eexists. split; [done|]. rewrite length_insert. split; [done|].
    intros x. destruct (decide (x = j)) as [->|Hne].
    + by rewrite list_lookup_insert_eq, decide_True by lia.
    + rewrite list_lookup_insert_ne, Hr by done.
      destruct (decide (x < j)); [by rewrite decide_True by lia|by rewrite decide_False by lia].
  - cbn [mbind result_bind]. rewrite set_item_Ok by lia. f_equal. apply list_eq. intros x.
    rewrite (lookup_rotate1 i l x a) by done. destruct (decide (x = i)) as [->|Hne].
    + rewrite list_lookup_insert_eq by lia. by rewrite decide_False by lia.
    + rewrite list_lookup_insert_ne, Hr by done. done.
Qed.

(** Rotating level [i], counting it down, and carrying to the next level when it is used up;
    [levels] is the number of levels left. *)
Fixpoint carry (levels i : nat) (p : list nat) (c : list Z) : option (list nat * list Z) :=
  match levels with
  | O => None
  | S levels =>
      let d := (default 0 (c !! i) - 1)%Z in
      if (d <=? 0)%Z then carry levels (S i) (rotate1 i p) (<[i := Z.of_nat i + 1]> c)%Z
      else Some (rotate1 i p, <[i := d]> c)
  end.

Lemma carry_loop n fuel i p (c : list Z) :
  i < n → length p = n → length c = n → n - i ≤ fuel →
  loop fuel (carry_round n) (i, rotate1 i p, <[i := (default 0 (c !! i) - 1)%Z]> c) =
  Some (Ok (carry (n - i) i p c)).
Proof.
  revert i p c. induction fuel as [|fuel IH]; intros i p c Hi Hp Hc Hf; [lia|].
  rewrite loop_S. cbn [carry_round].
  rewrite (get_item_Ok _ i (default 0 (c !! i) - 1)%Z) by (apply list_lookup_insert_eq; lia).
  run_partial. replace (n - i) with (S (n - S i)) by lia. cbn [carry].
  destruct (_ <=? 0)%Z eqn:E; [|done].
  rewrite set_item_Ok by (rewrite length_insert; lia). run_partial. rewrite list_insert_insert_eq.
  destruct (Nat.leb_spec n (S i)) as [Hn|Hn].
  { run_partial. by replace (n - S i) with 0 by lia. }
  rewrite rotate_left_ok by (rewrite length_rotate1; lia). run_partial.
  destruct (lookup_lt_is_Some_2 c (S i)) as [d Hd]; [lia|]. unfold count_down.
  rewrite (get_item_Ok _ (S i) d) by (by rewrite list_lookup_insert_ne by lia).
  cbn [mbind result_bind]. rewrite set_item_Ok by (rewrite length_insert; lia). run_partial.
  rewrite <- (IH (S i)) by (rewrite ?length_rotate1, ?length_insert; lia).
  by rewrite list_lookup_insert_ne, Hd by lia.
Qed.

Lemma next_permutation_ok n fuel p c :
  2 ≤ n → length p = n → length c = n → n ≤ fuel →
  next_permutation fuel n p c = Some (Ok (carry (n - 1) 1 p c)).
Proof.
  intros Hn Hp Hc Hf. destruct p as [|a [|b t]]; [cbn in Hp; lia..|].
  unfold next_permutation. cbn [get_item lookup list_lookup or_raise]. run_partial.
  unfold get_item. cbn [lookup list_lookup or_raise]. run_partial.
  rewrite !set_item_Ok by (cbn; lia). run_partial.
  destruct (lookup_lt_is_Some_2 c 1) as [d Hd]; [lia|]. unfold count_down.
  rewrite (get_item_Ok _ _ _ Hd). cbn [mbind result_bind].
  rewrite set_item_Ok by lia. run_partial.
  rewrite <- (carry_loop n fuel 1 (a :: b :: t) c) by (done || lia). by rewrite Hd.
Qed.

(** * The permutations that are visited *)

(** The permutations from the current one to the end, in their order. *)
Inductive visited (n : nat) : list nat → list Z → list (list nat) → Prop :=
  | visited_last p c : carry (n - 1) 1 p c = None → visited n p c [p]
  | visited_next p c p' c' l :
      carry (n - 1) 1 p c = Some (p', c') → visited n p' c' l → visited n p c (p :: l).

(** What the levels up to [i] go through. *)
Fixpoint visits (i : nat) (p : list nat) : list (list nat) :=
  match i with
  | O => [p]
  | S k => seq 0 (S (S k)) ≫= λ r, visits k (Nat.iter r (rotate1 (S k)) p)
  end.

(** The levels up to [i] are at their start. *)
Definition fresh (c : list Z) (i : nat) : Prop :=
  ∀ j, 1 ≤ j ≤ i → c !! j = Some (Z.of_nat j + 1)%Z.

Lemma fresh_insert c i j z : fresh c i → i < j → fresh (<[j := z]> c) i.
Proof. intros Hf Hj k Hk. rewrite list_lookup_insert_ne by lia. by apply Hf. Qed.

Lemma iter_rotate1 i l r :
  i < length l → r ≤ S i →
  Nat.iter r (rotate1 i) l = drop r (take (S i) l) ++ take r (take (S i) l) ++ drop (S i) l.
Proof.
  intros Hi. set (w := take (S i) l). assert (length w = S i) as Hw by (unfold w; rewrite length_take; lia).
  induction r as [|r IH]; intros Hr.
  { by rewrite drop_0, (assoc_L (++)), app_nil_r; unfold w; rewrite take_drop. }
  cbn [Nat.iter nat_rect]. change (nat_rect _ l (λ _ : nat, rotate1 i) r) with (Nat.iter r (rotate1 i) l).
  rewrite IH by lia. destruct (lookup_lt_is_Some_2 w r) as [x Hx]; [lia|].
  rewrite (drop_S w x r Hx). cbn [app rotate1]. rewrite (assoc_L (++)).
  rewrite take_app_length', drop_app_length' by (rewrite length_app, length_drop, length_take; lia).
  rewrite (take_S_r w r x Hx). by rewrite <- !(assoc_L (++)).
Qed.

Lemma iter_rotate1_all i l : i < length l → Nat.iter (S i) (rotate1 i) l = l.
Proof.
  intros Hi. rewrite iter_rotate1 by lia.
  rewrite drop_ge, (take_ge (take (S i) l)) by (rewrite length_take; lia). apply take_drop.
Qed.

Lemma length_iter_rotate1 r i l : length (Nat.iter r (rotate1 i) l) = length l.
Proof. induction r as [|r IH]; [done|]. cbn. by rewrite length_rotate1. Qed.

Lemma iter_rotate1_perm r i l : Permutation (Nat.iter r (rotate1 i) l) l.
Proof. induction r as [|r IH]; [done|]. cbn. by rewrite rotate1_perm. Qed.

(** The levels one by one: when the levels up to [k] go through [visits k] whatever comes
    after them, then so does level [k + 1] through its rotations. *)
Definition continues (n i : nat) (p : list nat) (c : list Z) (rest : list (list nat)) : Prop :=
  match carry (n - S i) (S i) p c with
  | None => rest = []
  | Some (p', c') => visited n p' c' rest
  end.

Definition goes_through (n k : nat) : Prop :=
  ∀ p c rest, length p = n → length c = n → fresh c k → continues n k p c rest →
    visited n p c (visits k p ++ rest).

Lemma level_rotations n k m p c rest :
  goes_through n k → S k < n → length p = n → length c = n → fresh c k →
  c !! S k = Some (Z.of_nat m + 1)%Z →
  continues n (S k) (Nat.iter (S m) (rotate1 (S k)) p) (<[S k := Z.of_nat (S k) + 1]> c)%Z rest →
  visited n p c ((seq 0 (S m) ≫= λ r, visits k (Nat.iter r (rotate1 (S k)) p)) ++ rest).
Proof.
  intros Hk Hkn. revert p c. induction m as [|m IH]; intros p c Hp Hc Hfresh Hcount Hrest.
  - cbn [seq mbind list_bind]. rewrite app_nil_r. apply Hk; [done..|].
    unfold continues. replace (n - S k) with (S (n - S (S k))) by lia. cbn [carry]. rewrite Hcount.
    cbn [from_option id]. destruct (Z.leb_spec (Z.of_nat 0 + 1 - 1) 0); [|lia]. exact Hrest.
  - change (seq 0 (S (S m))) with (0 :: seq 1 (S m)). rewrite bind_cons, <- (assoc_L (++)).
    rewrite <- fmap_S_seq, list_fmap_bind. cbn [Nat.iter nat_rect]. apply Hk; [done..|].
    unfold continues. replace (n - S k) with (S (n - S (S k))) by lia. cbn [carry]. rewrite Hcount.
    cbn [from_option id]. destruct (Z.leb_spec (Z.of_nat (S m) + 1 - 1) 0); [lia|].
    rewrite (list_bind_ext _ (λ r, visits k (Nat.iter r (rotate1 (S k)) (rotate1 (S k) p)))
      (seq 0 (S m)) (seq 0 (S m))); [|intros r; unfold compose; by rewrite Nat.iter_succ_r|done].
    apply IH; [by rewrite length_rotate1|by rewrite length_insert|by apply fresh_insert; [|lia]| |].
    + rewrite list_lookup_insert_eq by lia. f_equal. lia.
    + rewrite list_insert_insert_eq, <- Nat.iter_succ_r. exact Hrest.
Qed.

Lemma visited_levels n i : i < n → goes_through n i.
Proof.
  induction i as [|k IH]; intros Hi p c rest Hp Hc Hfresh Hrest.
  - cbn [visits app]. unfold continues in Hrest. destruct (carry _ _ _ _) as [[p' c']|] eqn:E.
    + by eapply visited_next.
    + subst rest. by apply visited_last.
  - cbn [visits]. assert (c !! S k = Some (Z.of_nat (S k) + 1)%Z) as Hck by (apply Hfresh; lia).
    apply (level_rotations n k (S k)); [apply IH; lia|done..| |done|].
    + intros j Hj. apply Hfresh. lia.
    + rewrite iter_rotate1_all by lia. by rewrite list_insert_id.
Qed.

Lemma visited_all n p c :
  0 < n → length p = n → length c = n → fresh c (n - 1) → visited n p c (visits (n - 1) p).
Proof.
  intros Hn Hp Hc Hf. rewrite <- (app_nil_r (visits (n - 1) p)).
  apply visited_levels; [lia|done..|]. unfold continues. by replace (n - S (n - 1)) with 0 by lia.
Qed.

(** * They are all permutations, each once *)

(** Some rotation brings a given element of a list to its end. *)
Lemma rotation_ends_with (w : list nat) x :
  x ∈ w → ∃ r u, r < length w ∧ drop r w ++ take r w = u ++ [x].
Proof.
  intros (w1 & w2 & ->)%list_elem_of_split. destruct w2 as [|y w2].
  - exists 0, w1. split; [rewrite length_app; cbn; lia|]. by rewrite drop_0, app_nil_r.
  - exists (S (length w1)), (y :: w2 ++ w1). split; [rewrite length_app; cbn; lia|].
    change (w1 ++ x :: y :: w2) with (w1 ++ [x] ++ y :: w2). rewrite (assoc_L (++)).
    rewrite drop_app_length', take_app_length' by (rewrite length_app; cbn; lia).
    cbn [app]. by rewrite (assoc_L (++)).
Qed.

Lemma elem_of_visits k p q :
  k < length p → q ∈ visits k p ↔ Permutation q p ∧ drop (S k) q = drop (S k) p.
Proof.
  revert p q. induction k as [|k IH]; intros p q Hk.
  { cbn [visits]. rewrite list_elem_of_singleton. split; [by intros ->|]. intros [Hp Hd].
    destruct p as [|a t]; [cbn in Hk; lia|].
    destruct q as [|b t']; [by apply Permutation_nil_l in Hp|]. cbn in Hd. rewrite !drop_0 in Hd.
    subst t'. f_equal. apply Permutation_singleton_inj, (Permutation_app_inv_r t). done. }
  cbn [visits]. rewrite list_elem_of_bind. split.
  - intros (r & Hq & Hr%elem_of_seq).
    apply IH in Hq as [Hp Hd]; [|rewrite length_iter_rotate1; lia].
    split; [by rewrite Hp, iter_rotate1_perm|].
    replace (S (S k)) with (S k + 1) by lia. rewrite <- !drop_drop, Hd, drop_drop.
    rewrite iter_rotate1 by lia. rewrite (assoc_L (++)), drop_app_length'; [rewrite drop_drop; f_equal; lia|].
    rewrite length_app, length_drop, !length_take. lia.
  - intros [Hp Hd]. assert (length q = length p) as Hlen by by apply Permutation_length.
    destruct (lookup_lt_is_Some_2 q (S k)) as [x Hx]; [lia|].
    assert (Permutation (take (S (S k)) q) (take (S (S k)) p)) as Hpre.
    { apply (Permutation_app_inv_r (drop (S (S k)) p)). rewrite <- Hd at 1. by rewrite !take_drop. }
    destruct (rotation_ends_with (take (S (S k)) p) x) as (r & u & Hr & Hu).
    { rewrite <- Hpre, (take_S_r _ _ _ Hx). set_solver. }
    rewrite length_take in Hr. assert (length u = S k) as Hlu.
    { apply (f_equal length) in Hu. rewrite !length_app, length_drop, !length_take in Hu. change (length [x]) with 1 in Hu. lia. }
    exists r. split; [|apply elem_of_seq; lia]. apply IH; [rewrite length_iter_rotate1; lia|].
    split; [by rewrite iter_rotate1_perm|].
    rewrite iter_rotate1 by lia. rewrite (assoc_L (++)), Hu, <- (assoc_L (++)), drop_app_length' by done.
    rewrite (drop_S q x (S k) Hx). by rewrite Hd.
Qed.

(** The element that a rotation brings to the end of the prefix. *)
Lemma lookup_iter_rotate1 i l r :
  i < length l → r ≤ i →
  Nat.iter r (rotate1 i) l !! i = l !! (if decide (r = 0) then i else r - 1).
Proof.
  intros Hi Hr. destruct (decide (r = 0)) as [->|Hne]; [done|]. rewrite iter_rotate1 by lia.
  rewrite lookup_app_r by (rewrite length_drop, length_take; lia).
  rewrite length_drop, length_take, lookup_app_l by (rewrite !length_take; lia).
  rewrite !lookup_take_lt by lia. f_equal. lia.
Qed.

Lemma nodup_visits k p : k < length p → NoDup p → NoDup (visits k p).
Proof.
  revert p. induction k as [|k IH]; intros p Hk Hnd; [repeat constructor; set_solver|].
  cbn [visits]. apply NoDup_bind; [|intros r Hr; apply IH|apply NoDup_seq].
  - intros r1 r2 q Hr1%elem_of_seq Hr2%elem_of_seq Hq1 Hq2.
    apply elem_of_visits in Hq1 as [_ Hq1]; [|rewrite length_iter_rotate1; lia].
    apply elem_of_visits in Hq2 as [_ Hq2]; [|rewrite length_iter_rotate1; lia].
    rewrite Hq1 in Hq2. apply (f_equal (λ l, l !! 0)) in Hq2. rewrite !lookup_drop, !Nat.add_0_r in Hq2.
    rewrite !lookup_iter_rotate1 in Hq2 by lia.
    assert (∀ r, r ≤ S k → (if decide (r = 0) then S k else r - 1) < length p) as Hb.
    { intros r Hr. destruct (decide (r = 0)); lia. }
    destruct (lookup_lt_is_Some_2 p _ (Hb r1 ltac:(lia))) as [x Hx]. rewrite Hx in Hq2.
    pose proof (NoDup_lookup _ _ _ _ Hnd Hx (eq_sym Hq2)) as He.
    destruct (decide (r1 = 0)), (decide (r2 = 0)); lia.
  - rewrite length_iter_rotate1. lia.
  - by rewrite iter_rotate1_perm.
Qed.

Lemma length_visits k p : length (visits k p) = fact (S k).
Proof.
  revert p. induction k as [|k IH]; intros p; [done|]. cbn [visits].
  assert (∀ l : list nat, length (l ≫= λ r, visits k (Nat.iter r (rotate1 (S k)) p)) = length l * fact (S k)) as ->.
  { induction l as [|r l IHl]; [done|]. rewrite bind_cons, length_app, IH, IHl. done. }
  rewrite length_seq. done.
Qed.

(** * The whole run *)

(** The sum of the flips with alternating signs, from round [k] on. *)
Fixpoint alternating (k : nat) (flips : list nat) : Z :=
  match flips with
  | [] => 0
  | f :: rest => ((if Nat.even k then Z.of_nat f else - Z.of_nat f) + alternating (S k) rest)%Z
  end.

Lemma count_current_ok n fuel s :
  Permutation (perm1 s) (seq 0 n) → 0 < n → 2 ^ n ≤ fuel →
  ∃ p f, flips_to (perm1 s) f ∧
    count_current fuel s = Some (Ok (Counters p (perm1 s) (count s) (maxflips s `max` f)
      (checksum s + (if Nat.even (nperm s) then Z.of_nat f else - Z.of_nat f))%Z (nperm s))).
Proof.
  intros Hp Hn Hf. unfold count_current.
  destruct (lookup_lt_is_Some_2 (perm1 s) 0) as [x Hx]; [by rewrite Hp, length_seq|].
  rewrite (get_item_Ok _ _ _ Hx). run_partial. destruct (Nat.eqb_spec x 0) as [->|Hne].
  - exists (perm s), 0. split; [by constructor|]. rewrite Nat.max_0_r.
    replace (if Nat.even (nperm s) then Z.of_nat 0 else - Z.of_nat 0)%Z with 0%Z by (by destruct Nat.even).
    rewrite Z.add_0_r. by destruct s.
  - destruct (count_flips_ok n fuel (perm1 s)) as (p & f & -> & Hfl & _); [done..|].
    exists p, f. split; [done|]. run_partial.
    replace (if maxflips s <? f then f else maxflips s) with (maxflips s `max` f)
      by (destruct (Nat.ltb_spec (maxflips s) f); lia).
    by destruct Nat.even.
Qed.

Lemma carry_shape levels i p c p' c' :
  carry levels i p c = Some (p', c') → Permutation p' p ∧ length c' = length c.
Proof.
  revert i p c. induction levels as [|levels IH]; intros i p c H; [done|]. cbn [carry] in H.
  destruct (_ <=? 0)%Z.
  - apply IH in H as [H1 H2]. by rewrite H1, rotate1_perm, H2, length_insert.
  - injection H as <- <-. by rewrite rotate1_perm, length_insert.
Qed.

(** One round: the state after the flips of the current permutation, and where it goes. *)
Lemma round_ok n fuel s :
  Permutation (perm1 s) (seq 0 n) → length (count s) = n → 2 ≤ n → 2 ^ n ≤ fuel →
  ∃ p f, flips_to (perm1 s) f ∧
    let m := maxflips s `max` f in
    let z := (checksum s + (if Nat.even (nperm s) then Z.of_nat f else - Z.of_nat f))%Z in
    round fuel n s = Some (Ok
      match carry (n - 1) 1 (perm1 s) (count s) with
      | None => inr (Counters p (perm1 s) (count s) m z (nperm s))
      | Some (p', c') => inl (Counters p p' c' m z (S (nperm s)))
      end).
Proof.
  intros Hp Hc Hn Hf. assert (n < 2 ^ n) as Hpow by (apply Nat.pow_gt_lin_r; lia).
  destruct (count_current_ok n fuel s) as (p & f & Hfl & E); [done|lia|done|].
  exists p, f. split; [done|]. cbv zeta. unfold round. rewrite E. run_partial. cbn [perm1 count nperm].
  rewrite next_permutation_ok by (rewrite ?Hp, ?length_seq; lia). run_partial.
  by destruct (carry _ _ _ _) as [[p' c']|].
Qed.

(** From a state on the loop counts the flips of each permutation that is visited, and ends. *)
Lemma rounds_visited n fuel p c l :
  visited n p c l → ∀ rounds s, 2 ≤ n → 2 ^ n ≤ fuel → length l ≤ rounds →
  Permutation p (seq 0 n) → length c = n → perm1 s = p → count s = c →
  ∃ flips s', Forall2 flips_to l flips ∧ loop rounds (round fuel n) s = Some (Ok s') ∧
    maxflips s' = foldl Nat.max (maxflips s) flips ∧
    checksum s' = (checksum s + alternating (nperm s) flips)%Z.
Proof.
  induction 1 as [p c E|p c p' c' l E Hl IH]; intros rounds s Hn Hf Hr Hp Hc H1 H2; subst p c;
    (destruct rounds as [|rounds]; [cbn in Hr; lia|]); rewrite loop_S;
    (destruct (round_ok n fuel s) as (p & f & Hfl & Hround); [assumption..|]);
    cbv zeta in Hround; rewrite Hround, E; run_partial.
  - exists [f]. eexists. split; [by repeat constructor|]. split; [done|]. cbn. split; lia.
  - apply carry_shape in E as [Hp' Hc'].
    edestruct (IH rounds (Counters p p' c' (maxflips s `max` f)
      (checksum s + (if Nat.even (nperm s) then Z.of_nat f else - Z.of_nat f))%Z (S (nperm s))))
      as (flips & s' & Hfs & -> & Hm & Hck); [done|done|cbn in Hr; lia|by rewrite Hp'|congruence|done..|].
    exists (f :: flips), s'. split; [by constructor|]. split; [done|]. cbn in Hm, Hck |- *.
    split; [done|]. rewrite Hck. lia.
Qed.

Lemma fresh_start n : fresh (map (λ i, Z.of_nat i) (seq 1 n)) (n - 1).
Proof.
  intros j Hj. change (map ?f ?l) with (f <$> l). rewrite list_lookup_fmap, lookup_seq_lt by lia.
  cbn. f_equal. lia.
Qed.

(** The greatest element of a list of natural numbers. *)
Lemma foldl_max_spec l m : foldl Nat.max m l ∈ m :: l ∧ ∀ x, x ∈ m :: l → x ≤ foldl Nat.max m l.
Proof.
  revert m. induction l as [|a l IH]; intros m; cbn.
  { split; [left|]. by intros x ->%list_elem_of_singleton. }
  destruct (IH (m `max` a)) as [H1 H2]. split.
  - destruct (Nat.max_spec m a) as [[_ E]|[_ E]]; rewrite E in *; set_solver.
  - intros x Hx. assert (m `max` a ≤ foldl Nat.max (m `max` a) l) by (apply H2; left).
    apply elem_of_cons in Hx as [->|[->|Hx]%elem_of_cons]; [lia|lia|]. apply H2. by right.
Qed.

Lemma greatest_flips ps flips :
  ps ≠ [] → Forall2 flips_to ps flips →
  (∃ p, p ∈ ps ∧ flips_to p (foldl Nat.max 0 flips)) ∧
  ∀ p f, p ∈ ps → flips_to p f → f ≤ foldl Nat.max 0 flips.
Proof.
  intros Hne H. destruct (foldl_max_spec flips 0) as [Hin Hmax].
  assert (∀ f, f ∈ flips → ∃ p, p ∈ ps ∧ flips_to p f) as Hback.
  { intros f (i & Hi)%list_elem_of_lookup.
    destruct (Forall2_lookup_r _ _ _ _ _ H Hi) as (p & Hp & Hf). exists p. split; [|done].
    by eapply list_elem_of_lookup_2. }
  split.
  - apply elem_of_cons in Hin as [Hz|Hin]; [|by apply Hback]. rewrite Hz.
    destruct H as [|p f ps' flips' Hf H]; [done|]. exists p. split; [left|].
    assert (f ≤ 0) as Hle by (rewrite <- Hz; apply Hmax; set_solver). by replace 0 with f by lia.
  - intros p f (i & Hi)%list_elem_of_lookup Hf.
    destruct (Forall2_lookup_l _ _ _ _ _ H Hi) as (f' & Hf' & Hp).
    rewrite (flips_to_unique _ _ _ Hf Hp). apply Hmax. right. by eapply list_elem_of_lookup_2.
Qed.

Lemma visits_first i p : visits i p !! 0 = Some p.
Proof.
  revert p. induction i as [|k IH]; intros p; [done|]. cbn [visits].
  change (seq 0 (S (S k))) with (0 :: seq 1 (S k)). rewrite bind_cons.
  by rewrite (lookup_app_l_Some _ _ _ _ (IH _)).
Qed.

Lemma elem_of_all n p :
  0 < n → p ∈ visits (n - 1) (seq 0 n) ↔ Permutation p (seq 0 n).
Proof.
  intros Hn. rewrite elem_of_visits by (rewrite length_seq; lia). split; [by intros []|].
  intros Hp. split; [done|]. rewrite !drop_ge; [done|rewrite length_seq; lia|].
  rewrite Hp, length_seq. lia.
Qed.

(** * Properties *)

(** The flips of a permutation of 0..n-1 end: with 2^n rounds the loop counts exactly the
    flips that bring 0 to the front (each reverses the prefix that the first element names),
    and there are fewer than 2^n of them. *)
Theorem flips_terminate n fuel l :
  Permutation l (seq 0 n) → 0 < n → 2 ^ n ≤ fuel →
  ∃ l' c, count_flips fuel l = Some (Ok (l', c)) ∧ flips_to l c ∧ c < 2 ^ n.
Proof. apply count_flips_ok. Qed.

Lemma flips_terminate_witness :
  ∃ l', count_flips 16 [2; 3; 0; 1] = Some (Ok (l', 1)) ∧ flips_to [2; 3; 0; 1] 1.
Proof.
  destruct (flips_terminate 4 16 [2; 3; 0; 1]) as (l' & c & H1 & H2 & _).
  - apply (bool_decide_unpack _). vm_compute. exact I.
  - lia.
  - vm_compute. lia.
  - assert (c = 1) as -> by (vm_compute in H1; congruence). exists l'. split; [exact H1|exact H2].
Defined.

(** C33: For every n from 2 on the program ends and its result is right: it goes through all
    permutations of 0..n-1, each exactly once, starting with the ordered one, and prints the
    sum of their flips with alternating signs and the greatest number of flips of any
    permutation. *)
Theorem fannkuch_correct (n fuel : nat) :
  2 ≤ n → fact n ≤ fuel → 2 ^ n ≤ fuel →
  ∃ ps flips m,
    (∀ p, p ∈ ps ↔ Permutation p (seq 0 n)) ∧ NoDup ps ∧ length ps = fact n ∧
    ps !! 0 = Some (seq 0 n) ∧ Forall2 flips_to ps flips ∧
    (∃ p, Permutation p (seq 0 n) ∧ flips_to p m) ∧
    (∀ p f, Permutation p (seq 0 n) → flips_to p f → f ≤ m) ∧
    fannkuch fuel (Z.of_nat n) = Some (Ok (report_text (alternating 0 flips) n m)).
Proof.
  intros Hn Hfact Hpow. set (start := Counters (seq 0 n) (seq 0 n)
    (map (λ i, Z.of_nat i) (seq 1 n)) 0 0 0).
  assert (length (count start) = n) as Hc by (cbn; by rewrite length_map, length_seq).
  destruct (rounds_visited n fuel (seq 0 n) (count start) (visits (n - 1) (seq 0 n))) with
    (rounds := fuel) (s := start) as (flips & s & Hfl & Hloop & Hm & Hck); try done.
  { apply visited_all; [lia|by rewrite length_seq|done|apply fresh_start]. }
  { rewrite length_visits. by replace (S (n - 1)) with n by lia. }
  assert (∀ p, p ∈ visits (n - 1) (seq 0 n) ↔ Permutation p (seq 0 n)) as Hin
    by (intros p; apply elem_of_all; lia).
  destruct (greatest_flips (visits (n - 1) (seq 0 n)) flips) as [(p & Hp & Hpf) Hmax]; [|done|].
  { intros E. by pose proof (visits_first (n - 1) (seq 0 n)) as H; rewrite E in H. }
  exists (visits (n - 1) (seq 0 n)), flips, (foldl Nat.max 0 flips).
  split_and!; [done| | |apply visits_first|done|exists p; by rewrite <- Hin| |].
  - apply nodup_visits; [rewrite length_seq; lia|apply NoDup_seq].
  - rewrite length_visits. f_equal. lia.
  - intros q f Hq%Hin. by apply Hmax.
  - unfold fannkuch. rewrite Nat2Z.id. fold start. rewrite Hloop. run_partial. by rewrite Hm, Hck.
Qed.

Lemma fannkuch_correct_witness :
  ∃ (ps : list (list nat)) m, NoDup ps ∧ length ps = 24 ∧ (∃ p, Permutation p (seq 0 4) ∧ flips_to p m) ∧
    ∃ z, fannkuch 24 4 = Some (Ok (report_text z 4 m)).
Proof.
  destruct (fannkuch_correct 4 24) as (ps & flips & m & _ & H1 & H2 & _ & _ & H3 & _ & H4).
  - lia.
  - vm_compute. lia.
  - vm_compute. lia.
  - exists ps, m. split; [exact H1|]. split; [exact H2|]. split; [exact H3|].
    eexists. exact H4.
Defined.
