(* ===== verification/Sequences.v ===== *)
(** benchmarks/python/knucleotide.py and reverse_complement.py: counting the fragments of a
    sequence, and reversing, complementing and printing sequences in lines of 60. *)
From S2P Require Import Prelude PyStr PyDict PyFloat Loops.

(** [s * n] *)
Definition repeated (s : str) (n : Z) : str := concat (repeat s (Z.to_nat n)).

(** The argument of a benchmark, or its default. *)
Definition size_argument (default : Z) (arguments : list str) : result Z :=
  match arguments with
  | [] => Ok default
  | argument :: _ => int argument
  end.

Module Knucleotide.

Definition SAMPLE_DNA : str :=
  lit "GGTATTTTAATTTATAGTGGTATTTTAATTTATAGT" ++
  lit "ACGTACGTACGTACGTGGTATTTTAATTTATAGTAA" ++
  lit "CGTGGTATTTTAATTTATAGTTGCAGGTATTTTAAT" ++
  lit "TTATAGTACGGTATTACGTGGTATTTTAATTTATAG" ++
  lit "TGGTATTTTAATTTATAGTTCGATCGATCGATCGAT" ++
  lit "GGTAACGTACGTGGTATTTTAATTTATAGTTTTAAC" ++
  lit "GGTATTTTAATTTATAGTAGCTAGCTAGCTAGCTAG" ++
  lit "ACGTACGTGGTATTTTAATTTATAGTTGCATGCATG".

Definition generate_sequence (n : Z) : str :=
  if (n <=? 0)%Z then []
  else
    let copies := (n / Z.of_nat (length SAMPLE_DNA) + 1)%Z in
    take (Z.to_nat n) (repeated SAMPLE_DNA copies).

(** The fragments of the sequence, by their positions. *)
Definition fragments (seq : str) (frame : nat) : list str :=
  map (λ i, slice i (i + frame) seq)
    (List.seq 0 (Z.to_nat (Z.of_nat (length seq) - Z.of_nat frame + 1))).

Definition count_frequencies (seq : str) (frame : nat) : list (str * Z) :=
  foldl (λ counts key, dadd key 1 counts) [] (fragments seq frame).

(** [100.0 * count / total] *)
Definition share (count total : Z) : result float :=
  if (total =? 0)%Z then Raise ZeroDivisionError
  else Ok (fdiv (fmul (of_int 100) (of_int count)) (of_int total)).

Definition frequency_line (total : Z) (item : str * Z) : result str :=
  x ← share item.2 total;
  Ok (item.1 ++ lit " " ++ fixed 3 x ++ [newline]).

Definition print_frequencies (seq : str) (frame : nat) : result str :=
  let counts := count_frequencies seq frame in
  let total := dtotal counts in
  lines ← mapR (frequency_line total) (by_count counts);
  Ok (concat lines ++ [newline]).

Definition print_count (seq fragment : str) : str :=
  let counts := count_frequencies seq (length fragment) in
  dec (default 0%Z (dget fragment counts)) ++ [tab] ++ fragment ++ [newline].

Definition FRAGMENTS : list str :=
  map lit ["GGT"; "GGTA"; "GGTATT"; "GGTATTTTAATT"; "GGTATTTTAATTTATAGT"]%string.

Definition main (arguments : list str) : result str :=
  n ← size_argument 100 arguments;
  let seq := generate_sequence n in
  tables ← mapR (print_frequencies seq) [1; 2];
  Ok (concat tables ++ concat (map (print_count seq) FRAGMENTS)).

End Knucleotide.

Module ReverseComplement.

Definition LINE_WIDTH : nat := 60.

(** Headers and sequences. *)
Definition SEQUENCES : list (str * str) :=
  [(lit ">ONE Homo sapiens alu",
    lit "CTTGGCACCCGAGCAGCTCAAGGAGATGGCCACCACGCTGCCTGCCGCTGACCTCCTGGCGAAGCTGACCTCCTGGCGAAGATGCCACCACGCTGCCTGCC");
   (lit ">TWO IUB ambiguity codes",
    lit "ATGGCCAATGCCACTGCCGTCGTTTTACACAACGTTTGCCACCACGCTGCCTGCCGCTGACCTCCTGGCGAAGCTGAAGATGCCACCACGCTGCCTGCCGCTGA");
   (lit ">THREE Homo sapiens frequency",
    lit "GCCACTGCCACCGGCAATCGCAAATGTGCCACTGCATCGTTTTACACNNNNNGTTTGCCACCACGCTGCCTGCCGCTGACCTCCTGGCGAAGCTGACCTCCTGGCGAAGCTGAAGATGCCACCACGCTGCCTGCCGCTGAMRWSYKVHDBN")].

(** [str.maketrans(a, b)] *)
Definition COMPLEMENT : list (ascii * ascii) :=
  zip (lit "ATCGMKRYWSVBHDNatcgmkrywsvbhdn") (lit "TAGCKMYRWSBVDHNtagckmyrwsbvdhn").

(** [c.translate(COMPLEMENT)]: characters that the table does not hold stay. *)
Definition translate (c : ascii) : ascii := default c (dget c COMPLEMENT).

Definition reverse_complement (seq : str) : str := map translate (rev seq).

(** One round of [while pos < len(seq)]; the text printed so far is part of the state. *)
Definition print_round (seq : str) (s : nat * str) : partial (nat * str + str) :=
  let '(pos, out) := s in
  if pos <? length seq then
    mret (inl (pos + LINE_WIDTH, out ++ slice pos (pos + LINE_WIDTH) seq ++ [newline]))
  else mret (inr out).

Definition print_wrapped (fuel : nat) (seq : str) : partial str :=
  loop fuel (print_round seq) (0, []).

(** The text printed and the total so far. *)
Definition print_sequence (fuel : nat) (n : Z) (s : str * Z) (item : str * str) : partial (str * Z) :=
  let rc := reverse_complement (repeated item.2 n) in
  lines ← print_wrapped fuel rc;
  mret (s.1 ++ item.1 ++ [newline] ++ lines, (s.2 + Z.of_nat (length rc))%Z).

Fixpoint print_sequences (fuel : nat) (n : Z) (s : str * Z) (items : list (str * str)) :
    partial (str * Z) :=
  match items with
  | [] => mret s
  | item :: items => s ← print_sequence fuel n s item; print_sequences fuel n s items
  end.

Definition main (fuel : nat) (arguments : list str) : partial str :=
  n ← total (size_argument 1 arguments);
  '(text, total) ← print_sequences fuel n ([], 0%Z) SEQUENCES;
  mret (text ++ lit "Total nucleotides: " ++ dec total ++ [newline]).

End ReverseComplement.

(** * Fragments and their counts *)

(** How often a text occurs in another, overlapping occurrences included. *)
Fixpoint occurrences (key s : str) : nat :=
  (if startswith key s then 1 else 0) + match s with [] => 0 | _ :: s => occurrences key s end.

Module Counting.
Import Knucleotide.

Lemma fragments_short s frame : length s < frame → fragments s frame = [].
Proof. intros H. unfold fragments. by replace (Z.to_nat _) with 0 by lia. Qed.

Lemma fragments_cons c s frame :
  frame ≤ S (length s) →
  fragments (c :: s) frame = take frame (c :: s) :: (if frame <=? length s then fragments s frame else []).
Proof.
  intros H. unfold fragments. cbn [length].
  replace (Z.to_nat _) with (S (S (length s) - frame)) by lia. cbn [List.seq map].
  f_equal; [by rewrite slice_0|]. destruct (Nat.leb_spec frame (length s)).
  - replace (Z.to_nat _) with (S (length s) - frame) by lia.
    rewrite <- seq_shift, map_map. apply map_ext. intros i. unfold slice. cbn [drop].
    done.
  - by replace (S (length s) - frame) with 0 by lia.
Qed.

Lemma startswith_take key s :
  length key ≤ length s → startswith key s = bool_decide (take (length key) s = key).
Proof.
  intros Hlen. destruct (startswith key s) eqn:E.
  - apply startswith_iff in E as [t ->]. rewrite take_app_length. by rewrite bool_decide_true.
  - symmetry. apply bool_decide_eq_false. intros H. rewrite <- (take_drop (length key) s), H in E.
    by rewrite startswith_refl in E.
Qed.

Lemma occurrences_short key s : length s < length key → occurrences key s = 0.
Proof.
  induction s as [|c s IH]; intros H; cbn [occurrences]; cbn in H.
  - destruct key; [cbn in H; lia|done].
  - rewrite IH by lia. destruct (startswith key (c :: s)) eqn:E; [|done].
    apply startswith_length in E. cbn in E. lia.
Qed.

(** The occurrences of a text are the fragments that equal it. *)
Lemma fragments_occurrences key s :
  length (filter (λ f, f = key) (fragments s (length key))) = occurrences key s.
Proof.
  induction s as [|c s IH].
  - destruct key as [|a key]; [done|]. by rewrite fragments_short by (cbn; lia).
  - destruct (decide (length key ≤ S (length s))) as [Hle|Hgt].
    + rewrite fragments_cons by done. rewrite filter_cons. cbn [occurrences].
      rewrite startswith_take by done. destruct (Nat.leb_spec (length key) (length s)).
      * destruct (decide (take (length key) (c :: s) = key)) as [E|E].
        { rewrite bool_decide_true by done. cbn [length]. by rewrite IH. }
        { rewrite bool_decide_false by done. by rewrite IH. }
      * rewrite occurrences_short by done. rewrite Nat.add_0_r.
        destruct (decide (take (length key) (c :: s) = key)) as [E|E].
        { by rewrite bool_decide_true. }
        { by rewrite bool_decide_false. }
    + rewrite fragments_short by (cbn; lia). rewrite occurrences_short by (cbn; lia). done.
Qed.

Lemma length_fragments s frame :
  length (fragments s frame) = Z.to_nat (Z.of_nat (length s) - Z.of_nat frame + 1).
Proof. unfold fragments. by rewrite length_map, length_seq. Qed.

Lemma fragment_length s frame f : f ∈ fragments s frame → length f = frame.
Proof.
  intros (i & <- & Hi%in_seq)%list_elem_of_In%in_map_iff. rewrite length_slice. lia.
Qed.

Lemma count_get s key :
  dget key (count_frequencies s (length key)) =
  if decide (occurrences key s = 0) then None else Some (Z.of_nat (occurrences key s)).
Proof.
  unfold count_frequencies. rewrite tally_get. cbn [dget]. rewrite fragments_occurrences.
  by destruct (occurrences key s).
Qed.

Lemma count_total s frame :
  dtotal (count_frequencies s frame) = Z.max 0 (Z.of_nat (length s) - Z.of_nat frame + 1).
Proof.
  unfold count_frequencies. rewrite tally_total, length_fragments.
  change (dtotal []) with 0%Z. lia.
Qed.

Lemma count_nodup s frame : NoDup (count_frequencies s frame).*1.
Proof. apply tally_nodup. constructor. Qed.

Lemma count_keys s frame key : key ∈ (count_frequencies s frame).*1 → length key = frame.
Proof.
  intros ([key' c] & -> & Hin)%list_elem_of_fmap. apply dget_elem in Hin; [|apply count_nodup].
  unfold count_frequencies in Hin. rewrite tally_get in Hin. cbn [dget] in Hin.
  destruct (filter (λ f, f = key') (fragments s frame)) as [|f l] eqn:E; [done|].
  assert (f ∈ filter (λ f, f = key') (fragments s frame)) as Hf by (rewrite E; left).
  apply list_elem_of_filter in Hf as [-> Hf]. by eapply fragment_length.
Qed.

(** The rows are the fragments that occur, with the number of times they do. *)
Lemma elem_of_counts s frame key c :
  (key, c) ∈ count_frequencies s frame ↔
  length key = frame ∧ (0 < c)%Z ∧ c = Z.of_nat (occurrences key s).
Proof.
  split.
  - intros Hin. assert (length key = frame) as <-.
    { apply (count_keys s). by apply (list_elem_of_fmap_2 fst) in Hin. }
    apply dget_elem in Hin; [|apply count_nodup]. rewrite count_get in Hin.
    destruct (decide _); [done|]. injection Hin as <-. split_and!; [done|lia|done].
  - intros (<- & Hc & ->). apply dget_elem; [apply count_nodup|]. rewrite count_get.
    by rewrite decide_False by lia.
Qed.

End Counting.

(** * Wrapped lines *)

Module Wrapping.
Import ReverseComplement.

(** The lines of a sequence. *)
Fixpoint wrapped (n : nat) (seq : str) : list str :=
  match n, seq with
  | O, _ | _, [] => []
  | S n, _ => take LINE_WIDTH seq :: wrapped n (drop LINE_WIDTH seq)
  end.

Lemma wrapped_enough n m seq :
  length seq ≤ n → length seq ≤ m → wrapped n seq = wrapped m seq.
Proof.
  revert m seq. induction n as [|n IH]; intros m seq Hn Hm.
  { destruct seq; [by destruct m|cbn in Hn; lia]. }
  destruct m as [|m]; [destruct seq; [done|cbn in Hm; lia]|]. destruct seq as [|c seq]; [done|].
  cbn [wrapped]. f_equal. apply IH; rewrite length_drop; unfold LINE_WIDTH; cbn in *; lia.
Qed.

Lemma print_loop fuel seq pos out :
  length seq - pos < fuel →
  loop fuel (print_round seq) (pos, out) =
  Some (Ok (out ++ concat (map (λ l, l ++ [newline]) (wrapped (length seq - pos) (drop pos seq))))).
Proof.
  revert pos out. induction fuel as [|fuel IH]; intros pos out Hf; [lia|].
  rewrite loop_S. cbn [print_round]. destruct (Nat.ltb_spec pos (length seq)) as [Hlt|Hge]; run_partial.
  - rewrite IH by (unfold LINE_WIDTH; lia). do 2 f_equal.
    replace (length seq - pos) with (S (length seq - pos - 1)) by lia.
    destruct (drop pos seq) as [|c t] eqn:E.
    { apply (f_equal length) in E. rewrite length_drop in E. cbn in E. lia. }
    cbn [wrapped map concat]. rewrite <- E, drop_drop. unfold slice.
    replace (pos + LINE_WIDTH - pos) with LINE_WIDTH by lia. rewrite <- !(assoc_L (++)). do 5 f_equal.
    apply wrapped_enough; rewrite length_drop; unfold LINE_WIDTH; lia.
  - rewrite drop_ge by done. replace (length seq - pos) with 0 by lia. cbn. by rewrite app_nil_r.
Qed.

Lemma print_wrapped_lines fuel seq :
  length seq < fuel →
  print_wrapped fuel seq =
  Some (Ok (concat (map (λ l, l ++ [newline]) (wrapped (length seq) seq)))).
Proof.
  intros Hf. unfold print_wrapped. rewrite print_loop by lia. by rewrite Nat.sub_0_r, drop_0.
Qed.

Lemma concat_wrapped n seq : length seq ≤ n → concat (wrapped n seq) = seq.
Proof.
  revert seq. induction n as [|n IH]; intros seq Hn; [by destruct seq; [|cbn in Hn; lia]|].
  destruct seq as [|c seq]; [done|]. cbn [wrapped concat]. rewrite IH, take_drop; [done|].
  rewrite length_drop. unfold LINE_WIDTH. cbn in *. lia.
Qed.

(** All lines but the last are full, and none is empty. *)
Lemma wrapped_width n seq i line :
  length seq ≤ n → wrapped n seq !! i = Some line →
  0 < length line ≤ LINE_WIDTH ∧ (S i < length (wrapped n seq) → length line = LINE_WIDTH).
Proof.
  revert seq i. induction n as [|n IH]; intros seq i Hn Hi; [done|].
  destruct seq as [|c seq]; [done|]. cbn [wrapped] in *.
  assert (length (drop LINE_WIDTH (c :: seq)) ≤ n) as Hd.
  { rewrite length_drop. unfold LINE_WIDTH. cbn in *. lia. }
  destruct i as [|i].
  - assert (line = take LINE_WIDTH (c :: seq)) as -> by (by injection Hi).
    rewrite length_take. cbn [length] in *. unfold LINE_WIDTH in *. split; [lia|].
    intros Hlt. destruct (drop 60 (c :: seq)) as [|d t] eqn:E; [destruct n; cbn in Hlt; lia|].
    apply (f_equal length) in E. rewrite length_drop in E. cbn in E. lia.
  - destruct (IH _ i Hd Hi) as [H1 H2]. split; [done|]. intros Hlt. apply H2. cbn [length] in Hlt. lia.
Qed.

Lemma translate_twice c : translate (translate c) = c.
Proof. by destruct c as [[] [] [] [] [] [] [] []]. Qed.

Lemma reverse_complement_twice seq : reverse_complement (reverse_complement seq) = seq.
Proof.
  unfold reverse_complement. rewrite <- map_rev, rev_involutive, map_map.
  rewrite <- (map_id seq) at 2. apply map_ext. apply translate_twice.
Qed.

Lemma length_reverse_complement seq : length (reverse_complement seq) = length seq.
Proof. unfold reverse_complement. by rewrite length_map, length_rev. Qed.

Lemma lookup_reverse_complement seq i c :
  seq !! i = Some c → reverse_complement seq !! (length seq - 1 - i) = Some (translate c).
Proof.
  intros Hi. pose proof (lookup_lt_Some _ _ _ Hi) as Hlt. unfold reverse_complement.
  change (map translate (rev seq)) with (translate <$> rev seq). rewrite list_lookup_fmap.
  rewrite rev_alt. fold (reverse seq). rewrite reverse_lookup by lia.
  replace (length seq - S (length seq - 1 - i)) with i by lia. by rewrite Hi.
Qed.

Lemma length_repeated s n : length (repeated s n) = Z.to_nat n * length s.
Proof.
  unfold repeated. induction (Z.to_nat n) as [|k IH]; [done|]. cbn. by rewrite length_app, IH.
Qed.

(** What one sequence prints. *)
Definition block (n : Z) (item : str * str) : str :=
  let rc := reverse_complement (repeated item.2 n) in
  item.1 ++ [newline] ++ concat (map (λ l, l ++ [newline]) (wrapped (length rc) rc)).

Lemma print_sequences_blocks fuel n items s :
  (∀ item, item ∈ items → Z.to_nat n * length item.2 < fuel) →
  print_sequences fuel n s items =
  Some (Ok (s.1 ++ concat (map (block n) items),
            (s.2 + foldr (λ item z, Z.of_nat (Z.to_nat n * length item.2) + z) 0 items)%Z)).
Proof.
  revert s. induction items as [|item items IH]; intros [text total] Hf; cbn [print_sequences].
  { cbn. by rewrite app_nil_r, Z.add_0_r. }
  unfold print_sequence. rewrite print_wrapped_lines
    by (rewrite length_reverse_complement, length_repeated; apply Hf; left).
  run_partial. rewrite IH by (intros ? ?; apply Hf; by right). do 2 f_equal. cbn [fst snd map concat foldr].
  rewrite length_reverse_complement, length_repeated. f_equal; [|lia].
  unfold block at 2. rewrite length_reverse_complement, length_repeated. by rewrite <- !(assoc_L (++)).
Qed.

End Wrapping.

(** * Properties *)

Import Knucleotide ReverseComplement.

(** C34: knucleotide counts right: for every sequence and fragment length the table has exactly
    the fragments that occur, each once, with the number of its occurrences (overlapping ones
    included), the most frequent first; the shares are of all fragments and never divide by
    zero; and the count of a single fragment is the number of its occurrences. *)
Theorem frequencies_correct seq frame :
  let total := Z.max 0 (Z.of_nat (length seq) - Z.of_nat frame + 1) in
  (∃ rows : list (str * Z),
    print_frequencies seq frame =
      Ok (concat (map (λ row, row.1 ++ lit " " ++
                        fixed 3 (fdiv (fmul (of_int 100) (of_int row.2)) (of_int total)) ++ [newline])
                      rows) ++ [newline]) ∧
    (∀ key c, (key, c) ∈ rows ↔
       length key = frame ∧ (0 < c)%Z ∧ c = Z.of_nat (occurrences key seq)) ∧
    NoDup rows.*1 ∧ StronglySorted (λ a b, (b.2 <= a.2)%Z) rows ∧ dtotal rows = total) ∧
  ∀ fragment, print_count seq fragment =
    dec (Z.of_nat (occurrences fragment seq)) ++ [tab] ++ fragment ++ [newline].
Proof.
  intros total. split.
  - exists (by_count (count_frequencies seq frame)).
    destruct (by_count_ranked (count_frequencies seq frame)) as [Hperm Hsorted].
    split_and!; [| | |done|].
    + unfold print_frequencies. erewrite (proj2 (mapR_Forall2 _ _ _)); [done|].
      apply Forall2_fmap_r, Forall_Forall2_diag, Forall_forall. intros [key c] Hin.
      rewrite <- Hperm in Hin. apply Counting.elem_of_counts in Hin as (Hl & Hc & Ho).
      unfold frequency_line, share. rewrite Counting.count_total. fold total.
      destruct (Z.eqb_spec total 0) as [Hz|_]; [|done]. exfalso.
      destruct (decide (length seq < length key)) as [H|H]; [|lia].
      apply Counting.occurrences_short in H. lia.
    + intros key c. rewrite <- Hperm. apply Counting.elem_of_counts.
    + rewrite <- Hperm. apply Counting.count_nodup.
    + transitivity (dtotal (count_frequencies seq frame)); [|apply Counting.count_total].
      unfold dtotal. rewrite <- !dsum_if_true. symmetry. by apply dsum_if_perm.
  - intros fragment. unfold print_count. rewrite Counting.count_get.
    by destruct (decide (occurrences fragment seq = 0)) as [->|].
Qed.

(** C35: reverse_complement prints, for each sequence repeated [n] times, the header and the
    reverse complement in lines of 60 (only the last may be shorter, none is empty), and the
    total of all lengths.  Joined again, the lines hold the complement of each character at its
    position from the end, and their reverse complement is the repeated sequence. *)
Theorem reverse_complement_printed fuel arguments n :
  size_argument 1 arguments = Ok n → (151 * Z.max 0 n < Z.of_nat fuel)%Z →
  ∃ lines : list (list str),
    ReverseComplement.main fuel arguments =
      Some (Ok (concat (zip_with (λ item ls, item.1 ++ [newline] ++ concat (map (λ l, l ++ [newline]) ls))
                          SEQUENCES lines)
                ++ lit "Total nucleotides: " ++ dec (Z.max 0 n * 356) ++ [newline])) ∧
    Forall2 (λ item ls,
      reverse_complement (concat ls) = repeated item.2 n ∧
      (∀ i c, repeated item.2 n !! i = Some c →
         concat ls !! (length (repeated item.2 n) - 1 - i) = Some (translate c)) ∧
      ∀ i line, ls !! i = Some line →
        0 < length line ≤ 60 ∧ (S i < length ls → length line = 60)) SEQUENCES lines.
Proof.
  intros Hn Hf. exists (map (λ item, let rc := reverse_complement (repeated item.2 n) in
    Wrapping.wrapped (length rc) rc) SEQUENCES). split.
  - unfold ReverseComplement.main. rewrite Hn. run_partial. rewrite Wrapping.print_sequences_blocks.
    + run_partial. rewrite Z.add_0_l.
      change (foldr _ 0%Z SEQUENCES) with (Z.of_nat (Z.to_nat n * 101) +
        (Z.of_nat (Z.to_nat n * 104) + (Z.of_nat (Z.to_nat n * 151) + 0)))%Z.
      replace (Z.max 0 n * 356)%Z with (Z.of_nat (Z.to_nat n * 101) +
        (Z.of_nat (Z.to_nat n * 104) + (Z.of_nat (Z.to_nat n * 151) + 0)))%Z by lia.
      reflexivity.
    + intros item Hin. assert (length item.2 ≤ 151) as Hl; [|nia].
      revert item Hin. apply Forall_forall. unfold SEQUENCES.
      repeat (apply Forall_cons_2; [apply (bool_decide_unpack _); vm_compute; exact I|]). apply Forall_nil_2.
  - apply Forall2_fmap_r, Forall_Forall2_diag, Forall_forall. intros item _. cbn beta zeta.
    unfold compose. rewrite Wrapping.concat_wrapped by done. split_and!; [apply Wrapping.reverse_complement_twice|apply Wrapping.lookup_reverse_complement|].
    intros i line. by apply Wrapping.wrapped_width.
Qed.

Lemma reverse_complement_printed_witness :
  ∃ ls, Forall2 (λ item l, reverse_complement (concat l) = repeated item.2 2) SEQUENCES ls.
Proof.
  destruct (reverse_complement_printed 400 [lit "2"] 2) as (ls & _ & H).
  - vm_compute. reflexivity.
  - vm_compute. reflexivity.
  - exists ls. eapply Forall2_impl; [exact H|]. intros item l [E _]. exact E.
Defined.
