(* ===== verification/Recursion.v ===== *)
(** benchmarks/python/fib.py and binary_trees.py: the naive Fibonacci function, and complete
    binary trees that are built and added up. *)
From S2P Require Import Prelude PyStr Loops Sequences.

Module Fib.

(** [fib(n)] for an argument that is not negative. *)
Fixpoint fib (n : nat) : Z :=
  match n with
  | O => 0
  | S n' => match n' with O => 1 | S n'' => fib n' + fib n'' end
  end.

Definition main : str := lit "Fib(40) = " ++ dec (fib 40) ++ [newline].

End Fib.

Module BinaryTrees.

(** [Tree(value=0, left=None, right=None)] *)
Inductive tree := Tree (value : Z) (left_child right_child : option tree).

Fixpoint make (depth : nat) (value : Z) : tree :=
  match depth with
  | O => Tree value None None
  | S depth =>
      let next_value := (value * 2)%Z in
      Tree 0 (Some (make depth next_value)) (Some (make depth (next_value + 1)))
  end.

(** [check(None)] looks for an attribute of [None]. *)
Fixpoint check (node : tree) : result Z :=
  match node with
  | Tree value None _ => Ok value
  | Tree _ (Some left_child) right_child =>
      l ← check left_child;
      r ← match right_child with Some node => check node | None => Raise AttributeError end;
      Ok (1 + l + r)%Z
  end.

(** [range(start, stop, step)] for a positive step. *)
Definition range_step (start stop step : Z) : list Z :=
  map (λ k, start + k * step)%Z (seqZ 0 ((stop - start + step - 1) / step)).

Definition min_depth : Z := 4.

(** One line of the loop over the depths. *)
Definition depth_line (max_depth depth : Z) : result str :=
  let iterations := Z.shiftl 1 (max_depth - depth + min_depth) in
  cs ← foldM (λ cs _, c ← check (make (Z.to_nat depth) 1); Ok (cs + c)%Z) 0%Z (seqZ 0 iterations);
  Ok (dec iterations ++ [tab] ++ lit " trees of depth " ++ dec depth ++ [tab] ++ lit " check: "
      ++ dec cs ++ [newline]).

(** The two trees outside the loop. *)
Definition tree_line (name : str) (depth : Z) : result str :=
  c ← check (make (Z.to_nat depth) 1);
  Ok (name ++ lit " tree of depth " ++ dec depth ++ [tab] ++ lit " check: " ++ dec c ++ [newline]).

Definition main (arguments : list str) : result str :=
  n ← size_argument 15 arguments;
  let max_depth := Z.max (min_depth + 2) n in
  stretch ← tree_line (lit "stretch") (max_depth + 1);
  lines ← mapR (depth_line max_depth) (range_step min_depth (max_depth + 1) 2);
  long_lived ← tree_line (lit "long lived") max_depth;
  Ok (stretch ++ concat lines ++ long_lived).

End BinaryTrees.

Import BinaryTrees.

(** * Fibonacci *)

(** The pair of neighbours, by addition. *)
Definition fib_pair (n : nat) : Z * Z := Nat.iter n (λ '(a, b), (b, a + b)%Z) (0, 1)%Z.

Lemma fib_pair_fib n : fib_pair n = (Fib.fib n, Fib.fib (S n)).
Proof.
  induction n as [|n IH]; [done|]. unfold fib_pair in *. cbn [Nat.iter nat_rect].
  unfold Nat.iter in IH. rewrite IH. f_equal.
  change (Fib.fib (S (S n))) with (Fib.fib (S n) + Fib.fib n)%Z. lia.
Qed.

Lemma fib_fast n : Fib.fib n = (fib_pair n).1.
Proof. by rewrite fib_pair_fib. Qed.

Lemma fib_40 : Fib.fib 40 = 102334155%Z.
Proof. rewrite fib_fast. by vm_compute. Qed.

(** * Trees *)

(** What a tree is worth: one for each inner node, and the numbers of the leaves. *)
Fixpoint leaves (node : tree) : list Z :=
  match node with
  | Tree value None _ => [value]
  | Tree _ (Some left_child) right_child => leaves left_child ++ match right_child with Some node => leaves node | None => [] end
  end.

(** The leaves of a tree are numbered without gaps, from left to right. *)
Lemma leaves_make depth value : leaves (make depth value) = seqZ (value * 2 ^ Z.of_nat depth) (2 ^ Z.of_nat depth).
Proof.
  revert value. induction depth as [|d IH]; intros value.
  - cbn. by rewrite Z.mul_1_r.
  - cbn [make leaves]. rewrite !IH. rewrite Nat2Z.inj_succ, Z.pow_succ_r by lia.
    replace (2 * 2 ^ Z.of_nat d)%Z with (2 ^ Z.of_nat d + 2 ^ Z.of_nat d)%Z by lia.
    rewrite seqZ_app by lia. f_equal; f_equal; lia.
Qed.

(** The value of a complete tree: its inner nodes and its leaves. *)
Lemma check_make depth value :
  check (make depth value) = Ok (2 ^ Z.of_nat depth - 1 + zsum (leaves (make depth value)))%Z.
Proof.
  revert value. induction depth as [|d IH]; intros value; [by cbn; rewrite zsum_cons; unfold zsum; cbn; f_equal; lia|].
  cbn [make check leaves]. rewrite !IH. cbn [mbind result_bind]. rewrite zsum_app.
  f_equal. rewrite Nat2Z.inj_succ, Z.pow_succ_r by lia. lia.
Qed.

(** What [check(make(depth))] is. *)
Definition tree_total (depth : Z) : Z := (2 ^ depth - 1 + 2 ^ depth * (3 * 2 ^ depth - 1) / 2)%Z.

Lemma leaves_tree depth :
  (0 <= depth)%Z → leaves (make (Z.to_nat depth) 1) = seqZ (2 ^ depth) (2 ^ depth).
Proof. intros Hd. by rewrite leaves_make, Z2Nat.id, Z.mul_1_l. Qed.

Lemma check_tree depth : (0 <= depth)%Z → check (make (Z.to_nat depth) 1) = Ok (tree_total depth).
Proof.
  intros Hd. rewrite check_make, leaves_tree, Z2Nat.id by done. f_equal. unfold tree_total. f_equal.
  pose proof (zsum_seqZ (2 ^ depth) (2 ^ depth) ltac:(lia)) as H.
  replace (2 ^ depth * (3 * 2 ^ depth - 1))%Z with (zsum (seqZ (2 ^ depth) (2 ^ depth)) * 2)%Z by lia.
  by rewrite Z.div_mul.
Qed.

Definition depth_text (max_depth depth : Z) : str :=
  let iterations := (2 ^ (max_depth - depth + 4))%Z in
  dec iterations ++ [tab] ++ lit " trees of depth " ++ dec depth ++ [tab] ++ lit " check: "
  ++ dec (iterations * tree_total depth) ++ [newline].

Definition tree_text (name : str) (depth : Z) : str :=
  name ++ lit " tree of depth " ++ dec depth ++ [tab] ++ lit " check: " ++ dec (tree_total depth) ++ [newline].

Lemma depth_line_text max_depth depth :
  (0 <= depth <= max_depth)%Z → depth_line max_depth depth = Ok (depth_text max_depth depth).
Proof.
  intros Hd. unfold depth_line, depth_text, min_depth. rewrite Z.shiftl_1_l.
  rewrite (roundsM _ (tree_total depth)); [done|lia|].
  intros z. by rewrite check_tree by lia.
Qed.

Lemma tree_line_text name depth : (0 <= depth)%Z → tree_line name depth = Ok (tree_text name depth).
Proof. intros Hd. unfold tree_line. by rewrite check_tree. Qed.

Lemma elem_of_range_step start stop step k :
  (0 < step)%Z → k ∈ range_step start stop step ↔ (start <= k < stop)%Z ∧ ((k - start) mod step = 0)%Z.
Proof.
  intros Hs. unfold range_step. rewrite list_elem_of_In, in_map_iff. split.
  - intros (i & <- & Hi%list_elem_of_In%elem_of_seqZ).
    pose proof (Z.div_mod (stop - start + step - 1) step ltac:(lia)).
    pose proof (Z.mod_pos_bound (stop - start + step - 1) step Hs). split; [nia|].
    replace (start + i * step - start)%Z with (i * step)%Z by lia. by apply Z.mod_mul; lia.
  - intros [Hk Hm]. exists ((k - start) / step)%Z.
    pose proof (Z.div_mod (k - start) step ltac:(lia)) as Hdiv. split; [lia|].
    apply list_elem_of_In, elem_of_seqZ.
    pose proof (Z.div_mod (stop - start + step - 1) step ltac:(lia)).
    pose proof (Z.mod_pos_bound (stop - start + step - 1) step Hs). nia.
Qed.

Lemma mapR_Ok {A B} (f : A → result B) (g : A → B) l :
  (∀ a, a ∈ l → f a = Ok (g a)) → mapR f l = Ok (map g l).
Proof.
  induction l as [|a l IH]; intros H; [done|]. cbn. rewrite (H a) by (by left). cbn.
  rewrite IH by (intros; apply H; by right). done.
Qed.

(** The whole output. *)
Definition trees_text (max_depth : Z) : str :=
  tree_text (lit "stretch") (max_depth + 1)
  ++ concat (map (depth_text max_depth) (range_step 4 (max_depth + 1) 2))
  ++ tree_text (lit "long lived") max_depth.

Lemma main_text arguments n :
  size_argument 15 arguments = Ok n → main arguments = Ok (trees_text (Z.max 6 n)).
Proof.
  intros Hn. unfold main. rewrite Hn. cbn [mbind result_bind]. change (min_depth + 2)%Z with 6%Z.
  rewrite !tree_line_text by lia. cbn [mbind result_bind].
  rewrite (mapR_Ok _ (depth_text (Z.max 6 n))); [done|].
  intros depth [Hd _]%elem_of_range_step; [|lia]. unfold min_depth in Hd. apply depth_line_text. lia.
Qed.

(** * The property *)

(** C36: binary_trees.py never fails once its argument is a number: whatever the size, a tree of
    a depth has the leaves 2^depth, ..., 2^(depth+1) - 1 from left to right, its check is the
    number of its inner nodes plus the sum of its leaves, the closed form
    2^depth - 1 + 2^depth * (3 * 2^depth - 1) / 2, and the printed table has that number for the
    two single trees and, for each even depth from 4, that number for each of its
    2^(max_depth - depth + 4) trees. *)
Theorem binary_trees_correct arguments n :
  size_argument 15 arguments = Ok n →
  let max_depth := Z.max 6 n in
  main arguments =
    Ok (tree_text (lit "stretch") (max_depth + 1)
        ++ concat (map (depth_text max_depth) (range_step 4 (max_depth + 1) 2))
        ++ tree_text (lit "long lived") max_depth) ∧
  (∀ depth, depth ∈ range_step 4 (max_depth + 1) 2 ↔ (4 <= depth <= max_depth)%Z ∧ Z.Even depth) ∧
  (∀ depth, (0 <= depth)%Z →
     leaves (make (Z.to_nat depth) 1) = seqZ (2 ^ depth) (2 ^ depth) ∧
     check (make (Z.to_nat depth) 1) = Ok (tree_total depth) ∧
     tree_total depth = (2 ^ depth - 1 + zsum (leaves (make (Z.to_nat depth) 1)))%Z).
Proof.
  intros Hn max_depth. split; [by apply main_text|]. split.
  - intros depth. rewrite elem_of_range_step by lia.
    rewrite <- Zeven_equiv, <- Zeven_bool_iff, Zeven_mod, Z.eqb_eq.
    Z.to_euclidean_division_equations; lia.
  - intros depth Hd. pose proof (check_tree depth Hd) as Hc. split; [by apply leaves_tree|].
    split; [done|]. rewrite check_make, Z2Nat.id in Hc by done. injection Hc as <-. done.
Qed.

Lemma binary_trees_correct_witness :
  ∃ lines, main [lit "3"] = Ok (lit "stretch tree of depth 7" ++ [tab] ++ lit " check: 24639" ++ [newline] ++ lines).
Proof.
  destruct (binary_trees_correct [lit "3"] 3) as [H _]; [vm_compute; reflexivity|].
  eexists. rewrite H. unfold tree_text at 1. rewrite <- !(assoc_L (++)). vm_compute. reflexivity.
Defined.
