(* ===== verification/NumericLoop.v ===== *)
(** benchmarks/python/numeric_loop.py: the numbers of Collatz steps of all starts below a
    million, added up.  The loop of [collatz_steps] is run as far as its rounds last; that it
    ends for every start of the program, and the sum, are computed by a table of machine integers
    that is proved to hold the numbers of steps. *)
From Stdlib Require Import Uint63 ZifyUint63 PArray.
From S2P Require Import Prelude PyStr Loops.

(** One round of the loop; a round that finds [n = 1] leaves with the steps. *)
Definition collatz_round (s : Z * Z) : partial (Z * Z + Z) :=
  let '(n, steps) := s in
  if (n =? 1)%Z then mret (inr steps)
  else
    let n := if (n mod 2 =? 0)%Z then (n / 2)%Z else (n * 3 + 1)%Z in
    mret (inl (n, steps + 1)%Z).

Definition collatz_steps (fuel : nat) (start : Z) : partial Z := loop fuel collatz_round (start, 0%Z).

(** The program for the starts below [limit]. *)
Definition run (fuel : nat) (limit : Z) : partial str :=
  total_steps ← foldP (λ total_steps i, steps ← collatz_steps fuel i; mret (total_steps + steps)%Z)
    0%Z (seqZ 1 (limit - 1));
  mret (lit "Total Collatz steps: " ++ dec total_steps ++ [newline]).

Definition main (fuel : nat) : partial str := run fuel 1000000.

(** * The numbers of steps *)

Definition collatz (n : Z) : Z := if (n mod 2 =? 0)%Z then (n / 2)%Z else (n * 3 + 1)%Z.

(** [takes n s]: the sequence from [n] reaches 1 for the first time after [s] steps. *)
Inductive takes : Z → Z → Prop :=
  | takes_one : takes 1 0
  | takes_step n s : n ≠ 1%Z → takes (collatz n) s → takes n (s + 1).

Lemma takes_nonneg n s : takes n s → (0 <= s)%Z.
Proof. induction 1; lia. Qed.

Lemma takes_inv n s :
  takes n s → (n = 1%Z ∧ s = 0%Z) ∨ (n ≠ 1%Z ∧ takes (collatz n) (s - 1)).
Proof.
  intros H. destruct H as [|n s Hn H]; [by left|]. right. split; [done|].
  by replace (s + 1 - 1)%Z with s by lia.
Qed.

Lemma takes_positive n s : takes n s → (0 < n)%Z.
Proof.
  induction 1 as [|n s Hn H IH]; [lia|]. unfold collatz in IH.
  destruct (Z.eqb_spec (n mod 2) 0); [|lia].
  pose proof (Z.div_mod n 2 ltac:(lia)). lia.
Qed.

Lemma round_collatz n steps :
  collatz_round (n, steps) =
  if (n =? 1)%Z then Some (Ok (inr steps)) else Some (Ok (inl (collatz n, steps + 1)%Z)).
Proof. done. Qed.

(** The rounds of the loop are the steps, and one more that leaves it. *)
Lemma loop_takes fuel n steps r :
  loop fuel collatz_round (n, steps) = Some (Ok r) ↔
  ∃ s, takes n s ∧ r = (steps + s)%Z ∧ (s < Z.of_nat fuel)%Z.
Proof.
  revert n steps. induction fuel as [|fuel IH]; intros n steps.
  { split; [done|]. intros (s & H%takes_nonneg & _ & Hlt). lia. }
  rewrite loop_S, round_collatz. destruct (Z.eqb_spec n 1) as [->|Hne]; run_partial.
  - split; [intros [= <-]; exists 0%Z; split; [constructor|lia]|].
    intros (s & [[_ ->]|[? _]]%takes_inv & -> & _); [by rewrite Z.add_0_r|done].
  - rewrite IH. split.
    + intros (s & H & -> & Hs). exists (s + 1)%Z. split; [by constructor|lia].
    + intros (s & [[? _]|[_ H]]%takes_inv & -> & Hs); [done|].
      exists (s - 1)%Z. split; [done|lia].
Qed.

Lemma loop_Raise fuel s e : loop fuel collatz_round s ≠ Some (Raise e).
Proof.
  revert s. induction fuel as [|fuel IH]; intros [n steps]; [done|].
  rewrite loop_S, round_collatz. destruct (n =? 1)%Z; run_partial; [done|apply IH].
Qed.

Lemma collatz_steps_takes fuel start r :
  collatz_steps fuel start = Some (Ok r) ↔ takes start r ∧ (r < Z.of_nat fuel)%Z.
Proof.
  unfold collatz_steps. rewrite loop_takes. split.
  - by intros (s & H & -> & Hs).
  - intros [H Hs]. by exists r.
Qed.

(** [takes] says that the sequence is at 1 after [s] steps and not before. *)
Lemma takes_iter n (s : nat) :
  takes n (Z.of_nat s) ↔
  Nat.iter s collatz n = 1%Z ∧ ∀ k, k < s → Nat.iter k collatz n ≠ 1%Z.
Proof.
  revert n. induction s as [|s IH]; intros n.
  { cbn. split; [|intros [-> _]; constructor].
    intros [[-> _]|[_ H%takes_nonneg]]%takes_inv; [|lia]. split; [done|lia]. }
  rewrite Nat.iter_succ_r. split.
  - intros [[_ ?]|[Hn H]]%takes_inv; [lia|].
    replace (Z.of_nat (S s) - 1)%Z with (Z.of_nat s) in H by lia.
    apply IH in H as [H1 H2]. split; [done|]. intros [|k] Hk; [done|].
    rewrite Nat.iter_succ_r. apply H2. lia.
  - intros [H1 H2]. replace (Z.of_nat (S s)) with (Z.of_nat s + 1)%Z by lia. constructor.
    + by apply (H2 0); lia.
    + apply IH. split; [done|]. intros k Hk. rewrite <- Nat.iter_succ_r. apply H2. lia.
Qed.

(** * The table *)

(** Integers of 63 bits, with the wrap-around of the machine. *)
Abbreviation word := PrimInt63.int.

(** From [x] go on until below [n], counting the steps. *)
Fixpoint descend (fuel : nat) (n x s : word) : option (word * word) :=
  match fuel with
  | O => None
  | S fuel =>
      if (x <? n)%uint63 then Some (x, s)
      else if is_even x then descend fuel n (x >> 1)%uint63 (s + 1)%uint63
      else if (x <? 1152921504606846976)%uint63 then descend fuel n (x * 3 + 1)%uint63 (s + 1)%uint63
      else None
  end.

(** The numbers of steps below [next], and their sum. *)
Record state := State { memo : array word; next : word; sum : word }.

Definition longest : word := 524.
Definition limit : word := 1000000.

Definition add_start (fuel : nat) (o : option state) : option state :=
  match o with
  | None => None
  | Some (State memo next sum) =>
      match descend fuel next next 0 with
      | None => None
      | Some (x, s) =>
          let steps := (s + memo.[x])%uint63 in
          if ((steps <=? longest) && (next <? limit) && (sum <? 1152921504606846976))%uint63
          then Some (State memo.[next <- steps] (next + 1)%uint63 (sum + steps)%uint63)
          else None
      end
  end.

(** The starts from 2 on; the steps of 1 are 0. *)
Definition tabulate (fuel : nat) (starts : positive) : option state :=
  Pos.iter (add_start fuel) (Some (State (make limit 0%uint63) 2%uint63 0%uint63)) starts.

(** A number of steps as an integer of the model. *)
Notation "# x" := (Uint63.to_Z x) (at level 1, format "# x").

Lemma is_even_mod x : is_even x = (#x mod 2 =? 0)%Z.
Proof. pose proof (is_even_spec x) as H. destruct (is_even x); rewrite H; done. Qed.

Lemma descend_takes fuel n x s x' s' :
  descend fuel n x s = Some (x', s') →
  (2 <= #n)%Z → (0 < #x)%Z → (#s + Z.of_nat fuel < 2 ^ 60)%Z →
  (0 < #x' < #n)%Z ∧ (#s <= #s')%Z ∧ (#s' <= #s + Z.of_nat fuel)%Z ∧
  ∀ t, takes #x' t → takes #x (t + (#s' - #s)).
Proof.
  revert x s. induction fuel as [|fuel IH]; intros x s H Hn Hx Hs; [done|]. cbn [descend] in H.
  destruct (x <? n)%uint63 eqn:Hlt.
  { injection H as -> ->. split_and!; try lia. intros t. by rewrite Z.sub_diag, Z.add_0_r. }
  assert (#(s + 1)%uint63 = #s + 1)%Z as Hs1 by lia.
  assert (#x ≠ 1%Z) as Hne by lia.
  assert (∀ y, #y = collatz #x → (0 < #y)%Z → descend fuel n y (s + 1) = Some (x', s') →
    (0 < #x' < #n)%Z ∧ (#s <= #s')%Z ∧ (#s' <= #s + Z.of_nat (S fuel))%Z ∧
    ∀ t, takes #x' t → takes #x (t + (#s' - #s))) as Hstep.
  { intros y Hy Hpos Hd. destruct (IH _ _ Hd Hn Hpos ltac:(lia)) as (H1 & H2 & H3 & H4).
    split_and!; try lia. intros t Ht%H4. replace (t + (#s' - #s))%Z with (t + (#s' - #(s + 1)%uint63) + 1)%Z by lia.
    constructor; [done|]. by rewrite <- Hy. }
  rewrite is_even_mod in H. destruct (Z.eqb_spec (#x mod 2) 0) as [He|He].
  - assert (#(x >> 1)%uint63 = #x / 2)%Z as Hdiv by (rewrite lsr_spec; done).
    apply (Hstep _) in H; [done| |lia]. unfold collatz. by rewrite He, Hdiv.
  - destruct (x <? 1152921504606846976)%uint63 eqn:Hb; [|done].
    assert (#(x * 3 + 1)%uint63 = #x * 3 + 1)%Z as Hm by lia.
    apply (Hstep _) in H; [done| |lia]. unfold collatz. by destruct (Z.eqb_spec (#x mod 2) 0).
Qed.

(** The table holds the numbers of steps of all starts before the next one. *)
Record table_ok (s : state) : Prop := TableOk {
  memo_length : PArray.length (memo s) = limit;
  next_bounds : (2 <= #(next s) <= 1000000)%Z;
  memo_takes m : (1 <= #m < #(next s))%Z → takes #m #((memo s).[m]);
  memo_bound m : (1 <= #m < #(next s))%Z → (#((memo s).[m]) <= 524)%Z;
  sum_memo : #(sum s) = zsum (map (λ m, #((memo s).[of_Z m])) (seqZ 1 (#(next s) - 1)))
}.

Lemma to_of_Z m : (0 <= m <= 1000000)%Z → #(of_Z m) = m.
Proof. intros Hm. rewrite of_Z_spec. apply Z.mod_small. split; [lia|]. change wB with (2 ^ 63)%Z. lia. Qed.

Lemma table_start : table_ok (State (make limit 0%uint63) 2%uint63 0%uint63).
Proof.
  constructor; cbn [memo next sum].
  - by rewrite length_make.
  - done.
  - intros m Hm. rewrite get_make. replace #m with 1%Z by (change #(2%uint63) with 2%Z in Hm; lia). constructor.
  - intros m _. by rewrite get_make.
  - change (#(2%uint63) - 1)%Z with 1%Z. change (seqZ 1 1) with [1%Z]. cbn [map]. by rewrite get_make.
Qed.

Lemma limit_value : #limit = 1000000%Z.
Proof. reflexivity. Qed.
Lemma longest_value : #longest = 524%Z.
Proof. reflexivity. Qed.

Lemma table_extend memo next sum steps :
  table_ok (State memo next sum) → takes #next #steps →
  (#steps <= 524)%Z → (#next < 1000000)%Z → (#sum < 2 ^ 60)%Z →
  table_ok (State memo.[next <- steps] (next + 1)%uint63 (sum + steps)%uint63).
Proof.
  intros [Hlen Hnext Ht Hb Hsum] Hsteps H524 Hlimit H60.
  cbn [NumericLoop.memo NumericLoop.next NumericLoop.sum] in *.
  assert (#(next + 1)%uint63 = #next + 1)%Z as Hn1 by lia.
  assert ((next <? PArray.length memo)%uint63 = true) as Hin.
  { rewrite Hlen. apply ltb_spec. by rewrite limit_value. }
  assert (∀ m, (1 <= #m < #next)%Z → memo.[next <- steps].[m] = memo.[m]) as Hold.
  { intros m Hm. apply get_set_other. intros ->. lia. }
  assert (memo.[next <- steps].[next] = steps) as Hnew by by apply get_set_same.
  assert (∀ m, (1 <= #m < #next + 1)%Z → (1 <= #m < #next)%Z ∨ m = next) as Hcases.
  { intros m Hm. destruct (Z.eq_dec #m #next) as [He|]; [right; by apply to_Z_inj|left; lia]. }
  constructor; cbn [NumericLoop.memo NumericLoop.next NumericLoop.sum]; rewrite ?Hn1.
  - by rewrite length_set.
  - lia.
  - intros m [Hlt| ->]%Hcases; [rewrite Hold by done; by apply Ht|by rewrite Hnew].
  - intros m [Hlt| ->]%Hcases; [rewrite Hold by done; by apply Hb|by rewrite Hnew].
  - replace (#next + 1 - 1)%Z with ((#next - 1) + 1)%Z by lia.
    rewrite seqZ_S_r, map_app, zsum_app by lia. cbn [map]. rewrite zsum_cons.
    replace (1 + (#next - 1))%Z with #next by lia. rewrite of_to_Z, Hnew.
    rewrite (map_ext_in _ (λ m, #(memo.[of_Z m]))), <- Hsum; [change (zsum []) with 0%Z; lia|].
    intros m Hm%list_elem_of_In%elem_of_seqZ. rewrite Hold; [done|]. rewrite to_of_Z; lia.
Qed.

(** The fuel of [descend] is a variable here: its value only matters for the table itself. *)
Lemma add_start_ok fuel s s' :
  (Z.of_nat fuel <= 1000)%Z → table_ok s → add_start fuel (Some s) = Some s' →
  table_ok s' ∧ #(next s') = (#(next s) + 1)%Z.
Proof.
  destruct s as [memo next sum]. intros Hfuel Hok H. pose proof Hok as [Hlen Hnext Ht Hb Hsum].
  cbn [NumericLoop.memo NumericLoop.next NumericLoop.sum] in *.
  cbn [add_start] in H. destruct (descend _ _ _ _) as [[x s]|] eqn:Hd; [|done].
  apply descend_takes in Hd as (Hx & Hs0 & Hs & Hd); [|lia..]. rewrite to_Z_0 in *.
  pose proof (Hb x ltac:(lia)) as Hbx. pose proof (takes_nonneg _ _ (Ht x ltac:(lia))) as Hpos.
  assert (#(s + memo.[x])%uint63 = #(memo.[x]) + (#s - 0))%Z as Hsteps by lia.
  destruct (_ && _) eqn:Hc; [|done]. injection H as <-. rewrite !andb_true_iff in Hc.
  destruct Hc as [[Hc1%leb_spec Hc2%ltb_spec] Hc3%ltb_spec].
  rewrite longest_value in Hc1. rewrite limit_value in Hc2.
  split; [|cbn [NumericLoop.next]; lia]. apply table_extend; [done| |done..].
  rewrite Hsteps. apply Hd, Ht. lia.
Qed.

Lemma tabulate_ok fuel starts s :
  (Z.of_nat fuel <= 1000)%Z → tabulate fuel starts = Some s →
  table_ok s ∧ #(next s) = (2 + Zpos starts)%Z.
Proof.
  unfold tabulate. intros Hfuel. revert s. induction starts as [|starts IH] using Pos.peano_ind; intros s.
  - intros H. apply (add_start_ok fuel _ _ Hfuel table_start) in H as [H1 H2]. by rewrite H2.
  - rewrite Pos.iter_succ. destruct (Pos.iter _ _ starts) as [s0|]; [|done].
    destruct (IH s0 eq_refl) as [H1 H2]. intros H.
    apply (add_start_ok fuel _ _ Hfuel H1) in H as [H3 H4]. split; [done|]. rewrite H4, H2. lia.
Qed.

(** The sum of the table of all starts below a million. *)
Definition table_sum (o : option state) : word := match o with Some s => sum s | None => 0%uint63 end.

Lemma table_complete : table_sum (tabulate 1000 999998) = 131434272%uint63.
Proof. vm_compute. reflexivity. Qed.

(** The steps of every start of the program. *)
Lemma all_starts :
  ∃ f : Z → Z, (∀ n, (1 <= n < 1000000)%Z → takes n (f n) ∧ (f n <= 524)%Z) ∧
    zsum (map f (seqZ 1 999999)) = 131434272%Z.
Proof.
  pose proof table_complete as Hsum. destruct (tabulate 1000 999998) as [s|] eqn:Hs.
  - apply tabulate_ok in Hs as [Hok Hn]; [|done]. change (2 + 999998)%Z with 1000000%Z in Hn.
    destruct Hok as [_ _ Ht Hb Hz]. rewrite Hn in *. exists (λ m, #((memo s).[of_Z m])). split.
    + intros n Hn'. assert (#(of_Z n) = n) as He by (apply to_of_Z; lia). split.
      * rewrite <- He at 1. apply Ht. by rewrite He.
      * apply Hb. by rewrite He.
    + change (1000000 - 1)%Z with 999999%Z in Hz. rewrite <- Hz.
      unfold table_sum in Hsum. by rewrite Hsum.
  - apply (f_equal Uint63.to_Z) in Hsum. discriminate Hsum.
Qed.

(** * The program *)

Lemma run_sum fuel limit f :
  (∀ n, (1 <= n < limit)%Z → takes n (f n) ∧ (f n < Z.of_nat fuel)%Z) →
  run fuel limit =
  Some (Ok (lit "Total Collatz steps: " ++ dec (zsum (map f (seqZ 1 (limit - 1)))) ++ [newline])).
Proof.
  intros Hf. unfold run. rewrite (foldP_Ok _ (λ total_steps i, total_steps + f i)%Z).
  - run_partial. rewrite foldl_zsum. done.
  - intros total_steps n Hn%elem_of_seqZ. destruct (Hf n ltac:(lia)) as [H1 H2].
    by rewrite (proj2 (collatz_steps_takes fuel n (f n))).
Qed.

Lemma numeric_loop_main fuel :
  524 < fuel → main fuel = Some (Ok (lit "Total Collatz steps: 131434272" ++ [newline])).
Proof.
  intros Hfuel. destruct all_starts as (f & Hf & Hsum). unfold main. rewrite (run_sum _ _ f).
  - change (1000000 - 1)%Z with 999999%Z. rewrite Hsum. reflexivity.
  - intros n Hn. destruct (Hf n Hn). split; [done|lia].
Qed.

(** C32: The loop of [collatz_steps] returns exactly when the Collatz sequence of its argument
    reaches 1, and then the number of its steps to the first 1; for an argument that is not
    positive it never ends.  For every start of the program it ends within 524 steps, so the
    program ends, and it prints the sum 131434272 that bench_run.py expects. *)
Theorem numeric_loop_correct :
  (∀ start s, (∃ fuel, collatz_steps fuel start = Some (Ok (Z.of_nat s))) ↔
     Nat.iter s collatz start = 1%Z ∧ ∀ k, k < s → Nat.iter k collatz start ≠ 1%Z) ∧
  (∀ start fuel, (start <= 0)%Z → collatz_steps fuel start = None) ∧
  (∀ start, (1 <= start < 1000000)%Z →
     ∃ s, (0 <= s <= 524)%Z ∧ ∀ fuel, 524 < fuel → collatz_steps fuel start = Some (Ok s)) ∧
  (∀ fuel, 524 < fuel → main fuel = Some (Ok (lit "Total Collatz steps: 131434272" ++ [newline]))).
Proof.
  split; [|split; [|split]].
  - intros start s. rewrite <- takes_iter. split.
    + by intros [fuel [H _]%collatz_steps_takes].
    + intros H. exists (S s). apply collatz_steps_takes. split; [done|lia].
  - intros start fuel Hs. destruct (collatz_steps fuel start) as [[r|e]|] eqn:E; [| |done].
    + apply collatz_steps_takes in E as [H%takes_positive _]. lia.
    + by apply loop_Raise in E.
  - intros start Hstart. destruct all_starts as (f & Hf & _). destruct (Hf start Hstart) as [H1 H2].
    exists (f start). split; [split; [by eapply takes_nonneg|done]|].
    intros fuel Hfuel. apply collatz_steps_takes. split; [done|lia].
  - apply numeric_loop_main.
Qed.

Lemma numeric_loop_correct_witness :
  (∃ s, (0 <= s <= 524)%Z ∧ collatz_steps 525 837799 = Some (Ok s)) ∧ collatz_steps 1000 0 = None ∧
  main 600 = Some (Ok (lit "Total Collatz steps: 131434272" ++ [newline])).
Proof.
  destruct numeric_loop_correct as (_ & H1 & H2 & H3). split; [|split].
  - destruct (H2 837799%Z) as (s & Hs & H); [lia|]. exists s. split; [exact Hs|]. apply H. lia.
  - by apply (H1 0%Z 1000).
  - apply H3. lia.
Defined.
