(* ===== verification/Collections.v ===== *)
(** benchmarks/python/array_sum.py, array_ops.py, dict_ops.py, list_ops.py and set_ops.py: loops
    over lists, dictionaries and sets of numbers whose printed sums bench_run.py checks. *)
From S2P Require Import Prelude PyStr PyDict Loops.

(** [f"{label}{number}"] and the end of the line. *)
Definition number_line (label : str) (number : Z) : str := label ++ dec number ++ [newline].

Module ArraySum.

Definition subtotal (arr : list Z) : Z := foldl Z.add 0%Z arr.

Definition run (SIZE ITERATIONS : Z) : str :=
  let arr := seqZ 0 SIZE in
  let total := foldl (λ total _, total + subtotal arr)%Z 0%Z (seqZ 0 ITERATIONS) in
  lit "Completed " ++ dec ITERATIONS ++ number_line (lit " iterations, total: ") total.

Definition main : str := run 1000 10000.

End ArraySum.

Module ArrayOps.

(** [for i in range(SIZE): out[i] = f(i)], into a list of zeros. *)
Definition fill (SIZE : nat) (f : nat → result Z) : result (list Z) :=
  foldM (λ out i, x ← f i; set_item out i x) (replicate SIZE 0%Z) (seq 0 SIZE).

Definition combined (SIZE : nat) (arr1 arr2 : list Z) : result (list Z) :=
  fill SIZE (λ i, x ← get_item arr1 i; y ← get_item arr2 i; Ok (x + y)%Z).

Definition scaled (SIZE : nat) (combined : list Z) : result (list Z) :=
  fill SIZE (λ i, x ← get_item combined i; Ok (x * 3)%Z).

(** One iteration. *)
Definition subtotal (SIZE : nat) (arr1 arr2 : list Z) : result Z :=
  combined ← combined SIZE arr1 arr2;
  scaled ← scaled SIZE combined;
  Ok (foldl Z.add 0%Z scaled).

Definition run (SIZE : nat) (ITERATIONS : Z) : result str :=
  let arr1 := map Z.of_nat (seq 0 SIZE) in
  let arr2 := map (λ i, Z.of_nat i * 2)%Z (seq 0 SIZE) in
  final_sum ← foldM (λ final_sum _, subtotal ← subtotal SIZE arr1 arr2; Ok (final_sum + subtotal)%Z)
                0%Z (seqZ 0 ITERATIONS);
  Ok (lit "Completed " ++ dec ITERATIONS ++ number_line (lit " iterations, final sum: ") final_sum).

Definition main : result str := run 1000 10000.

End ArrayOps.

Module DictOps.

Abbreviation dict := (list (Z * Z)).

(** [for i in range(n): d[i] = i * 7] on an empty dictionary. *)
Definition fill (n : Z) : dict := foldl (λ d i, dset i (i * 7)%Z d) [] (seqZ 0 n).

(** [del d[i]] *)
Fixpoint del_item (k : Z) (d : dict) : result dict :=
  match d with
  | [] => Raise KeyError
  | (k', v) :: d => if decide (k' = k) then Ok d else d ← del_item k d; Ok ((k', v) :: d)
  end.

Definition bench_build (n iters : Z) : dict := foldl (λ _ _, fill n) [] (seqZ 0 iters).

Definition bench_lookup_hit (d : dict) (n iters : Z) : Z :=
  foldl (λ checksum _,
    foldl (λ checksum i, match dget i d with Some v => checksum + v | None => checksum end)%Z
      checksum (seqZ 0 n)) 0%Z (seqZ 0 iters).

Definition bench_lookup_miss (d : dict) (n iters : Z) : Z :=
  foldl (λ misses _,
    foldl (λ misses i, match dget i d with None => misses + 1 | Some _ => misses end)%Z
      misses (seqZ n n)) 0%Z (seqZ 0 iters).

Definition bench_remove (n iters : Z) : result Z :=
  foldM (λ removed _,
    '(_, removed) ← foldM (λ '(d, removed) i, d ← del_item i d; Ok (d, removed + 1)%Z)
                      (fill n, removed) (seqZ 0 n);
    Ok removed) 0%Z (seqZ 0 iters).

Definition bench_iterate (d : dict) (iters : Z) : Z :=
  foldl (λ total _, foldl (λ total '(_, v), total + v)%Z total d) 0%Z (seqZ 0 iters).

Definition run (N : Z) : result str :=
  let d := bench_build N 100 in
  let hit_sum := bench_lookup_hit d N 100 in
  let miss_count := bench_lookup_miss d N 100 in
  rem_count ← bench_remove N 100;
  let iter_sum := bench_iterate d 1000 in
  Ok (lit "build: done" ++ [newline]
      ++ number_line (lit "lookup_hit checksum: ") hit_sum
      ++ number_line (lit "lookup_miss count: ") miss_count
      ++ number_line (lit "remove count: ") rem_count
      ++ number_line (lit "iterate sum: ") iter_sum).

Definition main : result str := run 10000.

End DictOps.

Module ListOps.

Definition len (l : list Z) : Z := Z.of_nat (length l).

Definition make_shuffled (n : Z) : list Z :=
  map (λ i, (i * 1103515245 + 12345) mod n)%Z (seqZ 0 n).

Definition bench_append (n iters : Z) : Z :=
  foldl (λ checksum _, checksum + len (foldl (λ lst i, lst ++ [i]) [] (seqZ 0 n)))%Z 0%Z (seqZ 0 iters).

(** [s[i]] for the first, the middle and the last element. *)
Definition sort_round (shuffled : list Z) : result Z :=
  let s := sort Z.leb shuffled in
  first ← or_raise IndexError (s !! 0);
  middle ← or_raise IndexError (s !! (length s / 2));
  last ← or_raise IndexError (last s);
  Ok (len s + first + middle + last)%Z.

Definition bench_sort (shuffled : list Z) (iters : Z) : result Z :=
  foldM (λ checksum _, x ← sort_round shuffled; Ok (checksum + x)%Z) 0%Z (seqZ 0 iters).

Definition bench_filter (lst : list Z) (iters : Z) : Z :=
  foldl (λ checksum _, checksum + len (filter (λ x, x mod 2 = 0)%Z lst))%Z 0%Z (seqZ 0 iters).

Definition bench_fold (lst : list Z) (iters : Z) : Z :=
  foldl (λ checksum _, checksum + foldl Z.add 0 lst)%Z 0%Z (seqZ 0 iters).

Definition bench_reverse (lst : list Z) (iters : Z) : Z :=
  foldl (λ checksum _, checksum + len (rev lst))%Z 0%Z (seqZ 0 iters).

Definition bench_concat (a b : list Z) (iters : Z) : Z :=
  foldl (λ checksum _, checksum + len (a ++ b))%Z 0%Z (seqZ 0 iters).

Definition run (N : Z) : result str :=
  let append_check := bench_append N 500 in
  sort_check ← bench_sort (make_shuffled N) 200;
  let seq := seqZ 0 N in
  let filter_check := bench_filter seq 500 in
  let fold_check := bench_fold seq 2000 in
  let reverse_check := bench_reverse seq 1000 in
  let half := (N / 2)%Z in
  let concat_check := bench_concat (seqZ 0 half) (seqZ half (N - half)) 1000 in
  Ok (number_line (lit "append checksum: ") append_check
      ++ number_line (lit "sort checksum: ") sort_check
      ++ number_line (lit "filter checksum: ") filter_check
      ++ number_line (lit "fold checksum: ") fold_check
      ++ number_line (lit "reverse checksum: ") reverse_check
      ++ number_line (lit "concat checksum: ") concat_check).

Definition main : result str := run 10000.

End ListOps.

Module SetOps.

Abbreviation set := (gset Z).

Definition len (s : set) : Z := Z.of_nat (size s).

(** [set(range(start, stop))] *)
Definition set_range (start stop : Z) : set := list_to_set (seqZ start (stop - start)).

Definition bench_build (n iters : Z) : set :=
  foldl (λ _ _, foldl (λ s i, {[i]} ∪ s) ∅ (seqZ 0 n)) ∅ (seqZ 0 iters).

Definition bench_contains_hit (s : set) (n iters : Z) : Z :=
  foldl (λ hits _,
    foldl (λ hits i, if decide (i ∈ s) then hits + 1 else hits)%Z hits (seqZ 0 n)) 0%Z (seqZ 0 iters).

Definition bench_contains_miss (s : set) (n iters : Z) : Z :=
  foldl (λ misses _,
    foldl (λ misses i, if decide (i ∉ s) then misses + 1 else misses)%Z misses (seqZ n n))
    0%Z (seqZ 0 iters).

Definition bench_union (a b : set) (iters : Z) : Z :=
  foldl (λ checksum _, checksum + len (a ∪ b))%Z 0%Z (seqZ 0 iters).
Definition bench_intersect (a b : set) (iters : Z) : Z :=
  foldl (λ checksum _, checksum + len (a ∩ b))%Z 0%Z (seqZ 0 iters).
Definition bench_difference (a b : set) (iters : Z) : Z :=
  foldl (λ checksum _, checksum + len (a ∖ b))%Z 0%Z (seqZ 0 iters).

Definition run (N : Z) : str :=
  let s := bench_build N 200 in
  let hits := bench_contains_hit s N 200 in
  let misses := bench_contains_miss s N 200 in
  let union_count := bench_union (set_range 0 5000) (set_range 5000 10000) 500 in
  let c := set_range 0 N in
  let half := (N / 2)%Z in
  let d := set_range half (half + N) in
  let intersect_count := bench_intersect c d 500 in
  let diff_count := bench_difference c d 500 in
  lit "build: done" ++ [newline]
  ++ number_line (lit "contains_hit: ") hits
  ++ number_line (lit "contains_miss: ") misses
  ++ number_line (lit "union: ") union_count
  ++ number_line (lit "intersect: ") intersect_count
  ++ number_line (lit "difference: ") diff_count.

Definition main : str := run 10000.

End SetOps.

(** * Arrays *)

Module ArrayFacts.
Import ArrayOps.

Lemma array_sum_run SIZE ITERATIONS :
  (0 <= SIZE)%Z → (0 <= ITERATIONS)%Z →
  ArraySum.run SIZE ITERATIONS =
  lit "Completed " ++ dec ITERATIONS
  ++ number_line (lit " iterations, total: ") (ITERATIONS * (SIZE * (SIZE - 1) / 2)).
Proof.
  intros Hs Hi. unfold ArraySum.run, ArraySum.subtotal.
  rewrite (rounds _ (foldl Z.add 0%Z (seqZ 0 SIZE))) by done.
  rewrite foldl_add_zsum. pose proof (zsum_seqZ 0 SIZE Hs) as H.
  replace (SIZE * (SIZE - 1))%Z with (zsum (seqZ 0 SIZE) * 2)%Z by lia. by rewrite Z.div_mul.
Qed.

Lemma fill_map SIZE f g :
  (∀ i, i < SIZE → f i = Ok (g i)) → fill SIZE f = Ok (map g (seq 0 SIZE)).
Proof.
  intros Hf. unfold fill.
  destruct (for_range (λ out i, x ← f i; set_item out i x)
    (λ j out, out = map g (seq 0 j) ++ replicate (SIZE - j) 0%Z) SIZE (replicate SIZE 0%Z))
    as (out & -> & ->).
  - by rewrite Nat.sub_0_r.
  - intros j out Hj ->. rewrite Hf by done. cbn [mbind result_bind].
    rewrite set_item_Ok by (rewrite length_app, length_map, length_seq, length_replicate; lia).
    eexists. split; [done|]. rewrite seq_S, map_app, <- (assoc_L (++)).
    replace (SIZE - j) with (S (SIZE - S j)) by lia. cbn [replicate map plus app].
    rewrite insert_app_r_alt by (by rewrite length_map, length_seq).
    by rewrite length_map, length_seq, Nat.sub_diag.
  - by rewrite Nat.sub_diag, app_nil_r.
Qed.

Lemma get_item_map (f : nat → Z) SIZE i : i < SIZE → get_item (map f (seq 0 SIZE)) i = Ok (f i).
Proof.
  intros Hi. apply get_item_Ok. rewrite list_lookup_fmap.
  by rewrite (proj2 (lookup_seq 0 SIZE i i)).
Qed.

Lemma subtotal_sum SIZE :
  subtotal SIZE (map Z.of_nat (seq 0 SIZE)) (map (λ i, Z.of_nat i * 2)%Z (seq 0 SIZE)) =
  Ok (zsum (map (λ i, (Z.of_nat i + Z.of_nat i * 2) * 3)%Z (seq 0 SIZE))).
Proof.
  unfold subtotal, combined, scaled.
  rewrite (fill_map _ _ (λ i, (Z.of_nat i + Z.of_nat i * 2)%Z)).
  2:{ intros i Hi. by rewrite !get_item_map. }
  cbn [mbind result_bind]. rewrite (fill_map _ _ (λ i, (Z.of_nat i + Z.of_nat i * 2) * 3)%Z).
  2:{ intros i Hi. by rewrite get_item_map. }
  cbn [mbind result_bind]. by rewrite foldl_add_zsum.
Qed.

Lemma sum_nine SIZE :
  (2 * zsum (map (λ i, (Z.of_nat i + Z.of_nat i * 2) * 3)%Z (seq 0 SIZE)) =
   9 * (Z.of_nat SIZE * (Z.of_nat SIZE - 1)))%Z.
Proof.
  induction SIZE as [|n IH]; [done|]. rewrite seq_S, map_app, zsum_app. cbn [map plus].
  rewrite zsum_cons. change (zsum []) with 0%Z. lia.
Qed.

Lemma array_ops_run SIZE ITERATIONS :
  (0 <= ITERATIONS)%Z →
  run SIZE ITERATIONS =
  Ok (lit "Completed " ++ dec ITERATIONS
      ++ number_line (lit " iterations, final sum: ")
           (ITERATIONS * (9 * (Z.of_nat SIZE * (Z.of_nat SIZE - 1)) / 2))).
Proof.
  intros Hi. unfold run. erewrite roundsM; [|done|].
  2:{ intros z. by rewrite subtotal_sum. }
  cbn [mbind result_bind]. rewrite <- sum_nine, (Z.mul_comm 2), Z.div_mul by done. done.
Qed.

End ArrayFacts.

(** * Dictionaries *)

Module DictFacts.
Import DictOps.

Definition entries (l : list Z) : list (Z * Z) := map (λ i, (i, i * 7)%Z) l.

Lemma keys_entries l : (entries l).*1 = l.
Proof. induction l as [|i l IH]; [done|]. cbn. f_equal. exact IH. Qed.

Lemma fill_entries n : (0 <= n)%Z → fill n = entries (seqZ 0 n).
Proof.
  intros Hn. unfold fill. pattern n. apply natlike_ind; [done| |done].
  intros k Hk IH. unfold Z.succ. rewrite seqZ_S_r, foldl_app, IH by done. cbn [foldl plus].
  unfold dset. rewrite dupd_keys_new; [by unfold entries; rewrite map_app|].
  rewrite keys_entries, elem_of_seqZ. lia.
Qed.

Lemma bench_build_fill n iters : (0 < iters)%Z → bench_build n iters = fill n.
Proof.
  intros Hi. unfold bench_build. replace iters with ((iters - 1) + 1)%Z by lia.
  by rewrite seqZ_S_r, foldl_app by lia.
Qed.

Lemma dget_fill n i : (0 <= n)%Z → dget i (fill n) = if decide (0 <= i < n)%Z then Some (i * 7)%Z else None.
Proof.
  intros Hn. rewrite fill_entries by done.
  assert (NoDup (entries (seqZ 0 n)).*1) as Hnd by (rewrite keys_entries; apply NoDup_seqZ).
  destruct (decide _) as [Hi|Hi].
  - apply dget_elem; [done|]. apply (list_elem_of_fmap_2 (λ i, (i, i * 7)%Z)). rewrite elem_of_seqZ. lia.
  - destruct (dget i _) as [v|] eqn:E; [|done]. exfalso. apply dget_elem in E; [|done].
    apply (list_elem_of_fmap_2 fst) in E. cbn in E. rewrite keys_entries, elem_of_seqZ in E. lia.
Qed.

Lemma sum_sevens n :
  (0 <= n)%Z → zsum (map (λ i, i * 7)%Z (seqZ 0 n)) = (7 * (n * (n - 1)) / 2)%Z.
Proof.
  intros Hn. pose proof (zsum_scaled_seqZ 7 0 n Hn) as H.
  replace (7 * (n * (n - 1)))%Z with (zsum (map (λ i, i * 7)%Z (seqZ 0 n)) * 2)%Z by lia.
  by rewrite Z.div_mul.
Qed.

Lemma lookup_hit_sum n iters :
  (0 <= n)%Z → (0 <= iters)%Z →
  bench_lookup_hit (fill n) n iters = (iters * (7 * (n * (n - 1)) / 2))%Z.
Proof.
  intros Hn Hi. unfold bench_lookup_hit.
  rewrite <- sum_sevens by done. apply (rounds _ _ _ 0); [done|]. intros z. apply foldl_adds. intros acc i Hin%elem_of_seqZ.
  by rewrite dget_fill, decide_True by lia.
Qed.

Lemma lookup_miss_count n iters :
  (0 <= n)%Z → (0 <= iters)%Z → bench_lookup_miss (fill n) n iters = (iters * n)%Z.
Proof.
  intros Hn Hi. unfold bench_lookup_miss. rewrite (rounds _ n); [done..|].
  intros z. rewrite (foldl_adds _ (λ _, 1%Z)).
  - rewrite zsum_const, length_seqZ. lia.
  - intros acc i Hin%elem_of_seqZ. by rewrite dget_fill, decide_False by lia.
Qed.

(** Deleting the keys in their order empties the dictionary. *)
Lemma delete_all l z :
  foldM (λ '(d, removed) i, d ← del_item i d; Ok (d, removed + 1)%Z) (entries l, z) l =
  Ok ([], z + Z.of_nat (length l))%Z.
Proof.
  revert z. induction l as [|i l IH]; intros z; cbn [foldM entries map length del_item].
  - do 2 f_equal. lia.
  - rewrite decide_True by done. cbn [mbind result_bind]. fold (entries l). rewrite IH.
    do 2 f_equal. lia.
Qed.

Lemma remove_count n iters :
  (0 <= n)%Z → (0 <= iters)%Z → bench_remove n iters = Ok (iters * n)%Z.
Proof.
  intros Hn Hi. unfold bench_remove. erewrite roundsM; [reflexivity|done|].
  intros z. rewrite fill_entries, delete_all, length_seqZ by done. cbn [mbind result_bind].
  by rewrite Z2Nat.id.
Qed.

Lemma iterate_sum n iters :
  (0 <= n)%Z → (0 <= iters)%Z → bench_iterate (fill n) iters = (iters * (7 * (n * (n - 1)) / 2))%Z.
Proof.
  intros Hn Hi. unfold bench_iterate. rewrite fill_entries by done.
  rewrite <- sum_sevens by done. apply (rounds _ _ _ 0); [done|]. intros z. rewrite (foldl_adds _ snd) by (by intros acc []). f_equal. f_equal.
  unfold entries. by rewrite map_map.
Qed.

Lemma dict_ops_run N :
  (0 <= N)%Z →
  run N = Ok (lit "build: done" ++ [newline]
      ++ number_line (lit "lookup_hit checksum: ") (100 * (7 * (N * (N - 1)) / 2))
      ++ number_line (lit "lookup_miss count: ") (100 * N)
      ++ number_line (lit "remove count: ") (100 * N)
      ++ number_line (lit "iterate sum: ") (1000 * (7 * (N * (N - 1)) / 2))).
Proof.
  intros HN. unfold run. rewrite bench_build_fill, lookup_hit_sum, lookup_miss_count by lia.
  rewrite remove_count by lia. cbn [mbind result_bind]. by rewrite iterate_sum by lia.
Qed.

End DictFacts.

(** * Lists *)

Module ListFacts.
Import ListOps.

(** An injective map of a range to itself is a permutation of it. *)
Lemma range_perm (f : Z → Z) n :
  (∀ i, 0 <= i < n → 0 <= f i < n)%Z →
  (∀ i j, 0 <= i < n → 0 <= j < n → f i = f j → i = j)%Z →
  Permutation (map f (seqZ 0 n)) (seqZ 0 n).
Proof.
  intros Hf Hinj. apply submseteq_length_Permutation.
  - apply NoDup_submseteq.
    + apply NoDup_fmap_2_strong; [|apply NoDup_seqZ].
      intros i j Hi%elem_of_seqZ Hj%elem_of_seqZ. apply Hinj; lia.
    + intros k (i & -> & Hi%elem_of_seqZ)%list_elem_of_fmap. apply elem_of_seqZ.
      specialize (Hf i). lia.
  - by rewrite length_map.
Qed.

(** A generator with a multiplier prime to the modulus takes each value once in a period. *)
Lemma congruential_inj a b m i j :
  (0 < m)%Z → Z.gcd m a = 1%Z → (0 <= i < m)%Z → (0 <= j < m)%Z →
  ((i * a + b) mod m = (j * a + b) mod m)%Z → i = j.
Proof.
  intros Hm Hgcd Hi Hj H. assert (m | a * (i - j))%Z as Hd.
  { exists ((i * a + b) / m - (j * a + b) / m)%Z.
    pose proof (Z.div_mod (i * a + b) m ltac:(lia)). pose proof (Z.div_mod (j * a + b) m ltac:(lia)). lia. }
  apply Z.gauss in Hd as [k Hk]; [|done].
  assert (k < 1)%Z by nia. assert (-1 < k)%Z by nia. assert (k = 0)%Z as -> by lia. lia.
Qed.

Section shuffled.

(** The shuffled list when the multiplier, the increment and the size share the factor [g]. *)
Context (g m a b : Z) (g_pos : (0 < g)%Z) (m_pos : (0 < m)%Z) (coprime : Z.gcd m a = 1%Z).

(** The position in the sorted list of the [i]-th element of the shuffled one. *)
Definition position (i : Z) : Z := (g * ((i * a + b) mod m) + i / m)%Z.

Lemma mod_block i : ((i * a + b) mod m = ((i mod m) * a + b) mod m)%Z.
Proof.
  rewrite <- (Z.add_mod_idemp_l (i * a)), <- (Z.add_mod_idemp_l (i mod m * a)) by lia.
  by rewrite Z.mul_mod_idemp_l by lia.
Qed.

Lemma position_perm : Permutation (map position (seqZ 0 (g * m))) (seqZ 0 (g * m)).
Proof.
  assert (∀ i, 0 <= i < g * m → 0 <= i / m < g)%Z as Hdiv.
  { intros i Hi. split; [apply Z.div_pos; lia|]. apply Z.div_lt_upper_bound; lia. }
  apply range_perm.
  - intros i Hi. unfold position. pose proof (Hdiv i Hi).
    pose proof (Z.mod_pos_bound (i * a + b) m m_pos). nia.
  - intros i j Hi Hj H. unfold position in H. pose proof (Hdiv i Hi). pose proof (Hdiv j Hj).
    apply Z.div_mod_unique in H as [Hmod Hquo]; [|by left..].
    rewrite (mod_block i), (mod_block j) in Hmod.
    apply congruential_inj in Hmod; [|done|done|apply Z.mod_pos_bound; lia..].
    rewrite (Z.div_mod i m), (Z.div_mod j m) by lia. congruence.
Qed.

Lemma shuffled_perm :
  Permutation (map (λ i, (i * (g * a) + g * b) mod (g * m))%Z (seqZ 0 (g * m)))
    (map (λ k, g * (k / g))%Z (seqZ 0 (g * m))).
Proof.
  rewrite <- position_perm at 2. rewrite map_map. apply reflexive_eq.
  apply map_ext_in. intros i Hi%list_elem_of_In%elem_of_seqZ. unfold position.
  replace (i * (g * a) + g * b)%Z with (g * (i * a + b))%Z by lia.
  rewrite Z.mul_mod_distr_l by lia. f_equal.
  rewrite (Z.mul_comm g), Z.div_add_l, Z.div_small; [lia| |lia].
  split; [apply Z.div_pos; lia|]. apply Z.div_lt_upper_bound; lia.
Qed.

Lemma monotone_sorted (f : Z → Z) n :
  (∀ i j, (i <= j)%Z → (f i <= f j)%Z) →
  ∀ start, StronglySorted (λ i j, (i <=? j)%Z = true) (map f (seqZ start (Z.of_nat n))).
Proof.
  intros Hf. induction n as [|n IH]; intros start; [constructor|].
  rewrite seqZ_cons by lia. replace (Z.pred (Z.of_nat (S n))) with (Z.of_nat n) by lia.
  cbn [map]. constructor; [apply IH|]. apply Forall_forall. intros k Hk.
  apply list_elem_of_fmap in Hk as (i & -> & Hi%elem_of_seqZ). apply Z.leb_le, Hf. lia.
Qed.

#[export] Instance leb_antisymm : AntiSymm (=) (λ i j, (i <=? j)%Z = true).
Proof. intros i j Hi%Z.leb_le Hj%Z.leb_le. lia. Qed.

Lemma sort_shuffled :
  sort Z.leb (map (λ i, (i * (g * a) + g * b) mod (g * m))%Z (seqZ 0 (g * m))) =
  map (λ k, g * (k / g))%Z (seqZ 0 (g * m)).
Proof.
  apply (StronglySorted_unique (λ i j, (i <=? j)%Z = true)).
  - apply sort_sorted; intros; rewrite ?Z.leb_le in *; lia.
  - rewrite <- (Z2Nat.id (g * m)) by lia. apply monotone_sorted. intros i j Hij.
    pose proof (Z.div_le_mono i j g ltac:(lia) Hij). nia.
  - rewrite <- sort_perm. apply shuffled_perm.
Qed.

(** The first, the middle and the last element of the sorted list. *)
Lemma sort_round_sum :
  sort_round (map (λ i, (i * (g * a) + g * b) mod (g * m))%Z (seqZ 0 (g * m))) =
  Ok (g * m + g * (g * m / 2 / g) + g * ((g * m - 1) / g))%Z.
Proof.
  assert (0 < g * m)%Z as Hn by lia.
  assert (∀ i : Z, (0 <= i < g * m)%Z →
    map (λ k, g * (k / g))%Z (seqZ 0 (g * m)) !! Z.to_nat i = Some (g * (i / g))%Z) as Hat.
  { intros i Hi. rewrite list_lookup_fmap, lookup_seqZ_lt by lia. cbn. do 3 f_equal. lia. }
  unfold sort_round, len. rewrite sort_shuffled. rewrite last_lookup, !length_map, length_seqZ.
  replace (Z.to_nat (g * m) / 2) with (Z.to_nat (g * m / 2)) by (rewrite Z2Nat.inj_div by lia; done).
  replace (pred (Z.to_nat (g * m))) with (Z.to_nat (g * m - 1)) by lia.
  pose proof (Hat 0%Z) as Hfirst. change (Z.to_nat 0) with 0 in Hfirst.
  rewrite Hfirst by lia. rewrite !Hat.
  - cbn [or_raise mbind result_bind]. rewrite Z.div_0_l by lia. f_equal. lia.
  - split; [apply Z.div_pos; lia|]. apply Z.div_lt_upper_bound; lia.
  - lia.
Qed.

End shuffled.

(** The program's own numbers, when they share a factor with the size. *)
Lemma sort_round_shuffled g m a b n :
  (0 < g)%Z → (0 < m)%Z → Z.gcd m a = 1%Z →
  n = (g * m)%Z → 1103515245%Z = (g * a)%Z → 12345%Z = (g * b)%Z →
  sort_round (make_shuffled n) = Ok (n + g * (n / 2 / g) + g * ((n - 1) / g))%Z.
Proof.
  intros Hg Hm Hgcd -> Ha Hb. unfold make_shuffled. rewrite Ha, Hb. by apply sort_round_sum.
Qed.

Lemma append_all (l acc : list Z) : foldl (λ lst i, lst ++ [i]) acc l = acc ++ l.
Proof.
  revert acc. induction l as [|i l IH]; intros acc; cbn; [by rewrite app_nil_r|].
  by rewrite IH, <- (assoc_L (++)).
Qed.

Lemma len_seqZ start n : (0 <= n)%Z → len (seqZ start n) = n.
Proof. intros Hn. unfold len. rewrite length_seqZ. lia. Qed.

Lemma len_app l k : len (l ++ k) = (len l + len k)%Z.
Proof. unfold len. rewrite length_app. lia. Qed.

Lemma evens n : (0 <= n)%Z → len (filter (λ x, x mod 2 = 0)%Z (seqZ 0 n)) = ((n + 1) / 2)%Z.
Proof.
  intros Hn. pattern n. apply natlike_ind; [done| |done].
  intros k Hk IH. unfold Z.succ. rewrite seqZ_S_r, filter_app, len_app, IH by done.
  cbn [plus]. rewrite filter_cons, filter_nil. change (0 + k)%Z with k.
  destruct (decide _) as [Heven|Hodd]; [change (len [k]) with 1%Z|change (len []) with 0%Z];
    Z.to_euclidean_division_equations; lia.
Qed.

(** All but the sorting, for any size. *)
Lemma list_ops_run N c :
  (0 <= N)%Z → sort_round (make_shuffled N) = Ok c →
  run N = Ok (number_line (lit "append checksum: ") (500 * N)
      ++ number_line (lit "sort checksum: ") (200 * c)
      ++ number_line (lit "filter checksum: ") (500 * ((N + 1) / 2))
      ++ number_line (lit "fold checksum: ") (2000 * (N * (N - 1) / 2))
      ++ number_line (lit "reverse checksum: ") (1000 * N)
      ++ number_line (lit "concat checksum: ") (1000 * N)).
Proof.
  intros HN Hc. pose proof (Z.div_mod N 2 ltac:(lia)) as Hhalf.
  pose proof (Z.mod_pos_bound N 2 ltac:(lia)) as Hmod.
  unfold run, bench_append, bench_sort, bench_filter, bench_fold, bench_reverse, bench_concat.
  erewrite roundsM; [|lia|intros z; by rewrite Hc]. cbn [mbind result_bind].
  rewrite !(rounds (λ acc, acc + _)%Z _ _ 0) by (lia || done).
  rewrite append_all. cbn [app]. rewrite evens, foldl_add_zsum, len_app, !len_seqZ by lia. unfold len. rewrite length_rev, length_seqZ, Z2Nat.id by done.
  pose proof (zsum_seqZ 0 N HN) as H.
  replace (N * (N - 1))%Z with (zsum (seqZ 0 N) * 2)%Z by lia. rewrite Z.div_mul by done.
  replace (N / 2 + (N - N / 2))%Z with N by lia. done.
Qed.

End ListFacts.

(** * Sets *)

Module SetFacts.
Import SetOps.

Lemma add_all (l : list Z) (s : gset Z) : foldl (λ s i, {[i]} ∪ s) s l = list_to_set l ∪ s.
Proof.
  revert s. induction l as [|i l IH]; intros s; cbn [foldl list_to_set]; [set_solver|].
  rewrite IH. set_solver.
Qed.

Lemma elem_of_set_range start stop k : k ∈ set_range start stop ↔ (start <= k < stop)%Z.
Proof. unfold set_range. rewrite elem_of_list_to_set, elem_of_seqZ. lia. Qed.

Lemma len_set_range start stop : (start <= stop)%Z → len (set_range start stop) = (stop - start)%Z.
Proof.
  intros H. unfold len, set_range.
  rewrite size_list_to_set by apply NoDup_seqZ. rewrite length_seqZ. lia.
Qed.

(** A set of numbers is determined by the range it holds. *)
Lemma set_range_eq (s : gset Z) start stop :
  (∀ k, k ∈ s ↔ (start <= k < stop)%Z) → s = set_range start stop.
Proof. intros H. apply set_eq. intros k. by rewrite H, elem_of_set_range. Qed.

Lemma bench_build_range n iters : (0 < iters)%Z → bench_build n iters = set_range 0 n.
Proof.
  intros Hi. unfold bench_build. replace iters with ((iters - 1) + 1)%Z by lia.
  rewrite seqZ_S_r, foldl_app by lia. cbn [foldl]. rewrite add_all. unfold set_range.
  rewrite Z.sub_0_r. set_solver.
Qed.

Lemma contains_hit_count n iters :
  (0 <= n)%Z → (0 <= iters)%Z → bench_contains_hit (set_range 0 n) n iters = (iters * n)%Z.
Proof.
  intros Hn Hi. unfold bench_contains_hit. apply (rounds _ _ _ 0); [done|]. intros z.
  rewrite (foldl_adds _ (λ _, 1%Z)); [rewrite zsum_const, length_seqZ; lia|].
  intros acc i Hin%elem_of_seqZ. rewrite decide_True; [done|]. apply elem_of_set_range. lia.
Qed.

Lemma contains_miss_count n iters :
  (0 <= n)%Z → (0 <= iters)%Z → bench_contains_miss (set_range 0 n) n iters = (iters * n)%Z.
Proof.
  intros Hn Hi. unfold bench_contains_miss. apply (rounds _ _ _ 0); [done|]. intros z.
  rewrite (foldl_adds _ (λ _, 1%Z)); [rewrite zsum_const, length_seqZ; lia|].
  intros acc i Hin%elem_of_seqZ. rewrite decide_True; [done|]. rewrite elem_of_set_range. lia.
Qed.

Lemma len_union a b c :
  (a <= b <= c)%Z → len (set_range a b ∪ set_range b c) = (c - a)%Z.
Proof.
  intros H. rewrite (set_range_eq (set_range a b ∪ set_range b c) a c); [by apply len_set_range; lia|].
  intros k. rewrite elem_of_union, !elem_of_set_range. lia.
Qed.

Lemma len_intersection a b c d :
  (a <= b <= c)%Z → (c <= d)%Z → len (set_range a c ∩ set_range b d) = (c - b)%Z.
Proof.
  intros H Hd. rewrite (set_range_eq (set_range a c ∩ set_range b d) b c); [by apply len_set_range; lia|].
  intros k. rewrite elem_of_intersection, !elem_of_set_range. lia.
Qed.

Lemma len_difference a b c d :
  (a <= b <= c)%Z → (c <= d)%Z → len (set_range a c ∖ set_range b d) = (b - a)%Z.
Proof.
  intros H Hd. rewrite (set_range_eq (set_range a c ∖ set_range b d) a b); [by apply len_set_range; lia|].
  intros k. rewrite elem_of_difference, !elem_of_set_range. lia.
Qed.

Lemma bench_union_sum a b iters : (0 <= iters)%Z → bench_union a b iters = (iters * len (a ∪ b))%Z.
Proof. intros Hi. by apply (rounds _ _ _ 0). Qed.
Lemma bench_intersect_sum a b iters : (0 <= iters)%Z → bench_intersect a b iters = (iters * len (a ∩ b))%Z.
Proof. intros Hi. by apply (rounds _ _ _ 0). Qed.
Lemma bench_difference_sum a b iters : (0 <= iters)%Z → bench_difference a b iters = (iters * len (a ∖ b))%Z.
Proof. intros Hi. by apply (rounds _ _ _ 0). Qed.

Lemma set_ops_run N :
  (0 <= N)%Z →
  run N = lit "build: done" ++ [newline]
  ++ number_line (lit "contains_hit: ") (200 * N)
  ++ number_line (lit "contains_miss: ") (200 * N)
  ++ number_line (lit "union: ") (500 * (10000 - 0))
  ++ number_line (lit "intersect: ") (500 * (N - N / 2))
  ++ number_line (lit "difference: ") (500 * (N / 2 - 0)).
Proof.
  intros HN. pose proof (Z.div_mod N 2 ltac:(lia)) as Hhalf.
  pose proof (Z.mod_pos_bound N 2 ltac:(lia)) as Hmod.
  unfold run. rewrite bench_build_range, contains_hit_count, contains_miss_count by lia.
  rewrite bench_union_sum, bench_intersect_sum, bench_difference_sum by lia.
  rewrite len_union, len_intersection, len_difference by lia. reflexivity.
Qed.

End SetFacts.

(** * The sizes of the programs *)

Lemma array_sum_main :
  ArraySum.main = lit "Completed 10000 iterations, total: 4995000000" ++ [newline].
Proof. unfold ArraySum.main. rewrite ArrayFacts.array_sum_run by done. vm_compute. reflexivity. Qed.

Lemma array_ops_main :
  ArrayOps.main = Ok (lit "Completed 10000 iterations, final sum: 44955000000" ++ [newline]).
Proof.
  unfold ArrayOps.main. rewrite ArrayFacts.array_ops_run by done.
  vm_compute. reflexivity.
Qed.

Lemma dict_ops_main :
  DictOps.main = Ok (lit "build: done" ++ [newline]
    ++ lit "lookup_hit checksum: 34996500000" ++ [newline] ++ lit "lookup_miss count: 1000000" ++ [newline]
    ++ lit "remove count: 1000000" ++ [newline] ++ lit "iterate sum: 349965000000" ++ [newline]).
Proof. unfold DictOps.main. rewrite DictFacts.dict_ops_run by done. vm_compute. reflexivity. Qed.

(** The sorted list is 0, 0, 0, 0, 0, 5, ..., 9995: multiplier and increment are multiples of
    five, and 220703049 is prime to 2000. *)
Lemma sort_round_main : ListOps.sort_round (ListOps.make_shuffled 10000) = Ok 24995%Z.
Proof.
  rewrite (ListFacts.sort_round_shuffled 5 2000 220703049 2469); [vm_compute; reflexivity|done..].
Qed.

Lemma list_ops_main :
  ListOps.main = Ok (lit "append checksum: 5000000" ++ [newline] ++ lit "sort checksum: 4999000" ++ [newline]
    ++ lit "filter checksum: 2500000" ++ [newline] ++ lit "fold checksum: 99990000000" ++ [newline]
    ++ lit "reverse checksum: 10000000" ++ [newline] ++ lit "concat checksum: 10000000" ++ [newline]).
Proof. unfold ListOps.main. rewrite (ListFacts.list_ops_run 10000 24995 ltac:(done) sort_round_main). vm_compute. reflexivity. Qed.

Lemma set_ops_main :
  SetOps.main = lit "build: done" ++ [newline] ++ lit "contains_hit: 2000000" ++ [newline]
    ++ lit "contains_miss: 2000000" ++ [newline] ++ lit "union: 5000000" ++ [newline]
    ++ lit "intersect: 2500000" ++ [newline] ++ lit "difference: 2500000" ++ [newline].
Proof. unfold SetOps.main. rewrite SetFacts.set_ops_run by done. vm_compute. reflexivity. Qed.
