(* ===== verification/StringOps.v ===== *)
(** benchmarks/python/string.py: loops over one text that search, replace, cut, split and change
    it, and add up the lengths of the results. *)
From S2P Require Import Prelude PyStr PyFloat Loops Collections.

(** * The methods of [str] that the program calls *)

(** [s.count(needle)]: an empty text occurs around every character. *)
Definition count (needle s : str) : Z :=
  match needle with [] => Z.of_nat (length s) + 1 | _ => Z.of_nat (count_sub needle s) end.

(** [s.replace(old, new)]: an empty text is replaced around every character. *)
Definition replace (old new s : str) : str :=
  match old with
  | [] => new ++ concat (map (λ c, c :: new) s)
  | _ => join new (split_on old s)
  end.

(** [s.split(delim)] *)
Definition split (delim s : str) : result (list str) :=
  match delim with [] => Raise ValueError | _ => Ok (split_on delim s) end.

(** [s.upper()] as a list of code points, since it can leave the first 256: the small letters of
    ASCII and of Latin-1 (224 to 254 but the division sign 247) have their capital 32 places in
    front; the micro sign becomes the Greek letter 924 and the y with two dots 376; and the sharp
    s becomes two letters S. *)
Definition upper_char (c : ascii) : list Z :=
  let n := code c in
  if ((97 <=? n) && (n <=? 122)) || ((224 <=? n) && (n <=? 254) && negb (n =? 247))
  then [Z.of_nat n - 32]%Z
  else if n =? 181 then [924]%Z
  else if n =? 255 then [376]%Z
  else if n =? 223 then [83; 83]%Z
  else [Z.of_nat n].
Definition upper (s : str) : list Z := concat (map upper_char s).

Definition len {A} (l : list A) : Z := Z.of_nat (length l).

(** [s[start:start + width]] *)
Definition window (start width : Z) (s : str) : str :=
  slice (Z.to_nat start) (Z.to_nat (start + width)) s.

(** * The program *)

Definition test_string : str :=
  lit "The quick brown fox jumps over the lazy dog. This is a test string for benchmarking purposes.".
Definition chain_string : str :=
  lit "   The quick brown fox jumps over the lazy dog. This is a test string for benchmarking purposes.   ".

Definition bench_count (s needle : str) (iters : Z) : Z :=
  foldl (λ total _, total + count needle s)%Z 0%Z (seqZ 0 iters).

Definition bench_contains (s needle : str) (iters : Z) : Z :=
  foldl (λ total _, if contains needle s then total + 1 else total)%Z 0%Z (seqZ 0 iters).

Definition bench_replace (s old new : str) (iters : Z) : Z :=
  foldl (λ total _, let result := replace old new s in total + len result)%Z 0%Z (seqZ 0 iters).

Definition bench_substring (s : str) (iters : Z) : Z :=
  foldl (λ total i, let start := i mod 16 in let result := window start 24 s in total + len result)%Z
    0%Z (seqZ 0 iters).

Definition bench_split (s delim : str) (iters : Z) : result Z :=
  foldM (λ total _, parts ← split delim s; Ok (total + len parts)%Z) 0%Z (seqZ 0 iters).

Definition bench_upper (s : str) (iters : Z) : Z :=
  foldl (λ total _, let result := upper s in total + len result)%Z 0%Z (seqZ 0 iters).

Definition bench_lower (s : str) (iters : Z) : Z :=
  foldl (λ total _, let result := lower s in total + len result)%Z 0%Z (seqZ 0 iters).

Definition bench_reverse (s : str) (iters : Z) : Z :=
  foldl (λ total _, let reversed := rev s in total + len reversed)%Z 0%Z (seqZ 0 iters).

Definition bench_trim (iters : Z) : Z :=
  let padded := lit "   hello world   " in
  foldl (λ total _, let trimmed := strip padded in total + len trimmed)%Z 0%Z (seqZ 0 iters).

Definition bench_chain_window_replace (s : str) (iters : Z) : Z :=
  foldl (λ total i,
    let start := i mod 16 in
    let result := replace (lit " ") (lit "_") (window start 40 (strip s)) in
    total + len result)%Z 0%Z (seqZ 0 iters).

Definition bench_chain_case_replace (s : str) (iters : Z) : Z :=
  foldl (λ total _,
    let result := upper (replace (lit "the") (lit "a") (lower s)) in total + len result)%Z
    0%Z (seqZ 0 iters).

Definition bench_chain_trim_reverse (iters : Z) : Z :=
  let padded := lit "   hello world   " in
  foldl (λ total _,
    let result := replace (lit "l") (lit "L") (rev (strip padded)) in total + len result)%Z
    0%Z (seqZ 0 iters).

(** The script; [ITERS] is its constant. *)
Definition run (ITERS : Z) : result str :=
  let s := test_string in
  let head :=
    number_line (lit "count checksum: ") (bench_count s (lit "e") ITERS)
    ++ number_line (lit "contains checksum: ") (bench_contains s (lit "fox") ITERS)
    ++ number_line (lit "replace_same checksum: ") (bench_replace s (lit "the") (lit "THE") ITERS)
    ++ number_line (lit "replace_grow checksum: ") (bench_replace s (lit "dog") (lit "catapult") ITERS)
    ++ number_line (lit "replace_shrink checksum: ")
         (bench_replace s (lit "benchmarking") (lit "bench") ITERS)
    ++ number_line (lit "substring checksum: ") (bench_substring s ITERS) in
  parts ← bench_split s (lit " ") ITERS;
  Ok (head
    ++ number_line (lit "split checksum: ") parts
    ++ number_line (lit "upper checksum: ") (bench_upper s ITERS)
    ++ number_line (lit "lower checksum: ") (bench_lower s ITERS)
    ++ number_line (lit "reverse checksum: ") (bench_reverse s ITERS)
    ++ number_line (lit "trim checksum: ") (bench_trim ITERS)
    ++ number_line (lit "chain_window_replace checksum: ") (bench_chain_window_replace chain_string ITERS)
    ++ number_line (lit "chain_case_replace checksum: ") (bench_chain_case_replace s ITERS)
    ++ number_line (lit "chain_trim_reverse checksum: ") (bench_chain_trim_reverse ITERS)).

Definition main : result str := run 100000.

(** * Counting and replacing *)

(** No way to cut a text at a separator has more parts than the one from the left. *)
Lemma split_on_most sep parts s :
  sep ≠ [] → s = join sep parts → length parts ≤ S (count_sub sep s).
Proof.
  intros Hsep. revert s.
  induction parts as [parts IH] using (induction_ltof1 _ length); unfold ltof in IH.
  intros s ->. destruct parts as [|p [|q parts]]; [cbn; lia..|].
  assert (join sep (p :: q :: parts) = p ++ sep ++ join sep (q :: parts)) as Hs by done.
  destruct (split_first sep (join sep (p :: q :: parts))) as [[a b]|] eqn:E.
  2: { by apply (split_first_None _ _ p (join sep (q :: parts))) in E. }
  rewrite (count_sub_Some _ _ _ _ Hsep E).
  pose proof (split_first_leftmost _ _ _ _ _ _ E Hs) as Hle.
  apply split_first_Some in E. rewrite Hs in E.
  assert (∃ x, b = x ++ join sep (q :: parts)) as [x ->].
  { exists (take (length p - length a) b).
    assert (join sep (q :: parts) = drop (length p - length a) b) as Hd; [|by rewrite Hd, take_drop].
    apply (f_equal (drop (length p + length sep))) in E.
    rewrite !(assoc_L (++)) in E.
    rewrite drop_app_length' in E by (rewrite length_app; lia).
    rewrite drop_app_ge in E by (rewrite length_app; lia).
    rewrite E. f_equal. rewrite length_app. lia. }
  assert (x ++ join sep (q :: parts) = join sep ((x ++ q) :: parts)) as Hx.
  { destruct parts; cbn; by rewrite ?(assoc_L (++)). }
  pose proof (IH ((x ++ q) :: parts) ltac:(cbn; lia) _ Hx). cbn in *. lia.
Qed.

Lemma length_join sep parts :
  parts ≠ [] → length (join sep parts) = length (concat parts) + (length parts - 1) * length sep.
Proof.
  induction parts as [|p parts IH]; [done|]. intros _. destruct parts as [|q parts].
  { cbn. rewrite app_nil_r. lia. }
  cbn [join concat length]. cbn [join concat length] in IH. rewrite !length_app, IH by done.
  rewrite !length_app. cbn. lia.
Qed.

Lemma split_on_parts sep s : length (split_on sep s) = S (count_sub sep s).
Proof. unfold count_sub. pose proof (length_split_on_fuel (length s) sep s). unfold split_on. lia. Qed.

Lemma length_replace old new s :
  len (replace old new s) = (len s + count old s * (len new - len old))%Z.
Proof.
  unfold replace, count, len. destruct old as [|c old].
  - rewrite length_app. induction s as [|a s IH]; cbn [map concat length] in *; [lia|].
    rewrite length_app. cbn [length]. lia.
  - set (sep := c :: old). rewrite <- (join_split_on sep s) at 2.
    assert (split_on sep s ≠ []) as Hne by (intros H; pose proof (split_on_parts sep s); rewrite H in *; done).
    rewrite !length_join, split_on_parts by done. lia.
Qed.

(** * The loops *)

(** The rounds of [range(iters)]. *)
Definition times (iters : Z) : Z := Z.max 0 iters.

Lemma rounds_times (g : Z → Z) c iters :
  (∀ z, g z = (z + c)%Z) → foldl (λ total _, g total) 0%Z (seqZ 0 iters) = (times iters * c)%Z.
Proof.
  intros Hg. unfold times. destruct (Z.le_gt_cases 0 iters) as [H|H].
  - rewrite (rounds g c) by done. rewrite Z.max_r by done. lia.
  - rewrite seqZ_nil, Z.max_l by lia. done.
Qed.

Lemma rounds_index (f : Z → Z) c iters :
  (∀ i, (0 <= i)%Z → f i = c) →
  foldl (λ total i, total + f i)%Z 0%Z (seqZ 0 iters) = (times iters * c)%Z.
Proof.
  intros Hf. rewrite (foldl_adds _ (λ _, c)).
  - rewrite zsum_const, length_seqZ. unfold times. lia.
  - intros total i Hi%elem_of_seqZ. rewrite Hf by lia. done.
Qed.

Lemma bench_contains_times s needle iters :
  bench_contains s needle iters = (times iters * if contains needle s then 1 else 0)%Z.
Proof.
  unfold bench_contains.
  apply (rounds_times (λ total, if contains needle s then total + 1 else total)%Z).
  intros z. destruct (contains needle s); lia.
Qed.

Lemma bench_split_times s c delim iters :
  bench_split s (c :: delim) iters = Ok (times iters * (count (c :: delim) s + 1))%Z.
Proof.
  unfold bench_split. cbn [split mbind result_bind]. unfold times, count.
  destruct (Z.le_gt_cases 0 iters) as [H|H].
  - rewrite (roundsM (λ total, Ok (total + len (split_on (c :: delim) s))%Z)
      (len (split_on (c :: delim) s))) by done.
    rewrite Z.max_r by done. f_equal. unfold len. rewrite split_on_parts. lia.
  - rewrite seqZ_nil, Z.max_l by lia. done.
Qed.

Lemma bench_split_empty s iters :
  bench_split s [] iters = if (0 <? iters)%Z then Raise ValueError else Ok 0%Z.
Proof.
  unfold bench_split. destruct (Z.ltb_spec 0 iters).
  - by rewrite seqZ_cons by done.
  - by rewrite seqZ_nil by done.
Qed.

Lemma length_window start width s :
  (0 <= start)%Z → (0 <= width)%Z → (start + width <= len s)%Z → len (window start width s) = width.
Proof. intros H1 H2 H3. unfold len, window in *. rewrite length_slice. lia. Qed.

Lemma mod_16 i : (0 <= i mod 16 < 16)%Z.
Proof. apply Z.mod_pos_bound. lia. Qed.

Lemma bench_substring_times s iters :
  (39 <= len s)%Z → bench_substring s iters = (times iters * 24)%Z.
Proof.
  intros Hs. apply (rounds_index (λ i, len (window (i mod 16) 24 s))). intros i _.
  pose proof (mod_16 i). apply length_window; lia.
Qed.

Lemma bench_chain_window_times s iters :
  (55 <= len (strip s))%Z → bench_chain_window_replace s iters = (times iters * 40)%Z.
Proof.
  intros Hs.
  apply (rounds_index (λ i, len (replace (lit " ") (lit "_") (window (i mod 16) 40 (strip s))))).
  intros i _. pose proof (mod_16 i). rewrite length_replace, length_window by lia.
  change (len (lit "_") - len (lit " "))%Z with 0%Z. lia.
Qed.

(** * Changes of case *)

Definition sharp_s : ascii := ascii_of_nat 223.

(** How often the sharp s occurs in a text. *)
Definition sharps (s : str) : Z := len (filter (λ c, c = sharp_s) s).

Lemma sharps_app a b : sharps (a ++ b) = (sharps a + sharps b)%Z.
Proof. unfold sharps, len. rewrite filter_app, length_app. lia. Qed.

Lemma sharps_cons c s : sharps (c :: s) = ((if decide (c = sharp_s) then 1 else 0) + sharps s)%Z.
Proof. unfold sharps, len. rewrite filter_cons. destruct (decide _); cbn [length]; lia. Qed.

Lemma len_upper_char c : len (upper_char c) = (1 + if decide (c = sharp_s) then 1 else 0)%Z.
Proof. destruct c as [[] [] [] [] [] [] [] []]; reflexivity. Qed.

(** Capitals take one character each, and two for a sharp s. *)
Lemma len_upper s : len (upper s) = (len s + sharps s)%Z.
Proof.
  induction s as [|c s IH]; [done|]. rewrite sharps_cons. unfold upper, len in *. cbn [map concat length].
  rewrite length_app. pose proof (len_upper_char c) as H. unfold len in H. lia.
Qed.

Lemma len_lower s : len (lower s) = len s.
Proof. unfold len, lower. by rewrite length_map. Qed.

Lemma lower_char_sharp c : lower_char c = sharp_s ↔ c = sharp_s.
Proof. destruct c as [[] [] [] [] [] [] [] []]; by vm_compute. Qed.

Lemma sharps_lower s : sharps (lower s) = sharps s.
Proof.
  induction s as [|c s IH]; [done|]. unfold lower in *. cbn [map]. rewrite !sharps_cons, IH.
  by rewrite (decide_ext _ _ _ _ (lower_char_sharp c)).
Qed.

Lemma sharps_none a : sharp_s ∉ a → sharps a = 0%Z.
Proof.
  induction a as [|c a IH]; [done|]. rewrite not_elem_of_cons, sharps_cons. intros [Hc Ha].
  rewrite decide_False by congruence. by rewrite IH.
Qed.

Lemma sharps_join sep parts :
  sharp_s ∉ sep → sharps (join sep parts) = sharps (concat parts).
Proof.
  intros Hsep. induction parts as [|p parts IH]; [done|]. destruct parts as [|q parts].
  { cbn. by rewrite app_nil_r. }
  change (join sep (p :: q :: parts)) with (p ++ sep ++ join sep (q :: parts)).
  change (concat (p :: q :: parts)) with (p ++ concat (q :: parts)).
  rewrite !sharps_app, IH, (sharps_none sep) by done. lia.
Qed.

Lemma sharps_replace old new s :
  old ≠ [] → sharp_s ∉ old → sharp_s ∉ new → sharps (replace old new s) = sharps s.
Proof.
  intros Hne Hold Hnew. unfold replace. destruct old as [|c old]; [done|].
  rewrite sharps_join by done. rewrite <- (join_split_on (c :: old) s) at 2. by rewrite sharps_join.
Qed.

(** The loop bodies that do not depend on the round. *)
Lemma constant_bodies s needle old new iters :
  bench_count s needle iters = (times iters * count needle s)%Z ∧
  bench_replace s old new iters = (times iters * (len s + count old s * (len new - len old)))%Z ∧
  bench_upper s iters = (times iters * (len s + sharps s))%Z ∧
  bench_lower s iters = (times iters * len s)%Z ∧
  bench_reverse s iters = (times iters * len s)%Z ∧
  bench_chain_case_replace s iters =
    (times iters * (len s - 2 * count (lit "the") (lower s) + sharps s))%Z.
Proof.
  split_and!.
  - by apply (rounds_times (λ total, total + count needle s)%Z).
  - rewrite <- length_replace. by apply (rounds_times (λ total, total + len (replace old new s))%Z).
  - apply (rounds_times (λ total, total + len (upper s))%Z). intros z. by rewrite len_upper.
  - apply (rounds_times (λ total, total + len (lower s))%Z). intros z. by rewrite len_lower.
  - apply (rounds_times (λ total, total + len (rev s))%Z).
    intros z. unfold len. by rewrite length_rev.
  - apply (rounds_times (λ total, total + len (upper (replace (lit "the") (lit "a") (lower s))))%Z).
    intros z. rewrite len_upper, length_replace, len_lower.
    rewrite sharps_replace, sharps_lower
      by (discriminate || by apply (proj1 (bool_decide_eq_false (sharp_s ∈ _)))).
    change (len (lit "a") - len (lit "the"))%Z with (-2)%Z. lia.
Qed.

Lemma bench_trim_times iters : bench_trim iters = (times iters * 11)%Z.
Proof. by apply (rounds_times (λ total, total + len (strip (lit "   hello world   ")))%Z). Qed.

Lemma bench_chain_trim_times iters : bench_chain_trim_reverse iters = (times iters * 11)%Z.
Proof.
  by apply (rounds_times (λ total,
    total + len (replace (lit "l") (lit "L") (rev (strip (lit "   hello world   ")))))%Z).
Qed.

(** What the script prints. *)
Definition output : str :=
  concat (map (λ line, lit line ++ [newline])
    ["count checksum: 600000"; "contains checksum: 100000"; "replace_same checksum: 9300000";
     "replace_grow checksum: 9800000"; "replace_shrink checksum: 8600000"; "substring checksum: 2400000";
     "split checksum: 1700000"; "upper checksum: 9300000"; "lower checksum: 9300000";
     "reverse checksum: 9300000"; "trim checksum: 1100000"; "chain_window_replace checksum: 4000000";
     "chain_case_replace checksum: 8900000"; "chain_trim_reverse checksum: 1100000"]%string).

Lemma string_main : main = Ok output.
Proof.
  unfold main, run. rewrite bench_contains_times, bench_substring_times by done.
  rewrite (bench_split_times test_string " "%char []), bench_trim_times, bench_chain_trim_times.
  rewrite bench_chain_window_times by done.
  destruct (constant_bodies test_string (lit "e") (lit "the") (lit "THE") 100000) as (-> & -> & -> & -> & -> & ->).
  destruct (constant_bodies test_string [] (lit "dog") (lit "catapult") 100000) as (_ & -> & _).
  destruct (constant_bodies test_string [] (lit "benchmarking") (lit "bench") 100000) as (_ & -> & _).
  vm_compute. reflexivity.
Qed.

(** C37: The checksums of string.py.  [count] is the greatest number of non-overlapping
    occurrences: the text can be cut at that many of them and at no more.  Replacing changes the
    length by that number times the difference of the two texts, splitting gives one part more
    than there are occurrences and raises ValueError for an empty separator, small letters and
    the reversal keep the length, capitals add one for each sharp s (the texts are those of
    Latin-1), every window lies inside the text.  The script prints the checksums that follow. *)
Theorem string_correct s iters :
  (∀ needle, needle ≠ [] →
     (∃ parts, s = join needle parts ∧ len parts = count needle s + 1)%Z ∧
     (∀ parts, s = join needle parts → (len parts <= count needle s + 1)%Z) ∧
     bench_split s needle iters = Ok (times iters * (count needle s + 1))%Z) ∧
  (∀ needle, bench_count s needle iters = (times iters * count needle s)%Z ∧
     (contains needle s = true ↔ ∃ p q, s = p ++ needle ++ q) ∧
     bench_contains s needle iters = (times iters * if contains needle s then 1 else 0)%Z) ∧
  bench_split s [] iters = (if (0 <? iters)%Z then Raise ValueError else Ok 0%Z) ∧
  (∀ old new, bench_replace s old new iters = times iters * (len s + count old s * (len new - len old)))%Z ∧
  (bench_upper s iters = times iters * (len s + sharps s) ∧ bench_lower s iters = times iters * len s ∧
   bench_reverse s iters = times iters * len s)%Z ∧
  bench_chain_case_replace s iters =
    (times iters * (len s - 2 * count (lit "the") (lower s) + sharps s))%Z ∧
  ((39 <= len s)%Z → bench_substring s iters = (times iters * 24)%Z) ∧
  ((55 <= len (strip s))%Z → bench_chain_window_replace s iters = (times iters * 40)%Z) ∧
  main = Ok output.
Proof.
  pose proof (λ needle old new, constant_bodies s needle old new iters) as Hc.
  split_and!.
  - intros needle Hne. destruct needle as [|c needle]; [done|]. split_and!.
    + exists (split_on (c :: needle) s). rewrite join_split_on. split; [done|].
      unfold len. rewrite split_on_parts. cbn [count]. lia.
    + intros parts Hs. pose proof (split_on_most (c :: needle) parts s Hne Hs).
      unfold len. cbn [count]. lia.
    + apply bench_split_times.
  - intros needle. split; [by apply (Hc needle [] [])|split; [apply contains_iff|
      apply bench_contains_times]].
  - apply bench_split_empty.
  - intros old new. apply (Hc [] old new).
  - apply (Hc [] [] []).
  - apply (Hc [] [] []).
  - apply (Hc [] [] []).
  - apply (Hc [] [] []).
  - apply bench_substring_times.
  - apply bench_chain_window_times.
  - apply string_main.
Qed.

(** Both premises on lengths hold of the text with blanks around it. *)
Lemma string_correct_witness :
  bench_substring chain_string 100 = 2400%Z ∧ bench_chain_window_replace chain_string 100 = 4000%Z.
Proof.
  destruct (string_correct chain_string 100) as (_ & _ & _ & _ & _ & _ & H1 & H2 & _).
  split; [apply H1|apply H2]; vm_compute; discriminate.
Defined.
