(* ===== verification/FloatArith.v ===== *)
(** The floats of a program as an interface: the operations [FloatArith], their meaning as
    binary64 numbers [FloatLaws], and two implementations: the numbers of PyFloat themselves, and
    the floats of the processor, which compute the same numbers. *)
From Stdlib Require PrimFloat FloatAxioms FloatOps.
From S2P Require Import Prelude PyStr PyFloat Loops.

(** * The interface *)

Class FloatArith (F : Type) := {
  value : F → float;
  literal : float → F;
  plus : F → F → F;
  minus : F → F → F;
  times : F → F → F;
  quotient : F → F → F;
  root : F → F;
  opposite : F → F;
  below : F → F → bool;
  is_zero : F → bool
}.

(** Numbers in the normal form of the format: [valid x]. *)
Definition valid : float → bool := valid_binary prec emax.

Class FloatLaws (F : Type) `{FloatArith F} := {
  value_literal x : valid x = true → value (literal x) = x;
  value_plus x y : value (plus x y) = fadd (value x) (value y);
  value_minus x y : value (minus x y) = fsub (value x) (value y);
  value_times x y : value (times x y) = fmul (value x) (value y);
  value_quotient x y : value (quotient x y) = fdiv (value x) (value y);
  value_root x : value (root x) = SFsqrt prec emax (value x);
  value_opposite x : value (opposite x) = SFopp (value x);
  below_value x y : below x y = fltb (value x) (value y);
  is_zero_value x : is_zero x = zero_float (value x)
}.

(** * The implementations *)

#[export] Instance binary64 : FloatArith float := {
  value x := x; literal x := x;
  plus := fadd; minus := fsub; times := fmul; quotient := fdiv;
  root := SFsqrt prec emax; opposite := SFopp;
  below := fltb; is_zero := zero_float
}.

#[export] Instance binary64_laws : FloatLaws float.
Proof. by split. Qed.

Definition machine : Type := PrimFloat.float.

Definition machine_arith : FloatArith machine := {|
  value := FloatOps.Prim2SF; literal := FloatOps.SF2Prim;
  plus := PrimFloat.add; minus := PrimFloat.sub; times := PrimFloat.mul; quotient := PrimFloat.div;
  root := PrimFloat.sqrt; opposite := PrimFloat.opp;
  below := PrimFloat.ltb; is_zero x := PrimFloat.eqb x PrimFloat.zero
|}.

#[local] Existing Instance machine_arith.

Lemma machine_laws : FloatLaws machine.
Proof.
  split.
  - apply FloatAxioms.Prim2SF_SF2Prim.
  - apply FloatAxioms.add_spec.
  - apply FloatAxioms.sub_spec.
  - apply FloatAxioms.mul_spec.
  - apply FloatAxioms.div_spec.
  - apply FloatAxioms.sqrt_spec.
  - apply FloatAxioms.opp_spec.
  - apply FloatAxioms.ltb_spec.
  - intros x. cbn. rewrite FloatAxioms.eqb_spec.
    change (FloatOps.Prim2SF PrimFloat.zero) with (S754_zero false). unfold SFeqb, SFcompare.
    by destruct (FloatOps.Prim2SF x) as [[]|[]| |[]].
Qed.

(** * What Python makes of them *)

Section python.
Context `{FloatArith F}.

(** [x / y] *)
Definition py_div (x y : F) : result F := if is_zero y then Raise ZeroDivisionError else Ok (quotient x y).

(** [math.sqrt(x)] *)
Definition py_sqrt (x : F) : result F := if below x (literal (S754_zero false)) then Raise ValueError else Ok (root x).

(** ["%.9f" % x] and the end of the line. *)
Definition float_line (x : F) : str := fixed 9 (value x) ++ [newline].

End python.

(** * Programs do not see the implementation *)

(** An outcome and its image. *)
Lemma hom_bind {A B A' B'} (h : A → A') (k : B → B') (m : result A) (m' : result A') f f' :
  h <$> m = m' → (∀ a, k <$> f a = f' (h a)) → k <$> (m ≫= f) = (m' ≫= f').
Proof. intros <- Hf. destruct m as [a|e]; [apply Hf|done]. Qed.

Lemma fmap_id_result {A} (m : result A) : id <$> m = m.
Proof. by destruct m. Qed.

Lemma hom_foldM {A A' B} (h : A → A') (f : A → B → result A) (f' : A' → B → result A') l a :
  (∀ a b, b ∈ l → h <$> f a b = f' (h a) b) → h <$> foldM f a l = foldM f' (h a) l.
Proof.
  revert a. induction l as [|b l IH]; intros a Hf; [done|].
  cbn [foldM]. eapply hom_bind; [apply Hf; by left|]. intros a'. apply IH.
  intros a'' b' Hb. apply Hf. by right.
Qed.

(** The value of an expression is the expression of the values. *)
Create Rewrite HintDb value.
#[export] Hint Rewrite @value_plus @value_minus @value_times @value_quotient @value_root @value_opposite
  using typeclasses eauto : value.

Section hom.
Context `{FloatLaws F}.

Lemma hom_div x y : value <$> py_div x y = py_div (F := float) (value x) (value y).
Proof.
  unfold py_div. rewrite is_zero_value. cbn [is_zero binary64 quotient].
  destruct (zero_float (value y)); [done|]. cbn. by rewrite value_quotient.
Qed.

Lemma hom_sqrt x : value <$> py_sqrt x = py_sqrt (F := float) (value x).
Proof.
  unfold py_sqrt. rewrite below_value, value_literal by done. cbn [below binary64 literal root].
  destruct (fltb (value x) _); [done|]. cbn. by rewrite value_root.
Qed.

Lemma hom_get l i : value <$> get_item l i = get_item (map value l) i.
Proof.
  unfold get_item. rewrite list_lookup_fmap. by destruct (l !! i).
Qed.

Lemma hom_set l i x : map value <$> set_item l i x = set_item (map value l) i (value x).
Proof.
  unfold set_item. rewrite length_map. destruct (i <? length l); [|done].
  cbn. by rewrite list_fmap_insert.
Qed.

End hom.

(** Go through a program whose steps keep the values. *)
Ltac hom_step :=
  first
    [ rewrite hom_get | rewrite hom_set | rewrite hom_div | rewrite hom_sqrt
    | eapply hom_bind; [|intros ?]
    | progress cbn [fmap result_fmap] | progress autorewrite with value ].
Ltac hom := repeat first [reflexivity | hom_step].
