(* ===== verification/NBody.v ===== *)
(** benchmarks/python/nbody.py: five bodies as seven parallel lists of coordinates, speeds and
    masses, the energy of the system and one step of its motion.  The definitions are over any
    floats of FloatArith, so that the binary64 numbers give their meaning and the floats of the
    processor can run them. *)
From S2P Require Import Prelude PyStr PyFloat Loops FloatArith Sequences.

Record bodies (F : Type) := Bodies {
  bx : list F; by' : list F; bz : list F;
  bvx : list F; bvy : list F; bvz : list F;
  bmass : list F
}.
Arguments Bodies {F} _ _ _ _ _ _ _.
Arguments bx {F} _.
Arguments by' {F} _.
Arguments bz {F} _.
Arguments bvx {F} _.
Arguments bvy {F} _.
Arguments bvz {F} _.
Arguments bmass {F} _.

Definition NBODIES : nat := 5.

(** The pairs of the two nested loops. *)
Definition pairs : list (nat * nat) :=
  seq 0 NBODIES ≫= λ i, map (λ j, (i, j)) (seq (S i) (NBODIES - S i)).

Section program.
Context `{FloatArith F}.

(** A decimal of the source: [m / 10^k]. *)
Definition decimal (m : Z) (k : nat) : F := literal (of_numeral m k).
Definition zero : F := literal (S754_zero false).

(** [math.pi] is the float that prints as 3.141592653589793. *)
Definition SOLAR_MASS : F := times (times (decimal 4 0) (decimal 3141592653589793 15)) (decimal 3141592653589793 15).
Definition DAYS_PER_YEAR : F := decimal 36524 2.

(** Lists of zeros, with the assignments made. *)
Definition init_bodies : bodies F :=
  let year (m : Z) (k : nat) := times (decimal m k) DAYS_PER_YEAR in
  let year_back (m : Z) (k : nat) := times (opposite (decimal m k)) DAYS_PER_YEAR in
  let sun (m : Z) (k : nat) := times (decimal m k) SOLAR_MASS in
  Bodies
    [zero; decimal 4841431442464721 15; decimal 834336671824458 14; decimal 12894369562139131 15;
     decimal 15379697114850917 15]
    [zero; opposite (decimal 11603200440274284 16); decimal 4124798564124305 15;
     opposite (decimal 15111151401698631 15); opposite (decimal 25919314609987964 15)]
    [zero; opposite (decimal 10362204447112311 17); opposite (decimal 4035234171143214 16);
     opposite (decimal 22330757889265573 17); decimal 17925877295037118 17]
    [zero; year 1660076642744037%Z 18; year_back 2767425107268624%Z 18; year 2964601375647616%Z 18;
     year 26806777249038932%Z 19]
    [zero; year 7699011184197404%Z 18; year 4998528012349172%Z 18; year 23784717395948095%Z 19;
     year 1628241700382423%Z 18]
    [zero; year_back 690460016972063%Z 19; year 2304172975737639%Z 20; year_back 2965895685402376%Z 20;
     year_back 9515922545197159%Z 20]
    [SOLAR_MASS; sun 9547919384243266%Z 19; sun 2858859806661308%Z 19; sun 4366244043351563%Z 20;
     sun 5151389020466115%Z 20].

(** The loop over the bodies adds up the momenta. *)
Definition momentum (bv bmass : list F) : result F :=
  foldM (λ p i, v ← get_item bv i; m ← get_item bmass i; Ok (plus p (times v m))) zero (seq 0 NBODIES).

Definition offset_momentum (s : bodies F) : result (bodies F) :=
  px ← momentum (bvx s) (bmass s);
  py ← momentum (bvy s) (bmass s);
  pz ← momentum (bvz s) (bmass s);
  vx ← py_div (opposite px) SOLAR_MASS;
  bvx' ← set_item (bvx s) 0 vx;
  vy ← py_div (opposite py) SOLAR_MASS;
  bvy' ← set_item (bvy s) 0 vy;
  vz ← py_div (opposite pz) SOLAR_MASS;
  bvz' ← set_item (bvz s) 0 vz;
  Ok (Bodies (bx s) (by' s) (bz s) bvx' bvy' bvz' (bmass s)).

(** [dx * dx + dy * dy + dz * dz] *)
Definition square_sum (dx dy dz : F) : F := plus (plus (times dx dx) (times dy dy)) (times dz dz).

Definition difference (b : list F) (i j : nat) : result F :=
  x ← get_item b i; y ← get_item b j; Ok (minus x y).

(** The inner loop of [energy]. *)
Definition bond (s : bodies F) (i : nat) (e : F) (j : nat) : result F :=
  dx ← difference (bx s) i j;
  dy ← difference (by' s) i j;
  dz ← difference (bz s) i j;
  dist ← py_sqrt (square_sum dx dy dz);
  mi ← get_item (bmass s) i;
  mj ← get_item (bmass s) j;
  q ← py_div (times mi mj) dist;
  Ok (minus e q).

Definition energy_of (s : bodies F) (e : F) (i : nat) : result F :=
  m ← get_item (bmass s) i;
  vx ← get_item (bvx s) i;
  vy ← get_item (bvy s) i;
  vz ← get_item (bvz s) i;
  let e := plus e (times (times (decimal 5 1) m) (square_sum vx vy vz)) in
  foldM (bond s i) e (seq (S i) (NBODIES - S i)).

Definition energy (s : bodies F) : result F := foldM (energy_of s) zero (seq 0 NBODIES).

(** [bv[i] -= d * mj * mag] and [bv[j] += d * mi * mag] for one coordinate. *)
Definition slow_down (bv : list F) (i : nat) (d m mag : F) : result (list F) :=
  v ← get_item bv i; set_item bv i (minus v (times (times d m) mag)).
Definition speed_up (bv : list F) (j : nat) (d m mag : F) : result (list F) :=
  v ← get_item bv j; set_item bv j (plus v (times (times d m) mag)).

(** The body of the two nested loops of [advance]. *)
Definition advance_pair (dt : F) (s : bodies F) (ij : nat * nat) : result (bodies F) :=
  let '(i, j) := ij in
  dx ← difference (bx s) i j;
  dy ← difference (by' s) i j;
  dz ← difference (bz s) i j;
  let dist_sq := square_sum dx dy dz in
  dist ← py_sqrt dist_sq;
  mag ← py_div dt (times dist_sq dist);
  mj ← get_item (bmass s) j;
  bvx' ← slow_down (bvx s) i dx mj mag;
  bvy' ← slow_down (bvy s) i dy mj mag;
  bvz' ← slow_down (bvz s) i dz mj mag;
  mi ← get_item (bmass s) i;
  bvx' ← speed_up bvx' j dx mi mag;
  bvy' ← speed_up bvy' j dy mi mag;
  bvz' ← speed_up bvz' j dz mi mag;
  Ok (Bodies (bx s) (by' s) (bz s) bvx' bvy' bvz' (bmass s)).

Definition move (dt : F) (b bv : list F) (i : nat) : result (list F) :=
  x ← get_item b i; v ← get_item bv i; set_item b i (plus x (times dt v)).

Definition move_body (dt : F) (s : bodies F) (i : nat) : result (bodies F) :=
  bx' ← move dt (bx s) (bvx s) i;
  by'' ← move dt (by' s) (bvy s) i;
  bz' ← move dt (bz s) (bvz s) i;
  Ok (Bodies bx' by'' bz' (bvx s) (bvy s) (bvz s) (bmass s)).

Definition advance (dt : F) (s : bodies F) : result (bodies F) :=
  s ← foldM (advance_pair dt) s pairs;
  foldM (move_body dt) s (seq 0 NBODIES).

Definition run (n : Z) : result str :=
  s ← offset_momentum init_bodies;
  e ← energy s;
  s ← foldM (λ s _, advance (decimal 1 2) s) s (seqZ 0 n);
  e' ← energy s;
  Ok (float_line e ++ float_line e').

Definition main (arguments : list str) : result str :=
  n ← size_argument 1000 arguments;
  run n.

End program.

(** * The floats do not matter *)

Section hom.
Context `{FloatLaws F}.

Definition values (s : bodies F) : bodies float :=
  Bodies (map value (bx s)) (map value (by' s)) (map value (bz s))
    (map value (bvx s)) (map value (bvy s)) (map value (bvz s)) (map value (bmass s)).

Lemma value_decimal m k : valid (of_numeral m k) = true → value (decimal (F := F) m k) = decimal m k.
Proof. apply value_literal. Qed.

Lemma value_zero : value (zero (F := F)) = zero.
Proof. by apply value_literal. Qed.

Lemma value_SOLAR_MASS : value (SOLAR_MASS (F := F)) = SOLAR_MASS.
Proof. unfold SOLAR_MASS. autorewrite with value. by rewrite !value_decimal. Qed.

Lemma value_DAYS_PER_YEAR : value (DAYS_PER_YEAR (F := F)) = DAYS_PER_YEAR.
Proof. by apply value_decimal. Qed.

Lemma values_init : values (init_bodies (F := F)) = init_bodies.
Proof.
  unfold values, init_bodies. cbn [bx by' bz bvx bvy bvz bmass map]. autorewrite with value.
  rewrite value_SOLAR_MASS, value_DAYS_PER_YEAR, value_zero. by rewrite !value_decimal.
Qed.

Lemma hom_difference b i j : value <$> difference b i j = difference (F := float) (map value b) i j.
Proof. unfold difference. hom. Qed.

Lemma value_square_sum dx dy dz :
  value (square_sum dx dy dz) = square_sum (F := float) (value dx) (value dy) (value dz).
Proof. unfold square_sum. by autorewrite with value. Qed.

Lemma hom_momentum bv m : value <$> momentum bv m = momentum (F := float) (map value bv) (map value m).
Proof.
  unfold momentum. rewrite <- value_zero. apply hom_foldM. intros p i _. hom.
Qed.

Lemma hom_offset s : values <$> offset_momentum s = offset_momentum (F := float) (values s).
Proof.
  unfold offset_momentum. cbn [values bx by' bz bvx bvy bvz bmass].
  do 3 (eapply hom_bind; [apply hom_momentum|intros ?]). rewrite <- value_SOLAR_MASS. hom.
Qed.

Lemma hom_bond s i e j : value <$> bond s i e j = bond (F := float) (values s) i (value e) j.
Proof.
  unfold bond. cbn [values bx by' bz bvx bvy bvz bmass].
  do 3 (eapply hom_bind; [apply hom_difference|intros ?]). rewrite <- value_square_sum. hom.
Qed.

Lemma hom_energy s : value <$> energy s = energy (F := float) (values s).
Proof.
  unfold energy. rewrite <- value_zero. apply hom_foldM. intros e i _. unfold energy_of.
  cbn [values bx by' bz bvx bvy bvz bmass]. do 4 (eapply hom_bind; [apply hom_get|intros ?]).
  rewrite hom_foldM with (f' := bond (values s) i) by (intros; apply hom_bond).
  autorewrite with value. rewrite value_square_sum, value_decimal by done. done.
Qed.

Lemma hom_slow_down bv i d m mag :
  map value <$> slow_down bv i d m mag = slow_down (F := float) (map value bv) i (value d) (value m) (value mag).
Proof. unfold slow_down. hom. Qed.
Lemma hom_speed_up bv i d m mag :
  map value <$> speed_up bv i d m mag = speed_up (F := float) (map value bv) i (value d) (value m) (value mag).
Proof. unfold speed_up. hom. Qed.
Lemma hom_move dt b bv i :
  map value <$> move dt b bv i = move (F := float) (value dt) (map value b) (map value bv) i.
Proof. unfold move. hom. Qed.

Lemma hom_advance_pair dt s ij :
  values <$> advance_pair dt s ij = advance_pair (F := float) (value dt) (values s) ij.
Proof.
  destruct ij as [i j]. unfold advance_pair. cbn [values bx by' bz bvx bvy bvz bmass].
  do 3 (eapply hom_bind; [apply hom_difference|intros ?]). rewrite <- value_square_sum. cbv zeta.
  eapply hom_bind; [apply hom_sqrt|intros dist].
  eapply hom_bind; [rewrite hom_div; by autorewrite with value|intros mag].
  eapply hom_bind; [apply hom_get|intros mj].
  do 3 (eapply hom_bind; [apply hom_slow_down|intros ?]).
  eapply hom_bind; [apply hom_get|intros mi].
  do 3 (eapply hom_bind; [apply hom_speed_up|intros ?]). done.
Qed.

Lemma hom_advance dt s : values <$> advance dt s = advance (F := float) (value dt) (values s).
Proof.
  unfold advance. eapply hom_bind; [apply hom_foldM; intros; apply hom_advance_pair|].
  intros s'. apply hom_foldM. clear s s'. intros s i _. unfold move_body. cbn [values bx by' bz bvx bvy bvz bmass].
  do 3 (eapply hom_bind; [apply hom_move|intros ?]). done.
Qed.

(** Any lawful floats give the program the same output. *)
Lemma run_any n : run (F := F) n = run (F := float) n.
Proof.
  unfold run. rewrite <- (fmap_id_result (_ ≫= _)). rewrite <- values_init.
  eapply hom_bind; [apply hom_offset|intros s].
  eapply hom_bind; [apply hom_energy|intros e].
  eapply hom_bind; [apply (hom_foldM values)|intros s'].
  { clear s e. intros s i _. rewrite <- value_decimal by done. apply hom_advance. }
  eapply hom_bind; [apply hom_energy|intros e']. done.
Qed.

End hom.

#[local] Existing Instance machine_arith.

(** The default run, on the floats of the processor. *)
Lemma nbody_default :
  main (F := float) [] = Ok (lit "-0.169075164" ++ [newline] ++ lit "-0.169087605" ++ [newline]).
Proof.
  unfold main. cbn [size_argument mbind result_bind].
  pose proof machine_laws as Hlaws. rewrite <- (run_any (F := machine)). vm_compute. reflexivity.
Qed.

(** * One record per body *)

Record vector (F : Type) := Vector { vx : F; vy : F; vz : F }.
Arguments Vector {F} _ _ _.
Arguments vx {F} _.
Arguments vy {F} _.
Arguments vz {F} _.

Record body (F : Type) := Body { position : vector F; velocity : vector F; mass : F }.
Arguments Body {F} _ _ _.
Arguments position {F} _.
Arguments velocity {F} _.
Arguments mass {F} _.

Section reference.
Context `{FloatArith F}.

Definition between (a b : vector F) : vector F :=
  Vector (minus (vx a) (vx b)) (minus (vy a) (vy b)) (minus (vz a) (vz b)).

Definition square (d : vector F) : F := square_sum (vx d) (vy d) (vz d).

(** The speed [v] changed by [d * m * mag]. *)
Definition accelerate (change : F → F → F) (v d : vector F) (m mag : F) : vector F :=
  Vector (change (vx v) (times (times (vx d) m) mag)) (change (vy v) (times (times (vy d) m) mag))
    (change (vz v) (times (times (vz d) m) mag)).

(** Two bodies attract each other; the sum of squares and the root divide the step. *)
Definition attract (dt : F) (a b : body F) : result (body F * body F) :=
  let d := between (position a) (position b) in
  dist ← py_sqrt (square d);
  mag ← py_div dt (times (square d) dist);
  Ok (Body (position a) (accelerate minus (velocity a) d (mass b) mag) (mass a),
      Body (position b) (accelerate plus (velocity b) d (mass a) mag) (mass b)).

Definition drift (dt : F) (b : body F) : body F :=
  let v := velocity b in
  let p := position b in
  Body (Vector (plus (vx p) (times dt (vx v))) (plus (vy p) (times dt (vy v))) (plus (vz p) (times dt (vz v))))
    v (mass b).

Definition attract_pair (dt : F) (l : list (body F)) (ij : nat * nat) : result (list (body F)) :=
  a ← get_item l ij.1;
  b ← get_item l ij.2;
  '(a, b) ← attract dt a b;
  Ok (<[ij.2 := b]> (<[ij.1 := a]> l)).

Definition advance_bodies (dt : F) (l : list (body F)) : result (list (body F)) :=
  l ← foldM (attract_pair dt) l pairs;
  Ok (map (drift dt) l).

(** The parallel lists of a list of bodies. *)
Definition columns (l : list (body F)) : bodies F :=
  Bodies (map (vx ∘ position) l) (map (vy ∘ position) l) (map (vz ∘ position) l)
    (map (vx ∘ velocity) l) (map (vy ∘ velocity) l) (map (vz ∘ velocity) l) (map mass l).

Lemma get_column {B} (f : body F → B) l i : get_item (map f l) i = f <$> get_item l i.
Proof. unfold get_item. rewrite list_lookup_fmap. by destruct (l !! i). Qed.

Lemma column_lookup {B} (f : body F → B) l i a : l !! i = Some a → map f l !! i = Some (f a).
Proof. intros Hi. by rewrite list_lookup_fmap, Hi. Qed.

Lemma set_column {B} (f : body F → B) l i x : i < length l → set_item (map f l) i x = Ok (<[i := x]> (map f l)).
Proof. intros Hi. apply set_item_Ok. by rewrite length_map. Qed.

(** Changing one speed of two bodies in a column. *)
Lemma change_column (f : body F → F) l i j (a b a' b' : body F) d mag :
  i ≠ j → l !! i = Some a → l !! j = Some b →
  f a' = minus (f a) (times (times d (mass b)) mag) → f b' = plus (f b) (times (times d (mass a)) mag) →
  ∃ col, slow_down (map f l) i d (mass b) mag = Ok col ∧
    speed_up col j d (mass a) mag = Ok (map f (<[j := b']> (<[i := a']> l))).
Proof.
  intros Hij Hi Hj Ha Hb. pose proof (lookup_lt_Some _ _ _ Hi). pose proof (lookup_lt_Some _ _ _ Hj).
  eexists. unfold slow_down, speed_up. split.
  - rewrite get_column. unfold get_item. rewrite Hi. cbn. apply set_column. done.
  - unfold get_item. rewrite list_lookup_insert_ne by done. rewrite list_lookup_fmap, Hj. cbn.
    rewrite set_item_Ok by (by rewrite length_insert, length_map).
    by rewrite !list_fmap_insert, Ha, Hb.
Qed.

Lemma difference_column (f : body F → F) l i j a b :
  l !! i = Some a → l !! j = Some b → difference (map f l) i j = Ok (minus (f a) (f b)).
Proof. intros Hi Hj. unfold difference, get_item. by rewrite !list_lookup_fmap, Hi, Hj. Qed.

Lemma difference_missing (f : body F → F) l i j :
  l !! i = None ∨ l !! j = None → difference (map f l) i j = Raise IndexError.
Proof.
  unfold difference, get_item. rewrite !list_lookup_fmap.
  intros [Hn|Hn]; rewrite Hn; [done|]. by destruct (l !! i).
Qed.

Lemma keep_column {B} (f : body F → B) l i j a b a' b' :
  l !! i = Some a → l !! j = Some b → f a' = f a → f b' = f b →
  map f (<[j := b']> (<[i := a']> l)) = map f l.
Proof.
  intros Hi Hj Ha Hb. rewrite !list_fmap_insert, Ha, Hb.
  rewrite (list_insert_id (f <$> l) i) by (by rewrite list_lookup_fmap, Hi).
  apply list_insert_id. by rewrite list_lookup_fmap, Hj.
Qed.

Lemma advance_pair_columns dt l i j :
  i ≠ j → columns <$> attract_pair dt l (i, j) = advance_pair dt (columns l) (i, j).
Proof.
  intros Hij. unfold attract_pair, advance_pair. cbn [columns bx by' bz bvx bvy bvz bmass fst snd].
  destruct (l !! i) as [a|] eqn:Hi.
  2: { rewrite (difference_missing (vx ∘ position)) by (by left). by rewrite (get_item_None l i Hi). }
  rewrite (get_item_Ok l i a Hi). destruct (l !! j) as [b|] eqn:Hj.
  2: { rewrite (difference_missing (vx ∘ position)) by (by right). by rewrite (get_item_None l j Hj). }
  rewrite (get_item_Ok l j b Hj). cbn [mbind result_bind]. unfold attract.
  set (d := between (position a) (position b)). cbv zeta.
  rewrite (difference_column (vx ∘ position) l i j a b Hi Hj : _ = Ok (vx d)).
  rewrite (difference_column (vy ∘ position) l i j a b Hi Hj : _ = Ok (vy d)).
  rewrite (difference_column (vz ∘ position) l i j a b Hi Hj : _ = Ok (vz d)).
  cbn [mbind result_bind]. fold (square d).
  destruct (py_sqrt _) as [dist|e]; [|done]. cbn [mbind result_bind].
  destruct (py_div _ _) as [mag|e]; [|done]. cbn [mbind result_bind fmap result_fmap].
  set (a' := Body (position a) _ _). set (b' := Body (position b) _ _).
  rewrite !(get_item_Ok (map mass l) _ _ (column_lookup mass l _ _ Hi)).
  rewrite !(get_item_Ok (map mass l) _ _ (column_lookup mass l _ _ Hj)). cbn [mbind result_bind].
  destruct (change_column (vx ∘ velocity) l i j a b a' b' (vx d) mag Hij Hi Hj eq_refl eq_refl) as (cx & Hx1 & Hx2).
  destruct (change_column (vy ∘ velocity) l i j a b a' b' (vy d) mag Hij Hi Hj eq_refl eq_refl) as (cy & Hy1 & Hy2).
  destruct (change_column (vz ∘ velocity) l i j a b a' b' (vz d) mag Hij Hi Hj eq_refl eq_refl) as (cz & Hz1 & Hz2).
  rewrite Hx1, Hy1, Hz1. cbn [mbind result_bind]. rewrite Hx2, Hy2, Hz2. cbn [mbind result_bind]. unfold columns.
  rewrite (keep_column (vx ∘ position) l i j a b a' b'), (keep_column (vy ∘ position) l i j a b a' b'),
    (keep_column (vz ∘ position) l i j a b a' b'), (keep_column mass l i j a b a' b') by done. done.
Qed.

Lemma in_pairs ij : ij ∈ pairs → ij.1 < ij.2 < NBODIES.
Proof.
  assert (Forall (λ ij, ij.1 < ij.2 < NBODIES) pairs) as Hall by (repeat constructor; cbn; lia).
  rewrite Forall_forall in Hall. apply Hall.
Qed.

Lemma length_attract_pair dt l ij l' : attract_pair dt l ij = Ok l' → length l' = length l.
Proof.
  unfold attract_pair. intros Hl. apply bind_Ok in Hl as (a & _ & Hl). apply bind_Ok in Hl as (b & _ & Hl).
  apply bind_Ok in Hl as ([a' b'] & _ & [= <-]). by rewrite !length_insert.
Qed.

Lemma move_columns dt l :
  length l = NBODIES → foldM (move_body dt) (columns l) (seq 0 NBODIES) = Ok (columns (map (drift dt) l)).
Proof.
  intros Hl. do 5 (destruct l as [|? l]; [done|]). destruct l; [|done]. reflexivity.
Qed.

Lemma advance_columns dt l :
  length l = NBODIES → advance dt (columns l) = columns <$> advance_bodies dt l.
Proof.
  intros Hl. unfold advance, advance_bodies.
  rewrite <- (hom_foldM columns (attract_pair dt)).
  2: { intros s [i j] Hij%in_pairs. apply advance_pair_columns. cbn in Hij. lia. }
  destruct (foldM (attract_pair dt) l pairs) as [l'|e] eqn:E; [|done]. cbn [fmap result_fmap mbind result_bind].
  apply move_columns. eapply (foldM_inv _ (λ l, length l = NBODIES)); [|exact Hl|exact E].
  intros a ij a' _ Ha H'. by rewrite (length_attract_pair _ _ _ _ H').
Qed.

End reference.

(** * The program *)

(** Over binary64 numbers a sum of squares has a root. *)
Lemma sqrt_square (d : vector float) : py_sqrt (square d) = Ok (SFsqrt prec emax (square d)).
Proof.
  unfold py_sqrt. cbn [below literal root binary64]. rewrite not_negative_fltb.
  unfold square, square_sum. cbn [plus times binary64].
  by rewrite !not_negative_add by auto using not_negative_square, not_negative_add.
Qed.

Lemma attract_outcome dt (a b : body float) :
  let d := between (position a) (position b) in
  let divisor := fmul (square d) (SFsqrt prec emax (square d)) in
  attract dt a b =
  if zero_float divisor then Raise ZeroDivisionError
  else let mag := fdiv dt divisor in
    Ok (Body (position a) (accelerate fsub (velocity a) d (mass b) mag) (mass a),
        Body (position b) (accelerate fadd (velocity b) d (mass a) mag) (mass b)).
Proof.
  cbv zeta. unfold attract. rewrite sqrt_square. cbn [mbind result_bind].
  unfold py_div. cbn [is_zero times quotient binary64]. by destruct (zero_float _).
Qed.

Lemma run_no_steps n :
  (n <= 0)%Z → run (F := float) n = Ok (lit "-0.169075164" ++ [newline] ++ lit "-0.169075164" ++ [newline]).
Proof.
  intros Hn. pose proof machine_laws as Hlaws. rewrite <- (run_any (F := machine)).
  unfold run. rewrite seqZ_nil by done. vm_compute. reflexivity.
Qed.

(** C38: The parallel lists of nbody.py move like one record per body: [advance] on the columns
    of five bodies gives the columns of the bodies that attracted each other pair by pair and then
    moved, or the exception of that.  Two bodies only change each other's speeds, by opposite
    pulls in proportion to the other's mass; the root never fails, and ZeroDivisionError comes
    exactly when the divisor, the rounded product of the squared distance and its root, is zero:
    for equal positions, and also for positions so close that it underflows.  Without steps the
    program prints the energy of the start twice, and with its default of 1000 steps the energies
    -0.169075164 and -0.169087605. *)
Theorem nbody_correct :
  (∀ F (arith : FloatArith F) (dt : F) (l : list (body F)),
     length l = NBODIES → advance dt (columns l) = columns <$> advance_bodies dt l) ∧
  (∀ dt (a b : body float),
     let d := between (position a) (position b) in
     let divisor := fmul (square d) (SFsqrt prec emax (square d)) in
     attract dt a b =
     if zero_float divisor then Raise ZeroDivisionError
     else let mag := fdiv dt divisor in
       Ok (Body (position a) (accelerate fsub (velocity a) d (mass b) mag) (mass a),
           Body (position b) (accelerate fadd (velocity b) d (mass a) mag) (mass b))) ∧
  (∀ n, (n <= 0)%Z → run (F := float) n =
     Ok (lit "-0.169075164" ++ [newline] ++ lit "-0.169075164" ++ [newline])) ∧
  main (F := float) [] = Ok (lit "-0.169075164" ++ [newline] ++ lit "-0.169087605" ++ [newline]).
Proof.
  split; [|split; [|split]].
  - intros F arith dt l. apply advance_columns.
  - apply attract_outcome.
  - apply run_no_steps.
  - apply nbody_default.
Qed.

(** The bodies of the program are the columns of five bodies. *)
Definition system : list (body float) :=
  let s := init_bodies in
  zip_with (λ p '(v, m), Body p v m)
    (zip_with (λ x '(y, z), Vector x y z) (bx s) (zip (by' s) (bz s)))
    (zip (zip_with (λ x '(y, z), Vector x y z) (bvx s) (zip (bvy s) (bvz s))) (bmass s)).

Lemma nbody_correct_witness :
  advance (decimal 1 2) init_bodies = columns <$> advance_bodies (decimal 1 2) system ∧
  run (F := float) (-1) = Ok (lit "-0.169075164" ++ [newline] ++ lit "-0.169075164" ++ [newline]).
Proof.
  destruct nbody_correct as (H1 & _ & H2 & _). split.
  - rewrite <- (H1 float binary64 (decimal 1 2) system eq_refl). f_equal.
  - by apply (H2 (-1)%Z).
Defined.
