(* ===== verification/SpectralNorm.v ===== *)
(** benchmarks/python/spectral_norm.py: the power method on the matrix whose entries are the
    reciprocals of the positive integers, row by row along its diagonals.  [sum] of floats is an
    argument: before Python 3.12 it adds from the left, since then it also carries the rounding
    errors. *)
From S2P Require Import Prelude PyStr PyFloat Loops Sequences.

Definition ONE : float := of_int 1.
Definition ZERO : float := S754_zero false.

(** [sum] of floats before Python 3.12. *)
Definition sum_from_left (terms : list float) : float := foldl fadd ZERO terms.

(** [sum] of floats since: a second number adds up what the additions lose. *)
Definition magnitude (x : float) : float := SFabs x.
Definition finite_float (x : float) : bool :=
  match x with S754_zero _ | S754_finite _ _ _ => true | _ => false end.
Definition compensate (s : float * float) (x : float) : float * float :=
  let '(hi, lo) := s in
  let t := fadd hi x in
  (t, if fleb (magnitude x) (magnitude hi) then fadd lo (fadd (fsub hi t) x)
      else fadd lo (fadd (fsub x t) hi)).
Definition sum_compensated (terms : list float) : float :=
  let '(hi, lo) := foldl compensate (ZERO, ZERO) terms in
  if negb (zero_float lo) && finite_float lo then fadd hi lo else hi.

(** [(i + j) * (i + j + 1) // 2 + i + 1] *)
Definition denominator (i j : nat) : Z :=
  let i := Z.of_nat i in
  let j := Z.of_nat j in
  ((i + j) * (i + j + 1) / 2 + i + 1)%Z.

Definition A (i j : nat) : result float :=
  d ← float_of_int (denominator i j);
  float_ratio ONE d.

Section program.
Context (sum : list float → float).

(** One row: the generator is used up by [sum]. *)
Definition row (n : nat) (entry : nat → result float) (v : list float) : result float :=
  terms ← mapR (λ j, a ← entry j; x ← get_item v j; Ok (fmul a x)) (seq 0 n);
  Ok (sum terms).

Definition mul_Av (n : nat) (v : list float) : result (list float) :=
  mapR (λ i, row n (λ j, A i j) v) (seq 0 n).

Definition mul_Atv (n : nat) (v : list float) : result (list float) :=
  mapR (λ i, row n (λ j, A j i) v) (seq 0 n).

Definition mul_AtAv (n : nat) (v : list float) : result (list float) :=
  u ← mul_Av n v; mul_Atv n u.

(** One round of the ten: [v] and [u]. *)
Definition power_step (n : nat) (vu : list float * list float) : result (list float * list float) :=
  v ← mul_AtAv n vu.2;
  u ← mul_AtAv n v;
  Ok (v, u).

(** The loop that adds up [u[i] * v[i]] or [v[i] * v[i]]. *)
Definition product (n : nat) (u v : list float) : result float :=
  foldM (λ acc i, x ← get_item u i; y ← get_item v i; Ok (fadd acc (fmul x y))) ZERO (seq 0 n).

(** [range(n)] and [[1.0] * n] are empty for a negative [n]. *)
Definition run (n : Z) : result str :=
  let N := Z.to_nat n in
  '(v, u) ← foldM (λ vu _, power_step N vu) ([], replicate N ONE) (seqZ 0 10);
  vBv ← product N u v;
  vv ← product N v v;
  q ← float_ratio vBv vv;
  r ← float_sqrt q;
  Ok (fixed 9 r ++ [newline]).

Definition main (arguments : list str) : result str :=
  n ← size_argument 500 arguments;
  run n.

End program.

(** * The denominators *)

(** The next one is one step up the diagonal, or the start of the next diagonal. *)
Lemma denominator_sum (i j : nat) (s : Z) :
  (Z.of_nat i + Z.of_nat j = s)%Z → (2 * denominator i j = s * (s + 1) + 2 * Z.of_nat i + 2)%Z.
Proof.
  intros <-. unfold denominator. set (s := (Z.of_nat i + Z.of_nat j)%Z).
  assert (2 * (s * (s + 1) / 2) = s * (s + 1))%Z as H; [|lia].
  pose proof (Z.div_mod (s * (s + 1)) 2 ltac:(lia)) as Hd.
  assert ((s * (s + 1)) mod 2 = 0)%Z; [|lia].
  destruct (Z.Even_or_Odd s) as [[k Hk]|[k Hk]]; rewrite Hk.
  - replace (2 * k * (2 * k + 1))%Z with (k * (2 * k + 1) * 2)%Z by lia. apply Z_mod_mult.
  - replace ((2 * k + 1) * (2 * k + 1 + 1))%Z with ((2 * k + 1) * (k + 1) * 2)%Z by lia. apply Z_mod_mult.
Qed.

Lemma denominator_positive i j : (1 <= denominator i j)%Z.
Proof. pose proof (denominator_sum i j _ eq_refl). nia. Qed.

Lemma denominator_next i j :
  denominator (S i) j = (denominator i (S j) + 1)%Z ∧ denominator 0 (S i) = (denominator i 0 + 1)%Z.
Proof.
  pose proof (denominator_sum (S i) j _ eq_refl). pose proof (denominator_sum i (S j) _ eq_refl).
  pose proof (denominator_sum 0 (S i) _ eq_refl). pose proof (denominator_sum i 0 _ eq_refl).
  split; nia.
Qed.

Lemma denominator_onto k : (1 <= k)%Z → ∃ i j, denominator i j = k.
Proof.
  intros Hk. replace k with (Z.of_nat (Z.to_nat (k - 1)) + 1)%Z by lia.
  generalize (Z.to_nat (k - 1)). clear k Hk. intros n. induction n as [|n (i & j & IH)].
  - by exists 0, 0.
  - destruct j as [|j].
    + exists 0, (S i). destruct (denominator_next i 0) as [_ ->]. lia.
    + exists (S i), j. destruct (denominator_next i j) as [-> _]. lia.
Qed.

Lemma denominator_inj i j i' j' : denominator i j = denominator i' j' → i = i' ∧ j = j'.
Proof.
  intros H. pose proof (denominator_sum i j _ eq_refl) as H1. pose proof (denominator_sum i' j' _ eq_refl) as H2.
  set (s := (Z.of_nat i + Z.of_nat j)%Z) in *. set (t := (Z.of_nat i' + Z.of_nat j')%Z) in *.
  assert (s = t) as Hst; [|subst s t; lia].
  destruct (Z.lt_trichotomy s t) as [Hlt|[Heq|Hlt]]; [exfalso|done|exfalso]; nia.
Qed.

(** * No exception *)

(** The vectors of the program: the first number is at least one, none is below zero. *)
Definition vector_ok (n : nat) (v : list float) : Prop :=
  length v = n ∧ Forall (λ x, not_negative x = true) v ∧ ∀ x, v !! 0 = Some x → at_least_one x.

Definition size_ok (n : nat) : Prop := (0 < Z.of_nat n <= 2 ^ 25)%Z.

Lemma A_outcome n i j :
  size_ok n → i < n → j < n →
  ∃ a, A i j = Ok a ∧ not_negative a = true ∧ (i = 0 → j = 0 → at_least_one a).
Proof.
  intros Hn Hi Hj. unfold size_ok in Hn.
  pose proof (denominator_positive i j) as Hpos.
  assert (denominator i j < 2 ^ 53)%Z as Hlt.
  { pose proof (denominator_sum i j _ eq_refl). change (2 ^ 53)%Z with (2 ^ 26 * 2 ^ 26 * 2)%Z.
    change (2 ^ 25)%Z with (33554432)%Z in *. change (2 ^ 26)%Z with (67108864)%Z. nia. }
  destruct (of_int_exact (denominator i j) ltac:(lia)) as (m & e & Hm & _ & _).
  exists (fdiv ONE (S754_finite false m e)). unfold A, float_of_int. rewrite Hm. cbn [mbind result_bind].
  unfold float_ratio. split_and!; [done|by apply not_negative_div|].
  intros -> ->. change (denominator 0 0) with 1%Z in Hm. rewrite <- Hm. vm_compute. discriminate.
Qed.

Lemma foldl_not_negative l x :
  not_negative x = true → Forall (λ x, not_negative x = true) l → not_negative (foldl fadd x l) = true.
Proof.
  intros Hx Hl. revert x Hx. induction Hl as [|y l Hy _ IH]; intros x Hx; [done|].
  apply IH. by apply not_negative_add.
Qed.

Lemma foldl_at_least_one l x :
  at_least_one x → Forall (λ x, not_negative x = true) l → at_least_one (foldl fadd x l).
Proof.
  intros Hx Hl. revert x Hx. induction Hl as [|y l Hy _ IH]; intros x Hx; [done|].
  apply IH. by apply at_least_one_add.
Qed.

Lemma fadd_ZERO x : at_least_one x → at_least_one (fadd ZERO x).
Proof. by destruct x as [[]|[]| |[] m e]. Qed.

Lemma vector_entry n v j :
  vector_ok n v → j < n →
  ∃ x, v !! j = Some x ∧ not_negative x = true ∧ (j = 0 → at_least_one x).
Proof.
  intros (Hl & Hv & H0) Hj. destruct (lookup_lt_is_Some_2 v j ltac:(lia)) as [x Hx].
  exists x. split_and!; [done| |intros ->; by apply H0]. rewrite Forall_lookup in Hv. by eapply Hv.
Qed.

(** The sum of products whose first one is at least one if [first] says so. *)
Lemma row_outcome n (first : Prop) entry v :
  size_ok n → vector_ok n v →
  (∀ j, j < n → ∃ a, entry j = Ok a ∧ not_negative a = true ∧ (first → j = 0 → at_least_one a)) →
  ∃ x, row sum_from_left n entry v = Ok x ∧ not_negative x = true ∧ (first → at_least_one x).
Proof.
  intros Hn Hv Hentry. unfold row.
  destruct (mapR_indexed (λ j, a ← entry j; x ← get_item v j; Ok (fmul a x))
    (λ j t, not_negative t = true ∧ (first → j = 0 → at_least_one t)) (seq 0 n)) as (terms & -> & Hl & Ht).
  { intros i j Hj. apply lookup_seq in Hj as [-> Hj]. rewrite Nat.add_0_l in *.
    destruct (Hentry i Hj) as (a & -> & Ha & Ha0). destruct (vector_entry n v i Hv Hj) as (x & Hx & Hx1 & Hx0).
    rewrite (get_item_Ok _ _ _ Hx). cbn [mbind result_bind]. eexists. split_and!; [done|by apply not_negative_mul|].
    intros Hf Hi. apply at_least_one_mul; auto. }
  cbn [mbind result_bind]. exists (sum_from_left terms). rewrite length_seq in Hl.
  assert (Forall (λ x, not_negative x = true) terms) as Hall.
  { apply Forall_lookup. intros i x Hx. by apply Ht in Hx as [? _]. }
  split_and!; [done|by apply foldl_not_negative|]. intros Hf. unfold size_ok in Hn.
  destruct terms as [|t terms]; [cbn in Hl; lia|]. destruct (Ht 0 t eq_refl) as [_ Ht0].
  apply Forall_cons in Hall as [_ Hall]. cbn [sum_from_left foldl].
  apply foldl_at_least_one; [|done]. apply fadd_ZERO. by apply Ht0.
Qed.

Lemma mul_outcome n (entry : nat → nat → result float) v :
  size_ok n → vector_ok n v →
  (∀ i j, i < n → j < n → ∃ a, entry i j = Ok a ∧ not_negative a = true ∧ (i = 0 → j = 0 → at_least_one a)) →
  ∃ w, mapR (λ i, row sum_from_left n (entry i) v) (seq 0 n) = Ok w ∧ vector_ok n w.
Proof.
  intros Hn Hv Hentry.
  destruct (mapR_indexed (λ i, row sum_from_left n (entry i) v)
    (λ i x, not_negative x = true ∧ (i = 0 → at_least_one x)) (seq 0 n)) as (w & Hw & Hl & HP).
  { intros i k Hk. apply lookup_seq in Hk as [-> Hk]. rewrite Nat.add_0_l in *. apply row_outcome; auto. }
  exists w. split; [done|]. rewrite length_seq in Hl. split_and!; [done| |].
  - apply Forall_lookup. intros i x Hx. by apply HP in Hx as [? _].
  - intros x Hx. apply HP in Hx as [_ Hx]. by apply Hx.
Qed.

Lemma mul_AtAv_outcome n v :
  size_ok n → vector_ok n v → ∃ w, mul_AtAv sum_from_left n v = Ok w ∧ vector_ok n w.
Proof.
  intros Hn Hv. unfold mul_AtAv.
  destruct (mul_outcome n (λ i j, A i j) v Hn Hv) as (u & Hu & Hu'); [intros i j; by apply A_outcome|].
  unfold mul_Av. rewrite Hu. cbn [mbind result_bind].
  apply (mul_outcome n (λ i j, A j i) u Hn Hu'). intros i j Hi Hj.
  destruct (A_outcome n j i Hn Hj Hi) as (a & H1 & H2 & H3). exists a. auto.
Qed.

Lemma power_step_outcome n vu :
  size_ok n → vector_ok n vu.2 →
  ∃ vu', power_step sum_from_left n vu = Ok vu' ∧ vector_ok n vu'.1 ∧ vector_ok n vu'.2.
Proof.
  intros Hn Hu. unfold power_step. destruct (mul_AtAv_outcome n _ Hn Hu) as (v & -> & Hv).
  cbn [mbind result_bind]. destruct (mul_AtAv_outcome n v Hn Hv) as (u & -> & Hu').
  cbn [mbind result_bind]. by exists (v, u).
Qed.

Lemma product_outcome n u v :
  size_ok n → vector_ok n u → vector_ok n v → ∃ x, product n u v = Ok x ∧ at_least_one x.
Proof.
  intros Hn Hu Hv. unfold size_ok in Hn.
  destruct (for_range (λ acc i, x ← get_item u i; y ← get_item v i; Ok (fadd acc (fmul x y)))
    (λ i x, if decide (i = 0) then x = ZERO else at_least_one x) n ZERO) as (x & Hx & HI).
  - done.
  - intros i acc Hi Hacc. destruct (vector_entry n u i Hu Hi) as (a & Ha & Ha1 & Ha0).
    destruct (vector_entry n v i Hv Hi) as (b & Hb & Hb1 & Hb0).
    rewrite (get_item_Ok _ _ _ Ha), (get_item_Ok _ _ _ Hb). eexists. split; [done|].
    cbn [decide]. destruct (decide (i = 0)) as [->|Hne].
    + subst acc. apply fadd_ZERO, at_least_one_mul; auto.
    + apply at_least_one_add; [done|]. by apply not_negative_mul.
  - exists x. split; [done|]. destruct (decide (n = 0)); [lia|done].
Qed.

Lemma start_ok n : vector_ok n (replicate n ONE).
Proof.
  split_and!; [apply length_replicate| |].
  - apply Forall_replicate. reflexivity.
  - intros x Hx. apply lookup_replicate in Hx as [-> _]. vm_compute. discriminate.
Qed.

Lemma power_outcome n k vu :
  size_ok n → (0 < k)%Z → vector_ok n vu.2 →
  ∃ vu', foldM (λ vu _, power_step sum_from_left n vu) vu (seqZ 0 k) = Ok vu' ∧
    vector_ok n vu'.1 ∧ vector_ok n vu'.2.
Proof.
  intros Hn Hk Hu. destruct (foldM_total (λ vu (_ : Z), power_step sum_from_left n vu)
    (λ pre vu, vector_ok n vu.2 ∧ (pre ≠ [] → vector_ok n vu.1)) (seqZ 0 k)) with (a := vu) as (vu' & Hf & H2 & H1).
  - intros pre b suf a _ [Ha _]. destruct (power_step_outcome n a Hn Ha) as (a' & -> & Hv & Hu').
    exists a'. done.
  - done.
  - exists vu'. split_and!; [done| |done]. apply H1. by rewrite seqZ_cons by done.
Qed.

Lemma run_succeeds n :
  (0 < n <= 2 ^ 25)%Z →
  ∃ r, run sum_from_left n = Ok (fixed 9 r ++ [newline]) ∧ not_negative r = true.
Proof.
  intros Hn. unfold run. set (N := Z.to_nat n). assert (size_ok N) as HN by (unfold size_ok; lia).
  destruct (power_outcome N 10 ([], replicate N ONE) HN) as ([v u] & -> & Hv & Hu); [done|apply start_ok|].
  cbn [fst snd] in *. cbn [mbind result_bind].
  destruct (product_outcome N u v HN Hu Hv) as (vBv & -> & HB).
  destruct (product_outcome N v v HN Hv Hv) as (vv & -> & HV). cbn [mbind result_bind].
  pose proof (at_least_one_not_zero _ HV) as Hz. unfold float_ratio.
  assert (not_negative (fdiv vBv vv) = true) as Hq by auto using not_negative_div, at_least_one_not_negative.
  destruct vv as [|s| |s m e]; try done; cbn [mbind result_bind]; unfold float_sqrt;
    rewrite not_negative_fltb, Hq; cbn [negb mbind result_bind]; eexists; (split; [done|]);
    by apply not_negative_sqrt.
Qed.

(** C39: The entries of the matrix are the reciprocals of the positive integers, each of them
    once.  With sums that add from the left, as Python does before 3.12, and a size from 1 to
    2^25 the program ends without an exception and prints the root of a number that is not below
    zero: no vector has an entry below zero, the first entry never falls below one, so the norm
    it divides by is not zero.  With the sums of Python 3.12 and later, which also add up the
    rounding errors, the same is shown for the sizes 1 to 3 only, where the program prints the
    same text.  For a size of zero or less there is nothing to add up, and the program ends with
    ZeroDivisionError, whatever way sums are taken. *)
Theorem spectral_norm_correct :
  (∀ k, (1 <= k)%Z ↔ ∃ i j, denominator i j = k) ∧
  (∀ i j i' j', denominator i j = denominator i' j' → i = i' ∧ j = j') ∧
  (∀ n, (0 < n <= 2 ^ 25)%Z →
     ∃ r, run sum_from_left n = Ok (fixed 9 r ++ [newline]) ∧ not_negative r = true) ∧
  (∀ sum n, (n <= 0)%Z → run sum n = Raise ZeroDivisionError) ∧
  (∀ n, (1 <= n <= 3)%Z → run sum_compensated n = run sum_from_left n) ∧
  run sum_from_left 2 = Ok (lit "1.183350177" ++ [newline]).
Proof.
  split_and!.
  - intros k. split; [apply denominator_onto|]. intros (i & j & <-). apply denominator_positive.
  - apply denominator_inj.
  - apply run_succeeds.
  - intros sum n Hn. unfold run. replace (Z.to_nat n) with 0 by lia. reflexivity.
  - intros n Hn. assert (n = 1 ∨ n = 2 ∨ n = 3)%Z as [->|[->| ->]] by lia; vm_compute; reflexivity.
  - vm_compute. reflexivity.
Qed.

Lemma spectral_norm_correct_witness :
  (∃ r, main sum_from_left [lit "500"] = Ok (fixed 9 r ++ [newline])) ∧
  main sum_compensated [lit "0"] = Raise ZeroDivisionError.
Proof.
  destruct spectral_norm_correct as (_ & _ & H1 & H2 & _). split.
  - destruct (H1 500%Z) as (r & H & _); [lia|]. by exists r.
  - by apply (H2 sum_compensated 0%Z).
Defined.
