(* ===== verification/Mandelbrot.v ===== *)
(** benchmarks/python/mandelbrot.py: the picture of the set, a character for each point that
    says whether fifty rounds stay within the circle of radius two. *)
From S2P Require Import Prelude PyStr PyFloat Loops Sequences.

Definition limit_sq : float := of_int 4.
Definition max_iter : nat := 50.
Definition TWO : float := of_int 2.

(** [zr] and [zi] after one round. *)
Definition iterate (cr ci : float) (z : float * float) : float * float :=
  let '(zr, zi) := z in
  let tr := fadd (fsub (fmul zr zr) (fmul zi zi)) cr in
  let ti := fadd (fmul (fmul TWO zr) zi) ci in
  (tr, ti).

(** [zr * zr + zi * zi > limit_sq] *)
Definition outside (z : float * float) : bool := fltb limit_sq (fadd (fmul z.1 z.1) (fmul z.2 z.2)).

(** The loop over the rounds, left by [break]; the result is [inside]. *)
Fixpoint escape (rounds : nat) (cr ci : float) (z : float * float) : bool :=
  match rounds with
  | O => true
  | S rounds =>
      let z := iterate cr ci z in
      if outside z then false else escape rounds cr ci z
  end.

Definition origin : float * float := (S754_zero false, S754_zero false).

Definition pixel (cr ci : float) : ascii :=
  if escape max_iter cr ci origin then "#"%char else "."%char.

(** [2.0 * k / n - shift] *)
Definition coordinate (n k : Z) (shift : float) : result float :=
  x ← float_of_int k;
  m ← float_of_int n;
  q ← float_ratio (fmul TWO x) m;
  Ok (fsub q shift).

(** The inner loop, over the columns. *)
Definition column (n : Z) (ci : float) (x : Z) : result ascii :=
  cr ← coordinate n x (of_decimal 15 1); Ok (pixel cr ci).

(** One round of the outer loop: the printed row. *)
Definition print_row (n y : Z) : result str :=
  ci ← coordinate n y (of_int 1);
  row ← mapR (column n ci) (seqZ 0 n);
  Ok (row ++ [newline]).

Definition run (n : Z) : result str := rows ← mapR (print_row n) (seqZ 0 n); Ok (concat rows).

Definition main (arguments : list str) : result str :=
  n ← size_argument 200 arguments;
  run n.

(** * The loop against the orbit *)

(** The point after [k] rounds that no [break] ends. *)
Definition orbit (cr ci : float) (k : nat) : float * float := Nat.iter k (iterate cr ci) origin.

Lemma escape_orbit rounds cr ci k :
  escape rounds cr ci (orbit cr ci k) = true ↔
  ∀ i, k < i ≤ k + rounds → outside (orbit cr ci i) = false.
Proof.
  revert k. induction rounds as [|rounds IH]; intros k; cbn [escape].
  - split; [intros _ i Hi; lia|done].
  - change (iterate cr ci (orbit cr ci k)) with (orbit cr ci (S k)).
    destruct (outside (orbit cr ci (S k))) eqn:E.
    + split; [done|]. intros H. rewrite H in E by lia. done.
    + rewrite IH. split; intros H i Hi; [|apply H; lia].
      destruct (decide (i = S k)) as [->|]; [done|]. apply H. lia.
Qed.

Lemma pixel_orbit cr ci :
  pixel cr ci = "#"%char ↔ ∀ k, 1 ≤ k ≤ 50 → outside (orbit cr ci k) = false.
Proof.
  unfold pixel. pose proof (escape_orbit max_iter cr ci 0) as H. change (orbit cr ci 0) with origin in H.
  destruct (escape max_iter cr ci origin).
  - split; [|done]. intros _ k Hk. apply H; [done|]. unfold max_iter. lia.
  - split; [done|]. intros Hall. enough (false = true) by done. apply H. intros i Hi. apply Hall.
    unfold max_iter in Hi. lia.
Qed.

(** * Mirror images *)

(** Opposite numbers, where the sign of a zero does not matter. *)
Definition opposites (x y : float) : Prop := y = SFopp x ∨ (zero_float x = true ∧ zero_float y = true).

Lemma round_opposite s m e l :
  binary_round_aux prec emax (negb s) m e l = SFopp (binary_round_aux prec emax s m e l).
Proof.
  unfold binary_round_aux. destruct (shr_fexp _ _ _ _ _) as [r e1].
  destruct (shr_fexp _ _ _ _ _) as [r2 e2]. destruct (shr_m r2); [done| |done]. by destruct (_ <=? _)%Z.
Qed.

Lemma normalize_opposite m e :
  opposites (binary_normalize prec emax m e false) (binary_normalize prec emax (- m) e false).
Proof.
  destruct m as [|p|p]; [by right|left|left]; cbn [Z.opp]; unfold binary_normalize, binary_round.
  - change (- Zpos p)%Z with (Zneg p). cbv iota beta. destruct (shl_align _ _ _) as [m' e'].
    apply (round_opposite false).
  - change (- Zneg p)%Z with (Zpos p). cbv iota beta. destruct (shl_align _ _ _) as [m' e'].
    apply (round_opposite true).
Qed.

Lemma fmul_opposites a x y : opposites x y → opposites (fmul a x) (fmul a y).
Proof.
  intros [->|[Hx Hy]].
  - left. unfold fmul, SFmul. destruct a as [s|s| |s m e], x as [t|t| |t k f]; cbn [SFopp]; try done;
      rewrite <- ?negb_xorb_r; try done. apply round_opposite.
  - destruct x as [s| | |], y as [t| | |]; try done.
    destruct a as [u|u| |u m e]; unfold fmul, SFmul; [by right|by left|by left|by right].
Qed.

Lemma fmul_square x y : opposites x y → fmul y y = fmul x x.
Proof.
  intros [->|[Hx Hy]].
  - destruct x as [[]|[]| |[] m e]; done.
  - by destruct x as [[]| | |], y as [[]| | |].
Qed.

Lemma fadd_opposites x y c : opposites x y → opposites (fadd x c) (fadd y (SFopp c)).
Proof.
  intros [->|[Hx Hy]].
  - unfold fadd, SFadd. destruct x as [s|s| |s m e], c as [t|t| |t k f]; cbn [SFopp].
    all: try by left. all: try (by destruct s, t; (left + right)).
    set (a := (cond_Zopp s (Zpos (shl_align m e (Z.min e f)).1) + cond_Zopp t (Zpos (shl_align k f (Z.min e f)).1))%Z).
    assert (cond_Zopp (negb s) (Zpos (shl_align m e (Z.min e f)).1)
      + cond_Zopp (negb t) (Zpos (shl_align k f (Z.min e f)).1) = - a)%Z as Ha.
    { subst a. destruct s, t; cbn [negb cond_Zopp]; lia. }
    fold a. rewrite Ha. apply normalize_opposite.
  - destruct x as [s| | |], y as [t| | |]; try done.
    destruct c as [u|u| |u m e]; unfold fadd, SFadd; cbn [SFopp]; [|by left..].
    right. by destruct s, t, u.
Qed.

(** Points with the same real part and opposite imaginary parts. *)
Definition mirrored (z w : float * float) : Prop := w.1 = z.1 ∧ opposites z.2 w.2.

Lemma iterate_mirrored cr ci z w :
  mirrored z w → mirrored (iterate cr ci z) (iterate cr (SFopp ci) w).
Proof.
  destruct z as [zr zi], w as [wr wi]. intros [Hr Hi]. cbn [fst snd] in *. subst wr.
  split; cbn [iterate fst snd].
  - by rewrite (fmul_square zi wi).
  - by apply fadd_opposites, fmul_opposites.
Qed.

Lemma outside_mirrored z w : mirrored z w → outside w = outside z.
Proof. intros [Hr Hi]. unfold outside. by rewrite Hr, (fmul_square z.2 w.2). Qed.

Lemma escape_mirrored rounds cr ci z w :
  mirrored z w → escape rounds cr (SFopp ci) w = escape rounds cr ci z.
Proof.
  revert z w. induction rounds as [|rounds IH]; intros z w Hzw; [done|]. cbn [escape].
  pose proof (iterate_mirrored cr ci z w Hzw) as Hn. rewrite (outside_mirrored _ _ Hn).
  destruct (outside _); [done|]. by apply IH.
Qed.

Lemma pixel_mirrored cr ci : pixel cr (SFopp ci) = pixel cr ci.
Proof.
  unfold pixel. rewrite (escape_mirrored max_iter cr ci origin origin); [done|]. split; [done|by right].
Qed.

(** * The picture *)

Lemma float_of_int_finite z :
  (0 <= z < 2 ^ 53)%Z → ∃ x, float_of_int z = Ok x ∧ (0 < z → zero_float x = false)%Z.
Proof.
  intros Hz. destruct (decide (z = 0)%Z) as [->|Hne]; [by exists (S754_zero false)|].
  destruct (of_int_exact z ltac:(lia)) as (m & e & H & _ & _). unfold float_of_int. rewrite H. eauto.
Qed.

Lemma coordinate_Ok n k shift :
  (0 < n < 2 ^ 53)%Z → (0 <= k < n)%Z → ∃ c, coordinate n k shift = Ok c.
Proof.
  intros Hn Hk. unfold coordinate.
  destruct (float_of_int_finite k ltac:(lia)) as (x & -> & _).
  destruct (float_of_int_finite n ltac:(lia)) as (m & -> & Hm). cbn [mbind result_bind].
  specialize (Hm ltac:(lia)). unfold float_ratio. destruct m; try done; cbn [mbind result_bind]; eauto.
Qed.

(** The column and the row of a point. *)
Definition point (n x y : Z) (c : ascii) : Prop :=
  ∃ cr ci, coordinate n x (of_decimal 15 1) = Ok cr ∧ coordinate n y (of_int 1) = Ok ci ∧ c = pixel cr ci.

Definition row_ok (n y : Z) (row : str) : Prop :=
  length row = Z.to_nat n ∧ ∀ (x : nat) c, row !! x = Some c → point n (Z.of_nat x) y c.

Lemma mapR_seqZ {A} (f : Z → result A) (P : Z → A → Prop) n :
  (∀ k, (0 <= k < n)%Z → ∃ a, f k = Ok a ∧ P k a) →
  ∃ l, mapR f (seqZ 0 n) = Ok l ∧ length l = Z.to_nat n ∧
    ∀ (i : nat) a, l !! i = Some a → P (Z.of_nat i) a.
Proof.
  intros Hf. destruct (mapR_indexed f (λ i, P (Z.of_nat i)) (seqZ 0 n)) as (l & H1 & H2 & H3).
  - intros i k Hk. apply lookup_seqZ in Hk as [-> Hi]. rewrite Z.add_0_l. apply Hf. lia.
  - exists l. by rewrite length_seqZ in H2.
Qed.

(** Rows under their line ends. *)
Lemma rows_of_lines (lines : list str) (P : Z → str → Prop) :
  (∀ (i : nat) line, lines !! i = Some line → ∃ row, line = row ++ [newline] ∧ P (Z.of_nat i) row) →
  ∃ rows, lines = map (λ row, row ++ [newline]) rows ∧ length rows = length lines ∧
    ∀ (i : nat) row, rows !! i = Some row → P (Z.of_nat i) row.
Proof.
  revert P. induction lines as [|line lines IH]; intros P H; [by exists []|].
  destruct (H 0 line eq_refl) as (row & -> & HP).
  destruct (IH (λ z, P (z + 1)%Z)) as (rows & -> & Hl & HPs).
  { intros i line Hi. destruct (H (S i) line Hi) as (row' & -> & HP'). exists row'.
    split; [done|]. by replace (Z.of_nat i + 1)%Z with (Z.of_nat (S i)) by lia. }
  exists (row :: rows). split; [done|]. split; [cbn; lia|].
  intros [|i] row' Hi; [by injection Hi as <-|].
  replace (Z.of_nat (S i)) with (Z.of_nat i + 1)%Z by lia. by apply HPs.
Qed.

Lemma print_row_Ok n y :
  (0 < n < 2 ^ 53)%Z → (0 <= y < n)%Z →
  ∃ row, print_row n y = Ok (row ++ [newline]) ∧ row_ok n y row.
Proof.
  intros Hn Hy. unfold print_row. destruct (coordinate_Ok n y (of_int 1) Hn Hy) as [ci Hci].
  rewrite Hci. cbn [mbind result_bind].
  destruct (mapR_seqZ (column n ci) (λ x c, point n x y c) n)
    as (row & Hrow & Hl & HP).
  { intros x Hx. destruct (coordinate_Ok n x (of_decimal 15 1) Hn Hx) as [cr Hcr].
    exists (pixel cr ci). unfold column. rewrite Hcr. split; [done|]. by exists cr, ci. }
  rewrite Hrow. cbn [mbind result_bind]. by exists row.
Qed.

Lemma column_mirrored n ci x : column n (SFopp ci) x = column n ci x.
Proof.
  unfold column. destruct (coordinate n x (of_decimal 15 1)); cbn [mbind result_bind]; [|reflexivity].
  by rewrite pixel_mirrored.
Qed.

Lemma print_row_mirrored n y y' ci :
  coordinate n y (of_int 1) = Ok ci → coordinate n y' (of_int 1) = Ok (SFopp ci) →
  print_row n y' = print_row n y.
Proof.
  intros H1 H2. unfold print_row. rewrite H1, H2. cbn [mbind result_bind].
  rewrite (mapR_ext _ _ _ (column_mirrored n ci)). reflexivity.
Qed.

(** C40: The picture of mandelbrot.py.  For a size [n] below 2^53 the program ends without an
    exception and prints [n] rows of [n] characters, the one in column [x] of row [y] for the point with those
    coordinates, and nothing if [n] is not positive.  A point is in the set as drawn exactly when
    none of its first fifty rounds, taken without leaving the loop, is outside the circle.  The
    picture of a conjugate point is the same, so rows with opposite coordinates are equal. *)
Theorem mandelbrot_correct :
  (∀ n, (n < 2 ^ 53)%Z → ∃ rows, run n = Ok (concat (map (λ row, row ++ [newline]) rows)) ∧
     length rows = Z.to_nat n ∧
     ∀ (y : nat) row, rows !! y = Some row → row_ok n (Z.of_nat y) row) ∧
  (∀ cr ci, (pixel cr ci = "#"%char ∨ pixel cr ci = "."%char) ∧
     (pixel cr ci = "#"%char ↔ ∀ k, 1 ≤ k ≤ 50 → outside (orbit cr ci k) = false)) ∧
  (∀ cr ci, pixel cr (SFopp ci) = pixel cr ci) ∧
  (∀ n y y' ci, coordinate n y (of_int 1) = Ok ci → coordinate n y' (of_int 1) = Ok (SFopp ci) →
     print_row n y' = print_row n y).
Proof.
  split; [|split; [|split]].
  - intros n Hn. unfold run.
    destruct (mapR_seqZ (print_row n) (λ y line, ∃ row, line = row ++ [newline] ∧ row_ok n y row) n)
      as (lines & -> & Hl & HP).
    { intros y Hy. destruct (print_row_Ok n y) as (row & Hrow & H); [lia..|]. rewrite Hrow. eauto. }
    destruct (rows_of_lines lines (row_ok n) HP) as (rows & -> & Hr & HPr).
    exists rows. split; [done|]. split; [by rewrite Hr|]. exact HPr.
  - intros cr ci. split; [unfold pixel; destruct (escape _ _ _ _); auto|apply pixel_orbit].
  - apply pixel_mirrored.
  - apply print_row_mirrored.
Qed.

Lemma mandelbrot_correct_witness :
  (∃ rows, run 4 = Ok (concat (map (λ row, row ++ [newline]) rows)) ∧ length rows = 4) ∧
  print_row 4 3 = print_row 4 1.
Proof.
  destruct mandelbrot_correct as (H1 & _ & _ & H2). split.
  - destruct (H1 4%Z) as (rows & H & Hl & _); [lia|]. by exists rows.
  - destruct (coordinate 4 1 (of_int 1)) as [ci|e] eqn:E; [|vm_compute in E; discriminate E].
    apply (H2 4%Z 1%Z 3%Z ci E). vm_compute in E. injection E as <-. vm_compute. reflexivity.
Defined.
