(* ===== verification/Expected.v ===== *)
(** The benchmark programs and bench_run.py: what the programs of Recursion and Collections print
    is what [EXPECTED_OUTPUTS] asks for. *)
From S2P Require Import Prelude PyStr Regex BenchRun Loops Recursion NumericLoop Collections.

(** The programs whose output bench_run.py checks, with the arguments of benchmarks/args: what
    each prints, or the exception that ends it.  The loops of numeric_loop get 525 rounds each,
    which are enough. *)
Definition programs : list (str * partial str) :=
  [(lit "fib", total (Ok Recursion.Fib.main));
   (lit "numeric_loop", NumericLoop.main 525);
   (lit "array_sum", total (Ok ArraySum.main));
   (lit "array_ops", total ArrayOps.main);
   (lit "dict_ops", total DictOps.main);
   (lit "list_ops", total ListOps.main);
   (lit "set_ops", total (Ok SetOps.main));
   (lit "binary_trees", total (BinaryTrees.main [lit "15"]))].

(** What a program prints when it does not fail, and what bench_run.py compares it with. *)
Definition prints_expected (row : str * partial str) : Prop :=
  ∃ output, row.2 = Some (Ok output) ∧ expected_output row.1 = Some (compared_output row.1 output).

Lemma fib_main : Recursion.Fib.main = lit "Fib(40) = 102334155" ++ [newline].
Proof. unfold Recursion.Fib.main. rewrite fib_40. vm_compute. reflexivity. Qed.

Lemma binary_trees_main : BinaryTrees.main [lit "15"] = Ok (trees_text 15).
Proof. apply (main_text [lit "15"] 15). vm_compute. reflexivity. Qed.

Lemma all_expected : Forall prints_expected programs.
Proof.
  unfold programs, total. rewrite fib_main, (numeric_loop_main 525) by lia.
  rewrite array_sum_main, array_ops_main, dict_ops_main, list_ops_main,
    set_ops_main, binary_trees_main.
  repeat (apply Forall_cons; split; [eexists; split; [reflexivity|]; vm_compute; reflexivity|]).
  apply Forall_nil. done.
Qed.

(** A finished process with a checked output gets no complaint. *)
Lemma expected_no_mismatch name output text :
  expected_output name = Some (compared_output name output) →
  mismatch name (Completed 0 output text) = None.
Proof. intros H. unfold mismatch. rewrite H. cbn. by rewrite decide_True. Qed.

Lemma other_mismatch name output other text :
  expected_output name = Some (compared_output name output) →
  compared_output name other ≠ compared_output name output →
  is_Some (mismatch name (Completed 0 other text)).
Proof. intros H Hne. unfold mismatch. rewrite H. cbn. by rewrite decide_False. Qed.

(** C31: The Python programs fib, numeric_loop, array_sum, array_ops, dict_ops, list_ops, set_ops and
    binary_trees (run with 15) end without an exception, and bench_run.py accepts exactly their
    output: a process that exits with status 0, printed it and reported a time gives a sample
    with that time and nothing on stderr, and a process that printed anything else (up to the
    blanks of binary_trees) is refused with status 125. *)
Theorem programs_accepted name program :
  (name, program) ∈ programs →
  ∃ output, program = Some (Ok output) ∧
  ∀ process command w text m elapsed,
    last_match BENCH_RE text = Some m → elapsed_of m = Ok elapsed →
    (process (length (started w)) command = Some (Completed 0 output text) →
     run_once process name command false w =
     (World (started w ++ [command]) (errors w) (written w), Ok (elapsed, None))) ∧
    (∀ other, process (length (started w)) command = Some (Completed 0 other text) →
     compared_output name other ≠ compared_output name output →
     (run_once process name command false w).2 = Raise (ExitStatus 125)).
Proof.
  intros Hin. pose proof all_expected as Hall. rewrite Forall_forall in Hall.
  destruct (Hall _ Hin) as (output & Hp & Hexp). cbn [fst snd] in Hp, Hexp.
  exists output. split; [done|]. intros process command w text m elapsed Hm He. split.
  - intros Hproc. rewrite run_once_outcome. unfold outcome, full_command, verdict, reading.
    rewrite Hproc. cbn [returncode stderr Z.eqb negb]. rewrite expected_no_mismatch, Hm, He by done.
    cbn [fst snd]. by rewrite app_nil_r.
  - intros other Hproc Hne. rewrite run_once_outcome. unfold outcome, full_command, verdict.
    rewrite Hproc. cbn [returncode Z.eqb negb].
    destruct (other_mismatch name output other text Hexp Hne) as [t ->]. done.
Qed.

Lemma programs_accepted_witness :
  ∃ output, SetOps.main = output ∧
    run_once (λ _ _, Some (Completed 0 output (lit "BENCH name=set_ops lang=python seconds=2.5")))
      (lit "set_ops") [lit "python3"] false (World [] [] None) =
    (World [[lit "python3"]] [] None, Ok (PyFloat.of_numeral 25 1, None)).
Proof.
  destruct (programs_accepted (lit "set_ops") (total (Ok SetOps.main))) as (output & Ho & H).
  { unfold programs. do 6 right. left. }
  injection Ho as <-. exists SetOps.main. split; [reflexivity|].
  destruct (last_match BENCH_RE (lit "BENCH name=set_ops lang=python seconds=2.5")) as [m|] eqn:Em;
    [|vm_compute in Em; discriminate Em].
  refine (proj1 (H _ [lit "python3"] (World [] [] None) _ m _ Em _) _); [|reflexivity].
  vm_compute in Em. injection Em as <-. vm_compute. reflexivity.
Defined.
