(* ===== verification/Pipeline.v ===== *)
(** The attribution tools together: what instrument_rc.py writes is what report.py reads,
    and the categories of the marker compiler are the ones the report groups. *)
From S2P Require Import Prelude PyStr PyFormat PyDict Regex RcScan RcTags InstrumentRc RcReasons.
From S2P Require Import AllocationSites Report ReportRc Rows.

(** * The category table is read back *)

Definition numbered (cs : categories) : list (Z * str) := imap (λ i name, (Z.of_nat i, name)) cs.

Definition category_line (p : Z * str) : str := tsv_row [dec p.1; p.2].

Lemma categories_text_rows cs :
  categories_text cs = lines_of category_line (numbered cs).
Proof.
  unfold categories_text, lines_of, category_line, numbered, tsv_row, decn. f_equal.
  change (map ?f (imap ?g cs)) with (f <$> imap g cs). rewrite fmap_imap.
  apply imap_ext. intros i x _. cbn. by rewrite <- (assoc_L (++)).
Qed.

Lemma numbered_fold l (d : list (Z * str)) :
  NoDup l.*1 → (∀ p, p ∈ l → p.1 ∉ d.*1) →
  foldl (λ d p, dset p.1 p.2 d) d l = d ++ l.
Proof.
  revert d. induction l as [|[i name] l IH]; intros d Hnd Hfresh; cbn; [by rewrite app_nil_r|].
  inversion_clear Hnd as [|? ? Hi Hnd']. unfold dset at 2.
  rewrite dupd_keys_new by (apply (Hfresh (i, name)); left).
  rewrite IH; [by rewrite <- (assoc_L (++))|done|].
  intros [j n] Hin. rewrite fmap_app. cbn. intros [Hj|Hj]%elem_of_app.
  - by apply (Hfresh (j, n)); [right|].
  - apply list_elem_of_singleton in Hj as ->. apply Hi.
    by apply (list_elem_of_fmap_2 fst) in Hin.
Qed.

Lemma numbered_keys cs : NoDup (numbered cs).*1.
Proof.
  unfold numbered. rewrite fmap_imap.
  assert (∀ n, imap (λ i _, Z.of_nat (n + i)) cs = map Z.of_nat (seq n (length cs))) as H.
  { induction cs as [|c cs IH]; intros n; [done|]. cbn. rewrite Nat.add_0_r. f_equal.
    rewrite <- IH. apply imap_ext. intros i x _. cbn. f_equal. lia. }
  specialize (H 0). cbn in H. unfold compose. cbn. rewrite H.
  apply (NoDup_fmap_2 Z.of_nat), NoDup_seq.
Qed.

#[export] Program Instance category_reader : LineReader read_category category_line := {|
  line_ok p := (0 ≤ p.1)%Z ∧ field_ok p.2;
  line_update d p := dset p.1 p.2 d;
|}.
Next Obligation. intros [i name] [Hi Hn]. apply tsv_one_line. cbn in *. auto with fields. Qed.
Next Obligation.
  intros d [i name] [Hi Hn]. unfold read_category, category_line. cbn [fst snd] in *.
  rewrite tsv_fields by (done || auto with fields). by rewrite int_dec.
Qed.

Lemma read_categories cs :
  Forall field_ok cs →
  foldM read_category [] (splitlines (categories_text cs)) = Ok (numbered cs).
Proof.
  intros Hcs. rewrite categories_text_rows, (read_lines_of read_category category_line).
  - cbn [line_update category_reader].
    rewrite numbered_fold; [done|apply numbered_keys|by intros p _ ?%elem_of_nil].
  - apply Forall_forall. intros [i name] Hin. unfold numbered in Hin.
    apply elem_of_lookup_imap in Hin as (k & x & Heq & Hk). injection Heq as -> ->.
    cbn. split; [lia|]. by eapply Forall_lookup_1.
Qed.

Lemma dget_numbered cs c : dget (Z.of_nat c) (numbered cs) = cs !! c.
Proof.
  destruct (cs !! c) as [name|] eqn:Hc.
  - apply dget_elem; [apply numbered_keys|]. unfold numbered.
    apply elem_of_lookup_imap. by exists c, name.
  - destruct (dget (Z.of_nat c) (numbered cs)) as [name|] eqn:E; [|done].
    apply dget_elem in E; [|apply numbered_keys]. unfold numbered in E.
    apply elem_of_lookup_imap in E as (k & x & [= Hk ->] & Hx).
    apply Nat2Z.inj in Hk as ->. congruence.
Qed.

(** * The counters are read back *)

(** One line the instrumented program prints: kind, direction, function number, category
    number, count. *)
Record counter_row := CounterRow {
  row_kind : str; row_direction : str; row_function : Z; row_category : nat; row_count : Z }.

Definition counter_fields (r : counter_row) : list str :=
  [row_kind r; row_direction r; dec (row_function r); decn (row_category r); dec (row_count r)].

Definition counter_ok (cs : categories) (r : counter_row) : Prop :=
  field_ok (row_kind r) ∧ field_ok (row_direction r) ∧ (0 ≤ row_function r)%Z ∧
  is_Some (cs !! row_category r) ∧ (0 ≤ row_count r)%Z.

Definition counter_line (r : counter_row) : str := tsv_row (counter_fields r).

(** What the report makes of it. *)
Definition add_counter (cs : categories) (d : tagged_counts) (r : counter_row) : tagged_counts :=
  dadd (row_kind r, row_direction r, row_function r, default [] (cs !! row_category r)) (row_count r) d.

Lemma counter_fields_ok cs r : counter_ok cs r → Forall field_ok (counter_fields r).
Proof. intros (H1 & H2 & H3 & _ & H5). unfold counter_fields. auto 8 with fields. Qed.

#[export] Program Instance counter_reader cs : LineReader (read_tagged (numbered cs)) counter_line := {|
  line_ok := counter_ok cs;
  line_update := add_counter cs;
|}.
Next Obligation. intros cs r Hr. by apply tsv_one_line, (counter_fields_ok cs). Qed.
Next Obligation.
  intros cs d r Hr. pose proof (counter_fields_ok cs r Hr) as Hf.
  destruct Hr as (_ & _ & H3 & [name Hc] & H5). unfold read_tagged, counter_line.
  rewrite tsv_fields by done. unfold counter_fields, decn. cbn [map].
  rewrite int_dec by done. cbn [mbind result_bind]. rewrite int_dec by lia.
  cbn [mbind result_bind]. rewrite dget_numbered, Hc. cbn [or_raise mbind result_bind].
  rewrite int_dec by done. unfold add_counter. by rewrite Hc.
Qed.

(** A row of the counts by kind and direction alone. *)
Definition kind_fields (k : (str * str) * Z) : list str := [k.1.1; k.1.2; dec k.2].
Definition kind_line (k : (str * str) * Z) : str := tsv_row (kind_fields k).
Definition kind_ok (k : (str * str) * Z) : Prop :=
  field_ok k.1.1 ∧ field_ok k.1.2 ∧ (0 ≤ k.2)%Z.

Lemma kind_fields_ok k : kind_ok k → Forall field_ok (kind_fields k).
Proof. intros (H1 & H2 & H3). unfold kind_fields. auto with fields. Qed.

#[export] Program Instance kind_reader : LineReader read_kind kind_line := {|
  line_ok := kind_ok;
  line_update d k := dset k.1 k.2 d;
|}.
Next Obligation. intros k Hk. by apply tsv_one_line, kind_fields_ok. Qed.
Next Obligation.
  intros d k Hk. pose proof (kind_fields_ok k Hk) as Hf. destruct Hk as (_ & _ & H3).
  unfold read_kind, kind_line. rewrite tsv_fields by done. unfold kind_fields.
  rewrite int_dec by done. by destruct k as [[kind direction] n].
Qed.

(** The category of a reason that the marker compiler writes. *)
Definition grouped_reasons : list str := [lit "projection"; lit "call"; lit "stored"; lit "block_end"].
Definition ungrouped_reasons : list str := [lit "other_definition"; lit "before_control"].

Lemma reason_from_cases rest :
  reason_from rest ∈ [lit "call"; lit "stored"; lit "block_end"] ∨
  reason_from rest ∈ ungrouped_reasons.
Proof.
  induction rest as [|[d| | |o v s|o] rest IH]; cbn [reason_from]; try done;
    [left; set_solver| |right; set_solver..].
  destruct (operation d); try (left; set_solver); right; set_solver.
Qed.

(** * Properties *)

(** C22: report.py reads back what the instrumented program and instrument_rc.py write: from
    the category table, the tagged rows and the kind-only rows, [read_rc] returns the counts
    summed per kind, direction, function and category name, and the kind-only counts. *)
Theorem read_rc_roundtrip os_error files directory cs rows kinds :
  files !! rc_path directory (lit "categories.tsv") = Some (categories_text cs) →
  files !! rc_path directory (lit "tagged.tsv") = Some (lines_of counter_line rows) →
  files !! rc_path directory (lit "kinds.tsv") = Some (lines_of kind_line kinds) →
  Forall field_ok cs → Forall (counter_ok cs) rows → Forall kind_ok kinds →
  read_rc os_error files directory =
  Ok (foldl (add_counter cs) [] rows, foldl (λ d k, dset k.1 k.2 d) [] kinds).
Proof.
  intros H1 H2 H3 Hcs Hrows Hkinds. unfold read_rc, read. rewrite H1. cbn [mbind result_bind].
  rewrite read_categories by done. cbn [mbind result_bind]. rewrite H2. cbn [mbind result_bind].
  rewrite (read_lines_of (read_tagged (numbered cs)) counter_line) by done.
  cbn [mbind result_bind]. rewrite H3. cbn [mbind result_bind].
  by rewrite (read_lines_of read_kind kind_line).
Qed.

Definition rc_files_sample : gmap str str :=
  {[lit "d/rc/categories.tsv" := categories_text [lit "untagged"; lit "cascade:list"];
    lit "d/rc/tagged.tsv" :=
      lines_of counter_line [CounterRow (lit "list") (lit "dec") 12 1 5;
                                CounterRow (lit "list") (lit "dec") 12 1 2];
    lit "d/rc/kinds.tsv" := lines_of kind_line [((lit "list", lit "dec"), 7%Z)]]}.

Lemma read_rc_roundtrip_witness :
  read_rc (λ p, p) rc_files_sample (lit "d") =
  Ok ([((lit "list", lit "dec", 12%Z, lit "cascade:list"), 7%Z)], [((lit "list", lit "dec"), 7%Z)]).
Proof.
  assert (∀ w, forallb (λ c, negb (is_line_boundary c) && negb (Ascii.eqb c tab)) w = true →
    field_ok w) as Hw.
  { intros w H. rewrite forallb_forall in H. split.
    - apply forallb_forall. intros c Hc%H. by apply andb_true_iff in Hc as [? _].
    - intros Hin. apply list_elem_of_In, H in Hin. vm_compute in Hin. discriminate Hin. }
  etransitivity; [apply (read_rc_roundtrip (λ p, p) rc_files_sample (lit "d")
    [lit "untagged"; lit "cascade:list"]
    [CounterRow (lit "list") (lit "dec") 12 1 5; CounterRow (lit "list") (lit "dec") 12 1 2]
    [((lit "list", lit "dec"), 7%Z)])|].
  - vm_compute. reflexivity.
  - vm_compute. reflexivity.
  - vm_compute. reflexivity.
  - repeat (apply Forall_cons_2; [apply Hw; reflexivity|]). apply Forall_nil_2.
  - repeat (apply Forall_cons_2; [split; [apply Hw; reflexivity|]; split; [apply Hw; reflexivity|];
      cbn; split; [lia|]; split; [eexists; reflexivity|lia]|]). apply Forall_nil_2.
  - apply Forall_cons_2; [|apply Forall_nil_2].
    split; [apply Hw; reflexivity|]. split; [apply Hw; reflexivity|]. cbn. lia.
  - vm_compute. reflexivity.
Defined.

(** The report groups an acquisition of the marker compiler exactly when its reason is
    one of projection, call, stored and block_end; for the other two reasons that
    [rc_reason] can give, the whole stage exits. *)
Theorem acquisition_group operations position value source paired :
  let reason := rc_reason operations position value in
  let category := acquire_category reason source paired in
  (reason ∈ grouped_reasons ∧ ∃ label, group_of category = Ok label) ∨
  (reason ∈ ungrouped_reasons ∧
   group_of category = Report.fail (lit "category " ++ category ++ lit " belongs to no group")).
Proof.
  cbv zeta. assert (rc_reason operations position value ∈ grouped_reasons ∨
    rc_reason operations position value ∈ ungrouped_reasons) as [H|H].
  { unfold rc_reason. destruct (match position with O => false | _ => _ end); [left; set_solver|].
    destruct (reason_from_cases (drop (S position) operations)) as [?|?];
      unfold rc_reason_before_definition; [left|right]; set_solver. }
  - left. split; [done|]. unfold group_of. unfold grouped_reasons in H.
    repeat (apply elem_of_cons in H as [->|H]; [eexists; reflexivity|]).
    by apply elem_of_nil in H.
  - right. split; [done|]. unfold ungrouped_reasons in H.
    repeat (apply elem_of_cons in H as [->|H]; [reflexivity|]). by apply elem_of_nil in H.
Qed.
