(* ===== verification/Attribution.v ===== *)
(** The tagged run from end to end: which names its category table can hold, what the program
    it writes is made of, and under which category report.py counts the operations that the
    marker compiler emitted. *)
From S2P Require Import Prelude PyStr Rows PyDict Regex Report ReportRc Pipeline.
From S2P Require Import RcScan RcTags InstrumentRc RcReasons.

(** * The names of categories hold no blanks *)

Lemma no_space_app a b : no_space a → no_space b → no_space (a ++ b).
Proof. unfold no_space. intros Ha Hb. by rewrite forallb_app, Ha, Hb. Qed.

(** A name without blanks is one field of a row. *)
Lemma no_space_field w : no_space w → field_ok w.
Proof.
  intros H. split; [by apply no_space_one_line|]. unfold no_space in H. rewrite forallb_forall in H.
  intros Hin. apply list_elem_of_In, H in Hin. by vm_compute in Hin.
Qed.

Lemma no_space_part p w q : no_space (p ++ w ++ q) → no_space w.
Proof. unfold no_space. rewrite !forallb_app, !andb_true_iff. tauto. Qed.

Lemma words_no_space w : forallb is_word w = true → no_space w.
Proof.
  unfold no_space. rewrite !forallb_forall. intros H c Hc%H.
  destruct c as [[] [] [] [] [] [] [] []]; done || by vm_compute in Hc.
Qed.

Create HintDb names discriminated.
#[export] Hint Resolve no_space_app words_no_space no_space_field : names.
#[export] Hint Extern 1 (no_space _) => reflexivity : names.

Lemma split_ws_from_no_space word s :
  no_space word → Forall no_space (split_ws_from word s).
Proof.
  assert (∀ w, no_space w → no_space (rev w)) as Hrev.
  { unfold no_space. intros w H. rewrite forallb_forall in H |- *. intros c Hc.
    apply H. by apply in_rev. }
  revert word. induction s as [|c s IH]; intros word Hw; cbn [split_ws_from].
  - destruct word; [done|]. constructor; [by apply Hrev|constructor].
  - destruct (is_space c) eqn:Hc; [|apply IH; unfold no_space in *; cbn; by rewrite Hc].
    destruct word; [by apply IH|]. constructor; [by apply Hrev|by apply IH].
Qed.

Lemma marker_fields_no_space m : Forall no_space (marker_fields m).
Proof. by apply split_ws_from_no_space. Qed.

(** The texts that the owners of a body come from. *)
Definition owners_no_space (os : owners) : Prop :=
  map_Forall (λ _, no_space) (acquired os) ∧ map_Forall (λ _, no_space) (created os).

Lemma field_no_space fields i w : Forall no_space fields → field fields i = Ok w → no_space w.
Proof.
  intros Hf H. unfold field in H. apply or_raise_Ok in H. by eapply Forall_lookup_1.
Qed.

Lemma collect_owners_no_space body os : collect_owners body = Ok os → owners_no_space os.
Proof.
  apply (foldM_inv collect_owner owners_no_space); [|by split; apply map_Forall_empty].
  intros os0 m os1 _ [Ha Hc] H. unfold collect_owner, collect_fields in H.
  pose proof (marker_fields_no_space m) as Hm. destruct (decide _).
  - inv_ok. split; [|done]. apply map_Forall_insert_2; [by eapply field_no_space|done].
  - inv_ok. destruct (decide _); inv_ok; [|done]. split; [done|].
    apply map_Forall_insert_2; [by eapply field_no_space|done].
Qed.

Lemma next_category_no_space name os fields category category' :
  owners_no_space os → Forall no_space fields → no_space category →
  next_category name os fields category = Ok category' → no_space category'.
Proof.
  intros [Ha Hc] Hf Hcat H. unfold next_category in H.
  apply bind_Ok in H as (f0 & _ & H). destruct (decide (f0 = lit "B")).
  - apply bind_Ok in H as (f1 & _ & H).
    destruct (decide (f1 = lit "A")); apply bind_Ok in H as (x1 & Hx1 & H).
    + destruct x1 as [[reason source] paired]. injection H as <-.
      assert (Forall no_space (slice 2 5 fields)) as Hs by (by apply Forall_take, Forall_drop).
      unfold unpack3 in Hx1. destruct (slice 2 5 fields) as [|a [|b [|c [|? ?]]]]; try done.
      injection Hx1 as -> -> ->. decompose_Forall_hyps. unfold acquire_category.
      repeat apply no_space_app; auto with names; case_decide; auto with names.
    + destruct x1 as [owner partner].
      assert (Forall no_space (slice 2 4 fields)) as Hs by (by apply Forall_take, Forall_drop).
      unfold unpack2 in Hx1. destruct (slice 2 4 fields) as [|a [|b [|? ?]]]; try done.
      injection Hx1 as -> ->. decompose_Forall_hyps.
      destruct (owner_origin os owner) as [origin|] eqn:E; [|done]. injection H as <-.
      assert (no_space origin).
      { unfold owner_origin in E. destruct (acquired os !! owner) as [[|c r]|] eqn:E'.
        - by apply Hc in E.
        - injection E as <-. by apply Ha in E'.
        - by apply Hc in E. }
      unfold drop_category. repeat apply no_space_app; auto with names.
      case_decide; auto with names.
  - destruct (decide _); [by injection H as <-|]. by injection H as <-.
Qed.

Lemma region_tags_no_space body name rs :
  region_tags body name = Ok rs → Forall (λ r, no_space r.2) rs.
Proof.
  intros H. unfold region_tags in H. inv_ok. apply collect_owners_no_space in Hx.
  assert (Forall (λ r, no_space r.2) (regions x0) ∧ no_space (category x0)) as [H1 H2].
  { revert Hx0. apply (foldM_inv (region_step name body x)
      (λ st, Forall (λ r, no_space r.2) (regions st) ∧ no_space (category st))); [|done].
    intros st m st' _ [H1 H2] H. unfold region_step in H. inv_ok. cbn. split.
    - apply Forall_app. by repeat constructor.
    - eapply next_category_no_space; [done|apply marker_fields_no_space|exact H2|done]. }
  apply Forall_app. by repeat constructor.
Qed.

Lemma split_on_no_space sep s : no_space s → Forall no_space (split_on sep s).
Proof.
  unfold split_on. generalize (length s) as n. intros n. revert s. induction n as [|n IH]; intros s Hs.
  { by repeat constructor. }
  cbn [split_on_fuel]. destruct (split_first sep s) as [[a b]|] eqn:E; [|by repeat constructor].
  apply split_first_Some in E. subst s. constructor.
  - by apply (no_space_part [] a (sep ++ b)).
  - apply IH. apply (no_space_part (a ++ sep) b []). by rewrite app_nil_r, <- (assoc_L (++)).
Qed.

(** The names of functions are words. *)
Lemma function_name_word source b name : function_name_before source b = Some name → no_space name.
Proof.
  unfold function_name_before. intros H. destruct (skip_space_left source b) as [|i]; [done|].
  destruct (source !! i) as [[[] [] [] [] [] [] [] []]|]; try done.
  apply fmap_Some in H as (m & Hm & ->). apply search_is_match in Hm.
  destruct Hm as (p & q & st & _ & Hden & ->). unfold name_pattern, Rw, Rs in Hden. den_inv.
  apply words_no_space. match goal with H : _ = x0 ++ _ |- _ => rename H into H1' end.
  match goal with H : rev x ++ ?t = rev x0 ++ ?t |- _ => apply app_inv_tail, (f_equal (@rev ascii)) in H end.
  rewrite !rev_involutive in *. by subst x0.
Qed.

Lemma functions_no_space source fs : functions source = Ok fs → Forall (λ f, no_space f.1.1) fs.
Proof.
  intros Hfs. destruct (functions_blocks source) as (l & Hl & _ & Hin).
  rewrite Hfs in Hl. injection Hl as <-. apply Forall_forall. intros [[name a] e] Hf.
  apply Hin in Hf as (b & _ & _ & Hname). by eapply function_name_word.
Qed.

(** * The categories of one body *)

Lemma number_no_space cs name cs' c :
  number cs name = Ok (cs', c) → Forall no_space cs → no_space name → Forall no_space cs'.
Proof.
  intros H Hcs Hn. unfold number in H. destruct (decide (name ∈ cs)).
  - by injection H as <- _.
  - case_match; [done|]. injection H as <- _. apply Forall_app. by repeat constructor.
Qed.

(** How the region [r] of the user function [n] is rewritten under the table [cs]: its helper
    calls carry the number of its category, its runtime calls the category 0. *)
Definition region_rewritten (cs : categories) (n : Z) (r : str * str) (o : str) : Prop :=
  ∃ c, c < max_categories ∧ cs !! c = Some r.2 ∧
    o = tag_runtime_calls (function_bits n) (tag_calls r.1 (user_tag_text (user_tag n c))).

Lemma region_rewritten_mono cs cs' n r o :
  cs `prefix_of` cs' → region_rewritten cs n r o → region_rewritten cs' n r o.
Proof.
  intros Hp (c & Hc & Hl & Ho). exists c. split_and!; [done| |done]. by eapply prefix_lookup_Some.
Qed.

Lemma tag_regions rs n outs cs outs' cs' :
  categories_ok cs → Forall (λ r, no_space r.2) rs → Forall no_space cs →
  foldM (tag_region n) (outs, cs) rs = Ok (outs', cs') →
  categories_ok cs' ∧ cs `prefix_of` cs' ∧ Forall no_space cs' ∧
  ∃ new, outs' = outs ++ new ∧ Forall2 (region_rewritten cs' n) rs new.
Proof.
  intros Hok Hrs. revert outs cs Hok. induction Hrs as [|[text category] rs Hr Hrs IH];
    intros outs cs Hok Hcs H; cbn [foldM] in H.
  { injection H as <- <-. split_and!; [done|done|done|]. exists []. by rewrite app_nil_r. }
  apply bind_Ok in H as ([outs1 cs1] & H1 & H). unfold tag_region in H1.
  apply bind_Ok in H1 as ([cs2 c] & Hnum & H1). injection H1 as <- <-.
  pose proof (number_no_space _ _ _ _ Hnum Hcs Hr) as Hcs2.
  apply number_ok in Hnum as (Hok2 & Hpre & Hlook & Hc); [|done].
  destruct (IH _ _ Hok2 Hcs2 H) as (Hok' & Hpre' & Hcs' & new & -> & Hnew).
  split_and!; [done|by etrans|done|]. eexists. rewrite <- (assoc_L (++)). split; [done|].
  constructor; [|done]. exists c. split_and!; [done| |done]. by eapply prefix_lookup_Some.
Qed.

Lemma runtime_group_no_space name m :
  match_start LIST_RUNTIME_NAME name = Some m → no_space (group m 1).
Proof.
  unfold match_start. intros (st & Hrun & ->)%fmap_Some.
  apply run_Some in Hrun as (st' & Hden & [= ->]). unfold LIST_RUNTIME_NAME, list_operations in Hden.
  den_inv. match goal with H : lit x ++ ?t = x1 ++ ?t |- _ => apply app_inv_tail in H as <- end.
  match goal with H : x ∈ _ |- _ => set_unfold in H; repeat destruct H as [->|H]; done end.
Qed.

(** One body rewritten: the table grows by names without blanks, and stays well-formed. *)
Lemma rewrite_tagged_names name body cs out cs' :
  no_space name → Forall no_space cs → categories_ok cs →
  rewrite_tagged name body cs = Ok (out, cs') → Forall no_space cs'.
Proof.
  intros Hname Hcs Hok H. unfold rewrite_tagged in H.
  destruct (match_start USER_NAME name) as [user|].
  { apply bind_Ok in H as (n & _ & H). apply bind_Ok in H as (rs & Hrs & H).
    apply bind_Ok in H as ([outs cs1] & Hf & H). injection H as <- <-.
    apply region_tags_no_space in Hrs. by apply tag_regions in Hf as (_ & _ & ? & _). }
  destruct (match_start LIST_RUNTIME_NAME name) as [lr|] eqn:E.
  { apply bind_Ok in H as ([cs1 c] & Hnum & H). injection H as <- <-.
    eapply number_no_space; [done..|]. apply no_space_app; [done|]. by eapply runtime_group_no_space. }
  destruct (match_start HELPER_NAME name) as [hn|].
  - destruct (search ATOMIC body) as [m|].
    + apply bind_Ok in H as (operation & _ & H). destruct (bool_decide _ || _); [by injection H as <- <-|].
      apply bind_Ok in H as (parent & Hp & H). apply bind_Ok in H as ([cs1 c] & Hnum & H).
      injection H as <- <-. eapply number_no_space; [done..|]. apply no_space_app; [done|].
      eapply field_no_space; [|done]. by apply split_on_no_space.
    + destruct (search HELPER_CALL body); by injection H as <- <-.
  - destruct (search HELPER_CALL body); [|by injection H as <- <-].
    apply bind_Ok in H as ([cs1 c] & Hnum & H). injection H as <- <-.
    by eapply number_no_space.
Qed.

(** The table of a user function and its rewritten body. *)
Lemma rewrite_user_function name body cs out cs' user n :
  match_start USER_NAME name = Some user → int (group user 1) = Ok n →
  Forall no_space cs → categories_ok cs → rewrite_tagged name body cs = Ok (out, cs') →
  ∃ rs new, region_tags body name = Ok rs ∧ out = concat new ∧ Forall2 (region_rewritten cs' n) rs new.
Proof.
  intros Hu Hn Hcs Hok H. unfold rewrite_tagged in H. rewrite Hu, Hn in H. cbn [mbind result_bind] in H.
  apply bind_Ok in H as (rs & Hrs & H). apply bind_Ok in H as ([outs cs1] & Hf & H).
  injection H as <- <-. pose proof (region_tags_no_space _ _ _ Hrs) as Hns.
  apply tag_regions in Hf as (_ & _ & _ & new & -> & Hnew); [|done..]. by exists rs, new.
Qed.

(** * The whole program *)

Section program.
Context (source : str).

(** The text with new bodies: what stands between the bodies is the source's own. *)
Fixpoint with_bodies (cursor : nat) (fs : list (str * nat * nat)) (bodies : list str) : str :=
  match fs, bodies with
  | (name, start, end_) :: fs, body :: bodies =>
      slice cursor start source ++ body ++ with_bodies end_ fs bodies
  | _, _ => drop cursor source
  end.

(** The body of one function under the final table: rewritten with a table that the final one
    extends, then each of its [k] atomic operations counted. *)
Definition body_rewritten (cs : categories) (f : str * nat * nat) (body : str) (k : nat) : Prop :=
  ∃ cs1 tagged cs2, categories_ok cs1 ∧ Forall no_space cs1 ∧ cs2 `prefix_of` cs ∧
    rewrite_tagged f.1.1 (slice f.1.2 f.2 source) cs1 = Ok (tagged, cs2) ∧
    count_atomics tagged f.1.1 tagged_counter = Ok (body, k).

Lemma rewrite_fold fs st st' :
  Forall (λ f : str * nat * nat, no_space f.1.1) fs →
  categories_ok (rw_categories st) → Forall no_space (rw_categories st) →
  foldM (rewrite_function source Tagged) st fs = Ok st' →
  categories_ok (rw_categories st') ∧ rw_categories st `prefix_of` rw_categories st' ∧
  Forall no_space (rw_categories st') ∧
  ∃ bodies ks, Forall3 (body_rewritten (rw_categories st')) fs bodies ks ∧
    wrapped st' = wrapped st + sum_list ks ∧
    concat (rw_pieces st' ++ [drop (rw_cursor st') source]) =
    concat (rw_pieces st) ++ with_bodies (rw_cursor st) fs bodies.
Proof.
  intros Hfs. revert st. induction Hfs as [|[[name a] e] fs Hname Hfs IH]; intros st Hok Hns H; cbn [foldM] in H.
  { injection H as <-. split_and!; [done..|]. exists [], []. split_and!; [constructor|cbn; lia|].
    rewrite concat_app. cbn. by rewrite app_nil_r. }
  apply bind_Ok in H as (st1 & H1 & H). unfold rewrite_function in H1.
  apply bind_Ok in H1 as ([tagged cs2] & Htag & H1). apply bind_Ok in H1 as ([body k] & Hcount & H1).
  injection H1 as <-. destruct (rewrite_tagged_categories _ _ _ _ _ Hok Htag) as [Hok2 Hpre2].
  pose proof (rewrite_tagged_names _ _ _ _ _ Hname Hns Hok Htag) as Hns2.
  edestruct IH as (Hok' & Hpre' & Hns' & bodies & ks & Hb & Hk & Htext); [| |exact H|]; [done..|].
  cbn [rw_categories rw_pieces rw_cursor wrapped] in *.
  split_and!; [done|by etrans|done|]. exists (body :: bodies), (k :: ks). split_and!.
  - constructor; [|done]. by exists (rw_categories st), tagged, cs2.
  - cbn. lia.
  - rewrite Htext, concat_app. cbn [with_bodies concat]. by rewrite app_nil_r, <- !(assoc_L (++)).
Qed.

Lemma rewrite_tagged_program out cs :
  rewrite source Tagged = Ok (out, cs) →
  ∃ fs bodies ks, functions source = Ok fs ∧ out = with_bodies 0 fs bodies ∧
    Forall3 (body_rewritten cs) fs bodies ks ∧ sum_list ks = length (finditer ATOMIC source) ∧
    categories_ok cs ∧ Forall no_space cs.
Proof.
  intros H. unfold rewrite in H. apply bind_Ok in H as (fs & Hfs & H).
  apply bind_Ok in H as (st & Hst & H). destruct (decide _) as [Heq|]; [|done]. injection H as <- <-.
  pose proof (functions_no_space _ _ Hfs) as Hn.
  edestruct rewrite_fold as (Hok & _ & Hns & bodies & ks & Hb & Hk & Ht); [exact Hn| | |exact Hst|];
    [apply categories_ok_init|by repeat constructor|].
  exists fs, bodies, ks. cbn in Hk, Ht. split_and!; [done|done|done|lia|done|done].
Qed.

End program.

(** * The operations of an emitted body *)

Lemma extend_last_marks l t : (extend_last l t).*1 = l.*1.
Proof. induction l as [|[m t0] [|y l] IH]; [done..|]. cbn in *. by rewrite IH. Qed.

Lemma app_part_marks a b : (app_part a b).2.*1 = a.2.*1 ++ b.2.*1.
Proof.
  unfold app_part. destruct a as [t [|x l]]; cbn [fst snd]; [done|].
  by rewrite fmap_app, extend_last_marks.
Qed.

Lemma body_part_marks operations e i op m :
  operations !! i = Some op → m ∈ (op_part operations i op (e i)).2.*1 →
  m ∈ (body_part operations e).2.*1.
Proof.
  intros Hi Hm. unfold body_part.
  assert (∀ (f : nat → ownership_operation → part) l j op', l !! j = Some op' → m ∈ (f j op').2.*1 →
    m ∈ (foldr app_part ([], []) (imap f l)).2.*1) as H.
  { intros f l. revert f. induction l as [|x l IH]; intros f j op' Hj Hin; [done|].
    cbn [imap foldr]. rewrite app_part_marks. apply elem_of_app. destruct j as [|j].
    - injection Hj as ->. by left.
    - right. by eapply (IH (λ i, f (S i))). }
  by eapply H.
Qed.

(** The category an operation of the list counts under; [l] are the marks of its body, which
    say where an owner that is dropped came from. *)
Definition operation_category (operations : list ownership_operation) (l : list (mark * str))
    (i : nat) (op : ownership_operation) : option str :=
  match op with
  | AcquireOwner owner value source =>
      Some (acquire_category (rc_reason operations i value) (rc_source_name source)
              (rc_acquire_pair operations i source))
  | DropOwner owner =>
      (λ origin, drop_category origin (rc_partner_reason operations (Z.of_nat i - 1) owner 1))
      <$> owner_origin (body_owners l) (dec owner)
  | _ => None
  end.

Definition acquires_or_drops (op : ownership_operation) : Prop :=
  match op with AcquireOwner _ _ _ | DropOwner _ => True | _ => False end.

Lemma body_regions_mark name t0 l rs m :
  body_regions name t0 l = Ok rs → m ∈ l.*1 →
  ∃ t rs', mark_regions name (body_owners l) m t = Ok rs' ∧ rs' ⊆ rs.
Proof.
  intros H ([m' t] & -> & Hin)%list_elem_of_fmap. unfold body_regions in H.
  apply bind_Ok in H as (rss & Hrss & H). injection H as <-. apply mapR_Forall2 in Hrss.
  apply list_elem_of_lookup in Hin as [j Hj].
  destruct (Forall2_lookup_l _ _ _ _ _ Hrss Hj) as (rs' & Hrs' & Hm).
  exists t, rs'. split; [done|]. intros r Hr. right. apply list_elem_of_In, in_concat.
  exists rs'. split; apply list_elem_of_In; [by eapply list_elem_of_lookup_2|done].
Qed.

(** The [return] behind the operations changes neither the marks of a body nor its owners. *)
Lemma function_part_marks operations e result :
  (function_part operations e result).2.*1 = (body_part operations e).2.*1.
Proof. unfold function_part. by rewrite app_part_marks, app_nil_r. Qed.

Lemma function_part_owners operations e result :
  body_owners (function_part operations e result).2 = body_owners (body_part operations e).2.
Proof. unfold body_owners. by rewrite function_part_marks. Qed.

(** Each acquisition and each drop of the list has its region. *)
Lemma operation_region name operations e result i op rs :
  operations !! i = Some op → acquires_or_drops op →
  body_regions name (function_part operations e result).1 (function_part operations e result).2 = Ok rs →
  ∃ category, operation_category operations (body_part operations e).2 i op = Some category ∧
    ((e i).1, category) ∈ rs.
Proof.
  intros Hi Hop Hrs.
  assert (∀ m, m ∈ (op_part operations i op (e i)).2.*1 → ∃ t rs',
    mark_regions name (body_owners (body_part operations e).2) m t = Ok rs' ∧ rs' ⊆ rs) as Hmark.
  { intros m Hm. rewrite <- (function_part_owners operations e result).
    eapply body_regions_mark; [exact Hrs|]. rewrite function_part_marks. by eapply body_part_marks. }
  destruct op as [d| | |o v s|o]; try done;
    destruct (Hmark _ (list_elem_of_here _ _)) as (t & rs' & Hm & Hsub);
    cbn [op_part mark_regions fst] in Hm; cbn [operation_category].
  - eexists. split; [reflexivity|]. injection Hm as <-. apply Hsub. left.
  - destruct (owner_origin _ _) as [origin|]; [|done]. eexists. split; [reflexivity|].
    injection Hm as <-. apply Hsub. left.
Qed.

(** A line of the C report for the tag [t]: [t>>CATEGORY_BITS] and [t&CATEGORY_MASK]. *)
Definition reported_line (kind direction : str) (t count : Z) : str :=
  tsv_row [kind; direction; dec (tag_function t); dec (tag_category t); dec count].

Lemma read_reported cs n c kind direction count d name :
  cs !! c = Some name → c < max_categories → (0 ≤ n)%Z → field_ok kind → field_ok direction →
  (0 ≤ count)%Z →
  read_tagged (numbered cs) d (reported_line kind direction (user_tag n c) count) =
  Ok (dadd (kind, direction, n, name) count d).
Proof.
  intros Hc Hlt Hn Hk Hd Hcount. unfold reported_line.
  rewrite tag_function_user_tag, tag_category_user_tag by done.
  pose proof (line_step (LineReader := counter_reader cs) d (CounterRow kind direction n c count)) as H.
  unfold counter_line, counter_fields, decn in H.
  cbn [row_kind row_direction row_function row_category row_count] in H.
  rewrite H by (split_and!; cbn; eauto).
  cbn [line_update counter_reader]. unfold add_counter. cbn [row_category]. by rewrite Hc.
Qed.

(** A successful tagged run. *)
Lemma main_tagged_files usage files source_path output_path c0 path source files' message :
  files !! source_path = Some source →
  main usage files [lit "--tagged"; source_path; output_path; c0 :: path] = Ok (files', message) →
  ∃ fs bodies ks cs limit,
    functions source = Ok fs ∧ function_limit source = Ok limit ∧
    files' = <[c0 :: path := categories_text cs]>
             (<[output_path := tagged_prelude limit ++ with_bodies source 0 fs bodies]> files) ∧
    Forall3 (body_rewritten source cs) fs bodies ks ∧
    sum_list ks = length (finditer ATOMIC source) ∧ categories_ok cs ∧ Forall no_space cs.
Proof.
  intros Hs H. unfold main, parse_arguments in H. rewrite decide_True in H by done.
  rewrite Hs in H. cbn -[rewrite check_only_calls function_limit prelude decn] in H.
  apply bind_Ok in H as ([] & _ & H). apply bind_Ok in H as ([out cs] & Hr & H).
  apply bind_Ok in H as (limit & Hl & H). injection H as <- _.
  destruct (rewrite_tagged_program _ _ _ Hr) as (fs & bodies & ks & Hfs & -> & Hb & Hk & Hok & Hns).
  by exists fs, bodies, ks, cs, limit.
Qed.

Lemma with_bodies_parts source cs fs bodies ks cursor f :
  Forall3 (body_rewritten source cs) fs bodies ks → f ∈ fs →
  ∃ p body k q, with_bodies source cursor fs bodies = p ++ body ++ q ∧ body_rewritten source cs f body k.
Proof.
  intros H. revert cursor. induction H as [|[[name a] e] body k fs bodies ks Hb H IH]; intros cursor Hf.
  { by apply elem_of_nil in Hf. }
  cbn [with_bodies]. apply elem_of_cons in Hf as [->|Hf].
  - by exists (slice cursor a source), body, k, (with_bodies source e fs bodies).
  - destruct (IH e Hf) as (p & body' & k' & q & -> & Hb').
    exists (slice cursor a source ++ body ++ p), body', k', q. split; [|done].
    by rewrite <- !(assoc_L (++)).
Qed.

Lemma concat_parts {A} (l : list (list A)) x : x ∈ l → ∃ p q, concat l = p ++ x ++ q.
Proof.
  intros (l1 & l2 & ->)%list_elem_of_split. exists (concat l1), (concat l2). by rewrite concat_app.
Qed.

(** * Properties *)

(** C12: [instrument_rc.py --tagged IN OUT CATEGORIES] that succeeds writes OUT and CATEGORIES and
    no other file.  OUT is the prelude and the source with new function bodies, the text
    between the bodies unchanged; each body is rewritten under a table that the final one
    extends and has its atomic operations counted, all those of the source in total.  The
    table is well-formed and, for any source, its file is read back by report.py. *)
Theorem main_tagged usage files source_path output_path c0 path source files' message :
  files !! source_path = Some source →
  main usage files [lit "--tagged"; source_path; output_path; c0 :: path] = Ok (files', message) →
  ∃ fs bodies ks cs limit,
    functions source = Ok fs ∧ function_limit source = Ok limit ∧
    files' = <[c0 :: path := categories_text cs]>
             (<[output_path := tagged_prelude limit ++ with_bodies source 0 fs bodies]> files) ∧
    Forall3 (body_rewritten source cs) fs bodies ks ∧
    sum_list ks = length (finditer ATOMIC source) ∧ categories_ok cs ∧
    foldM read_category [] (splitlines (categories_text cs)) = Ok (numbered cs).
Proof.
  intros Hs H. destruct (main_tagged_files _ _ _ _ _ _ _ _ _ Hs H)
    as (fs & bodies & ks & cs & limit & H1 & H2 & H3 & H4 & H5 & H6 & H7).
  exists fs, bodies, ks, cs, limit. split_and!; [done..|]. apply read_categories.
  eapply Forall_impl; [exact H7|]. apply no_space_field.
Qed.

Definition tagged_run : result (gmap str str * str) :=
  main [] {[lit "in.c" := tagged_sample]} [lit "--tagged"; lit "in.c"; lit "out.c"; lit "cat"].

(** The category file of the run. *)
Definition tagged_categories : option str :=
  match tagged_run with Ok (files', _) => files' !! lit "cat" | Raise _ => None end.

Lemma main_tagged_witness :
  ∃ files' message cs, tagged_run = Ok (files', message) ∧
    files' !! lit "cat" = Some (categories_text cs) ∧
    foldM read_category [] (splitlines (categories_text cs)) =
      Ok [(0%Z, lit "untagged"); (1%Z, lit "unmarked"); (2%Z, lit "drop:record")] ∧
    numbered cs = [(0%Z, lit "untagged"); (1%Z, lit "unmarked"); (2%Z, lit "drop:record")].
Proof.
  assert (tagged_categories = Some (lit "0	untagged
1	unmarked
2	drop:record
")) as Hcat by (vm_compute; reflexivity).
  unfold tagged_categories in Hcat.
  destruct tagged_run as [[files' message]|e] eqn:E; [|discriminate Hcat].
  destruct (main_tagged [] {[lit "in.c" := tagged_sample]} (lit "in.c") (lit "out.c") "c"%char (lit "at")
    tagged_sample files' message) as (fs & bodies & ks & cs & limit & _ & _ & Hf & _ & _ & _ & Hread);
    [reflexivity|exact E|].
  assert (files' !! lit "cat" = Some (categories_text cs)) as Hlook by (rewrite Hf; apply lookup_insert_eq).
  rewrite Hlook in Hcat. injection Hcat as Hcat.
  assert (foldM read_category [] (splitlines (categories_text cs)) =
    Ok [(0%Z, lit "untagged"); (1%Z, lit "unmarked"); (2%Z, lit "drop:record")]) as Hc
    by (rewrite Hcat; vm_compute; reflexivity).
  exists files', message, cs. split; [reflexivity|]. split; [exact Hlook|]. split; [exact Hc|].
  rewrite Hread in Hc. injection Hc as Hc. exact Hc.
Defined.

(** C1: End to end, from the emitter's operations to the report: when a tagged run succeeds on
    a source in which the body of the user function [n] is what the marker compiler's
    [append_function] writes for an operation list and a result (the texts of the operations
    with their markers, then [return] and the result), then in the program it writes the reference-count calls of every
    acquisition and drop of the list set a tag from whose counters report.py, with the table
    the run wrote, makes an entry for the function [n] and exactly the category of that
    operation: its reason, source and pairing, or the origin and the partner of its owner. *)
Theorem operation_attributed usage files source_path output_path c0 path source files' message
    fs name a e user n operations parts result_ i op :
  files !! source_path = Some source → output_path ≠ c0 :: path →
  main usage files [lit "--tagged"; source_path; output_path; c0 :: path] = Ok (files', message) →
  functions source = Ok fs → (name, a, e) ∈ fs →
  match_start USER_NAME name = Some user → int (group user 1) = Ok n → (0 ≤ n < 2 ^ 25)%Z →
  slice a e source = function_body operations parts result_ → clean (append_return result_) →
  (∀ i op, operations !! i = Some op → no_marks op (parts i) ∧ part_ok (parts i)) →
  operations !! i = Some op → acquires_or_drops op →
  ∃ category c table table_text text p q p' q' body k,
    operation_category operations (body_part operations parts).2 i op = Some category ∧
    files' !! output_path = Some text ∧ text = p ++ body ++ q ∧
    count_atomics (p' ++ tag_runtime_calls (function_bits n)
                           (tag_calls (parts i).1 (user_tag_text (user_tag n c))) ++ q')
      name tagged_counter = Ok (body, k) ∧
    (0 ≤ user_tag n c ≤ UINT_MAX)%Z ∧
    files' !! (c0 :: path) = Some table_text ∧
    foldM read_category [] (splitlines table_text) = Ok table ∧
    ∀ d kind direction count, field_ok kind → field_ok direction → (0 ≤ count)%Z →
      read_tagged table d (reported_line kind direction (user_tag n c) count) =
      Ok (dadd (kind, direction, n, category) count d).
Proof.
  intros Hs Hne H Hfs Hf Huser Hn Hbound Hbody Hreturn Hparts Hi Hop.
  destruct (main_tagged_files _ _ _ _ _ _ _ _ _ Hs H)
    as (fs' & bodies & ks & cs & limit & Hfs' & _ & -> & Hb & _ & Hok & Hns).
  rewrite Hfs in Hfs'. injection Hfs' as <-.
  destruct (with_bodies_parts _ _ _ _ _ 0 _ Hb Hf) as (p & body & k & q & Hp & Hbr).
  destruct Hbr as (cs1 & tagged & cs2 & Hok1 & Hns1 & Hpre & Htag & Hcount). cbn [fst snd] in *.
  destruct (rewrite_user_function _ _ _ _ _ _ _ Huser Hn Hns1 Hok1 Htag) as (rs & new & Hrs & -> & Hnew).
  rewrite Hbody, emitted_regions in Hrs by done.
  destruct (operation_region _ _ _ _ _ _ _ Hi Hop Hrs) as (category & Hcat & Hin).
  apply list_elem_of_lookup in Hin as [j Hj].
  destruct (Forall2_lookup_l _ _ _ _ _ Hnew Hj) as (o & Ho & (c & Hc & Hlook & ->)).
  destruct (concat_parts new _ (list_elem_of_lookup_2 _ _ _ Ho)) as (p' & q' & Hpq).
  rewrite Hpq in Hcount.
  exists category, c, (numbered cs), (categories_text cs). eexists. exists (tagged_prelude limit ++ p), q, p', q', body, k.
  destruct (user_tag_32 n c Hbound Hc) as [Ht1 Ht2].
  split_and!; [done| | |done|done|done|by rewrite lookup_insert_eq| |].
  - rewrite lookup_insert_ne by done. by rewrite lookup_insert_eq.
  - by rewrite Hp, <- !(assoc_L (++)).
  - apply read_categories. eapply Forall_impl; [exact Hns|]. apply no_space_field.
  - intros d kind direction count Hk Hd Hcn. apply read_reported; [|lia..|done|done|done].
    by eapply prefix_lookup_Some.
Qed.

(** A function that makes a record by a call, drops it and returns another value. *)
Definition call_then_drop : list ownership_operation :=
  [DefineValue (Definition_ 8 CallDefinition (OwnedResult 3)); DropOwner 3].
Definition call_then_drop_parts (i : nat) : part :=
  (match i with O => lit "v=blorp_f_4();" | _ => lit "blorp_record_drop_2(v);" end, []).
Definition program_sample : str :=
  lit "int64_t blorp_f_12(void){" ++ function_body call_then_drop call_then_drop_parts (lit "blorp_value_9")
  ++ lit "}".
Definition program_run : result (gmap str str * str) :=
  main [] {[lit "in.c" := program_sample]} [lit "--tagged"; lit "in.c"; lit "out.c"; lit "cat"].

Lemma operation_attributed_witness :
  ∃ files' message c table text,
    program_run = Ok (files', message) ∧ files' !! lit "cat" = Some text ∧
    foldM read_category [] (splitlines text) = Ok table ∧
    read_tagged table [] (reported_line (lit "record") (lit "dec") (user_tag 12 c) 7) =
    Ok [((lit "record", lit "dec", 12%Z, lit "drop:call_result"), 7%Z)].
Proof.
  assert (is_ok program_run = true) as Hok by (vm_compute; reflexivity).
  destruct program_run as [[files' message]|e] eqn:E; [|discriminate Hok].
  destruct (operation_attributed [] {[lit "in.c" := program_sample]} (lit "in.c") (lit "out.c") "c"%char
    (lit "at") program_sample files' message [(lit "blorp_f_12", 25, 130)] (lit "blorp_f_12") 25 130
    (Match 0 (lit "blorp_f_12") [(1, lit "12")]) 12 call_then_drop call_then_drop_parts
    (lit "blorp_value_9") 1 (DropOwner 3))
    as (category & c & table & table_text & text & p & q & p' & q' & body & k &
        Hcat & _ & _ & _ & _ & Hlook & Hread & Hrow).
  - reflexivity.
  - discriminate.
  - exact E.
  - vm_compute. reflexivity.
  - left.
  - vm_compute. reflexivity.
  - reflexivity.
  - lia.
  - vm_compute. reflexivity.
  - vm_compute. reflexivity.
  - intros i op Hi. apply lookup_lt_Some in Hi. split; [by destruct op|].
    split; [|constructor]. destruct i as [|i]; by apply tidy_bool.
  - reflexivity.
  - exact I.
  - exists files', message, c, table, table_text. split; [reflexivity|]. split; [exact Hlook|].
    split; [exact Hread|]. rewrite Hrow; [|apply no_space_field; reflexivity..|lia].
    vm_compute in Hcat. injection Hcat as <-. reflexivity.
Defined.
