(* ===== verification/TagTable.v ===== *)
(** The counter table of a tagged program: every expression with which the rewriting sets a tag
    keeps the tag inside the table that the prelude declares. *)
From S2P Require Import Prelude PyStr Rows PyDict Regex Report.
From S2P Require Import RcScan RcTags InstrumentRc RcReasons Attribution.

(** * What the written expressions do to the tag *)

(** A tag that indexes a row of [blorp_rc_counts]. *)
Definition in_table (limit t : Z) : Prop := (0 ≤ t < tag_count limit)%Z.

(** An expression that the rewriting writes behind [blorp_rc_tag=], and the tag it gives when
    the tag was [t]: the packed tag of a user function; the category of a runtime function, with
    the function bits kept; or the tag a helper was entered with. *)
Inductive tag_expression : str → (Z → Z) → Prop :=
| tag_constant t : tag_expression (user_tag_text t) (λ _, t)
| tag_category_of c : tag_expression (category_tag_text c) (λ t, set_category t c)
| tag_saved : tag_expression (lit "blorp_rc_saved") (λ t, t).

(** [tagged_in limit text o]: [o] is [text] with nothing changed but helper calls and runtime
    calls that were tagged and tags that were saved, where every expression written keeps the
    tag in the table. *)
Inductive tagged_in (limit : Z) : str → str → Prop :=
| tagged_same text : tagged_in limit text text
| tagged_helpers text o e f :
    tagged_in limit text o → tag_expression e f → (∀ t, in_table limit t → in_table limit (f t)) →
    tagged_in limit text (tag_calls o e)
| tagged_runtime text o bits :
    tagged_in limit text o → in_table limit bits → tagged_in limit text (tag_runtime_calls bits o)
| tagged_saved text o :
    tagged_in limit text o → tagged_in limit text (lit "const unsigned blorp_rc_saved=blorp_rc_tag;" ++ o)
| tagged_app text o text' o' :
    tagged_in limit text o → tagged_in limit text' o' → tagged_in limit (text ++ text') (o ++ o').

Lemma in_table_user limit n c : (0 ≤ n ≤ limit)%Z → c < max_categories → in_table limit (user_tag n c).
Proof. apply user_tag_bounds. Qed.

Lemma in_table_bits limit n : (0 ≤ n ≤ limit)%Z → in_table limit (function_bits n).
Proof.
  intros Hn. assert (function_bits n = user_tag n 0) as -> by (unfold user_tag; by rewrite Z.lor_0_r).
  apply in_table_user; [done|]. unfold max_categories. lia.
Qed.

(** Setting a category keeps the function bits, or drops those above 32. *)
Lemma set_category_shift t c :
  set_category t c = user_tag (Z.land (Z.shiftr t 7) (Z.ones 25)) c.
Proof.
  unfold set_category, user_tag, function_bits, CATEGORY_BITS. f_equal.
  change (Z.lxor UINT_MAX CATEGORY_MASK) with (Z.shiftl (Z.ones 25) 7).
  apply Z.bits_inj'. intros i Hi. rewrite Z.land_spec, !Z.shiftl_spec by done.
  destruct (Z.lt_ge_cases i 7) as [Hlt|Hge].
  - rewrite !(Z.testbit_neg_r _ (i - 7)) by lia. by rewrite andb_false_r.
  - rewrite Z.land_spec, Z.shiftr_spec by lia. by rewrite Z.sub_add.
Qed.

Lemma in_table_category limit t c :
  in_table limit t → c < max_categories → in_table limit (set_category t c).
Proof.
  intros [H0 Ht] Hc. rewrite set_category_shift. apply in_table_user; [|done].
  unfold tag_count, CATEGORY_BITS in Ht. rewrite Z.shiftl_mul_pow2 in Ht by lia.
  rewrite Z.land_ones, Z.shiftr_div_pow2 by lia.
  pose proof (Z.mod_pos_bound (t / 2 ^ 7) (2 ^ 25) ltac:(lia)).
  assert (t / 2 ^ 7 < limit + 1)%Z by (apply Z.div_lt_upper_bound; lia).
  pose proof (Z.mod_le (t / 2 ^ 7) (2 ^ 25) ltac:(apply Z.div_pos; lia) ltac:(lia)). lia.
Qed.

Lemma tagged_concat limit texts os :
  Forall2 (tagged_in limit) texts os → tagged_in limit (concat texts) (concat os).
Proof. induction 1; [apply tagged_same|]. by apply tagged_app. Qed.

(** * One body *)

(** The text that the rewriting of a body starts from: a user function loses its markers. *)
Definition unmarked_text (name body : str) : str :=
  match match_start USER_NAME name with Some _ => sub MARKER (λ _, []) body | None => body end.

Section body.

Context (limit : Z).

Lemma tagged_category text o c :
  tagged_in limit text o → c < max_categories → tagged_in limit text (tag_calls o (category_tag_text c)).
Proof.
  intros Ho Hc. eapply tagged_helpers; [done|constructor|]. intros t Ht. by apply in_table_category.
Qed.

Lemma region_tagged_in cs n r o :
  (0 ≤ n ≤ limit)%Z → region_rewritten cs n r o → tagged_in limit r.1 o.
Proof.
  intros Hn (c & Hc & _ & ->). apply tagged_runtime; [|by apply in_table_bits].
  eapply tagged_helpers; [constructor|constructor|]. intros t _. by apply in_table_user.
Qed.

Lemma rewrite_tagged_in name body cs tagged cs' :
  categories_ok cs → Forall no_space cs →
  (∀ user n, match_start USER_NAME name = Some user → int (group user 1) = Ok n → (0 ≤ n ≤ limit)%Z) →
  rewrite_tagged name body cs = Ok (tagged, cs') → tagged_in limit (unmarked_text name body) tagged.
Proof.
  intros Hok Hns Huser H. unfold unmarked_text. destruct (match_start USER_NAME name) as [user|] eqn:Eu.
  { pose proof H as H'. unfold rewrite_tagged in H'. rewrite Eu in H'.
    apply bind_Ok in H' as (n & Hn & _).
    destruct (rewrite_user_function _ _ _ _ _ _ _ Eu Hn Hns Hok H) as (rs & new & Hrs & -> & Hnew).
    rewrite <- (region_tags_strip _ _ _ Hrs). apply tagged_concat, Forall2_fmap_l.
    eapply Forall2_impl; [exact Hnew|]. intros r o. apply region_tagged_in. by eapply Huser. }
  unfold rewrite_tagged in H. rewrite Eu in H.
  destruct (match_start LIST_RUNTIME_NAME name) as [lr|].
  { apply bind_Ok in H as ([cs1 c] & Hnum & H). injection H as <- <-.
    apply number_ok in Hnum as (_ & _ & _ & Hc); [|done]. apply tagged_category; [constructor|done]. }
  destruct (match_start HELPER_NAME name) as [hn|].
  - destruct (search ATOMIC body) as [m|].
    + apply bind_Ok in H as (operation & _ & H).
      destruct (bool_decide _ || _); [injection H as <- <-; constructor|].
      apply bind_Ok in H as (parent & _ & H). apply bind_Ok in H as ([cs1 c] & Hnum & H).
      injection H as <- <-. apply number_ok in Hnum as (_ & _ & _ & Hc); [|done].
      rewrite <- (take_drop (m_start m) body) at 1.
      apply tagged_app; [constructor|]. apply tagged_category; [constructor|done].
    + destruct (search HELPER_CALL body); injection H as <- <-; [|constructor].
      apply tagged_saved. eapply tagged_helpers; [constructor|constructor|done].
  - destruct (search HELPER_CALL body); [|injection H as <- <-; constructor].
    apply bind_Ok in H as ([cs1 c] & Hnum & H). injection H as <- <-.
    apply number_ok in Hnum as (_ & _ & _ & Hc); [|done]. apply tagged_category; [constructor|done].
Qed.

End body.

(** * User functions and the limit *)

(** The name stands in the source as a word with its parenthesis directly behind it. *)
Definition written_with_parenthesis (source name : str) : Prop :=
  ∃ p q, source = p ++ name ++ lit "(" ++ q ∧ word_start p.

Lemma user_name_digits name user :
  match_start USER_NAME name = Some user → no_space name →
  ∃ ds, name = lit "blorp_f_" ++ ds ∧ ds ≠ [] ∧ forallb is_digit ds = true ∧ group user 1 = ds.
Proof.
  unfold match_start. intros (st & Hrun & ->)%fmap_Some Hname.
  apply run_Some in Hrun as (st' & Hden & [= ->]). unfold USER_NAME, Rd in Hden. den_inv.
  match goal with H : x ++ ?t = x1 ++ ?t |- _ => apply app_inv_tail in H as <- end.
  exists x. split_and!; [|done|done|by unfold group, group_opt].
  assert (x3 = []) as ->; [|by rewrite app_nil_r].
  destruct x3 as [|c [|? ?]]; [done| |done]. cbn in H1. apply Ascii.eqb_eq in H1 as ->.
  unfold no_space in Hname. rewrite !forallb_app in Hname. cbn in Hname.
  by rewrite !andb_false_r in Hname.
Qed.

Lemma user_number_bounded source limit name user n :
  function_limit source = Ok limit → no_space name → written_with_parenthesis source name →
  match_start USER_NAME name = Some user → int (group user 1) = Ok n → (0 ≤ n ≤ limit)%Z.
Proof.
  intros Hl Hname (p & q & Hs & Hp) Hu Hn.
  destruct (user_name_digits _ _ Hu Hname) as (ds & -> & Hne & Hds & Hg).
  destruct (function_limit_covers source) as (limit' & Hl' & Hc). rewrite Hl in Hl'. injection Hl' as <-.
  rewrite <- !(assoc_L (++)) in Hs.
  destruct (Hc p ds q) as (n' & Hn' & Hb); [|done..|].
  - rewrite Hs. unfold user_call_text. by rewrite <- !(assoc_L (++)).
  - rewrite Hg, Hn' in Hn. by injection Hn as <-.
Qed.

Lemma Forall3_weaken {A B C} (P Q : A → B → C → Prop) l1 l2 l3 :
  Forall3 P l1 l2 l3 → (∀ x y z, x ∈ l1 → P x y z → Q x y z) → Forall3 Q l1 l2 l3.
Proof.
  induction 1; intros HPQ; constructor; [by apply HPQ; [left|]|].
  apply IHForall3. intros. apply HPQ; [by right|done].
Qed.

(** * Properties *)

(** C9: Tags fit.  A tag of a function number below 2^25 and a category below 128 is a 32-bit
    unsigned number from which the C report reads both back, and the expression that sets
    another category keeps the function number.  The counter table has a row for every tag of
    the written program: when the tagged rewriting succeeds and each user function that the
    source defines is written somewhere in it with the parenthesis directly behind its name (as
    the emitter writes it; a name before a blank is not counted by [function_limit]), then each
    function body is the source's, without markers, with calls tagged by expressions all of
    which keep the tag below the number of rows, and then the atomic operations counted. *)
Theorem tags_fit source out cs :
  (∀ n c c', (0 ≤ n < 2 ^ 25)%Z → c < max_categories → c' < max_categories →
     (0 ≤ user_tag n c ≤ UINT_MAX)%Z ∧
     tag_function (user_tag n c) = n ∧ tag_category (user_tag n c) = Z.of_nat c ∧
     set_category (user_tag n c) c' = user_tag n c') ∧
  (rewrite source Tagged = Ok (out, cs) →
   (∀ fs name a e, functions source = Ok fs → (name, a, e) ∈ fs →
      is_Some (match_start USER_NAME name) → written_with_parenthesis source name) →
   ∃ fs bodies ks limit, functions source = Ok fs ∧ function_limit source = Ok limit ∧
     in_table limit 0 ∧ out = with_bodies source 0 fs bodies ∧
     Forall3 (λ f body k, ∃ tagged,
       tagged_in limit (unmarked_text f.1.1 (slice f.1.2 f.2 source)) tagged ∧
       count_atomics tagged f.1.1 tagged_counter = Ok (body, k)) fs bodies ks).
Proof.
  split; [intros n c c' Hn Hc Hc'; by apply tag_roundtrip|]. intros H Hwritten.
  destruct (rewrite_tagged_program _ _ _ H) as (fs & bodies & ks & Hfs & -> & Hb & _).
  destruct (function_limit_covers source) as (limit & Hl & _).
  pose proof (function_limit_nonneg _ _ Hl) as H0.
  exists fs, bodies, ks, limit. split_and!; [done|done|by apply (in_table_bits limit 0)|done|].
  eapply Forall3_weaken; [exact Hb|]. intros [[name a] e] body k Hf (cs1 & tagged & cs2 & Hok & Hns & _ & Ht & Hk).
  exists tagged. split; [|done]. eapply rewrite_tagged_in; [done..| |exact Ht].
  intros user n Hu. eapply user_number_bounded; [done| | |done]; [|by eapply Hwritten].
  pose proof (functions_no_space _ _ Hfs) as Hall. rewrite Forall_forall in Hall. by apply (Hall _ Hf).
Qed.

Lemma tags_fit_witness :
  tag_function (user_tag 1234 5) = 1234%Z ∧ set_category (user_tag 1234 5) 127 = user_tag 1234 127 ∧
  ∃ out cs limit tagged body k, rewrite tagged_sample Tagged = Ok (out, cs) ∧
    function_limit tagged_sample = Ok limit ∧ in_table limit (user_tag 12 127) ∧
    tagged_in limit (lit "x();blorp_record_drop_2 (v);") tagged ∧
    count_atomics tagged (lit "blorp_f_12") tagged_counter = Ok (body, k).
Proof.
  destruct (rewrite tagged_sample Tagged) as [[out cs]|e] eqn:E; [|vm_compute in E; discriminate E].
  destruct (tags_fit tagged_sample out cs) as [H Hprogram].
  destruct (H 1234%Z 5 127) as (_ & H1 & _ & H2);
    [lia|unfold max_categories; lia|unfold max_categories; lia|].
  split; [exact H1|]. split; [exact H2|].
  destruct (Hprogram E) as (fs & bodies & ks & limit & Hfs & Hl & _ & _ & Hb).
  { intros fs name a e Hfs Hin _.
    assert (functions tagged_sample = Ok [(lit "blorp_f_12", 23, 95)]) as Hf by (vm_compute; reflexivity).
    rewrite Hf in Hfs. injection Hfs as <-.
    apply list_elem_of_singleton in Hin. injection Hin as -> _ _.
    exists (take 6 tagged_sample), (drop 17 tagged_sample).
    split; [vm_compute; reflexivity|]. intros c Hc. vm_compute in Hc. injection Hc as <-. reflexivity. }
  vm_compute in Hfs. injection Hfs as <-. vm_compute in Hl. injection Hl as <-.
  inversion Hb as [|f body k fs' bodies' ks' (tagged & Ht & Hk) _]; subst.
  exists out, cs, 12%Z, tagged, body, k. split; [reflexivity|]. split; [reflexivity|].
  split; [unfold in_table; vm_compute; split; [discriminate|reflexivity]|]. split; [exact Ht|exact Hk].
Defined.

(** The condition is needed: [functions] takes a definition with a blank in front of the
    parenthesis, but [function_limit] does not count it, and a tag that the program sets lies
    behind the table. *)
Definition spaced_sample : str := lit "void blorp_f_9 (void){blorp_record_drop_2(v);}".

Lemma spaced_definition_outside :
  ∃ out cs, rewrite spaced_sample Tagged = Ok (out, cs) ∧ function_limit spaced_sample = Ok 0%Z ∧
    contains (lit "(blorp_rc_tag=" ++ user_tag_text (user_tag 9 1) ++ lit ",blorp_record_drop_2)(") out = true ∧
    ¬ in_table 0 (user_tag 9 1).
Proof.
  destruct (rewrite spaced_sample Tagged) as [[out cs]|e] eqn:E; [|vm_compute in E; discriminate E].
  exists out, cs. split; [done|]. split; [vm_compute; reflexivity|]. split.
  - vm_compute in E. injection E as <- _. vm_compute. reflexivity.
  - unfold in_table. vm_compute. by intros [_ ?].
Qed.
