(* ===== verification/AllocationChain.v ===== *)
(** From the recorded allocation stacks to the report: a run of scripts/allocation-sites and the
    stage [allocations] of report.py, which reads what the run printed. *)
From S2P Require Import Prelude PyStr PyFormat PyDict PyFloat Regex AllocationSites Report.
From S2P Require Import ReportCopies ReportAllocations.

(** * The names of frames *)

Lemma one_line_lstrip f s : one_line s → one_line (lstrip_by f s).
Proof.
  unfold one_line. induction s as [|c s IH]; [done|]. cbn [lstrip_by]. destruct (f c); [|done].
  cbn. intros [_ H]%andb_true_iff. by apply IH.
Qed.

Lemma one_line_rev s : one_line s → one_line (rev s).
Proof. unfold one_line. by rewrite forallb_rev. Qed.

Lemma one_line_strip s : one_line s → one_line (strip s).
Proof.
  intros H. unfold strip, rstrip_by. by apply one_line_rev, one_line_lstrip, one_line_rev, one_line_lstrip.
Qed.

Lemma one_line_partition sep s : one_line s → one_line (partition_on sep s).1.
Proof.
  intros H. unfold partition_on. destruct (split_first sep s) as [[a b]|] eqn:E; [|done].
  apply split_first_Some in E as ->. unfold one_line in *. rewrite forallb_app in H.
  by apply andb_true_iff in H as [H _].
Qed.

Lemma function_name_one_line lines name :
  Forall one_line lines → function_name lines = Ok name → one_line name.
Proof.
  intros Hl H. unfold function_name in H. destruct lines as [|first lines]; [done|].
  inversion_clear Hl as [|? ? Hf _]. cbn in H. injection H as <-.
  destruct (_ || _); [done|]. by apply one_line_partition, one_line_strip.
Qed.

(** A function that the compiler emitted. *)
Lemma compiled_function_text name f :
  compiled_function name = Some f → ∃ ds, f = lit "blorp_f_" ++ ds ∧ forallb is_digit ds = true.
Proof.
  unfold compiled_function. destruct (match_start COMPILED_FUNCTION name) as [m|] eqn:Em; [|done].
  cbn. intros [= <-]. unfold match_start in Em.
  destruct (run COMPILED_FUNCTION _ Some) as [st'|] eqn:Er; [|done]. cbn in Em. injection Em as <-.
  unfold COMPILED_FUNCTION in Er. rewrite !run_rseq_cons in Er.
  apply run_Some in Er as (m1 & [_ ->] & Er). rewrite run_rseq_cons in Er.
  apply run_Some in Er as (m2 & Hg & Er). rewrite run_rseq_cons in Er.
  apply run_Some in Er as (m3 & Ha & Er). cbn in Er. injection Er as ->.
  apply den_RGroup in Hg as (t & mid & Hmid & Ht & Hb & ->).
  assert (t = rev (before mid)) as Htext.
  { cbn in Hb. by rewrite Hb, app_nil_r, rev_involutive. }
  assert (∃ ds, rev (before mid) = lit "blorp_f_" ++ ds ∧ forallb is_digit ds = true ∧ caps mid = [])
    as (ds & Hds & Hdig & Hcaps).
  { destruct Hmid as (n1 & Hn1 & Hn2). apply den_rlit in Hn1 as (r & _ & ->).
    destruct Hn2 as (n2 & Hn2 & ->).
    apply den_plus_class in Hn2 as (ds & r' & _ & _ & Hd & ->). exists ds. cbn [before caps].
    by rewrite rev_app_distr, !rev_involutive, app_nil_r. }
  exists ds. split; [|done]. rewrite <- Hds, <- Htext.
  unfold group, group_opt, to_match. cbn [m_caps].
  assert (caps st' = [(1, t)]) as ->; [|done].
  destruct Ha as [Ha|[_ ->]]; [|by cbn; rewrite Hcaps].
  apply den_rlit in Ha as (r & _ & ->). cbn. by rewrite Hcaps.
Qed.

(** * The reference attribution *)

(** The compiled function that a stack of names belongs to, and the helper that it called. *)
Fixpoint attribution (callee : option str) (l : list str) : str * str :=
  match l with
  | [] => (NO_COMPILED_CALLER, DIRECT_ALLOCATION)
  | name :: l =>
      match compiled_function name with
      | Some f => (f, helper_of callee)
      | None => attribution (Some name) l
      end
  end.

Section answers.

(** What the tool answers for an address. *)
Context (answer : Z → list str).

Definition frame_name (f : Z) : str :=
  match function_name (answer f) with Ok name => name | Raise _ => [] end.

Definition stack_attribution (s : site) : str * str := attribution None (map frame_name (frames s)).

Definition names_answer (names : gmap Z str) (l : list Z) : Prop :=
  ∀ f, f ∈ l → ∃ n, names !! f = Some n ∧ function_name (answer f) = Ok n.

Lemma classify_attribution names callee l :
  names_answer names l → classify_from names callee l = Ok (attribution callee (map frame_name l)).
Proof.
  revert callee. induction l as [|f l IH]; intros callee H; [done|].
  cbn [classify_from map attribution]. destruct (H f ltac:(left)) as (n & Hn & Hf).
  assert (frame_name f = n) as -> by (unfold frame_name; by rewrite Hf).
  rewrite Hn. cbn [or_raise mbind result_bind]. unfold compiled_function.
  destruct (match_start COMPILED_FUNCTION n); cbn; [by destruct callee|].
  apply IH. intros g Hg. apply H. by right.
Qed.

End answers.

(** * Labels *)

(** A name that a comment of the generated C gives: one line that does not start with a blank,
    has no "<", and does not hold the title of the second table.  Blanks inside are fine: the
    emitter writes "module.function lambda" and "equality for Type". *)
Definition comment_ok (c : str) : Prop := site_label_ok c ∧ contains HELPER_TABLE c = false.

Lemma no_title s : contains HELPER_TABLE s = false → split_first HELPER_TABLE s = None.
Proof.
  intros H. destruct (split_first HELPER_TABLE s) as [[a b]|] eqn:E; [|done].
  apply split_first_Some in E. apply not_true_iff_false in H. destruct H.
  apply contains_iff. by exists a, b.
Qed.

(** Membership in a literal text, decided by evaluation. *)
Lemma not_in_text (c : ascii) (s : str) : bool_decide (c ∈ s) = false → c ∉ s.
Proof. apply bool_decide_eq_false. Qed.

Lemma no_B_no_title w : "B"%char ∉ w → contains HELPER_TABLE w = false.
Proof.
  intros Hw. apply not_true_iff_false. intros (p & q & ->)%contains_iff.
  apply Hw, elem_of_app. right. left.
Qed.

(** The title starts with "B" and holds no "(", so that it cannot begin in the comment and end
    behind it. *)
Lemma label_no_title c w :
  contains HELPER_TABLE c = false → "B"%char ∉ w → contains HELPER_TABLE (c ++ lit " (" ++ w) = false.
Proof.
  intros Hc Hw. apply not_true_iff_false. intros (p & q & Heq)%contains_iff.
  apply not_true_iff_false in Hc. apply app_eq_inv in Heq as [(k & -> & Hk)|(k & -> & Hk)].
  2: { assert ("B"%char ∈ lit " (" ++ w) as [Hin|Hin]%elem_of_app.
       { rewrite Hk. apply elem_of_app. right. left. }
       - by apply (not_in_text "B" (lit " (")) in Hin.
       - done. }
  apply eq_sym, app_eq_inv in Hk as [(k2 & -> & Hk2)|(k2 & Hk2 & Hk3)].
  { apply Hc, contains_iff. by exists p, k2. }
  destruct k2 as [|x [|y k2]]; [|change (lit " (" ++ w) with (" "%char :: "("%char :: w) in Hk3..].
  - rewrite app_nil_r in Hk2. subst k. apply Hc, contains_iff. exists p, []. by rewrite app_nil_r.
  - injection Hk3 as <- _. apply (f_equal (@rev ascii)) in Hk2. rewrite rev_app_distr in Hk2. discriminate Hk2.
  - injection Hk3 as <- <- _. apply (not_in_text "(" HELPER_TABLE); [done|].
    rewrite Hk2. apply elem_of_app. right. right. left.
Qed.

Definition site_name_ok (name : str) : Prop := site_label_ok name ∧ "B"%char ∉ name.

Lemma digits_no_angle ds : forallb is_digit ds = true → "<"%char ∉ ds.
Proof.
  rewrite forallb_forall. intros H Hin%list_elem_of_In%H. by vm_compute in Hin.
Qed.

Lemma site_label_fine comments name :
  (∀ k c, comments !! k = Some c → comment_ok c) → site_name_ok name →
  site_label_ok (site_label comments name) ∧ split_first HELPER_TABLE (site_label comments name) = None.
Proof.
  intros Hc [Hname HB]. unfold site_label. destruct (comments !! name) as [c|] eqn:E.
  2: { split; [done|]. by apply no_title, no_B_no_title. }
  destruct (Hc _ _ E) as [(Hne & [Hl Hhd] & Hno) Htitle]. destruct Hname as (Hne' & [Hl' _] & Hno').
  split; [split_and!|].
  - by destruct c.
  - split; [by repeat apply one_line_app|].
    intros d r. destruct c as [|e c]; [done|]. cbn. intros [= <- _]. by eapply Hhd.
  - rewrite !elem_of_app. intros [H|[H|[H|H]]]; [done|by apply not_in_text in H|done|by apply not_in_text in H].
  - apply no_title, label_no_title; [done|]. rewrite elem_of_app. intros [H|H]; [done|].
    by apply not_in_text in H.
Qed.

Lemma digits_no_B ds : forallb is_digit ds = true → "B"%char ∉ ds.
Proof.
  rewrite forallb_forall. intros H Hin%list_elem_of_In%H. by vm_compute in Hin.
Qed.

Lemma attribution_fine callee l :
  Forall one_line l → from_option one_line True callee →
  site_name_ok (attribution callee l).1 ∧ one_line (attribution callee l).2.
Proof.
  intros Hl. revert callee. induction Hl as [|name l Hn _ IH]; intros callee Hc; cbn [attribution].
  - split; [|done]. split; [|by apply not_in_text]. split; [done|].
    split; [split; [done|]|by apply not_in_text]. intros c r Hcr. vm_compute in Hcr. by injection Hcr as <- _.
  - destruct (compiled_function name) as [f|] eqn:Ef; [|by apply IH].
    apply compiled_function_text in Ef as (ds & -> & Hd). split.
    + pose proof (digits_no_space ds Hd) as Hns. split.
      * split; [done|]. split; [split|].
        -- apply one_line_app; [done|]. by apply no_space_one_line.
        -- intros c r Hcr. vm_compute in Hcr. by injection Hcr as <- _.
        -- cbn [fst]. rewrite elem_of_app. intros [H|H]; [by apply not_in_text in H|by apply digits_no_angle in H].
      * cbn [fst]. rewrite elem_of_app. intros [H|H]; [by apply not_in_text in H|by apply digits_no_B in H].
    + cbn [snd]. unfold helper_of. destruct callee as [callee|]; [|done].
      by destruct (startswith ALLOCATOR_PREFIX callee).
Qed.

(** * The tables of a run *)

Lemma dupd_key_in {K V} `{EqDecision K} (k key : K) (f : option V → V) d :
  k ∈ (dupd key f d).*1 → k = key ∨ k ∈ d.*1.
Proof.
  destruct (decide (key ∈ d.*1)) as [H|H]; [rewrite dupd_keys_in by done; by right|].
  rewrite dupd_keys_new, fmap_app, elem_of_app by done. cbn. set_solver.
Qed.

Lemma length_dupd {K V} `{EqDecision K} (key : K) (f : option V → V) d :
  length (dupd key f d) ≤ S (length d).
Proof.
  destruct (decide (key ∈ d.*1)) as [H|H].
  - rewrite <- (length_fmap fst (dupd key f d)), dupd_keys_in, length_fmap by done. lia.
  - rewrite dupd_keys_new, length_app by done. cbn. lia.
Qed.

(** A cell of a table whose cells are not negative is at most the sum. *)
Lemma dsum_member {K V} (w : V → Z) (d : list (K * V)) k v :
  Forall (λ p, 0 <= w p.2)%Z d → (k, v) ∈ d → (0 <= w v <= dsum w d)%Z.
Proof.
  intros H Hin. assert (∀ d : list (K * V), Forall (λ p, 0 <= w p.2)%Z d → 0 <= dsum w d)%Z as Hpos.
  { unfold dsum. induction 1 as [|p l Hp _ IH]; cbn; lia. }
  induction H as [|[k' v'] d Hv Hd IH]; [by apply elem_of_nil in Hin|].
  apply elem_of_cons in Hin as [[= -> ->]|Hin]; unfold dsum in *; cbn in *.
  - pose proof (Hpos d Hd). lia.
  - specialize (IH Hin). lia.
Qed.

Section collected.

Context (names : gmap Z str) (sites : list site) (t : totals) (Hc : collect names sites = Ok t).

(** Every key of the tables is the attribution of some stack, and there are no more rows than
    stacks. *)
Lemma collect_rows (Q : str * str → Prop) :
  (∀ s key, s ∈ sites → classify (frames s) names = Ok key → Q key) →
  (∀ key, key ∈ (by_helper t).*1 → Q key) ∧ (∀ name, name ∈ (by_site t).*1 → ∃ h, Q (name, h)) ∧
  length (by_helper t) ≤ length sites.
Proof.
  intros HQ. revert Hc. unfold collect.
  apply (foldM_prefix (add_totals names) (λ pre t,
    (∀ key, key ∈ (by_helper t).*1 → Q key) ∧ (∀ name, name ∈ (by_site t).*1 → ∃ h, Q (name, h)) ∧
    length (by_helper t) ≤ length pre)).
  - intros pre s suf t0 t1 Hl (H1 & H2 & H3) H. unfold add_totals in H.
    apply bind_Ok in H as ([name helper] & Hk & H). injection H as <-. cbn [by_site by_helper].
    apply HQ in Hk; [|rewrite Hl; set_solver]. split_and!.
    + by intros key [->|Hin]%dupd_key_in; [|apply H1].
    + intros name' [->|Hin]%dupd_key_in; [by exists helper|by apply H2].
    + rewrite length_app. cbn [length]. etransitivity; [apply length_dupd|]. lia.
  - cbn. split_and!; [by intros ? ?%elem_of_nil..|done].
Qed.

(** The part of the second table whose keys pass a test, by stacks. *)
Lemma helper_sums (P : str * str → bool) m :
  dsum_if P (cell_measure m) (by_helper t) =
  sum_sites m (λ s, match classify (frames s) names with Ok key => P key | Raise _ => false end) sites.
Proof.
  revert Hc. unfold collect. apply (foldM_prefix (add_totals names) (λ pre t,
    dsum_if P (cell_measure m) (by_helper t) = sum_sites m (λ s,
      match classify (frames s) names with Ok key => P key | Raise _ => false end) pre)); [|done].
  intros pre s suf t0 t1 _ IH H. unfold add_totals in H.
  apply bind_Ok in H as ([name helper] & Hk & H). injection H as <-. cbn [by_helper].
  by rewrite add_site_sum_if, sum_sites_snoc, IH, Hk.
Qed.

End collected.

Lemma sum_sites_ext m P Q sites :
  (∀ s, s ∈ sites → P s = Q s) → sum_sites m P sites = sum_sites m Q sites.
Proof.
  intros H. unfold sum_sites. induction sites as [|s sites IH]; [done|]. cbn [foldr].
  rewrite IH by (intros; apply H; by right). by rewrite (H s) by left.
Qed.

(** A tool that answers each address prints lines. *)
Lemma answers_one_line which run_command binary answer f :
  which (lit "atos") = true ∨ which (lit "addr2line") = true →
  tool_answers which run_command binary answer → Forall one_line (answer f).
Proof.
  intros Hw Ht. destruct (symbolizer_command_ok which binary [f] Hw) as (tool & command & per & Hcmd & _).
  destruct (Ht _ _ _ Hcmd) as (_ & run & _ & _ & Hout). cbn in Hout. rewrite app_nil_r in Hout.
  rewrite <- Hout. apply splitlines_one_line.
Qed.

(** * End to end *)

(** What the report groups by: the function without its number, the helper and its kind. *)
Definition pair_of (comments : gmap str str) (key : str * str) : pair_key :=
  (sub function_suffix (λ _, []) (site_label comments key.1), key.2, allocation_kind key.2).

Section chain.

Context (answer : Z → list str) (names : gmap Z str) (sites : list site) (t : totals)
  (comments : gmap str str).
Context (Hc : collect names sites = Ok t) (Hsites : Forall site_ok sites)
  (Hnames : ∀ s f, s ∈ sites → f ∈ frames s → ∃ n, names !! f = Some n ∧ function_name (answer f) = Ok n)
  (Hlines : ∀ f, Forall one_line (answer f))
  (Hcomments : ∀ k c, comments !! k = Some c → comment_ok c)
  (Hsmall : (sum_sites Allocations (λ _, true) sites < 2 ^ 53)%Z).

Lemma classify_stack s : s ∈ sites → classify (frames s) names = Ok (stack_attribution answer s).
Proof. intros Hs. apply classify_attribution. intros f Hf. by eapply Hnames. Qed.

Lemma sums_of_stacks (P : str * str → bool) m :
  dsum_if P (cell_measure m) (by_helper t) = sum_sites m (λ s, P (stack_attribution answer s)) sites.
Proof.
  rewrite (helper_sums names sites t Hc). apply sum_sites_ext. intros s Hs. by rewrite classify_stack.
Qed.

Lemma stack_fine s :
  s ∈ sites → site_name_ok (stack_attribution answer s).1 ∧ one_line (stack_attribution answer s).2.
Proof.
  intros Hs. apply attribution_fine; [|done]. apply Forall_fmap, Forall_forall. intros f Hf.
  cbn. unfold frame_name. destruct (Hnames s f Hs Hf) as (n & _ & Hn). rewrite Hn.
  by eapply function_name_one_line.
Qed.

(** Every cell is one that the report can read. *)
Lemma cell_fine {K} (d : list (K * cells)) k c :
  Forall (λ row, cells_ok row.2) d → dsum (cell_measure Allocations) d = (total t).1.1 →
  (k, c) ∈ d → cells_ok c ∧ share_ok c.1.1 (total t).1.1.
Proof.
  intros Hok Hsum Hin. rewrite Forall_forall in Hok. pose proof (Hok _ Hin) as H. split; [done|].
  destruct (collect_conserved _ _ _ Hc) as [_ _ Htot _ _ _ _].
  pose proof (Htot Allocations) as Ht. cbn [cell_measure] in Ht.
  pose proof (dsum_member (cell_measure Allocations) d k c) as Hm.
  rewrite Hsum in Hm. cbn [cell_measure] in Hm.
  destruct Hm as [H0 Hle]; [|done|].
  - apply Forall_forall. intros row Hrow. by destruct (Hok row Hrow).
  - apply share_ok_small; lia.
Qed.

Lemma read_printed limit :
  (Z.of_nat (length sites) <= limit)%Z →
  ∃ by_kind pairs,
    read_allocations (report_output comments t (length sites) limit) =
      Ok (sum_sites Allocations (λ _, true) sites, sum_sites Bytes (λ _, true) sites, (by_kind, pairs)) ∧
    (∀ m kind, default 0%Z (measured m <$> dget kind by_kind) =
       sum_sites (cell_of m) (λ s, bool_decide (allocation_kind (stack_attribution answer s).2 = kind)) sites) ∧
    (∀ m pair, default 0%Z (measured m <$> dget pair pairs) =
       sum_sites (cell_of m) (λ s, bool_decide (pair_of comments (stack_attribution answer s) = pair)) sites).
Proof.
  intros Hlimit. destruct (collect_cells_ok _ _ _ Hc Hsites) as (Htot & Hcs & Hch).
  destruct (collect_conserved _ _ _ Hc) as [_ _ Htotal Hs Hh _ _].
  destruct (collect_rows names sites t Hc (λ key, site_name_ok key.1 ∧ one_line key.2)) as (Hkeys & Hnm & Hlen).
  { intros s key Hin. rewrite classify_stack by done. intros [= <-]. by apply stack_fine. }
  eexists _, _. split; [rewrite read_report_output|].
  - by rewrite <- (Htotal Allocations), <- (Htotal Bytes).
  - done.
  - apply Forall_forall. intros [k c] Hin.
    destruct (cell_fine (by_site t) k c Hcs (Hs Allocations) Hin) as [H1 H2].
    destruct (Hnm k) as (h & Hk & _); [by apply (list_elem_of_fmap_2 fst) in Hin|].
    destruct (site_label_fine comments k Hcomments Hk). by split_and!.
  - apply Forall_forall. intros [k c] Hin.
    destruct (cell_fine (by_helper t) k c Hch (Hh Allocations) Hin) as [H1 H2].
    destruct (Hkeys k) as [Hk Hl]; [by apply (list_elem_of_fmap_2 fst) in Hin|].
    destruct (site_label_fine comments k.1 Hcomments Hk). by split_and!.
  - lia.
  - split; intros m key.
    + rewrite (printed_cell (λ k, allocation_kind k.2)).
      apply (sums_of_stacks (λ k, bool_decide (allocation_kind k.2 = key))).
    + rewrite (printed_cell (λ k, (sub function_suffix (λ _, []) k.1, k.2, allocation_kind k.2))).
      apply (sums_of_stacks (λ k, bool_decide (pair_of comments k = key))).
Qed.

End chain.

(** C2: End to end, from the recorded stacks to the report.  On the report of a run with fewer
    than 2^53 allocations, with a symbolizer that answers each address and a table limit of at
    least the number of stacks, scripts/allocation-sites succeeds, with or without the generated
    C, provided that every name it reads there from a comment is one line that does not start
    with a blank, has no "<" and does not hold the title of the second table (names with blanks
    inside, as "main.f lambda" and "equality for T", are among them); and the stage [allocations]
    of report.py, on a directory that holds what it printed, succeeds with the sums over all
    stacks, and its tables hold for each data kind, and for each function, helper and kind, the
    allocations and the bytes of exactly those stacks whose first compiled function and the
    helper it called (as the symbolizer names their frames) belong there. *)
Theorem allocations_end_to_end which run_command os_error answer files arguments sites comments :
  files !! report arguments = Some (report_text sites) → Forall site_ok sites →
  which (lit "atos") = true ∨ which (lit "addr2line") = true →
  tool_answers which run_command (binary arguments) answer →
  generated_comments files arguments comments → (∀ k c, comments !! k = Some c → comment_ok c) →
  (Z.of_nat (length sites) <= top arguments)%Z →
  (sum_sites Allocations (λ _, true) sites < 2 ^ 53)%Z →
  let sum m P := sum_sites (cell_of m) (λ s, P (stack_attribution answer s)) sites in
  ∃ text by_kind pairs,
    main which run_command os_error files arguments = Ok text ∧
    (∀ os_error files' directory limit,
       files' !! path_join directory (lit "allocations/sites.txt") = Some text →
       allocations os_error files' directory limit =
       Ok (allocation_section limit (sum Calls (λ _, true)) (sum Units (λ _, true)) (by_kind, pairs))) ∧
    (∀ m kind, default 0%Z (measured m <$> dget kind by_kind) =
       sum m (λ key, bool_decide (allocation_kind key.2 = kind))) ∧
    (∀ m pair, default 0%Z (measured m <$> dget pair pairs) =
       sum m (λ key, bool_decide (pair_of comments key = pair))).
Proof.
  intros Hf Hok Hw Ht Hg Hcomments Hlimit Hsmall sum.
  destruct (main_output which run_command os_error answer files arguments sites comments)
    as (names & t & Hmain & Hc & Hnames); [done..|].
  destruct (read_printed answer names sites t comments Hc Hok Hnames
    (λ f, answers_one_line _ _ _ _ f Hw Ht) Hcomments Hsmall (top arguments) Hlimit)
    as (by_kind & pairs & Hread & Hkind & Hpair).
  exists (report_output comments t (length sites) (top arguments)), by_kind, pairs.
  split; [done|]. split; [|done]. intros os_error' files' directory limit Hfile.
  unfold allocations, Report.read. rewrite Hfile. cbn [mbind result_bind or_raise].
  by rewrite Hread.
Qed.

(** A tool that knows three addresses. *)
Definition sample_name (address : str) : str :=
  if decide (address = hex (ATOS_LOAD_ADDRESS + 2)) then lit "blorp_f_7 (in b)"
  else if decide (address = hex (ATOS_LOAD_ADDRESS + 1)) then lit "blorp_list_append_3 (in b)"
  else lit "blorp_memory_allocate (in b)".
Definition sample_tool (command : list str) : option completed :=
  Some (Completed 0 (concat (map (λ l, l ++ [newline]) (map sample_name (drop 5 command)))) []).
Definition sample_answer (address : Z) : list str :=
  [sample_name (hex (ATOS_LOAD_ADDRESS + address - 1))].

Lemma sample_tool_answers : tool_answers (λ _, true) sample_tool (lit "b") sample_answer.
Proof.
  intros batch command per Hc. injection Hc as <- <-. split; [done|].
  eexists. split; [reflexivity|]. split; [reflexivity|]. cbn [stdout app drop].
  rewrite splitlines_terminated.
  - rewrite drop_0, map_map. induction batch as [|a batch IH]; [done|]. cbn. f_equal. exact IH.
  - rewrite drop_0. apply Forall_fmap, Forall_fmap, Forall_forall. intros a _. unfold compose, sample_name.
    destruct (decide _); [done|]. by destruct (decide _).
Qed.

(** Generated C with the two kinds of names that hold blanks. *)
Definition generated_sample : str :=
  lit "/* main.f lambda */ int64_t blorp_f_7(void){return blorp_f_8(1);}" ++ [newline] ++
  lit "/* equality for T */ int64_t blorp_f_8(int64_t blorp_value_1){return blorp_value_1;}" ++ [newline].
Definition sample_comments : gmap str str :=
  {[lit "blorp_f_7" := lit "main.f lambda"; lit "blorp_f_8" := lit "equality for T"]}.

Lemma sample_comments_ok k c : sample_comments !! k = Some c → comment_ok c.
Proof.
  assert (∀ c, c ≠ [] → one_line c → match c with x :: _ => is_space x = false | [] => True end →
    bool_decide ("<"%char ∈ c) = false → contains HELPER_TABLE c = false → comment_ok c) as Hok.
  { intros c' H1 H2 H3 H4 H5. split; [|done]. split_and!; [done| |by apply not_in_text].
    split; [done|]. intros x r ->. exact H3. }
  unfold sample_comments. rewrite lookup_insert_Some, lookup_singleton_Some.
  intros [[_ <-]|[_ [_ <-]]]; by apply Hok.
Qed.

Lemma allocations_end_to_end_witness :
  ∃ text by_kind pairs,
    main (λ _, true) sample_tool (λ p, p)
      {[lit "r" := report_text sites_sample; lit "self.c" := generated_sample]}
      (Options (lit "r") (lit "b") (Some (lit "self.c")) 1000000) = Ok text ∧
    is_ok (allocations (λ p, p) {[lit "d/allocations/sites.txt" := text]} (lit "d") 10) = true ∧
    default 0%Z (measured Units <$> dget (lit "List") by_kind) = 32%Z ∧
    default 0%Z (measured Calls <$> dget (lit "main.f lambda", lit "(direct)",
      lit "List (literal built inline)") pairs) = 1%Z.
Proof.
  destruct (allocations_end_to_end (λ _, true) sample_tool (λ p, p) sample_answer
    {[lit "r" := report_text sites_sample; lit "self.c" := generated_sample]}
    (Options (lit "r") (lit "b") (Some (lit "self.c")) 1000000) sites_sample sample_comments)
    as (text & by_kind & pairs & Hmain & Hstage & Hkind & Hpair).
  - reflexivity.
  - repeat constructor; cbn; lia.
  - left. reflexivity.
  - apply sample_tool_answers.
  - vm_compute. reflexivity.
  - exact sample_comments_ok.
  - cbn. lia.
  - vm_compute. reflexivity.
  - exists text, by_kind, pairs. split; [exact Hmain|]. split; [|split].
    + rewrite (Hstage (λ p, p) {[lit "d/allocations/sites.txt" := text]} (lit "d") 10%Z); [reflexivity|].
      apply lookup_insert_eq.
    + rewrite Hkind. vm_compute. reflexivity.
    + rewrite Hpair. vm_compute. reflexivity.
Defined.
